(** * Guest-physical memory virtualisation: the GPA page table of kern/mmu.c

    A shallow embedding of the node cache, the page-table walker, the range
    operations (flush, mkclean, mkold), the host-notifier entry points, the
    huge-page installer and the two-speed fault handler, followed by the
    properties established about them. *)

From Stdlib Require Import ZArith Lia Bool List.
From stdpp Require Import base list.
Import ListNotations.
Local Open Scope Z_scope.

(** ** Machine integers

    [unsigned long], [gfn_t], [gpa_t], [hva_t], [uintptr_t] and [size_t] are
    64-bit unsigned integers: a [Z] in [0, 2^64) with explicit wrap-around. *)

Definition wordsize : Z := 64.
Definition modulus : Z := 2 ^ wordsize.
Definition wrap (x : Z) : Z := x mod modulus.
Definition uadd (a b : Z) : Z := wrap (a + b).
Definition usub (a b : Z) : Z := wrap (a - b).
Definition umul (a b : Z) : Z := wrap (a * b).
Definition ushl (a n : Z) : Z := wrap (Z.shiftl a n).
Definition ushr (a n : Z) : Z := Z.shiftr a n.
Definition unot (a : Z) : Z := wrap (Z.lnot a).
(** [~0ul] *)
Definition ULONG_MAX : Z := modulus - 1.

Definition EFAULT : Z := 14.
Definition ENOMEM : Z := 12.

(** ** The node cache (lines 26-63) *)

Definition KVM_MMU_CACHE_MIN_PAGES : Z := 2.

Record kvm_mmu_memory_cache := mk_cache {
  nobjs : Z;
  objects : list Z
}.

(** The host page allocator is a free list of page addresses;
    [__get_free_page] hands out its head and returns NULL (0) when the list
    is empty. *)
Definition __get_free_page (host : list Z) : Z * list Z :=
  match host with
  | [] => (0, [])
  | p :: rest => (p, rest)
  end.

(** [while (cache->nobjs < max) { ... }] of [mmu_topup_memory_cache]: the
    loop runs at most [max - nobjs] times, which is the fuel its caller
    passes. *)
Fixpoint topup_loop (fuel : nat) (cache : kvm_mmu_memory_cache) (max : Z)
    (host : list Z) : Z * kvm_mmu_memory_cache * list Z :=
  match fuel with
  | O => (0, cache, host)
  | S fuel' =>
      if nobjs cache <? max then
        let '(page, host') := __get_free_page host in
        if page =? 0 then (- ENOMEM, cache, host')
        else
          topup_loop fuel'
            (mk_cache (nobjs cache + 1)
                      (<[Z.to_nat (nobjs cache) := page]> (objects cache)))
            max host'
      else (0, cache, host)
  end.

(** [mmu_topup_memory_cache]; [None] is the [BUG_ON(max > KVM_NR_MEM_OBJS)].
    [KVM_NR_MEM_OBJS], the capacity of [objects], comes from a header that is
    not part of the sources and is a parameter. *)
Definition mmu_topup_memory_cache (KVM_NR_MEM_OBJS : Z)
    (cache : kvm_mmu_memory_cache) (min max : Z) (host : list Z)
    : option (Z * kvm_mmu_memory_cache * list Z) :=
  if KVM_NR_MEM_OBJS <? max then None
  else if min <=? nobjs cache then Some (0, cache, host)
  else Some (topup_loop (Z.to_nat (max - nobjs cache)) cache max host).

(** [mmu_memory_cache_alloc]; [None] is the [BUG_ON(!mc || !mc->nobjs)]. A
    NULL cache is [None] at the callers. *)
Definition mmu_memory_cache_alloc (mc : kvm_mmu_memory_cache)
    : option (Z * kvm_mmu_memory_cache) :=
  if nobjs mc =? 0 then None
  else
    let n := nobjs mc - 1 in
    Some (nth (Z.to_nat n) (objects mc) 0, mk_cache n (objects mc)).

(** [mmu_free_memory_cache]: every pooled page goes back to the host. *)
Fixpoint free_cache_loop (fuel : nat) (mc : kvm_mmu_memory_cache)
    (host : list Z) : kvm_mmu_memory_cache * list Z :=
  match fuel with
  | O => (mc, host)
  | S fuel' =>
      if nobjs mc =? 0 then (mc, host)
      else
        let n := nobjs mc - 1 in
        free_cache_loop fuel' (mk_cache n (objects mc))
          (nth (Z.to_nat n) (objects mc) 0 :: host)
  end.

Definition mmu_free_memory_cache (mc : kvm_mmu_memory_cache) (host : list Z)
    : kvm_mmu_memory_cache * list Z :=
  free_cache_loop (Z.to_nat (nobjs mc)) mc host.

(** ** Host-virtual / guest-physical translation of the dune process
    (lines 459-511) *)

Definition get_pabit : Z := 1.

Definition ADDR_INVAL : Z := wrap (-1).

Record mm_struct := mk_mm {
  mmap_base : Z;
  start_stack : Z
}.

Section DuneLayout.
(** [GPA_STACK_SIZE], [GPA_MAP_SIZE] and [LG_ALIGN] are macros of a header
    that is not part of the sources; they are parameters here. *)
Variable GPA_STACK_SIZE : Z.
Variable GPA_MAP_SIZE : Z.
Variable LG_ALIGN : Z -> Z.

Definition dune_hva_to_gpa (mm : mm_struct) (hva : Z) : Z :=
  let phys_end := ushl 1 get_pabit in
  let mmap_start := usub (LG_ALIGN (mmap_base mm)) GPA_MAP_SIZE in
  let stack_start := usub (LG_ALIGN (start_stack mm)) GPA_STACK_SIZE in
  if stack_start <=? hva then
    if GPA_STACK_SIZE <=? usub hva stack_start then ADDR_INVAL
    else usub (uadd (usub hva stack_start) phys_end) GPA_STACK_SIZE
  else if mmap_start <=? hva then
    if GPA_MAP_SIZE <=? usub hva mmap_start then ADDR_INVAL
    else usub (usub (uadd (usub hva mmap_start) phys_end) GPA_STACK_SIZE)
              GPA_MAP_SIZE
  else
    if usub (usub phys_end GPA_STACK_SIZE) GPA_MAP_SIZE <=? hva
    then ADDR_INVAL
    else hva.

Definition dune_gpa_to_hva (mm : mm_struct) (gpa : Z) : Z :=
  let phys_end := ushl 1 get_pabit in
  if gpa <? usub (usub phys_end GPA_STACK_SIZE) GPA_MAP_SIZE then gpa
  else if gpa <? usub phys_end GPA_STACK_SIZE then
    usub (uadd (usub gpa (usub (usub phys_end GPA_STACK_SIZE) GPA_MAP_SIZE))
               (LG_ALIGN (mmap_base mm)))
         GPA_MAP_SIZE
  else if gpa <? phys_end then
    usub (uadd (usub gpa (usub phys_end GPA_STACK_SIZE))
               (LG_ALIGN (start_stack mm)))
         GPA_STACK_SIZE
  else ADDR_INVAL.
End DuneLayout.

(** The values the dune headers give these macros: a 1 GiB stack window, a
    map window filling the rest of 64 GiB, and alignment up to 1 GiB. *)
Definition dune_GPA_STACK_SIZE : Z := 2 ^ 30.
Definition dune_GPA_MAP_SIZE : Z := 2 ^ 36 - 2 ^ 30.
Definition dune_LG_ALIGN (addr : Z) : Z :=
  Z.land (uadd addr (2 ^ 30 - 1)) (unot (2 ^ 30 - 1)).

(** ** Page-table geometry and entry bits

    The page-table macros ([pgd_index], [__pmd_offset], [pte_present],
    [pmd_huge], [pte_mkclean], ...) and the constants behind them come from
    the kernel's page-table headers, which are not part of the sources. Their
    constants are the fields of a [layout]. *)

Record layout := mk_layout {
  PAGE_SHIFT : Z;
  (** log2 of [PTRS_PER_PTE], [PTRS_PER_PMD] and [PTRS_PER_PGD] *)
  PTE_BITS : Z;
  PMD_BITS : Z;
  PGD_BITS : Z;
  _PFN_SHIFT : Z;
  _PAGE_PRESENT : Z;
  _PAGE_WRITE : Z;
  _PAGE_ACCESSED : Z;
  _PAGE_MODIFIED : Z;
  _PAGE_HUGE : Z;
  _PAGE_NO_READ : Z;
  _PAGE_READ : Z;
  _PAGE_SILENT_READ : Z;
  _PAGE_SILENT_WRITE : Z;
  _page_cachable_default : Z;
  (** address of the shared invalid leaf table *)
  invalid_pte_table : Z;
  KVM_NR_MEM_OBJS : Z;
  EXCCODE_TLBRI : Z;
  EXCCODE_TLBXI : Z;
  CAUSEB_EXCCODE : Z
}.

Section PageTable.
Variable L : layout.

Definition PAGE_SIZE : Z := Z.shiftl 1 (PAGE_SHIFT L).
Definition PTRS_PER_PTE : Z := Z.shiftl 1 (PTE_BITS L).
Definition PTRS_PER_PMD : Z := Z.shiftl 1 (PMD_BITS L).
Definition PTRS_PER_PGD : Z := Z.shiftl 1 (PGD_BITS L).
(** Modelled from the spec: the upper level of the four-level tree is
    folded into the top level, as [kvm_pgd_init] shows by filling the page
    directory with pointers to the invalid middle-level table. The missing
    header then gives [PTRS_PER_PUD = 1], [pud_offset] the identity,
    [pgd_none] constantly false, [pgd_present] constantly true and
    [pgd_clear], [pud_free] without effect. *)
Definition PTRS_PER_PUD : Z := 1.
Definition PMD_SHIFT : Z := PAGE_SHIFT L + PTE_BITS L.
Definition PUD_SHIFT : Z := PMD_SHIFT + PMD_BITS L.
Definition PGDIR_SHIFT : Z := PUD_SHIFT.
Definition PMD_SIZE : Z := Z.shiftl 1 PMD_SHIFT.
Definition PMD_MASK : Z := unot (PMD_SIZE - 1).

Definition __pte_offset (addr : Z) : Z :=
  Z.land (Z.shiftr addr (PAGE_SHIFT L)) (PTRS_PER_PTE - 1).
Definition __pmd_offset (addr : Z) : Z :=
  Z.land (Z.shiftr addr PMD_SHIFT) (PTRS_PER_PMD - 1).
Definition __pud_offset (addr : Z) : Z :=
  Z.land (Z.shiftr addr PUD_SHIFT) (PTRS_PER_PUD - 1).
Definition pgd_index (addr : Z) : Z :=
  Z.land (Z.shiftr addr PGDIR_SHIFT) (PTRS_PER_PGD - 1).

(** *** Leaf entries: a [pte_t] is a 64-bit word *)

Definition flag (mask v : Z) : bool := negb (Z.land v mask =? 0).
Definition clear_bits (mask v : Z) : Z := Z.land v (unot mask).

Definition pte_present (pte : Z) : bool := flag (_PAGE_PRESENT L) pte.
Definition pte_write (pte : Z) : bool := flag (_PAGE_WRITE L) pte.
Definition pte_dirty (pte : Z) : bool := flag (_PAGE_MODIFIED L) pte.
Definition pte_young (pte : Z) : bool := flag (_PAGE_ACCESSED L) pte.
Definition pte_pfn (pte : Z) : Z := ushr pte (_PFN_SHIFT L).
Definition pfn_pte (pfn prot : Z) : Z :=
  Z.lor (ushl pfn (_PFN_SHIFT L)) prot.

Definition pte_mkclean (pte : Z) : Z :=
  clear_bits (Z.lor (_PAGE_MODIFIED L) (_PAGE_SILENT_WRITE L)) pte.
Definition pte_mkold (pte : Z) : Z :=
  clear_bits (Z.lor (_PAGE_ACCESSED L) (_PAGE_SILENT_READ L)) pte.
Definition pte_mkdirty (pte : Z) : Z :=
  let pte := Z.lor pte (_PAGE_MODIFIED L) in
  if flag (_PAGE_WRITE L) pte then Z.lor pte (_PAGE_SILENT_WRITE L)
  else pte.
Definition pte_mkyoung (pte : Z) : Z :=
  let pte := Z.lor pte (_PAGE_ACCESSED L) in
  if negb (flag (_PAGE_NO_READ L) pte)
  then Z.lor pte (_PAGE_SILENT_READ L)
  else pte.

Definition __READABLE : Z :=
  Z.lor (Z.lor (_PAGE_SILENT_READ L) (_PAGE_READ L)) (_PAGE_ACCESSED L).
Definition __WRITEABLE : Z :=
  Z.lor (Z.lor (_PAGE_SILENT_WRITE L) (_PAGE_WRITE L)) (_PAGE_MODIFIED L).

(** *** Middle-level values: the word of a [pmd_t] that is not a pointer
    to a leaf table *)

Definition pmdv_huge (v : Z) : bool := flag (_PAGE_HUGE L) v.
Definition pmdv_none (v : Z) : bool := v =? invalid_pte_table L.
Definition pmdv_present (v : Z) : bool :=
  if pmdv_huge v then flag (_PAGE_PRESENT L) v
  else negb (v =? invalid_pte_table L).
Definition pmd_mkclean (v : Z) : Z :=
  clear_bits (Z.lor (_PAGE_MODIFIED L) (_PAGE_SILENT_WRITE L)) v.
Definition pmd_mkold (v : Z) : Z :=
  clear_bits (Z.lor (_PAGE_ACCESSED L) (_PAGE_SILENT_READ L)) v.
Definition pmd_mkhuge (v : Z) : Z := Z.lor v (_PAGE_HUGE L).
Definition pmd_pfn (v : Z) : Z := ushr v (_PFN_SHIFT L).
Definition pfn_pmd (pfn prot : Z) : Z :=
  Z.lor (ushl pfn (_PFN_SHIFT L)) prot.

(** *** The tree

    A middle-level slot holds either a word that is not a pointer to a
    live leaf table (the address of the invalid leaf table, a huge
    mapping, or whatever [set_pte] stored through a reinterpreted
    pointer) or the leaf table it owns. A top-level slot, which is also
    the upper-level slot, either points at the invalid middle-level table
    or owns a middle-level table. A table pointer is page aligned: it
    carries no flag bit and differs from the invalid tables. *)

Inductive pmd_t :=
| Pmd_val (v : Z)
| Pmd_table (pte : list Z).

Inductive pud_t :=
| Pud_none
| Pud_table (pmd : list pmd_t).

Definition pmd_none (e : pmd_t) : bool :=
  match e with Pmd_val v => pmdv_none v | Pmd_table _ => false end.
Definition pmd_huge (e : pmd_t) : bool :=
  match e with Pmd_val v => pmdv_huge v | Pmd_table _ => false end.
Definition pmd_present (e : pmd_t) : bool :=
  match e with Pmd_val v => pmdv_present v | Pmd_table _ => true end.
(** [pmd_clear] *)
Definition pmd_cleared : pmd_t := Pmd_val (invalid_pte_table L).

Definition pud_none (e : pud_t) : bool :=
  match e with Pud_none => true | Pud_table _ => false end.
Definition pud_present (e : pud_t) : bool := negb (pud_none e).
Definition pud_huge (e : pud_t) : bool := false.
Definition pgd_none (e : pud_t) : bool := false.
Definition pgd_present (e : pud_t) : bool := true.

(** [pte_offset(pmd, 0)]: the leaf table behind a middle-level slot.
    Following a word that is not a table pointer is undefined. *)
Definition pte_table_of (e : pmd_t) : option (list Z) :=
  match e with Pmd_table t => Some t | Pmd_val _ => None end.
(** [pmd_offset(pud, 0)]; only called on a present slot. *)
Definition pmd_table_of (e : pud_t) : option (list pmd_t) :=
  match e with Pud_table t => Some t | Pud_none => None end.

(** [pmd_init(page, invalid_pte_table)] and [clear_page(page)] *)
Definition pmd_init : list pmd_t :=
  replicate (Z.to_nat PTRS_PER_PMD) (Pmd_val (invalid_pte_table L)).
Definition clear_page : list Z := replicate (Z.to_nat PTRS_PER_PTE) 0.

(** [kvm_pgd_init] on a fresh page directory *)
Definition kvm_pgd_init : list pud_t :=
  replicate (Z.to_nat PTRS_PER_PGD) Pud_none.

(** A [pte_t *] into the tree: the leaf slot [ti] of the table under
    top-level slot [gi] and middle-level slot [mi], or the middle-level
    slot itself reinterpreted as a leaf pointer. *)
Inductive pte_ptr :=
| At_pte (gi mi ti : Z)
| At_pmd (gi mi : Z).

Definition idx (i : Z) : nat := Z.to_nat i.

(** [*ptep] *)
Definition load (pgd : list pud_t) (p : pte_ptr) : option Z :=
  match p with
  | At_pte gi mi ti =>
      pud ← pgd !! idx gi; pmds ← pmd_table_of pud;
      pmd ← pmds !! idx mi; ptes ← pte_table_of pmd;
      ptes !! idx ti
  | At_pmd gi mi =>
      pud ← pgd !! idx gi; pmds ← pmd_table_of pud;
      pmd ← pmds !! idx mi;
      match pmd with Pmd_val v => Some v | Pmd_table _ => None end
  end.

(** [set_pte(ptep, v)], as the store to the slot [ptep]. The kernel's
    [set_pte] also marks the neighbouring slot global when that slot is
    empty and [v] carries the global bit; the layout does not name that
    bit and this second write is not modelled. *)
Definition store (pgd : list pud_t) (p : pte_ptr) (v : Z)
    : option (list pud_t) :=
  match p with
  | At_pte gi mi ti =>
      pud ← pgd !! idx gi; pmds ← pmd_table_of pud;
      pmd ← pmds !! idx mi; ptes ← pte_table_of pmd;
      _ ← ptes !! idx ti;
      Some (<[idx gi := Pud_table
               (<[idx mi := Pmd_table (<[idx ti := v]> ptes)]> pmds)]> pgd)
  | At_pmd gi mi =>
      pud ← pgd !! idx gi; pmds ← pmd_table_of pud;
      _ ← pmds !! idx mi;
      Some (<[idx gi := Pud_table (<[idx mi := Pmd_val v]> pmds)]> pgd)
  end.

(** ** The walker (lines 119-179)

    The result is [None] when the walk hits [BUG()] or follows a word that
    is not a table pointer; otherwise the returned pointer ([None] for
    NULL), the page directory and the cache ([None] for a NULL cache). *)
Definition kvm_mips_walk_pgd (pgd : list pud_t)
    (cache : option kvm_mmu_memory_cache) (addr : Z)
    : option (option pte_ptr * list pud_t * option kvm_mmu_memory_cache) :=
  let gi := pgd_index addr in
  pud ← pgd !! idx gi;
  if pgd_none pud then None
  else
    let mi := __pmd_offset addr in
    let ti := __pte_offset addr in
    (* second half of the walk, below a present upper-level slot *)
    let below (pmds : list pmd_t) (pgd : list pud_t)
              (cache : option kvm_mmu_memory_cache) :=
      pmd ← pmds !! idx mi;
      if pmd_huge pmd then Some (Some (At_pmd gi mi), pgd, cache)
      else if pmd_none pmd then
        match cache with
        | None => Some (None, pgd, cache)
        | Some mc =>
            '(_, mc') ← mmu_memory_cache_alloc mc;
            let new_pte := clear_page in
            Some (Some (At_pte gi mi ti),
                  <[idx gi := Pud_table
                      (<[idx mi := Pmd_table new_pte]> pmds)]> pgd,
                  Some mc')
        end
      else
        _ ← pte_table_of pmd;
        Some (Some (At_pte gi mi ti), pgd, cache)
    in
    if pud_none pud then
      match cache with
      | None => Some (None, pgd, cache)
      | Some mc =>
          '(_, mc') ← mmu_memory_cache_alloc mc;
          let new_pmd := pmd_init in
          below new_pmd (<[idx gi := Pud_table new_pmd]> pgd) (Some mc')
      end
    else
      pmds ← pmd_table_of pud;
      below pmds pgd cache.

(** ** Range loops

    [for (i = i_min; i <= i_max; ++i, start = 0) body]: the body sees the
    current [start]; a [continue] still runs the increment. *)
Fixpoint for_range {S : Type} (fuel : nat) (i start : Z)
    (body : Z -> Z -> S -> option S) (s : S) : option S :=
  match fuel with
  | O => Some s
  | S fuel' => s' ← body i start s; for_range fuel' (i + 1) 0 body s'
  end.

Definition trip_count (i_min i_max : Z) : nat :=
  Z.to_nat (i_max - i_min + 1).

(** ** Flushing a range (lines 181-309) *)

Definition flush_pte_body (i _start : Z) (pte : list Z)
    : option (list Z) :=
  e ← pte !! idx i;
  if negb (pte_present e) then Some pte
  else Some (<[idx i := 0]> pte).

Definition kvm_mips_flush_gpa_pte (pte : list Z) (start_gpa end_gpa : Z)
    : option (bool * list Z) :=
  let i_min := __pte_offset start_gpa in
  let i_max := __pte_offset end_gpa in
  let safe_to_remove := (i_min =? 0) && (i_max =? PTRS_PER_PTE - 1) in
  pte' ← for_range (trip_count i_min i_max) i_min start_gpa
                   flush_pte_body pte;
  Some (safe_to_remove, pte').

(** The state of the loops above the leaf level: the table, the local
    [end] and [safe_to_remove]. *)
Definition flush_pmd_body (i_max end_gpa : Z) (i start_gpa : Z)
    (st : list pmd_t * Z * bool) : option (list pmd_t * Z * bool) :=
  let '(pmd, end_, safe_to_remove) := st in
  e ← pmd !! idx i;
  if negb (pmd_present e) then Some st
  else if pmd_huge e then
    Some (<[idx i := pmd_cleared]> pmd, end_, safe_to_remove)
  else
    pte ← pte_table_of e;
    let end_ := if i =? i_max then end_gpa else end_ in
    '(removable, pte') ← kvm_mips_flush_gpa_pte pte start_gpa end_;
    if (removable : bool) then
      Some (<[idx i := pmd_cleared]> pmd, end_, safe_to_remove)
    else
      Some (<[idx i := Pmd_table pte']> pmd, end_, false).

Definition kvm_mips_flush_gpa_pmd (pmd : list pmd_t)
    (start_gpa end_gpa : Z) : option (bool * list pmd_t) :=
  let end_ := ULONG_MAX in
  let i_min := __pmd_offset start_gpa in
  let i_max := __pmd_offset end_gpa in
  let safe_to_remove := (i_min =? 0) && (i_max =? PTRS_PER_PMD - 1) in
  '(pmd', end', safe_to_remove) ←
    for_range (trip_count i_min i_max) i_min start_gpa
              (flush_pmd_body i_max end_gpa) (pmd, end_, safe_to_remove);
  Some (safe_to_remove, pmd').

(** [pud] is the array the upper-level pointer addresses; with the upper
    level folded its only slot is the top-level slot itself. *)
Definition flush_pud_body (i_max end_gpa : Z) (i start_gpa : Z)
    (st : list pud_t * Z * bool) : option (list pud_t * Z * bool) :=
  let '(pud, end_, safe_to_remove) := st in
  e ← pud !! idx i;
  if negb (pud_present e) then Some st
  else
    pmd ← pmd_table_of e;
    let end_ := if i =? i_max then end_gpa else end_ in
    '(removable, pmd') ← kvm_mips_flush_gpa_pmd pmd start_gpa end_;
    if (removable : bool) then
      Some (<[idx i := Pud_none]> pud, end_, safe_to_remove)
    else
      Some (<[idx i := Pud_table pmd']> pud, end_, false).

Definition kvm_mips_flush_gpa_pud (pud : list pud_t)
    (start_gpa end_gpa : Z) : option (bool * list pud_t) :=
  let end_ := ULONG_MAX in
  let i_min := __pud_offset start_gpa in
  let i_max := __pud_offset end_gpa in
  let safe_to_remove := (i_min =? 0) && (i_max =? PTRS_PER_PUD - 1) in
  '(pud', end', safe_to_remove) ←
    for_range (trip_count i_min i_max) i_min start_gpa
              (flush_pud_body i_max end_gpa) (pud, end_, safe_to_remove);
  Some (safe_to_remove, pud').

(** [pud_offset(pgd + i, 0)] is [pgd + i] itself; [pgd_clear] and
    [pud_free] do nothing. *)
Definition flush_pgd_body (i_max end_gpa : Z) (i start_gpa : Z)
    (st : list pud_t * Z * bool) : option (list pud_t * Z * bool) :=
  let '(pgd, end_, safe_to_remove) := st in
  e ← pgd !! idx i;
  if negb (pgd_present e) then Some st
  else
    let pud := [e] in
    let end_ := if i =? i_max then end_gpa else end_ in
    '(removable, pud') ← kvm_mips_flush_gpa_pud pud start_gpa end_;
    e' ← pud' !! 0%nat;
    if (removable : bool) then Some (<[idx i := e']> pgd, end_, safe_to_remove)
    else Some (<[idx i := e']> pgd, end_, false).

Definition kvm_mips_flush_gpa_pgd (pgd : list pud_t)
    (start_gpa end_gpa : Z) : option (bool * list pud_t) :=
  let end_ := ULONG_MAX in
  let i_min := pgd_index start_gpa in
  let i_max := pgd_index end_gpa in
  let safe_to_remove := (i_min =? 0) && (i_max =? PTRS_PER_PGD - 1) in
  '(pgd', end', safe_to_remove) ←
    for_range (trip_count i_min i_max) i_min start_gpa
              (flush_pgd_body i_max end_gpa) (pgd, end_, safe_to_remove);
  Some (safe_to_remove, pgd').

(** ** Range operations built by [BUILD_PTE_RANGE_OP] (lines 311-413) *)

Section BuildPteRangeOp.
Variable op : Z -> Z.
Variable op1 : Z -> Z.

(** The body of the leaf loop, with [set_pte(pte + i, new)] as the
    store to slot [i], as in [store]. *)
Definition range_pte_body (i _start : Z) (st : list Z * Z)
    : option (list Z * Z) :=
  let '(pte, ret) := st in
  old ← pte !! idx i;
  if negb (pte_present old) then Some st
  else
    let new := op old in
    if new =? old then Some st
    else Some (<[idx i := new]> pte, 1).

Definition kvm_mips_range_pte (pte : list Z) (start end_ : Z)
    : option (Z * list Z) :=
  let ret := 0 in
  let i_min := __pte_offset start in
  let i_max := __pte_offset end_ in
  '(pte', ret) ← for_range (trip_count i_min i_max) i_min start
                            range_pte_body (pte, ret);
  Some (ret, pte').

Definition range_pmd_body (i_max end_ : Z) (i start : Z)
    (st : list pmd_t * Z * Z) : option (list pmd_t * Z * Z) :=
  let '(pmd, cur_end, ret) := st in
  e ← pmd !! idx i;
  if negb (pmd_present e) then Some st
  else if pmd_huge e then
    match e with
    | Pmd_val old =>
        let new := op1 old in
        if new =? old then Some st
        else Some (<[idx i := Pmd_val new]> pmd, cur_end, ret)
    | Pmd_table _ => None
    end
  else
    pte ← pte_table_of e;
    let cur_end := if i =? i_max then end_ else cur_end in
    '(r, pte') ← kvm_mips_range_pte pte start cur_end;
    Some (<[idx i := Pmd_table pte']> pmd, cur_end, Z.lor ret r).

Definition kvm_mips_range_pmd (pmd : list pmd_t) (start end_ : Z)
    : option (Z * list pmd_t) :=
  let ret := 0 in
  let cur_end := ULONG_MAX in
  let i_min := __pmd_offset start in
  let i_max := __pmd_offset end_ in
  '(pmd', end', ret) ← for_range (trip_count i_min i_max) i_min start
                               (range_pmd_body i_max end_)
                               (pmd, cur_end, ret);
  Some (ret, pmd').

Definition range_pud_body (i_max end_ : Z) (i start : Z)
    (st : list pud_t * Z * Z) : option (list pud_t * Z * Z) :=
  let '(pud, cur_end, ret) := st in
  e ← pud !! idx i;
  if negb (pud_present e) then Some st
  else
    pmd ← pmd_table_of e;
    let cur_end := if i =? i_max then end_ else cur_end in
    '(r, pmd') ← kvm_mips_range_pmd pmd start cur_end;
    Some (<[idx i := Pud_table pmd']> pud, cur_end, Z.lor ret r).

Definition kvm_mips_range_pud (pud : list pud_t) (start end_ : Z)
    : option (Z * list pud_t) :=
  let ret := 0 in
  let cur_end := ULONG_MAX in
  let i_min := __pud_offset start in
  let i_max := __pud_offset end_ in
  '(pud', end', ret) ← for_range (trip_count i_min i_max) i_min start
                               (range_pud_body i_max end_)
                               (pud, cur_end, ret);
  Some (ret, pud').

Definition range_pgd_body (i_max end_ : Z) (i start : Z)
    (st : list pud_t * Z * Z) : option (list pud_t * Z * Z) :=
  let '(pgd, cur_end, ret) := st in
  e ← pgd !! idx i;
  if negb (pgd_present e) then Some st
  else
    let pud := [e] in
    let cur_end := if i =? i_max then end_ else cur_end in
    '(r, pud') ← kvm_mips_range_pud pud start cur_end;
    e' ← pud' !! 0%nat;
    Some (<[idx i := e']> pgd, cur_end, Z.lor ret r).

Definition kvm_mips_range_pgd (pgd : list pud_t) (start end_ : Z)
    : option (Z * list pud_t) :=
  let ret := 0 in
  let cur_end := ULONG_MAX in
  let i_min := pgd_index start in
  let i_max := pgd_index end_ in
  '(pgd', end', ret) ← for_range (trip_count i_min i_max) i_min start
                               (range_pgd_body i_max end_)
                               (pgd, cur_end, ret);
  Some (ret, pgd').
End BuildPteRangeOp.

(** [BUILD_PTE_RANGE_OP(mkclean, pte_mkclean, pmd_mkclean)] and
    [BUILD_PTE_RANGE_OP(mkold, pte_mkold, pmd_mkold)] *)
Definition kvm_mips_mkclean_pte := kvm_mips_range_pte pte_mkclean.
Definition kvm_mips_mkclean_pmd := kvm_mips_range_pmd pte_mkclean pmd_mkclean.
Definition kvm_mips_mkclean_pud := kvm_mips_range_pud pte_mkclean pmd_mkclean.
Definition kvm_mips_mkclean_pgd := kvm_mips_range_pgd pte_mkclean pmd_mkclean.
Definition kvm_mips_mkold_pte := kvm_mips_range_pte pte_mkold.
Definition kvm_mips_mkold_pmd := kvm_mips_range_pmd pte_mkold pmd_mkold.
Definition kvm_mips_mkold_pud := kvm_mips_range_pud pte_mkold pmd_mkold.
Definition kvm_mips_mkold_pgd := kvm_mips_range_pgd pte_mkold pmd_mkold.

(** ** The virtual machine *)

(** A memory slot of the KVM core. [slot_readonly] and [slot_invalid] are
    the [KVM_MEM_READONLY] and [KVM_MEMSLOT_INVALID] bits of its flags. *)
Record kvm_memory_slot := mk_slot {
  base_gfn : Z;
  npages : Z;
  userspace_addr : Z;
  slot_readonly : bool;
  slot_invalid : bool
}.

Record vz_vm := mk_vm {
  gpa_mm_pgd : list pud_t;
  memslots : list kvm_memory_slot;
  mmu_notifier_seq : Z
}.

Definition set_pgd (kvm : vz_vm) (pgd : list pud_t) : vz_vm :=
  mk_vm pgd (memslots kvm) (mmu_notifier_seq kvm).

Record vz_vcpu := mk_vcpu {
  vcpu_kvm : vz_vm;
  mmu_page_cache : kvm_mmu_memory_cache;
  host_cp0_cause : Z
}.

(** Calls that leave the page table: dirty logging, host page flags,
    reference counts, hardware invalidation and warnings. *)
Inductive event :=
| mark_page_dirty (gfn : Z)
| kvm_set_pfn_dirty (pfn : Z)
| kvm_set_pfn_accessed (pfn : Z)
| kvm_release_pfn_clean (pfn : Z)
| kvm_get_pfn (pfn : Z)
| kvm_vz_host_tlb_inv (addr : Z)
| kvm_vz_flush_shadow_all
| WARN_ON_ONCE
| dune_err (hva : Z)
(** stores of [kvm_mips_set_pmd_huge], logged in program order *)
| flushed_gpa_pt (start_gfn end_gfn : Z)
| pmd_cleared_at (addr : Z)
| pmd_set_at (addr v : Z).

Definition kvm_mips_pte_for_gpa (kvm : vz_vm)
    (cache : option kvm_mmu_memory_cache) (addr : Z)
    : option (option pte_ptr * vz_vm * option kvm_mmu_memory_cache) :=
  '(ptep, pgd, cache') ← kvm_mips_walk_pgd (gpa_mm_pgd kvm) cache addr;
  Some (ptep, set_pgd kvm pgd, cache').

Definition kvm_mips_flush_gpa_pt (kvm : vz_vm) (start_gfn end_gfn : Z)
    : option (bool * vz_vm) :=
  '(r, pgd) ← kvm_mips_flush_gpa_pgd (gpa_mm_pgd kvm)
                (ushl start_gfn (PAGE_SHIFT L))
                (ushl end_gfn (PAGE_SHIFT L));
  Some (r, set_pgd kvm pgd).

Definition kvm_mips_mkclean_gpa_pt (kvm : vz_vm) (start_gfn end_gfn : Z)
    : option (Z * vz_vm) :=
  '(r, pgd) ← kvm_mips_mkclean_pgd (gpa_mm_pgd kvm)
                (ushl start_gfn (PAGE_SHIFT L))
                (ushl end_gfn (PAGE_SHIFT L));
  Some (r, set_pgd kvm pgd).

Definition kvm_mips_mkold_gpa_pt (kvm : vz_vm) (start_gfn end_gfn : Z)
    : option (Z * vz_vm) :=
  '(r, pgd) ← kvm_mips_mkold_pgd (gpa_mm_pgd kvm)
                (ushl start_gfn (PAGE_SHIFT L))
                (ushl end_gfn (PAGE_SHIFT L));
  Some (r, set_pgd kvm pgd).

(** ** Host-notifier entry points (lines 513-633) *)

(** [hva_to_gfn_memslot] of the KVM core *)
Definition hva_to_gfn_memslot (hva : Z) (slot : kvm_memory_slot) : Z :=
  uadd (base_gfn slot)
       (ushr (usub hva (userspace_addr slot)) (PAGE_SHIFT L)).

Definition hva_handler : Type :=
  vz_vm -> Z -> Z -> kvm_memory_slot -> option (Z * vz_vm).

(** [kvm_for_each_memslot (memslot, slots) { ... }] *)
Fixpoint for_each_memslot (slots : list kvm_memory_slot) (kvm : vz_vm)
    (start end_ : Z) (handler : hva_handler) (ret : Z)
    : option (Z * vz_vm) :=
  match slots with
  | [] => Some (ret, kvm)
  | memslot :: slots' =>
      let hva_start := Z.max start (userspace_addr memslot) in
      let hva_end :=
        Z.min end_ (uadd (userspace_addr memslot)
                         (ushl (npages memslot) (PAGE_SHIFT L))) in
      if hva_end <=? hva_start then
        for_each_memslot slots' kvm start end_ handler ret
      else
        let gfn := hva_to_gfn_memslot hva_start memslot in
        let gfn_end :=
          hva_to_gfn_memslot (usub (uadd hva_end PAGE_SIZE) 1) memslot in
        '(r, kvm') ← handler kvm gfn gfn_end memslot;
        for_each_memslot slots' kvm' start end_ handler (Z.lor ret r)
  end.

Definition handle_hva_to_gpa (kvm : vz_vm) (start end_ : Z)
    (handler : hva_handler) : option (Z * vz_vm) :=
  let ret := 0 in
  for_each_memslot (memslots kvm) kvm start end_ handler ret.

Definition kvm_unmap_hva_handler : hva_handler :=
  fun kvm gfn gfn_end memslot =>
    '(_, kvm') ← kvm_mips_flush_gpa_pt kvm gfn (usub gfn_end 1);
    Some (1, kvm').

Definition kvm_unmap_hva_range (kvm : vz_vm) (start end_ : Z)
    : option (Z * vz_vm * list event) :=
  '(_, kvm') ← handle_hva_to_gpa kvm start end_ kvm_unmap_hva_handler;
  Some (0, kvm', [kvm_vz_flush_shadow_all]).

Definition bool_to_int (b : bool) : Z := if b then 1 else 0.

Definition kvm_set_spte_handler (hva_pte : Z) : hva_handler :=
  fun kvm gfn gfn_end memslot =>
    let gpa := ushl gfn (PAGE_SHIFT L) in
    '(gpa_pte, kvm, _) ← kvm_mips_pte_for_gpa kvm None gpa;
    match gpa_pte with
    | None => Some (0, kvm)
    | Some ptep =>
        old_pte ← load (gpa_mm_pgd kvm) ptep;
        pgd ← store (gpa_mm_pgd kvm) ptep hva_pte;
        let kvm := set_pgd kvm pgd in
        if negb (pte_present old_pte) || negb (pte_young old_pte)
        then Some (0, kvm)
        else
          Some (bool_to_int
                  (negb (pte_present hva_pte) || negb (pte_young hva_pte)
                   || negb (pte_pfn old_pte =? pte_pfn hva_pte)
                   || (pte_dirty old_pte && negb (pte_dirty hva_pte))),
                kvm)
    end.

Definition kvm_set_spte_hva (kvm : vz_vm) (hva pte : Z)
    : option (vz_vm * list event) :=
  let end_ := uadd hva PAGE_SIZE in
  '(ret, kvm') ← handle_hva_to_gpa kvm hva end_ (kvm_set_spte_handler pte);
  if ret =? 0 then Some (kvm', [])
  else Some (kvm', [kvm_vz_flush_shadow_all]).

Definition kvm_age_hva_handler : hva_handler :=
  fun kvm gfn gfn_end memslot => kvm_mips_mkold_gpa_pt kvm gfn gfn_end.

Definition kvm_test_age_hva_handler : hva_handler :=
  fun kvm gfn gfn_end memslot =>
    let gpa := ushl gfn (PAGE_SHIFT L) in
    '(gpa_pte, kvm, _) ← kvm_mips_pte_for_gpa kvm None gpa;
    match gpa_pte with
    | None => Some (0, kvm)
    | Some ptep =>
        pte ← load (gpa_mm_pgd kvm) ptep;
        Some (Z.land pte (_PAGE_ACCESSED L), kvm)
    end.

Definition kvm_age_hva (kvm : vz_vm) (start end_ : Z)
    : option (Z * vz_vm) :=
  handle_hva_to_gpa kvm start end_ kvm_age_hva_handler.

Definition kvm_test_age_hva (kvm : vz_vm) (hva : Z)
    : option (Z * vz_vm) :=
  handle_hva_to_gpa kvm hva hva kvm_test_age_hva_handler.

(** ** Installing a huge mapping (lines 635-738) *)

(** A [pud_t *] is the top-level index of the folded slot. *)
Definition kvm_mips_get_pud (kvm : vz_vm) (addr : Z) : option (option Z) :=
  let gi := pgd_index addr in
  pgd ← gpa_mm_pgd kvm !! idx gi;
  if pgd_none pgd then None else Some (Some gi).

(** A [pmd_t *] is the pair of a top-level and a middle-level index. *)
Definition kvm_mips_get_pmd (kvm : vz_vm)
    (cache : option kvm_mmu_memory_cache) (addr : Z)
    : option (option (Z * Z) * vz_vm * option kvm_mmu_memory_cache) :=
  pud ← kvm_mips_get_pud kvm addr;
  match pud with
  | None => Some (None, kvm, cache)
  | Some gi =>
      e ← gpa_mm_pgd kvm !! idx gi;
      if pud_huge e then Some (None, kvm, cache)
      else if pud_none e then
        match cache with
        | None => Some (None, kvm, cache)
        | Some mc =>
            '(_, mc') ← mmu_memory_cache_alloc mc;
            let pmd := pmd_init in
            Some (Some (gi, __pmd_offset addr),
                  set_pgd kvm (<[idx gi := Pud_table pmd]> (gpa_mm_pgd kvm)),
                  Some mc')
        end
      else Some (Some (gi, __pmd_offset addr), kvm, cache)
  end.

(** [*pmd] and [set_pmd(pmd, v)] / [pmd_clear(pmd)] through a [pmd_t *] *)
Definition load_pmd (pgd : list pud_t) (p : Z * Z) : option pmd_t :=
  pud ← pgd !! idx (fst p); pmds ← pmd_table_of pud; pmds !! idx (snd p).

Definition store_pmd (pgd : list pud_t) (p : Z * Z) (e : pmd_t)
    : option (list pud_t) :=
  pud ← pgd !! idx (fst p); pmds ← pmd_table_of pud;
  _ ← pmds !! idx (snd p);
  Some (<[idx (fst p) := Pud_table (<[idx (snd p) := e]> pmds)]> pgd).

(** [pmd_val(old_pmd) == pmd_val( *new_pmd)]: a table pointer never equals
    the word of a new huge entry. *)
Definition pmd_val_eq (old : pmd_t) (new_pmd : Z) : bool :=
  match old with Pmd_val v => v =? new_pmd | Pmd_table _ => false end.

Definition pmd_pfn_of (e : pmd_t) : option Z :=
  match e with Pmd_val v => Some (pmd_pfn v) | Pmd_table _ => None end.

(** [kvm_mips_set_pmd_huge]. Every pass through the [retry:] label takes
    one unit of [fuel]; the result is [None] when the fuel runs out, when
    [VM_BUG_ON(!pmd)] fires or when a word that is not a table pointer is
    followed. *)
Fixpoint kvm_mips_set_pmd_huge (fuel : nat) (kvm : vz_vm)
    (cache : option kvm_mmu_memory_cache) (addr : Z) (new_pmd : Z)
    : option (Z * vz_vm * option kvm_mmu_memory_cache * list event) :=
  match fuel with
  | O => None
  | S fuel' =>
      '(pmd, kvm, cache) ← kvm_mips_get_pmd kvm cache addr;
      pmd ← pmd;
      old_pmd ← load_pmd (gpa_mm_pgd kvm) pmd;
      if pmd_val_eq old_pmd new_pmd then Some (0, kvm, cache, [])
      else if pmd_present old_pmd then
        if negb (pmd_huge old_pmd) then
          let start_gfn := ushr (Z.land addr PMD_MASK) (PAGE_SHIFT L) in
          let end_gfn :=
            ushr (usub (uadd (Z.land addr PMD_MASK) PMD_SIZE) 1)
                 (PAGE_SHIFT L) in
          '(_, kvm) ← kvm_mips_flush_gpa_pt kvm start_gfn end_gfn;
          '(ret, kvm, cache, evs) ←
            kvm_mips_set_pmd_huge fuel' kvm cache addr new_pmd;
          Some (ret, kvm, cache, flushed_gpa_pt start_gfn end_gfn :: evs)
        else
          old_pfn ← pmd_pfn_of old_pmd;
          let warn :=
            if negb (old_pfn =? pmd_pfn new_pmd) then [WARN_ON_ONCE]
            else [] in
          pgd ← store_pmd (gpa_mm_pgd kvm) pmd pmd_cleared;
          pgd ← store_pmd pgd pmd (Pmd_val new_pmd);
          Some (0, set_pgd kvm pgd, cache,
                warn ++ [pmd_cleared_at addr;
                         kvm_vz_host_tlb_inv (Z.land addr PMD_MASK);
                         pmd_set_at addr new_pmd])
      else
        pgd ← store_pmd (gpa_mm_pgd kvm) pmd (Pmd_val new_pmd);
        Some (0, set_pgd kvm pgd, cache,
              [kvm_vz_host_tlb_inv (Z.land addr PMD_MASK);
               pmd_set_at addr new_pmd])
  end.

(** ** Huge-page eligibility (lines 740-846) *)

(** [transparent_hugepage_adjust]: [thp] answers
    [!PageHuge(page) && PageTransCompound(page) && _mapcount < 0] for the
    page of [pfn]; the result carries the updated [*pfnp] and [*gpap].
    [None] is the [VM_BUG_ON]. *)
Definition transparent_hugepage_adjust (thp : Z -> bool) (pfn gpa : Z)
    : option (bool * Z * Z * list event) :=
  let gfn := ushr gpa (PAGE_SHIFT L) in
  if thp pfn then
    let mask := PTRS_PER_PMD - 1 in
    if negb (Z.land gfn mask =? Z.land pfn mask) then None
    else if negb (Z.land pfn mask =? 0) then
      let pfn' := Z.land pfn (unot mask) in
      Some (true, pfn', Z.land gpa PMD_MASK,
            [kvm_release_pfn_clean pfn; kvm_get_pfn pfn'])
    else Some (true, pfn, gpa, [])
  else Some (false, pfn, gpa, []).

Definition fault_supports_huge_mapping (memslot : kvm_memory_slot)
    (hva map_size : Z) : bool :=
  let size := umul (npages memslot) PAGE_SIZE in
  let gpa_start := ushl (base_gfn memslot) (PAGE_SHIFT L) in
  let uaddr_start := userspace_addr memslot in
  let uaddr_end := uadd uaddr_start size in
  if negb (Z.land gpa_start (usub map_size 1)
           =? Z.land uaddr_start (usub map_size 1))
  then false
  else
    (uaddr_start <=? Z.land hva (unot (usub map_size 1)))
    && (uadd (Z.land hva (unot (usub map_size 1))) map_size <=? uaddr_end).

(** ** The fault handler (lines 872-1141) *)

(** [ptep_buddy(x)]: the neighbouring slot, [x ^ sizeof(pte_t)] *)
Definition ptep_buddy (p : pte_ptr) : pte_ptr :=
  match p with
  | At_pte gi mi ti => At_pte gi mi (Z.lxor ti 1)
  | At_pmd gi mi => At_pmd gi (Z.lxor mi 1)
  end.

(** [for (i = 0; i < PTRS_PER_PTE; i++) mark_page_dirty(kvm, base_gfn + i)] *)
Definition mark_block_dirty (base_gfn : Z) : list event :=
  map (fun i => mark_page_dirty (uadd base_gfn i))
      (seqZ 0 PTRS_PER_PTE).

Record fault_result := mk_result {
  fr_err : Z;
  fr_vcpu : vz_vcpu;
  fr_entry : option Z;
  fr_buddy : option Z;
  fr_events : list event
}.

Definition set_kvm (vcpu : vz_vcpu) (kvm : vz_vm) : vz_vcpu :=
  mk_vcpu kvm (mmu_page_cache vcpu) (host_cp0_cause vcpu).

(** [out_entry] and [out_buddy] tell whether the caller's pointers are
    non-NULL. *)
Definition _kvm_mips_map_page_fast (vcpu : vz_vcpu) (gpa : Z)
    (write_fault : bool) (out_entry out_buddy : bool)
    : option fault_result :=
  let kvm := vcpu_kvm vcpu in
  let gfn := ushr gpa (PAGE_SHIFT L) in
  '(ptep, kvm, _) ← kvm_mips_pte_for_gpa kvm None gpa;
  match ptep with
  | None => Some (mk_result (- EFAULT) (set_kvm vcpu kvm) None None [])
  | Some ptep =>
      pte ← load (gpa_mm_pgd kvm) ptep;
      if negb (pte_present pte) then
        Some (mk_result (- EFAULT) (set_kvm vcpu kvm) None None [])
      else
        (* track access to pages marked old *)
        '(pgd, accessed) ←
          (if negb (pte_young pte) then
             pgd ← store (gpa_mm_pgd kvm) ptep (pte_mkyoung pte);
             pte ← load pgd ptep;
             Some (pgd, [kvm_set_pfn_accessed (pte_pfn pte)])
           else Some (gpa_mm_pgd kvm, []));
        pte ← load pgd ptep;
        if write_fault && negb (pte_dirty pte) then
          if negb (pte_write pte) then
            Some (mk_result (- EFAULT) (set_kvm vcpu (set_pgd kvm pgd))
                            None None accessed)
          else
            (* track dirtying of writeable pages *)
            pgd ← store pgd ptep (pte_mkdirty pte);
            pte ← load pgd ptep;
            let pfn := pte_pfn pte in
            let dirtied :=
              if pmdv_huge pte then
                mark_block_dirty (ushr (Z.land gpa PMD_MASK) (PAGE_SHIFT L))
              else [mark_page_dirty gfn] in
            entry ← (if out_entry then Some <$> load pgd ptep
                     else Some None);
            buddy ← (if out_buddy then Some <$> load pgd (ptep_buddy ptep)
                     else Some None);
            Some (mk_result 0 (set_kvm vcpu (set_pgd kvm pgd)) entry buddy
                    (dirtied ++ [kvm_set_pfn_dirty pfn]
                     ++ (if accessed is [] then []
                         else [kvm_set_pfn_accessed pfn])))
        else
          entry ← (if out_entry then Some <$> load pgd ptep
                   else Some None);
          buddy ← (if out_buddy then Some <$> load pgd (ptep_buddy ptep)
                   else Some None);
          Some (mk_result 0 (set_kvm vcpu (set_pgd kvm pgd)) entry buddy
                          accessed)
  end.

(** *** What the slow path asks of the host *)

(** One call of [gfn_to_pfn_prot(kvm, gfn, write_fault, &writeable)]:
    [None] is an error pfn; [invalidated] tells whether a notifier
    invalidation advanced [mmu_notifier_seq] before the lock was taken. *)
Record pfn_attempt := mk_attempt {
  gfn_to_pfn_prot : Z -> bool -> option (Z * bool);
  invalidated : bool
}.

Record host_env := mk_host {
  (** [vma_kernel_pagesize] of the VMA that [find_vma_intersection] finds
      at an address, [None] when there is none *)
  vma_kernel_pagesize : Z -> option Z;
  (** the page test of [transparent_hugepage_adjust] *)
  thp : Z -> bool;
  free_pages : list Z;
  attempts : list pfn_attempt
}.

(** [gfn_to_memslot] and [gfn_to_hva_memslot_prot] of the KVM core; an
    error address is [None]. *)
Definition gfn_to_memslot (kvm : vz_vm) (gfn : Z)
    : option kvm_memory_slot :=
  List.find (fun s => (base_gfn s <=? gfn)
                      && (gfn <? uadd (base_gfn s) (npages s)))
            (memslots kvm).

Definition gfn_to_hva_memslot_prot (memslot : option kvm_memory_slot)
    (gfn : Z) : option (kvm_memory_slot * Z * bool) :=
  match memslot with
  | None => None
  | Some s =>
      if slot_invalid s then None
      else Some (s, uadd (userspace_addr s)
                         (umul (usub gfn (base_gfn s)) PAGE_SIZE),
                 negb (slot_readonly s))
  end.

(** Lines 1080-1137, under [mmu_lock] once the sequence check passed, and
    the two calls that follow the unlock. *)
Definition map_page_commit (kvm : vz_vm) (memcache : kvm_mmu_memory_cache)
    (h : host_env) (memslot : kvm_memory_slot) (hva gpa gfn : Z)
    (write_fault : bool) (vma_pagesize : Z) (force_pte : bool)
    (pfn : Z) (writeable : bool) (out_entry out_buddy : bool)
    : option (vz_vm * kvm_mmu_memory_cache * option Z * option Z
              * list event) :=
  '(vma_pagesize, pfn, gpa, evs_thp) ←
    (if (vma_pagesize =? PAGE_SIZE) && negb force_pte
        && fault_supports_huge_mapping memslot hva PMD_SIZE
     then
       '(adjusted, pfn', gpa', evs) ←
         transparent_hugepage_adjust (thp h) pfn gpa;
       Some (if (adjusted : bool) then PMD_SIZE else vma_pagesize,
             pfn', gpa', evs)
     else Some (vma_pagesize, pfn, gpa, []));
  (* set up the prot bits *)
  let prot_bits :=
    Z.lor (Z.lor (_PAGE_PRESENT L) __READABLE) (_page_cachable_default L) in
  let prot_bits :=
    if writeable then
      let prot_bits := Z.lor prot_bits (_PAGE_WRITE L) in
      if write_fault then Z.lor prot_bits __WRITEABLE else prot_bits
    else prot_bits in
  let evs_prot :=
    if writeable && write_fault then [kvm_set_pfn_dirty pfn] else [] in
  if vma_pagesize =? PMD_SIZE then
    let new_pmd := pmd_mkhuge (pfn_pmd pfn prot_bits) in
    let evs_dirty :=
      if writeable && write_fault then
        mark_block_dirty (ushr (Z.land gpa PMD_MASK) (PAGE_SHIFT L))
      else [] in
    '(_, kvm, cache, evs_set) ←
      kvm_mips_set_pmd_huge 2 kvm (Some memcache) gpa new_pmd;
    memcache ← cache;
    Some (kvm, memcache, None, None,
          evs_thp ++ evs_prot ++ evs_dirty ++ evs_set
          ++ [kvm_release_pfn_clean pfn; kvm_set_pfn_accessed pfn])
  else
    let new_pte := pfn_pte pfn prot_bits in
    let evs_dirty :=
      if writeable && write_fault then [mark_page_dirty gfn] else [] in
    (* ensure page tables are allocated *)
    '(ptep, kvm, cache) ← kvm_mips_pte_for_gpa kvm (Some memcache) gpa;
    ptep ← ptep;
    memcache ← cache;
    pgd ← store (gpa_mm_pgd kvm) ptep new_pte;
    (* [ptep_buddy(&new_pte)] reads next to a local variable *)
    if out_buddy then None
    else
      Some (set_pgd kvm pgd, memcache,
            (if out_entry then Some new_pte else None), None,
            evs_thp ++ evs_prot ++ evs_dirty
            ++ [kvm_release_pfn_clean pfn; kvm_set_pfn_accessed pfn]).

(** The [retry:] loop of lines 1041-1078, one [pfn_attempt] per pass;
    [None] when the host's answers run out. *)
Fixpoint map_page_retry (atts : list pfn_attempt) (vcpu : vz_vcpu)
    (h : host_env) (memslot : kvm_memory_slot) (hva gpa gfn : Z)
    (write_fault : bool) (vma_pagesize : Z) (force_pte : bool)
    (out_entry out_buddy : bool) (evs : list event)
    : option fault_result :=
  match atts with
  | [] => None
  | a :: atts' =>
      let kvm := vcpu_kvm vcpu in
      let mmu_seq := mmu_notifier_seq kvm in
      match gfn_to_pfn_prot a gfn write_fault with
      | None => Some (mk_result (- EFAULT) vcpu None None evs)
      | Some (pfn, writeable) =>
          let kvm :=
            if invalidated a
            then mk_vm (gpa_mm_pgd kvm) (memslots kvm)
                       (uadd (mmu_notifier_seq kvm) 1)
            else kvm in
          (* mmu_notifier_retry(kvm, mmu_seq) *)
          if negb (mmu_notifier_seq kvm =? mmu_seq) then
            map_page_retry atts' (set_kvm vcpu kvm) h memslot hva gpa gfn
              write_fault vma_pagesize force_pte out_entry out_buddy
              (evs ++ [kvm_release_pfn_clean pfn])
          else
            '(kvm, memcache, entry, buddy, evs_commit) ←
              map_page_commit kvm (mmu_page_cache vcpu) h memslot hva gpa
                gfn write_fault vma_pagesize force_pte pfn writeable
                out_entry out_buddy;
            Some (mk_result 0 (mk_vcpu kvm memcache (host_cp0_cause vcpu))
                    entry buddy
                    (evs ++ evs_commit))
      end
  end.

Definition set_cache (vcpu : vz_vcpu) (mc : kvm_mmu_memory_cache)
    : vz_vcpu :=
  mk_vcpu (vcpu_kvm vcpu) mc (host_cp0_cause vcpu).

(** [kvm_mips_map_page]. [huge_page_mask(hstate_vma(vma))] is taken from
    the VMA's page size. *)
Definition kvm_mips_map_page (vcpu : vz_vcpu) (h : host_env) (gpa : Z)
    (write_fault : bool) (out_entry out_buddy : bool)
    : option fault_result :=
  let gfn := ushr gpa (PAGE_SHIFT L) in
  let err := 0 in
  let exccode :=
    Z.land (ushr (host_cp0_cause vcpu) (CAUSEB_EXCCODE L)) 31 in
  (* try the fast path to handle old / clean pages *)
  fast ← (if negb (exccode =? EXCCODE_TLBRI L)
             && negb (exccode =? EXCCODE_TLBXI L)
          then Some <$> _kvm_mips_map_page_fast vcpu gpa write_fault
                          out_entry out_buddy
          else Some None);
  let slow (err : Z) (vcpu : vz_vcpu) (evs : list event) :=
    let kvm := vcpu_kvm vcpu in
    let memslot := gfn_to_memslot kvm gfn in
    match gfn_to_hva_memslot_prot memslot gfn with
    | None => Some (mk_result err vcpu None None evs)
    | Some (memslot, hva, writable) =>
        if write_fault && negb writable
        then Some (mk_result err vcpu None None evs)
        else
          match vma_kernel_pagesize h hva with
          | None =>
              Some (mk_result (- EFAULT) vcpu None None
                              (evs ++ [dune_err hva]))
          | Some vps =>
              let '(force_pte, vma_pagesize) :=
                if negb (fault_supports_huge_mapping memslot hva vps)
                then (true, PAGE_SIZE) else (false, vps) in
              (* PMD is not folded, adjust gfn to new boundary *)
              let gfn :=
                if vma_pagesize =? PMD_SIZE
                then ushr (Z.land gpa (unot (usub vps 1))) (PAGE_SHIFT L)
                else gfn in
              '(err, memcache, _) ←
                mmu_topup_memory_cache (KVM_NR_MEM_OBJS L)
                  (mmu_page_cache vcpu) KVM_MMU_CACHE_MIN_PAGES
                  (KVM_NR_MEM_OBJS L) (free_pages h);
              let vcpu := set_cache vcpu memcache in
              if negb (err =? 0)
              then Some (mk_result err vcpu None None evs)
              else
                map_page_retry (attempts h) vcpu h memslot hva gpa gfn
                  write_fault vma_pagesize force_pte out_entry out_buddy
                  evs
          end
    end in
  match fast with
  | Some r =>
      if fr_err r =? 0 then Some r
      else slow (fr_err r) (fr_vcpu r) (fr_events r)
  | None => slow err vcpu []
  end.
End PageTable.

(** ** A concrete layout

    Sixteen-kilobyte pages and 2048-entry tables at every level, with the
    software bits of a leaf entry in the low bits. It serves the examples
    below; the general statements hold for every layout. *)
Definition layout16k : layout :=
  {| PAGE_SHIFT := 14; PTE_BITS := 11; PMD_BITS := 11; PGD_BITS := 11;
     _PFN_SHIFT := 15;
     _PAGE_PRESENT := 1; _PAGE_WRITE := 2; _PAGE_ACCESSED := 4;
     _PAGE_MODIFIED := 8; _PAGE_HUGE := 16;
     _PAGE_NO_READ := 64; _PAGE_READ := 0;
     _PAGE_SILENT_READ := 256; _PAGE_SILENT_WRITE := 512;
     _page_cachable_default := 3072;
     invalid_pte_table := 18446744071562084352;
     KVM_NR_MEM_OBJS := 4;
     EXCCODE_TLBRI := 19; EXCCODE_TLBXI := 20; CAUSEB_EXCCODE := 2 |}.

(** ** Notions used in the statements *)

(** The host can hand out [n] pages: its free list holds at least [n]
    entries and none of the first [n] is NULL. *)
Definition supplies (host : list Z) (n : nat) : bool :=
  (n <=? length host)%nat && forallb (fun p => negb (p =? 0)) (take n host).

(** *** Example states over [layout16k] *)

(** The protection bits of a readable, young, clean, read-only leaf and of
    a writable, dirty one. *)
Definition prot_ro : Z :=
  Z.lor (Z.lor (_PAGE_PRESENT layout16k) (__READABLE layout16k))
        (_page_cachable_default layout16k).
Definition prot_rw_dirty : Z := Z.lor prot_ro (__WRITEABLE layout16k).

(** A page directory with one young leaf for guest frame 0, built by the
    walker from a cache of four pages. *)
Definition ex_cache : kvm_mmu_memory_cache :=
  mk_cache 4 [65536; 81920; 98304; 114688].
Definition ex_install (pgd : list pud_t) (addr v : Z)
    : option (list pud_t) :=
  '(p, pgd, _) ← kvm_mips_walk_pgd layout16k pgd (Some ex_cache) addr;
  p ← p; store pgd p v.
Definition ex_young_pte : Z := pfn_pte layout16k 77 prot_ro.
Definition ex_pgd_leaf : list pud_t :=
  default [] (ex_install (kvm_pgd_init layout16k) 0 ex_young_pte).
Definition ex_slot : kvm_memory_slot := mk_slot 0 4 (2 ^ 28) false false.
Definition ex_kvm_leaf : vz_vm := mk_vm ex_pgd_leaf [ex_slot] 0.

(** A page directory whose only mapping is a present, writable, dirty huge
    entry in middle-level slot 0 of top-level slot 0. *)
Definition ex_huge_dirty : Z :=
  pmd_mkhuge layout16k (pfn_pmd layout16k 10240 prot_rw_dirty).
Definition ex_pgd_huge : list pud_t :=
  <[0%nat := Pud_table (<[0%nat := Pmd_val ex_huge_dirty]>
                          (pmd_init layout16k))]> (kvm_pgd_init layout16k).
Definition ex_kvm_huge : vz_vm := mk_vm ex_pgd_huge [] 0.

(** A VCPU that took a read-inhibit exception, over an empty page directory
    and no memory slot, and a host with nothing to offer. *)
Definition ex_vcpu_tlbri : vz_vcpu :=
  mk_vcpu (mk_vm (kvm_pgd_init layout16k) [] 0) (mk_cache 0 [0; 0; 0; 0])
          (Z.shiftl (EXCCODE_TLBRI layout16k) (CAUSEB_EXCCODE layout16k)).
Definition ex_host_none : host_env :=
  mk_host (fun _ => None) (fun _ => false) [] [].

(** The log entry of a middle-level store by [kvm_mips_set_pmd_huge] *)
Definition is_pmd_set (e : event) : bool :=
  match e with pmd_set_at _ _ => true | _ => false end.

(** No middle-level store is logged. *)
Definition quiet (evs : list event) : Prop :=
  Forall (fun e => is_pmd_set e = false) evs.

(** A slot whose host and guest starts are both one base page past a
    huge-page boundary, and one whose host start alone is. *)
Definition ex_slot_offset : kvm_memory_slot :=
  mk_slot 1 (3 * 2048) (2 ^ 30 + 2 ^ 14) false false.
Definition ex_slot_skewed : kvm_memory_slot :=
  mk_slot 0 (3 * 2048) (2 ^ 30 + 2 ^ 14) false false.

(** *** What one pass of a flush loop does to the slot it visits

    The slot's new content and whether the pass leaves [safe_to_remove]
    alone, for a slot visited with the range [start_gpa, end_gpa]. *)
Definition flush_pte_slot (L : layout) (e : Z) : Z :=
  if pte_present L e then 0 else e.

Definition flush_pmd_slot (L : layout) (start_gpa end_gpa : Z) (e : pmd_t)
    : option (pmd_t * bool) :=
  if negb (pmd_present L e) then Some (e, true)
  else if pmd_huge L e then Some (pmd_cleared L, true)
  else
    pte ← pte_table_of e;
    '(removable, pte') ← kvm_mips_flush_gpa_pte L pte start_gpa end_gpa;
    Some (if (removable : bool) then pmd_cleared L else Pmd_table pte',
          removable).

Definition flush_pud_slot (L : layout) (start_gpa end_gpa : Z) (e : pud_t)
    : option (pud_t * bool) :=
  if negb (pud_present e) then Some (e, true)
  else
    pmd ← pmd_table_of e;
    '(removable, pmd') ← kvm_mips_flush_gpa_pmd L pmd start_gpa end_gpa;
    Some (if (removable : bool) then Pud_none else Pud_table pmd',
          removable).

Definition flush_pgd_slot (L : layout) (start_gpa end_gpa : Z) (e : pud_t)
    : option (pud_t * bool) :=
  '(removable, pud') ← kvm_mips_flush_gpa_pud L [e] start_gpa end_gpa;
  e' ← pud' !! 0%nat;
  Some (e', removable).

(** The range a slot of a loop from [i_min] to [i_max] is visited with *)
Definition slot_start (i_min start_gpa i : Z) : Z :=
  if i =? i_min then start_gpa else 0.
Definition slot_end (i_max end_gpa i : Z) : Z :=
  if i =? i_max then end_gpa else ULONG_MAX.

(** A loop from [i_min] to [i_max] turned [tbl] into [tbl'] slot by slot:
    slots outside the range are untouched, each slot inside went through
    [slot], and [safe'] survives only if [safe] held and every slot agreed. *)
Definition slotwise {A : Type} (slot : Z -> A -> option (A * bool))
    (i_min i_max : Z) (tbl tbl' : list A) (safe safe' : bool) : Prop :=
  length tbl' = length tbl
  /\ (safe' = true -> safe = true)
  /\ (safe' = false ->
      safe = false
      \/ exists x old new,
           i_min <= x <= i_max /\ tbl !! idx x = Some old
           /\ slot x old = Some (new, false))
  /\ forall x : Z, 0 <= x ->
       (i_min <= x <= i_max ->
        exists old new b,
          tbl !! idx x = Some old /\ tbl' !! idx x = Some new
          /\ slot x old = Some (new, b)
          /\ (safe' = true -> b = true)
          /\ (safe = true -> b = false -> safe' = false))
       /\ (~ (i_min <= x <= i_max) -> tbl' !! idx x = tbl !! idx x).

(** Number of guest frames the page directory reaches *)
Definition gfn_limit (L : layout) : Z :=
  2 ^ (PTE_BITS L + PMD_BITS L + PGD_BITS L).

(** *** Well-formed page directories

    Every table has its full size and no middle-level slot holds a present
    word that is neither a huge mapping nor a table pointer. *)
Definition wf_pmd (L : layout) (e : pmd_t) : Prop :=
  match e with
  | Pmd_val v => pmdv_present L v = true -> pmdv_huge L v = true
  | Pmd_table t => length t = Z.to_nat (PTRS_PER_PTE L)
  end.

Definition wf_pud (L : layout) (e : pud_t) : Prop :=
  match e with
  | Pud_none => True
  | Pud_table t =>
      length t = Z.to_nat (PTRS_PER_PMD L) /\ Forall (wf_pmd L) t
  end.

Definition wf_pgd (L : layout) (pgd : list pud_t) : Prop :=
  length pgd = Z.to_nat (PTRS_PER_PGD L) /\ Forall (wf_pud L) pgd.

(** The read-only walk for an address together with the entry it finds:
    [Some None] for NULL, [None] when the walk itself is undefined. *)
Definition gpa_lookup (L : layout) (pgd : list pud_t) (addr : Z)
    : option (option (pte_ptr * Z)) :=
  '(p, _, _) ← kvm_mips_walk_pgd L pgd None addr;
  match p with
  | None => Some None
  | Some p => v ← load pgd p; Some (Some (p, v))
  end.

(** The walk below a top-level slot and below a middle-level slot *)
Definition pmd_lookup (L : layout) (gi mi ti : Z) (pmd : pmd_t)
    : option (option (pte_ptr * Z)) :=
  match pmd with
  | Pmd_val v =>
      if pmdv_huge L v then Some (Some (At_pmd gi mi, v))
      else if pmdv_none L v then Some None
      else None
  | Pmd_table pte => v ← pte !! idx ti; Some (Some (At_pte gi mi ti, v))
  end.

Definition pud_lookup (L : layout) (gi mi ti : Z) (pud : pud_t)
    : option (option (pte_ptr * Z)) :=
  match pud with
  | Pud_none => Some None
  | Pud_table pmds => pmd ← pmds !! idx mi; pmd_lookup L gi mi ti pmd
  end.

(** A lookup that finds no present entry: NULL, or an entry whose present
    bit is clear. *)
Definition unmapped (L : layout) (o : option (option (pte_ptr * Z)))
    : Prop :=
  o = Some None
  \/ exists p v, o = Some (Some (p, v)) /\ pte_present L v = false.

Definition is_leaf_ptr (p : pte_ptr) : Prop :=
  match p with At_pte _ _ _ => True | At_pmd _ _ => False end.

(** A decision procedure for [wf_pgd] *)
Definition wf_pmdb (L : layout) (e : pmd_t) : bool :=
  match e with
  | Pmd_val v => implb (pmdv_present L v) (pmdv_huge L v)
  | Pmd_table t => (length t =? Z.to_nat (PTRS_PER_PTE L))%nat
  end.

Definition wf_pudb (L : layout) (e : pud_t) : bool :=
  match e with
  | Pud_none => true
  | Pud_table t =>
      (length t =? Z.to_nat (PTRS_PER_PMD L))%nat && forallb (wf_pmdb L) t
  end.

Definition wf_pgdb (L : layout) (pgd : list pud_t) : bool :=
  (length pgd =? Z.to_nat (PTRS_PER_PGD L))%nat && forallb (wf_pudb L) pgd.

(** A page directory with present leaves for guest frames 0 and 1 *)
Definition ex_pgd_two : list pud_t :=
  default []
    (pgd ← ex_install (kvm_pgd_init layout16k) 0 ex_young_pte;
     ex_install pgd (2 ^ 14) (pfn_pte layout16k 78 prot_ro)).
Definition ex_kvm_two : vz_vm := mk_vm ex_pgd_two [] 0.

(** The middle-level table of [ex_pgd_leaf] under top-level slot 0 *)
Definition ex_pmds_leaf : list pmd_t :=
  match ex_pgd_leaf !! 0%nat with
  | Some (Pud_table t) => t
  | _ => []
  end.

(** A huge entry for another host frame than [ex_huge_dirty] *)
Definition ex_huge_other : Z :=
  pmd_mkhuge layout16k (pfn_pmd layout16k 20480 prot_rw_dirty).

(** ** Further notions used in the statements *)

(** The pages a pool holds: the first [nobjs] entries of [objects]. *)
Definition pooled (mc : kvm_mmu_memory_cache) : list Z :=
  take (Z.to_nat (nobjs mc)) (objects mc).

(** A memory slot the page directory reaches and whose host range, with one
    page of slack, does not wrap around the address space. *)
Definition slot_in_reach (L : layout) (s : kvm_memory_slot) : Prop :=
  0 <= base_gfn s /\ 0 <= npages s
  /\ base_gfn s + npages s <= gfn_limit L
  /\ 0 <= userspace_addr s
  /\ userspace_addr s + npages s * PAGE_SIZE L + PAGE_SIZE L <= modulus.

(** Page [k] of a slot meets the non-empty host range from [start] up to,
    not including, [end_]. *)
Definition page_meets (L : layout) (s : kvm_memory_slot) (k start end_ : Z)
    : Prop :=
  0 <= k < npages s /\ start < end_
  /\ userspace_addr s + k * PAGE_SIZE L < end_
  /\ start < userspace_addr s + (k + 1) * PAGE_SIZE L.

(** The software bits of an entry are bits of their own: the accessed and
    the modified bit exist, and ageing an entry (setting the accessed and
    silent-read bits) touches neither the modified nor the write bit. *)
Definition soft_bits_apart (L : layout) : Prop :=
  _PAGE_ACCESSED L <> 0 /\ _PAGE_MODIFIED L <> 0
  /\ Z.land (_PAGE_ACCESSED L) (_PAGE_MODIFIED L) = 0
  /\ Z.land (_PAGE_SILENT_READ L) (_PAGE_MODIFIED L) = 0
  /\ Z.land (_PAGE_ACCESSED L) (_PAGE_WRITE L) = 0
  /\ Z.land (_PAGE_SILENT_READ L) (_PAGE_WRITE L) = 0.

(** *** What one pass of a range-operation loop does to the slot it visits

    The slot's new content and the value the pass ors into [ret], for a
    slot visited with the range [start, end_]. *)
Definition range_pte_slot (L : layout) (op : Z -> Z) (e : Z) : Z :=
  if pte_present L e then op e else e.

(** A leaf entry the operation changes *)
Definition range_pte_hit (L : layout) (op : Z -> Z) (e : Z) : bool :=
  pte_present L e && negb (op e =? e).

Definition range_pmd_slot (L : layout) (op op1 : Z -> Z) (start end_ : Z)
    (e : pmd_t) : option (pmd_t * Z) :=
  if negb (pmd_present L e) then Some (e, 0)
  else if pmd_huge L e then
    match e with
    | Pmd_val old => Some (Pmd_val (op1 old), 0)
    | Pmd_table _ => None
    end
  else
    pte ← pte_table_of e;
    '(r, pte') ← kvm_mips_range_pte L op pte start end_;
    Some (Pmd_table pte', r).

Definition range_pud_slot (L : layout) (op op1 : Z -> Z) (start end_ : Z)
    (e : pud_t) : option (pud_t * Z) :=
  if negb (pud_present e) then Some (e, 0)
  else
    pmd ← pmd_table_of e;
    '(r, pmd') ← kvm_mips_range_pmd L op op1 pmd start end_;
    Some (Pud_table pmd', r).

Definition range_pgd_slot (L : layout) (op op1 : Z -> Z) (start end_ : Z)
    (e : pud_t) : option (pud_t * Z) :=
  '(r, pud') ← kvm_mips_range_pud L op op1 [e] start end_;
  e' ← pud' !! 0%nat;
  Some (e', r).

(** A range-operation loop from [i_min] to [i_max] turned [tbl] into [tbl']
    slot by slot: slots outside the range are untouched, each slot inside
    went through [slot], and [ret] is nonzero exactly when some slot
    reported a change. *)
Definition range_slotwise {A : Type} (slot : Z -> A -> option (A * Z))
    (i_min i_max : Z) (tbl tbl' : list A) (ret : Z) : Prop :=
  length tbl' = length tbl
  /\ (forall x : Z, 0 <= x ->
        (i_min <= x <= i_max ->
         exists old new r,
           tbl !! idx x = Some old /\ tbl' !! idx x = Some new
           /\ slot x old = Some (new, r)
           /\ (ret = 0 -> r = 0))
        /\ (~ (i_min <= x <= i_max) -> tbl' !! idx x = tbl !! idx x))
  /\ (ret <> 0 ->
      exists x old new r,
        i_min <= x <= i_max /\ tbl !! idx x = Some old
        /\ slot x old = Some (new, r) /\ r <> 0)
  /\ ((forall x old new r,
         i_min <= x <= i_max -> tbl !! idx x = Some old ->
         slot x old = Some (new, r) -> r = 0 \/ r = 1) ->
      ret = 0 \/ ret = 1).

(** The status bits of an entry are bits of their own within the word:
    clearing the dirty bits, or the accessed bits, leaves the present bit
    and the huge bit alone. *)
Definition status_bits_apart (L : layout) : Prop :=
  let dirty := Z.lor (_PAGE_MODIFIED L) (_PAGE_SILENT_WRITE L) in
  let young := Z.lor (_PAGE_ACCESSED L) (_PAGE_SILENT_READ L) in
  0 <= _PAGE_PRESENT L < modulus /\ 0 <= _PAGE_HUGE L < modulus
  /\ 0 <= _PAGE_MODIFIED L < modulus /\ 0 <= _PAGE_ACCESSED L < modulus
  /\ Z.land (_PAGE_PRESENT L) dirty = 0 /\ Z.land (_PAGE_HUGE L) dirty = 0
  /\ Z.land (_PAGE_PRESENT L) young = 0 /\ Z.land (_PAGE_HUGE L) young = 0.

(** Whether a range-operation pass with the range [start, end_] over a
    leaf table, over a middle-level table and over the page directory
    reaches the entry behind a pointer. A huge entry is reached when its
    middle-level slot is. *)
Definition range_visits_pte (L : layout) (start end_ : Z) (p : pte_ptr)
    : bool :=
  match p with
  | At_pmd _ _ => true
  | At_pte _ _ ti =>
      (__pte_offset L start <=? ti) && (ti <=? __pte_offset L end_)
  end.

Definition range_visits_pmd (L : layout) (start end_ : Z) (p : pte_ptr)
    : bool :=
  let i_min := __pmd_offset L start in
  let i_max := __pmd_offset L end_ in
  let mi := match p with At_pmd _ mi => mi | At_pte _ mi _ => mi end in
  (i_min <=? mi) && (mi <=? i_max)
  && range_visits_pte L (slot_start i_min start mi) (slot_end i_max end_ mi)
       p.

Definition range_visits_pgd (L : layout) (start end_ : Z) (p : pte_ptr)
    : bool :=
  let i_min := pgd_index L start in
  let i_max := pgd_index L end_ in
  let gi := match p with At_pmd gi _ => gi | At_pte gi _ _ => gi end in
  (i_min <=? gi) && (gi <=? i_max)
  && range_visits_pmd L (slot_start i_min start gi) (slot_end i_max end_ gi)
       p.

(** ** [kvm_pgd_init] on the words of the page (lines 75-96)

    The page directory is the list of the words from [page] on and [p] an
    index into it; a store outside the list is undefined. *)
Definition store_word (page : list Z) (i v : Z) : option (list Z) :=
  if (0 <=? i) && (i <? Z.of_nat (length page))
  then Some (<[Z.to_nat i := v]> page)
  else None.

(** The body of the [do ... while] loop: five stores, [p += 8], three
    stores below the new [p]. *)
Definition pgd_init_body (entry p : Z) (page : list Z)
    : option (Z * list Z) :=
  page ← store_word page (p + 0) entry;
  page ← store_word page (p + 1) entry;
  page ← store_word page (p + 2) entry;
  page ← store_word page (p + 3) entry;
  page ← store_word page (p + 4) entry;
  let p := p + 8 in
  page ← store_word page (p - 3) entry;
  page ← store_word page (p - 2) entry;
  page ← store_word page (p - 1) entry;
  Some (p, page).

(** [do body while (p != end)] *)
Fixpoint pgd_init_loop (fuel : nat) (entry p end_ : Z) (page : list Z)
    : option (list Z) :=
  match fuel with
  | O => None
  | S fuel' =>
      '(p, page) ← pgd_init_body entry p page;
      if negb (p =? end_) then pgd_init_loop fuel' entry p end_ page
      else Some page
  end.

(** [kvm_pgd_init(page)] for a directory of [ptrs_per_pgd] slots, [entry]
    being the address of the invalid middle-level table. Every pass that
    returns has stored eight words inside the page, so the loop makes at
    most [length page / 8] passes. *)
Definition kvm_pgd_init_words (ptrs_per_pgd entry : Z) (page : list Z)
    : option (list Z) :=
  pgd_init_loop (S (length page)) entry 0 ptrs_per_pgd page.

(** [kvm_pgd_alloc]: [block] is what [__get_free_pages] returns, [None]
    being NULL. *)
Definition kvm_pgd_alloc (ptrs_per_pgd entry : Z) (block : option (list Z))
    : option (option (list Z)) :=
  match block with
  | None => Some None
  | Some page =>
      page ← kvm_pgd_init_words ptrs_per_pgd entry page; Some (Some page)
  end.

(** * Properties *)
(** ** Machine arithmetic *)

Lemma modulus_pos : 0 < modulus.
Proof. reflexivity. Qed.

Lemma wrap_range x : 0 <= wrap x < modulus.
Proof. apply Z.mod_pos_bound, modulus_pos. Qed.

Lemma wrap_small x : 0 <= x < modulus -> wrap x = x.
Proof. apply Z.mod_small. Qed.

Lemma wrap_neg x : - modulus <= x < 0 -> wrap x = x + modulus.
Proof.
  intros Hx. unfold wrap.
  rewrite <- (Z.mod_add x 1 modulus) by (pose proof modulus_pos; lia).
  apply Z.mod_small. lia.
Qed.

(** ** The node cache *)

Lemma topup_loop_spec max fuel :
  forall cache host,
    Z.of_nat fuel = max - nobjs cache ->
    let '(ret, cache', host') := topup_loop fuel cache max host in
    if supplies host fuel
    then ret = 0 /\ nobjs cache' = max /\ host' = drop fuel host
    else ret = - ENOMEM /\ nobjs cache' < max.
Proof.
  induction fuel as [|fuel IH]; intros cache host Hfuel.
  - unfold supplies. rewrite take_0, drop_0. cbn. repeat split; lia.
  - cbn [topup_loop].
    destruct (Z.ltb_spec (nobjs cache) max) as [Hlt|Hge]; [|lia].
    destruct host as [|p host]; cbn [__get_free_page].
    + unfold supplies. cbn. split; [reflexivity | lia].
    + destruct (Z.eqb_spec p 0) as [->|Hp].
      * unfold supplies. cbn [length take forallb Z.eqb negb andb].
        rewrite andb_false_r. cbn. split; [reflexivity | lia].
      * specialize (IH (mk_cache (nobjs cache + 1)
                          (<[Z.to_nat (nobjs cache) := p]> (objects cache)))
                       host).
        cbn [nobjs] in IH. specialize (IH ltac:(lia)).
        destruct (topup_loop fuel _ max host) as [[ret cache'] host'].
        unfold supplies in *. cbn [length take forallb drop].
        replace (S fuel <=? S (length host))%nat
          with (fuel <=? length host)%nat by reflexivity.
        destruct (Z.eqb_spec p 0) as [?|_]; [contradiction|].
        cbn [negb andb]. exact IH.
Qed.

(** C6, as amended. Let the pool hold [nobjs] nodes and [min <= max <=
    KVM_NR_MEM_OBJS]. [mmu_topup_memory_cache] always returns, with 0 or
    [-ENOMEM]. When the pool already holds [min] nodes it returns 0 and
    leaves pool and host untouched (no top-up to [max]). Otherwise it returns
    0 exactly when the host supplies all [max - nobjs] pages, and the pool
    then holds [max] nodes; it returns [-ENOMEM] exactly when the pool held
    fewer than [min] nodes and the host fails to supply one of the
    [max - nobjs] pages, whether or not [min] had been reached by then. On
    every success at least [min] nodes are available. *)
Theorem C6_topup_contract (NR : Z) (cache : kvm_mmu_memory_cache)
    (min max : Z) (host : list Z) :
  min <= max -> max <= NR ->
  exists ret cache' host',
    mmu_topup_memory_cache NR cache min max host = Some (ret, cache', host')
    /\ (ret = 0 \/ ret = - ENOMEM)
    /\ (ret = 0 -> min <= nobjs cache')
    /\ (min <= nobjs cache -> ret = 0 /\ cache' = cache /\ host' = host)
    /\ (nobjs cache < min -> ret = 0 -> nobjs cache' = max)
    /\ (ret = - ENOMEM <->
        nobjs cache < min
        /\ supplies host (Z.to_nat (max - nobjs cache)) = false).
Proof.
  intros Hmm Hcap. unfold mmu_topup_memory_cache.
  destruct (Z.ltb_spec NR max) as [?|_]; [lia|].
  destruct (Z.leb_spec min (nobjs cache)) as [Hge|Hlt].
  - exists 0, cache, host. unfold ENOMEM. repeat split; try lia; auto.
    all: intros; lia.
  - pose proof (topup_loop_spec max (Z.to_nat (max - nobjs cache)) cache host
                  ltac:(lia)) as Hloop.
    destruct (topup_loop _ cache max host) as [[ret cache'] host'].
    exists ret, cache', host'. split; [reflexivity|].
    destruct (supplies host _).
    + destruct Hloop as (-> & Hn & _). unfold ENOMEM.
      split; [now left|]. split; [lia|]. split; [lia|]. split; [lia|].
      split; [discriminate | intros [_ ?]; discriminate].
    + destruct Hloop as (-> & Hn). unfold ENOMEM.
      split; [now right|]. split; [discriminate|]. split; [lia|].
      split; [discriminate|]. split; [now split | reflexivity].
Qed.

Lemma C6_topup_contract_witness :
  2 <= 4 /\ 4 <= 4 /\
  exists ret cache' host',
    mmu_topup_memory_cache 4 (mk_cache 0 [0; 0; 0; 0]) 2 4 [100; 200; 300]
    = Some (ret, cache', host')
    /\ (ret = 0 \/ ret = - ENOMEM)
    /\ (ret = 0 -> 2 <= nobjs cache')
    /\ (2 <= nobjs (mk_cache 0 [0; 0; 0; 0]) ->
        ret = 0 /\ cache' = mk_cache 0 [0; 0; 0; 0]
        /\ host' = [100; 200; 300])
    /\ (nobjs (mk_cache 0 [0; 0; 0; 0]) < 2 -> ret = 0 -> nobjs cache' = 4)
    /\ (ret = - ENOMEM <->
        nobjs (mk_cache 0 [0; 0; 0; 0]) < 2
        /\ supplies [100; 200; 300]
             (Z.to_nat (4 - nobjs (mk_cache 0 [0; 0; 0; 0]))) = false).
Proof.
  split; [lia|]. split; [lia|].
  apply (C6_topup_contract 4 (mk_cache 0 [0; 0; 0; 0]) 2 4 [100; 200; 300]);
    lia.
Defined.

(** C6 as stated fails twice. With an empty pool, [min = 2], [max = 4] and a
    host that supplies three pages, the call fails with [-ENOMEM] although
    the pool reached [min] (it holds three nodes). With a pool that already
    holds [min = 2] nodes the call succeeds without topping up to [max]. *)
Lemma C6_topup_counterexample :
  mmu_topup_memory_cache 4 (mk_cache 0 [0; 0; 0; 0]) 2 4 [100; 200; 300]
  = Some (- ENOMEM, mk_cache 3 [100; 200; 300; 0], [])
  /\ 2 <= nobjs (mk_cache 3 [100; 200; 300; 0])
  /\ mmu_topup_memory_cache 4 (mk_cache 2 [7; 8; 0; 0]) 2 4 [100; 200; 300]
     = Some (0, mk_cache 2 [7; 8; 0; 0], [100; 200; 300])
  /\ nobjs (mk_cache 2 [7; 8; 0; 0]) <> 4.
Proof. vm_compute. repeat split; congruence. Qed.

(** ** Address translation of the dune process *)

(** C10, the defect. [get_pabit] is a stub that returns 1, so [phys_end] is 2
    and the window arithmetic wraps. For every stack window larger than
    three bytes (and windows that fit the address space), the first address
    of the stack window translates to a guest-physical address other than
    [ADDR_INVAL], and translating that back yields [ADDR_INVAL], not the
    address. *)
Theorem C10_stack_window_does_not_round_trip
    (GPA_STACK_SIZE GPA_MAP_SIZE : Z) (LG_ALIGN : Z -> Z) (mm : mm_struct) :
  3 < GPA_STACK_SIZE -> 0 <= GPA_MAP_SIZE ->
  GPA_STACK_SIZE + GPA_MAP_SIZE < modulus ->
  let hva := usub (LG_ALIGN (start_stack mm)) GPA_STACK_SIZE in
  hva <> ADDR_INVAL ->
  dune_hva_to_gpa GPA_STACK_SIZE GPA_MAP_SIZE LG_ALIGN mm hva <> ADDR_INVAL
  /\ dune_gpa_to_hva GPA_STACK_SIZE GPA_MAP_SIZE LG_ALIGN mm
       (dune_hva_to_gpa GPA_STACK_SIZE GPA_MAP_SIZE LG_ALIGN mm hva)
     = ADDR_INVAL
  /\ dune_gpa_to_hva GPA_STACK_SIZE GPA_MAP_SIZE LG_ALIGN mm
       (dune_hva_to_gpa GPA_STACK_SIZE GPA_MAP_SIZE LG_ALIGN mm hva)
     <> hva.
Proof.
  intros Hs Hm Hfit hva Hhva.
  assert (Hmod : modulus = 18446744073709551616) by reflexivity.
  assert (Hgpa : dune_hva_to_gpa GPA_STACK_SIZE GPA_MAP_SIZE LG_ALIGN mm hva
                 = modulus + 2 - GPA_STACK_SIZE).
  { unfold dune_hva_to_gpa. fold hva.
    destruct (Z.leb_spec hva hva) as [_|?]; [|lia].
    assert (H0 : usub hva hva = 0)
      by (unfold usub; rewrite Z.sub_diag; reflexivity).
    rewrite H0.
    destruct (Z.leb_spec GPA_STACK_SIZE 0) as [?|_]; [lia|].
    change (ushl 1 get_pabit) with 2. change (uadd 0 2) with 2.
    unfold usub. rewrite wrap_neg by lia. lia. }
  assert (Hback : dune_gpa_to_hva GPA_STACK_SIZE GPA_MAP_SIZE LG_ALIGN mm
                    (modulus + 2 - GPA_STACK_SIZE) = ADDR_INVAL).
  { unfold dune_gpa_to_hva. change (ushl 1 get_pabit) with 2.
    assert (H1 : usub 2 GPA_STACK_SIZE = modulus + 2 - GPA_STACK_SIZE)
      by (unfold usub; rewrite wrap_neg by lia; lia).
    rewrite H1.
    assert (H2 : usub (modulus + 2 - GPA_STACK_SIZE) GPA_MAP_SIZE
                 = modulus + 2 - GPA_STACK_SIZE - GPA_MAP_SIZE)
      by (unfold usub; apply wrap_small; lia).
    rewrite H2.
    destruct (Z.ltb_spec (modulus + 2 - GPA_STACK_SIZE)
                (modulus + 2 - GPA_STACK_SIZE - GPA_MAP_SIZE)); [lia|].
    destruct (Z.ltb_spec (modulus + 2 - GPA_STACK_SIZE)
                (modulus + 2 - GPA_STACK_SIZE)); [lia|].
    destruct (Z.ltb_spec (modulus + 2 - GPA_STACK_SIZE) 2); [lia|].
    reflexivity. }
  rewrite Hgpa, Hback. split; [|split]; [|reflexivity|congruence].
  change ADDR_INVAL with (modulus - 1). lia.
Qed.

Lemma C10_stack_window_does_not_round_trip_witness :
  let mm := mk_mm (2 ^ 40) (2 ^ 47 - 2 ^ 20) in
  let hva := usub (dune_LG_ALIGN (start_stack mm)) dune_GPA_STACK_SIZE in
  3 < dune_GPA_STACK_SIZE /\ 0 <= dune_GPA_MAP_SIZE
  /\ dune_GPA_STACK_SIZE + dune_GPA_MAP_SIZE < modulus
  /\ hva <> ADDR_INVAL
  /\ dune_hva_to_gpa dune_GPA_STACK_SIZE dune_GPA_MAP_SIZE dune_LG_ALIGN mm hva
     <> ADDR_INVAL
  /\ dune_gpa_to_hva dune_GPA_STACK_SIZE dune_GPA_MAP_SIZE dune_LG_ALIGN mm
       (dune_hva_to_gpa dune_GPA_STACK_SIZE dune_GPA_MAP_SIZE dune_LG_ALIGN
          mm hva)
     = ADDR_INVAL
  /\ dune_gpa_to_hva dune_GPA_STACK_SIZE dune_GPA_MAP_SIZE dune_LG_ALIGN mm
       (dune_hva_to_gpa dune_GPA_STACK_SIZE dune_GPA_MAP_SIZE dune_LG_ALIGN
          mm hva)
     <> hva.
Proof.
  intros mm hva.
  split; [reflexivity|]. split; [discriminate|]. split; [reflexivity|].
  assert (Hh : hva <> ADDR_INVAL) by (vm_compute; discriminate).
  split; [exact Hh|].
  apply (C10_stack_window_does_not_round_trip
           dune_GPA_STACK_SIZE dune_GPA_MAP_SIZE dune_LG_ALIGN mm);
    [reflexivity | discriminate | reflexivity | exact Hh].
Defined.

(** The failing input of C10 evaluated: with the dune windows, a stack at
    [2^47 - 2^20] and the first address of the stack window. *)
Example dune_stack_start_evaluated :
  let mm := mk_mm (2 ^ 40) (2 ^ 47 - 2 ^ 20) in
  let H2G :=
    dune_hva_to_gpa dune_GPA_STACK_SIZE dune_GPA_MAP_SIZE dune_LG_ALIGN mm in
  let G2H :=
    dune_gpa_to_hva dune_GPA_STACK_SIZE dune_GPA_MAP_SIZE dune_LG_ALIGN mm in
  H2G 140736414613504 = 18446744072635809794
  /\ G2H (H2G 140736414613504) = 18446744073709551615
  /\ ADDR_INVAL = 18446744073709551615.
Proof. vm_compute. repeat split. Qed.

(** ** The young probe *)

Lemma for_each_memslot_empty_range (L : layout) (handler : hva_handler)
    (hva ret : Z) (slots : list (kvm_memory_slot)) (kvm : vz_vm) :
  for_each_memslot L slots kvm hva hva handler ret = Some (ret, kvm).
Proof.
  induction slots as [|s slots IH]; [reflexivity|].
  cbn [for_each_memslot].
  destruct (Z.leb_spec (Z.min hva (uadd (userspace_addr s)
                                        (ushl (npages s) (PAGE_SHIFT L))))
                       (Z.max hva (userspace_addr s))) as [_|Hlt];
    [exact IH | lia].
Qed.

(** C7, the defect. [kvm_test_age_hva] hands [handle_hva_to_gpa] the empty
    range from [hva] to [hva], so every memory slot is skipped and the probe
    returns 0 for every virtual machine and every address, whatever the
    young flag of the entry is. *)
Theorem C7_test_age_always_zero (L : layout) (kvm : vz_vm) (hva : Z) :
  kvm_test_age_hva L kvm hva = Some (0, kvm).
Proof. apply for_each_memslot_empty_range. Qed.

(** The failing input of C7: a slot that covers [hva = 2^28], guest frame 0
    mapped by a present young leaf. The handler run on that frame reports
    the young bit; the probe reports 0. *)
Example test_age_misses_young_entry :
  load ex_pgd_leaf (At_pte 0 0 0) = Some ex_young_pte
  /\ pte_present layout16k ex_young_pte = true
  /\ pte_young layout16k ex_young_pte = true
  /\ (fst <$> kvm_test_age_hva_handler layout16k ex_kvm_leaf 0 1 ex_slot)
     = Some (_PAGE_ACCESSED layout16k)
  /\ (fst <$> kvm_test_age_hva layout16k ex_kvm_leaf (2 ^ 28)) = Some 0.
Proof. vm_compute. repeat split. Qed.

(** ** Change reporting of the range operations *)

(** C3, the defect. The huge branch of the middle-level loop stores the new
    value and continues without setting [ret]. Marking clean the range that
    holds a present dirty huge entry changes the entry and still returns 0;
    so does marking it old. *)
Theorem C3_huge_change_not_reported :
  load ex_pgd_huge (At_pmd 0 0) = Some ex_huge_dirty
  /\ pmdv_present layout16k ex_huge_dirty = true
  /\ pmd_mkclean layout16k ex_huge_dirty <> ex_huge_dirty
  /\ (exists kvm',
        kvm_mips_mkclean_gpa_pt layout16k ex_kvm_huge 0 2047 = Some (0, kvm')
        /\ load (gpa_mm_pgd kvm') (At_pmd 0 0)
           = Some (pmd_mkclean layout16k ex_huge_dirty))
  /\ (exists kvm',
        kvm_mips_mkold_gpa_pt layout16k ex_kvm_huge 0 2047 = Some (0, kvm')
        /\ load (gpa_mm_pgd kvm') (At_pmd 0 0)
           = Some (pmd_mkold layout16k ex_huge_dirty)
        /\ pmd_mkold layout16k ex_huge_dirty <> ex_huge_dirty).
Proof.
  split; [vm_compute; reflexivity|].
  split; [vm_compute; reflexivity|].
  split; [vm_compute; discriminate|].
  split.
  - destruct (kvm_mips_mkclean_gpa_pt layout16k ex_kvm_huge 0 2047)
      as [[r kvm']|] eqn:E; [|vm_compute in E; discriminate].
    exists kvm'.
    assert (r = 0) as ->.
    { apply (f_equal (fmap fst)) in E. vm_compute in E. congruence. }
    split; [reflexivity|].
    apply (f_equal (fun o => r ← o; load (gpa_mm_pgd (snd r))
                                      (At_pmd 0 0))) in E.
    cbn [mbind option_bind snd] in E. rewrite <- E. vm_compute. reflexivity.
  - destruct (kvm_mips_mkold_gpa_pt layout16k ex_kvm_huge 0 2047)
      as [[r kvm']|] eqn:E; [|vm_compute in E; discriminate].
    exists kvm'.
    assert (r = 0) as ->.
    { apply (f_equal (fmap fst)) in E. vm_compute in E. congruence. }
    split; [reflexivity|].
    split; [|vm_compute; discriminate].
    apply (f_equal (fun o => r ← o; load (gpa_mm_pgd (snd r))
                                      (At_pmd 0 0))) in E.
    cbn [mbind option_bind snd] in E. rewrite <- E. vm_compute. reflexivity.
Qed.

(** ** The fault handler *)

(** When the exception code is a read-inhibit or execute-inhibit one the
    fast path is skipped with [err] still 0; if no memory slot covers the
    frame the handler then leaves through [out] and returns that 0 without
    touching the page table. *)
Lemma map_page_stale_success (L : layout) (vcpu : vz_vcpu)
    (h : host_env) (gpa : Z) (write_fault out_entry out_buddy : bool) :
  let exccode :=
    Z.land (ushr (host_cp0_cause vcpu) (CAUSEB_EXCCODE L)) 31 in
  exccode = EXCCODE_TLBRI L \/ exccode = EXCCODE_TLBXI L ->
  gfn_to_memslot (vcpu_kvm vcpu) (ushr gpa (PAGE_SHIFT L)) = None ->
  kvm_mips_map_page L vcpu h gpa write_fault out_entry out_buddy
  = Some (mk_result 0 vcpu None None []).
Proof.
  intros exccode Hexc Hslot. unfold kvm_mips_map_page. fold exccode.
  assert (negb (exccode =? EXCCODE_TLBRI L)
          && negb (exccode =? EXCCODE_TLBXI L) = false) as ->.
  { destruct Hexc as [-> | ->]; rewrite Z.eqb_refl; cbn;
      [reflexivity | apply andb_false_r]. }
  cbn [mbind option_bind]. rewrite Hslot. reflexivity.
Qed.

(** C1, the defect. A read fault with exception code [EXCCODE_TLBRI] on a
    guest-physical address that no memory slot covers returns 0, the
    success value, although the page table holds no entry for the address
    afterwards: the read-only walk still returns NULL. *)
Theorem C1_success_without_entry :
  exists r,
    kvm_mips_map_page layout16k ex_vcpu_tlbri ex_host_none 0 false false false
    = Some r
    /\ fr_err r = 0
    /\ fr_vcpu r = ex_vcpu_tlbri
    /\ (fst <$> kvm_mips_pte_for_gpa layout16k (vcpu_kvm (fr_vcpu r)) None 0)
       = Some (None, vcpu_kvm ex_vcpu_tlbri).
Proof.
  eexists. split.
  - apply map_page_stale_success; [left|]; reflexivity.
  - repeat split.
Qed.

(** ** Bit masks *)

Lemma pow2_pos k : 0 <= k -> 0 < 2 ^ k.
Proof. intros. apply Z.pow_pos_nonneg; lia. Qed.

Lemma pow2_le_modulus k : 0 <= k <= wordsize -> 2 ^ k <= modulus.
Proof.
  intros. unfold modulus. apply Z.pow_le_mono_r; lia.
Qed.

Lemma shiftl_1 k : 0 <= k -> Z.shiftl 1 k = 2 ^ k.
Proof. intros. rewrite Z.shiftl_mul_pow2 by lia. lia. Qed.

(** [x & (size - 1)] for a power of two [size] *)
Lemma land_low_mask x k :
  0 <= k <= wordsize -> Z.land x (usub (2 ^ k) 1) = x mod 2 ^ k.
Proof.
  intros Hk. pose proof (pow2_pos k ltac:(lia)).
  pose proof (pow2_le_modulus k Hk).
  unfold usub. rewrite wrap_small by lia.
  replace (2 ^ k - 1) with (Z.ones k) by (rewrite Z.ones_equiv; lia).
  apply Z.land_ones. lia.
Qed.

(** [x & ~(size - 1)] for a power of two [size] *)
Lemma land_high_mask x k :
  0 <= k <= wordsize -> 0 <= x < modulus ->
  Z.land x (unot (usub (2 ^ k) 1)) = x - x mod 2 ^ k.
Proof.
  intros Hk Hx. pose proof (pow2_pos k ltac:(lia)).
  pose proof (pow2_le_modulus k Hk).
  unfold usub, unot. rewrite (wrap_small (2 ^ k - 1)) by lia.
  replace (2 ^ k - 1) with (Z.ones k) by (rewrite Z.ones_equiv; lia).
  unfold wrap, modulus. rewrite <- Z.land_ones by (unfold wordsize; lia).
  rewrite (Z.land_comm (Z.lnot _)), Z.land_assoc.
  rewrite (Z.land_ones x) by (unfold wordsize; lia).
  fold modulus. rewrite (Z.mod_small x) by lia.
  rewrite <- Z.ldiff_land.
  rewrite Z.ldiff_ones_r by lia.
  rewrite Z.shiftl_mul_pow2, Z.shiftr_div_pow2 by lia.
  pose proof (Z.div_mod x (2 ^ k) ltac:(lia)). lia.
Qed.

(** ** Huge-page eligibility *)

Lemma wrap_le x : 0 <= x -> wrap x <= x.
Proof.
  intros Hx. unfold wrap. apply Z.mod_le; [exact Hx|]. reflexivity.
Qed.

(** What a true answer of [fault_supports_huge_mapping] means for a
    power-of-two [map_size] and an address whose window ends below the top
    of the address space. The slot's own sums may wrap: a wrapped end lies
    below the slot's start, where no window passes the test. *)
Lemma fault_supports_huge_mapping_sound (L : layout)
    (memslot : kvm_memory_slot) (hva k : Z) :
  0 <= PAGE_SHIFT L -> 0 <= k ->
  0 <= hva -> hva - hva mod 2 ^ k + 2 ^ k < modulus ->
  0 <= base_gfn memslot -> 0 <= npages memslot ->
  0 <= userspace_addr memslot ->
  fault_supports_huge_mapping L memslot hva (2 ^ k) = true ->
  (base_gfn memslot * PAGE_SIZE L) mod 2 ^ k
  = userspace_addr memslot mod 2 ^ k
  /\ userspace_addr memslot <= hva - hva mod 2 ^ k
  /\ hva - hva mod 2 ^ k + 2 ^ k
     <= userspace_addr memslot + npages memslot * PAGE_SIZE L.
Proof.
  intros Hps Hk0 Hhva Htop Hb Hn Hu Hsup.
  pose proof (pow2_pos k Hk0) as Hk2.
  pose proof (pow2_pos (PAGE_SHIFT L) Hps) as Hp2.
  pose proof (Z.mod_pos_bound hva (2 ^ k) Hk2) as Hm.
  pose proof (Z.mod_le hva (2 ^ k) Hhva Hk2) as Hml.
  assert (Hk : 0 <= k <= wordsize).
  { split; [exact Hk0|].
    destruct (Z_le_gt_dec k wordsize) as [|Hgt]; [assumption|].
    exfalso. assert (modulus <= 2 ^ k)
      by (unfold modulus; apply Z.pow_le_mono_r; lia). lia. }
  unfold fault_supports_huge_mapping in Hsup.
  rewrite !land_low_mask, land_high_mask in Hsup by lia.
  unfold PAGE_SIZE in *. rewrite shiftl_1 in * by lia.
  destruct (Z.eqb_spec (ushl (base_gfn memslot) (PAGE_SHIFT L) mod 2 ^ k)
                       (userspace_addr memslot mod 2 ^ k)) as [Heq|];
    [|discriminate].
  cbn [negb] in Hsup. apply andb_prop in Hsup as [Hlo Hhi].
  apply Z.leb_le in Hlo, Hhi.
  assert (Hw : uadd (hva - hva mod 2 ^ k) (2 ^ k)
               = hva - hva mod 2 ^ k + 2 ^ k)
    by (unfold uadd; apply wrap_small; lia).
  rewrite Hw in Hhi.
  set (size := umul (npages memslot) (2 ^ PAGE_SHIFT L)) in *.
  assert (Hsize : 0 <= size <= npages memslot * 2 ^ PAGE_SHIFT L).
  { subst size. unfold umul. split; [apply wrap_range|].
    apply wrap_le. nia. }
  assert (Hsz : size < modulus)
    by (subst size; unfold umul; apply wrap_range).
  split; [|split].
  - rewrite <- Heq. unfold ushl, wrap.
    rewrite Z.shiftl_mul_pow2 by lia.
    symmetry. apply Z.mod_mod_divide.
    unfold modulus. exists (2 ^ (wordsize - k)).
    rewrite <- Z.pow_add_r by lia. f_equal. lia.
  - exact Hlo.
  - destruct (Z_lt_le_dec (userspace_addr memslot + size) modulus)
      as [Hfit|Hwrap].
    + unfold uadd in Hhi. rewrite wrap_small in Hhi by lia. lia.
    + exfalso. unfold uadd, wrap in Hhi.
      assert (E : (userspace_addr memslot + size) mod modulus
                  = userspace_addr memslot + size - modulus).
      { symmetry. apply (Z.mod_unique _ _ 1); lia. }
      rewrite E in Hhi. lia.
Qed.

(** *** Only the huge path of the slow path stores a middle-level entry *)

Lemma quiet_app evs1 evs2 : quiet evs1 -> quiet evs2 -> quiet (evs1 ++ evs2).
Proof. unfold quiet. rewrite Forall_app. auto. Qed.

Lemma quiet_not_in evs a v : quiet evs -> ~ In (pmd_set_at a v) evs.
Proof.
  unfold quiet. rewrite Forall_forall. intros H Hin.
  apply list_elem_of_In in Hin. specialize (H _ Hin). discriminate.
Qed.

Lemma quiet_mark_block_dirty L base : quiet (mark_block_dirty L base).
Proof.
  unfold quiet, mark_block_dirty. apply Forall_fmap, Forall_true.
  reflexivity.
Qed.

Create HintDb quiet.
Local Hint Resolve quiet_app quiet_mark_block_dirty : quiet.
Local Hint Extern 1 (quiet _) =>
  (unfold quiet; repeat constructor) : quiet.

(** Peel one step off a computation in the option monad that is known to
    succeed. *)
Ltac unbind1 H :=
  lazymatch type of H with
  | mbind _ ?m = Some _ =>
      let E := fresh "E" in
      destruct m eqn:E;
      cbn [mbind option_bind fmap option_fmap option_map] in H;
      [|discriminate H]
  | (if ?b then _ else _) = Some _ =>
      let E := fresh "E" in destruct b eqn:E
  | (let '(_, _) := ?p in _) = Some _ =>
      let E := fresh "E" in destruct p eqn:E
  | match ?x with _ => _ end = Some _ =>
      let E := fresh "E" in destruct x eqn:E; try discriminate H
  end.
Ltac unbind H := repeat unbind1 H.
Ltac unbind_all :=
  repeat match goal with
         | H : None = Some _ |- _ => discriminate H
         | H : Some _ = Some _ |- _ => progress simplify_eq
         | H : _ = Some _ |- _ => progress (unbind1 H)
         end.

Lemma fast_path_quiet L vcpu gpa write_fault oe ob r :
  _kvm_mips_map_page_fast L vcpu gpa write_fault oe ob = Some r ->
  quiet (fr_events r)
  /\ memslots (vcpu_kvm (fr_vcpu r)) = memslots (vcpu_kvm vcpu).
Proof.
  unfold _kvm_mips_map_page_fast, kvm_mips_pte_for_gpa. intros H.
  unbind_all; cbn; split; repeat case_match; auto 6 with quiet.
Qed.

Lemma thp_adjust_quiet L thp pfn gpa b pfn' gpa' evs :
  transparent_hugepage_adjust L thp pfn gpa = Some (b, pfn', gpa', evs) ->
  quiet evs.
Proof.
  unfold transparent_hugepage_adjust. intros H.
  unbind_all; auto with quiet.
Qed.

(** The commit step logs a middle-level store only when it runs with the
    huge size, or promotes to it after [fault_supports_huge_mapping] agreed. *)
Lemma map_page_commit_huge_only L kvm mc h memslot hva gpa gfn write_fault
    vma_pagesize force_pte pfn writeable oe ob kvm' mc' entry buddy evs :
  map_page_commit L kvm mc h memslot hva gpa gfn write_fault vma_pagesize
    force_pte pfn writeable oe ob = Some (kvm', mc', entry, buddy, evs) ->
  ~ quiet evs ->
  vma_pagesize = PMD_SIZE L
  \/ fault_supports_huge_mapping L memslot hva (PMD_SIZE L) = true.
Proof.
  unfold map_page_commit. intros H Hloud.
  destruct ((vma_pagesize =? PAGE_SIZE L) && negb force_pte
            && fault_supports_huge_mapping L memslot hva (PMD_SIZE L))
    eqn:Epromote.
  - right. apply andb_prop in Epromote as [_ ?]. assumption.
  - cbn [mbind option_bind] in H.
    destruct (vma_pagesize =? PMD_SIZE L) eqn:Esize.
    + left. apply Z.eqb_eq. assumption.
    + exfalso. apply Hloud. unbind_all.
      repeat case_match; auto 8 with quiet.
Qed.

Lemma map_page_retry_huge_only L atts :
  forall vcpu h memslot hva gpa gfn write_fault vma_pagesize force_pte oe ob
         evs r,
    map_page_retry L atts vcpu h memslot hva gpa gfn write_fault vma_pagesize
      force_pte oe ob evs = Some r ->
    quiet evs -> ~ quiet (fr_events r) ->
    vma_pagesize = PMD_SIZE L
    \/ fault_supports_huge_mapping L memslot hva (PMD_SIZE L) = true.
Proof.
  induction atts as [|a atts IH]; intros * H Hq Hloud; [discriminate|].
  cbn [map_page_retry] in H.
  destruct (gfn_to_pfn_prot a gfn write_fault) as [[pfn writeable]|].
  - destruct (negb (_ =? _)) in H.
    + eapply IH; eauto with quiet.
    + unbind_all. cbn in Hloud.
      eapply map_page_commit_huge_only; [eassumption|].
      intros Hc. apply Hloud. auto with quiet.
  - injection H as <-. cbn in Hloud. contradiction.
Qed.

Lemma page_size_lt_pmd_size L :
  0 <= PAGE_SHIFT L -> 0 < PTE_BITS L -> PAGE_SIZE L < PMD_SIZE L.
Proof.
  intros. unfold PAGE_SIZE, PMD_SIZE, PMD_SHIFT.
  rewrite !shiftl_1 by lia. apply Z.pow_lt_mono_r; lia.
Qed.

(** [kvm_mips_map_page] logs a middle-level store only if
    [fault_supports_huge_mapping] holds at [PMD_SIZE] for the slot and host
    address the fault resolves to. *)
Lemma map_page_huge_only (L : layout) (vcpu : vz_vcpu) (h : host_env)
    (gpa : Z) (write_fault out_entry out_buddy : bool) (r : fault_result) :
  0 <= PAGE_SHIFT L -> 0 < PTE_BITS L ->
  kvm_mips_map_page L vcpu h gpa write_fault out_entry out_buddy = Some r ->
  (exists a v, In (pmd_set_at a v) (fr_events r)) ->
  exists slot hva' writable,
    gfn_to_hva_memslot_prot L
      (gfn_to_memslot (vcpu_kvm vcpu) (ushr gpa (PAGE_SHIFT L)))
      (ushr gpa (PAGE_SHIFT L))
    = Some (slot, hva', writable)
    /\ fault_supports_huge_mapping L slot hva' (PMD_SIZE L) = true.
Proof.
  intros Hps Hpte Hrun (a & v & Hin).
  assert (Hloud : ~ quiet (fr_events r))
    by (intros Hq; exact (quiet_not_in _ _ _ Hq Hin)).
  unfold kvm_mips_map_page in Hrun.
  set (gfn := ushr gpa (PAGE_SHIFT L)) in *.
  (* the slow path, entered with a quiet log and the same slots *)
  assert (Hslow : forall err vcpu' evs,
    memslots (vcpu_kvm vcpu') = memslots (vcpu_kvm vcpu) -> quiet evs ->
    match gfn_to_hva_memslot_prot L (gfn_to_memslot (vcpu_kvm vcpu') gfn) gfn
    with
    | None => Some (mk_result err vcpu' None None evs)
    | Some (memslot, hva, writable) =>
        if write_fault && negb writable
        then Some (mk_result err vcpu' None None evs)
        else
          match vma_kernel_pagesize h hva with
          | None =>
              Some (mk_result (- EFAULT) vcpu' None None
                              (evs ++ [dune_err hva]))
          | Some vps =>
              let '(force_pte, vma_pagesize) :=
                if negb (fault_supports_huge_mapping L memslot hva vps)
                then (true, PAGE_SIZE L) else (false, vps) in
              let gfn :=
                if vma_pagesize =? PMD_SIZE L
                then ushr (Z.land gpa (unot (usub vps 1))) (PAGE_SHIFT L)
                else gfn in
              '(err, memcache, _) ←
                mmu_topup_memory_cache (KVM_NR_MEM_OBJS L)
                  (mmu_page_cache vcpu') KVM_MMU_CACHE_MIN_PAGES
                  (KVM_NR_MEM_OBJS L) (free_pages h);
              let vcpu := set_cache vcpu' memcache in
              if negb (err =? 0)
              then Some (mk_result err vcpu None None evs)
              else
                map_page_retry L (attempts h) vcpu h memslot hva gpa gfn
                  write_fault vma_pagesize force_pte out_entry out_buddy
                  evs
          end
    end = Some r ->
    exists slot hva' writable,
      gfn_to_hva_memslot_prot L (gfn_to_memslot (vcpu_kvm vcpu) gfn) gfn
      = Some (slot, hva', writable)
      /\ fault_supports_huge_mapping L slot hva' (PMD_SIZE L) = true).
  { clear Hrun. intros err vcpu' evs Hslots Hq Hs.
    assert (Hsame : gfn_to_memslot (vcpu_kvm vcpu') gfn
                    = gfn_to_memslot (vcpu_kvm vcpu) gfn)
      by (unfold gfn_to_memslot; now rewrite Hslots).
    rewrite Hsame in Hs.
    destruct (gfn_to_hva_memslot_prot L _ gfn) as [[[slot hva'] writable]|];
      [|simplify_eq; contradiction].
    exists slot, hva', writable. split; [reflexivity|].
    destruct (write_fault && negb writable); [simplify_eq; contradiction|].
    destruct (vma_kernel_pagesize h hva') as [vps|];
      [|simplify_eq; exfalso; apply Hloud; cbn; auto with quiet].
    destruct (fault_supports_huge_mapping L slot hva' vps) eqn:Esup;
      cbn [negb] in Hs.
    - destruct (mmu_topup_memory_cache _ _ _ _ _) as [[[e mc] fr]|];
        cbn [mbind option_bind] in Hs; [|discriminate].
      destruct (negb (e =? 0)); [simplify_eq; contradiction|].
      apply map_page_retry_huge_only in Hs as [Hsz | Hsup]; auto.
      now rewrite <- Hsz.
    - destruct (mmu_topup_memory_cache _ _ _ _ _) as [[[e mc] fr]|];
        cbn [mbind option_bind] in Hs; [|discriminate].
      destruct (negb (e =? 0)); [simplify_eq; contradiction|].
      apply map_page_retry_huge_only in Hs as [Hsz | Hsup]; auto.
      pose proof (page_size_lt_pmd_size L Hps Hpte). lia. }
  destruct (negb (_ =? EXCCODE_TLBRI L) && negb (_ =? EXCCODE_TLBXI L)).
  - destruct (_kvm_mips_map_page_fast L vcpu gpa write_fault out_entry
                out_buddy) as [rf|] eqn:Efast; [|discriminate].
    cbn [mbind option_bind fmap option_fmap option_map] in Hrun.
    apply fast_path_quiet in Efast as [Hq Hslots].
    destruct (fr_err rf =? 0); [simplify_eq; contradiction|].
    eapply Hslow; eauto.
  - cbn [mbind option_bind] in Hrun.
    eapply (Hslow 0 vcpu []); eauto with quiet.
Qed.

(** The unaligned edge: with both starts one base page past a boundary the
    first, partial block is refused and the interior blocks are accepted;
    with the host start alone offset every address is refused. *)
Example huge_mapping_at_the_unaligned_edge :
  fault_supports_huge_mapping layout16k ex_slot_offset (2 ^ 30 + 2 ^ 14)
    (PMD_SIZE layout16k) = false
  /\ fault_supports_huge_mapping layout16k ex_slot_offset
       (2 ^ 30 + 2 ^ 25 + 2 ^ 14) (PMD_SIZE layout16k) = true
  /\ fault_supports_huge_mapping layout16k ex_slot_offset
       (2 ^ 30 + 3 * 2 ^ 25 + 2 ^ 13) (PMD_SIZE layout16k) = false
  /\ fault_supports_huge_mapping layout16k ex_slot_skewed
       (2 ^ 30 + 2 ^ 25 + 2 ^ 14) (PMD_SIZE layout16k) = false.
Proof. vm_compute. repeat split. Qed.

(** ** Range loops *)

Lemma for_range_inv {St : Type} (body : Z -> Z -> St -> option St)
    (P : Z -> St -> Prop) (i0 start0 : Z) (fuel : nat) :
  forall i s s',
    i0 <= i ->
    for_range fuel i (if i =? i0 then start0 else 0) body s = Some s' ->
    P i s ->
    (forall j st st',
        i <= j < i + Z.of_nat fuel -> P j st ->
        body j (if j =? i0 then start0 else 0) st = Some st' ->
        P (j + 1) st') ->
    P (i + Z.of_nat fuel) s'.
Proof.
  induction fuel as [|fuel IH]; intros i s s' Hi Hrun HP Hstep.
  - cbn in Hrun. simplify_eq. now rewrite Z.add_0_r.
  - cbn [for_range] in Hrun.
    destruct (body i _ s) as [s1|] eqn:Hbody; [|discriminate].
    cbn [mbind option_bind] in Hrun.
    replace (i + Z.of_nat (S fuel)) with ((i + 1) + Z.of_nat fuel) by lia.
    apply (IH (i + 1) s1 s'); [lia | | |].
    + destruct (Z.eqb_spec (i + 1) i0); [lia | exact Hrun].
    + apply (Hstep i s s1); [lia | exact HP | exact Hbody].
    + intros j st st' Hj. apply Hstep. lia.
Qed.

Lemma trip_count_end i_min i_max :
  i_min <= i_max + 1 ->
  i_min + Z.of_nat (trip_count i_min i_max) = i_max + 1.
Proof. unfold trip_count. lia. Qed.

Lemma trip_count_empty i_min i_max :
  i_max < i_min -> trip_count i_min i_max = 0%nat.
Proof. unfold trip_count. lia. Qed.

Lemma idx_inj x y : 0 <= x -> 0 <= y -> idx x = idx y -> x = y.
Proof. unfold idx. lia. Qed.

(** A loop whose body rewrites the visited slot as [slot] prescribes is
    [slotwise]. The local [end] stays [~0ul] until the last index. *)
Section SlotLoop.
Context {A : Type}.
Variable slot : Z -> Z -> A -> option (A * bool).
Variable body : Z -> Z -> Z -> Z -> list A * Z * bool
                -> option (list A * Z * bool).
Hypothesis body_spec :
  forall i_max end_gpa i start tbl end_ safe tbl' end' safe',
    body i_max end_gpa i start (tbl, end_, safe) = Some (tbl', end', safe') ->
    exists old new b,
      tbl !! idx i = Some old
      /\ slot start (if i =? i_max then end_gpa else end_) old
         = Some (new, b)
      /\ tbl' = <[idx i := new]> tbl
      /\ safe' = safe && b
      /\ (i < i_max -> end' = end_).

Lemma slot_loop_slotwise i_min i_max start_gpa end_gpa tbl safe
    tbl' end' safe' :
  0 <= i_min ->
  for_range (trip_count i_min i_max) i_min start_gpa
    (body i_max end_gpa) (tbl, ULONG_MAX, safe) = Some (tbl', end', safe') ->
  slotwise (fun x => slot (slot_start i_min start_gpa x)
                          (slot_end i_max end_gpa x))
           i_min i_max tbl tbl' safe safe'.
Proof.
  intros Hmin Hrun.
  destruct (Z_lt_le_dec i_max i_min) as [Hempty|Hle].
  { rewrite trip_count_empty in Hrun by lia. cbn in Hrun. simplify_eq.
    split; [reflexivity|]. split; [auto|]. split; [auto|].
    intros x Hx. split; [lia | reflexivity]. }
  set (P := fun (j : Z) (st : list A * Z * bool) =>
    let '(t, e, s) := st in
    length t = length tbl
    /\ (j <= i_max -> e = ULONG_MAX)
    /\ (s = true -> safe = true)
    /\ (s = false ->
        safe = false
        \/ exists x old new,
             i_min <= x < j /\ tbl !! idx x = Some old
             /\ slot (slot_start i_min start_gpa x)
                     (slot_end i_max end_gpa x) old = Some (new, false))
    /\ forall x : Z, 0 <= x ->
         (i_min <= x < j ->
          exists old new b,
            tbl !! idx x = Some old /\ t !! idx x = Some new
            /\ slot (slot_start i_min start_gpa x)
                    (slot_end i_max end_gpa x) old = Some (new, b)
            /\ (s = true -> b = true)
            /\ (safe = true -> b = false -> s = false))
         /\ (~ (i_min <= x < j) -> t !! idx x = tbl !! idx x)).
  assert (Hfinal : P (i_min + Z.of_nat (trip_count i_min i_max))
                     (tbl', end', safe')).
  { apply (for_range_inv (body i_max end_gpa) P i_min start_gpa
             (trip_count i_min i_max) i_min (tbl, ULONG_MAX, safe));
      [lia | now rewrite Z.eqb_refl | |].
    - cbn. split; [reflexivity|]. split; [reflexivity|]. split; [auto|].
      split; [auto|].
      intros x Hx. split; [lia | reflexivity].
    - intros j [[t e] s] [[t1 e1] s1] Hj
             (Hlen & Hend & Hsafe & Hunsafe & Hslots) Hbody.
      rewrite trip_count_end in Hj by lia.
      apply body_spec in Hbody
        as (old & new & b & Hold & Hslot & -> & -> & He1).
      assert (Hjlen : (idx j < length t)%nat)
        by (apply lookup_lt_Some in Hold; exact Hold).
      assert (Hold0 : tbl !! idx j = Some old).
      { destruct (Hslots j ltac:(lia)) as [_ Hout].
        rewrite <- Hout by lia. exact Hold. }
      rewrite (Hend ltac:(lia)) in Hslot.
      fold (slot_end i_max end_gpa j) in Hslot.
      fold (slot_start i_min start_gpa j) in Hslot.
      cbn. split; [now rewrite length_insert|].
      split; [intros; rewrite He1 by lia; apply Hend; lia|].
      split; [intros [? _]%andb_prop; auto|].
      split.
      { intros [Hs | ->]%andb_false_iff.
        - destruct (Hunsafe Hs) as [? | (x & o & n & ? & ? & ?)];
            [now left | right].
          exists x, o, n. repeat split; auto; lia.
        - right. exists j, old, new. repeat split; auto; lia. }
      intros x Hx. split.
      + intros Hxj. destruct (Z.eq_dec x j) as [->|Hne].
        * exists old, new, b. rewrite list_lookup_insert_eq by exact Hjlen.
          repeat split; auto.
          -- now intros [_ ?]%andb_prop.
          -- intros _ ->. apply andb_false_r.
        * destruct (Hslots x Hx) as [Hin _].
          destruct (Hin ltac:(lia)) as (o & n & b' & Ho & Hn & Hs & Hb & Hb').
          exists o, n, b'.
          rewrite list_lookup_insert_ne
            by (intros Heq; apply idx_inj in Heq; lia).
          repeat split; auto.
          -- intros [? _]%andb_prop. auto.
          -- intros Hsafe0 Hbf. rewrite (Hb' Hsafe0 Hbf). reflexivity.
      + intros Hout. destruct (Hslots x Hx) as [_ Hout'].
        rewrite list_lookup_insert_ne
          by (intros Heq; apply idx_inj in Heq; lia).
        apply Hout'. lia. }
  rewrite trip_count_end in Hfinal by lia.
  cbn in Hfinal. destruct Hfinal as (Hlen & _ & Hsafe & Hunsafe & Hslots).
  split; [exact Hlen|]. split; [exact Hsafe|].
  split.
  { intros Hs. destruct (Hunsafe Hs) as [? | (x & o & n & ? & ? & ?)];
      [now left | right].
    exists x, o, n. repeat split; auto; lia. }
  intros x Hx. destruct (Hslots x Hx) as [Hin Hout]. split.
  - intros Hr. apply Hin. lia.
  - intros Hr. apply Hout. lia.
Qed.
End SlotLoop.

(** ** Table indices *)

Lemma land_ptrs_mask x bits :
  0 <= bits -> Z.land x (Z.shiftl 1 bits - 1) = x mod 2 ^ bits.
Proof.
  intros. rewrite shiftl_1 by lia.
  replace (2 ^ bits - 1) with (Z.ones bits) by (rewrite Z.ones_equiv; lia).
  apply Z.land_ones. lia.
Qed.

Lemma land_ptrs_range x bits :
  0 <= bits -> 0 <= Z.land x (Z.shiftl 1 bits - 1) < Z.shiftl 1 bits.
Proof.
  intros. rewrite land_ptrs_mask, shiftl_1 by lia.
  apply Z.mod_pos_bound, pow2_pos. lia.
Qed.

Lemma pte_offset_range L addr :
  0 <= PTE_BITS L -> 0 <= __pte_offset L addr < PTRS_PER_PTE L.
Proof. apply land_ptrs_range. Qed.

Lemma pmd_offset_range L addr :
  0 <= PMD_BITS L -> 0 <= __pmd_offset L addr < PTRS_PER_PMD L.
Proof. apply land_ptrs_range. Qed.

Lemma pgd_index_range L addr :
  0 <= PGD_BITS L -> 0 <= pgd_index L addr < PTRS_PER_PGD L.
Proof. apply land_ptrs_range. Qed.

Lemma pud_offset_zero L addr : __pud_offset L addr = 0.
Proof. unfold __pud_offset, PTRS_PER_PUD. apply Z.land_0_r. Qed.

(** ** What the flush loops do, slot by slot *)

Lemma flush_pte_char L pte start_gpa end_gpa r pte' :
  0 <= PTE_BITS L ->
  kvm_mips_flush_gpa_pte L pte start_gpa end_gpa = Some (r, pte') ->
  let i_min := __pte_offset L start_gpa in
  let i_max := __pte_offset L end_gpa in
  r = (i_min =? 0) && (i_max =? PTRS_PER_PTE L - 1)
  /\ length pte' = length pte
  /\ forall x, 0 <= x ->
       pte' !! idx x
       = if (i_min <=? x) && (x <=? i_max)
         then flush_pte_slot L <$> pte !! idx x
         else pte !! idx x.
Proof.
  intros Hbits Hrun i_min i_max. unfold kvm_mips_flush_gpa_pte in Hrun.
  fold i_min i_max in Hrun.
  destruct (for_range _ i_min start_gpa _ pte) as [t|] eqn:Hloop;
    [|discriminate].
  cbn [mbind option_bind] in Hrun. simplify_eq.
  split; [reflexivity|].
  pose proof (pte_offset_range L start_gpa Hbits) as Hmin. fold i_min in Hmin.
  destruct (Z_lt_le_dec i_max i_min) as [Hempty|Hle].
  { rewrite trip_count_empty in Hloop by lia. cbn in Hloop. simplify_eq.
    split; [reflexivity|]. intros x Hx.
    destruct (Z.leb_spec i_min x), (Z.leb_spec x i_max); cbn; auto; lia. }
  set (P := fun (j : Z) (t : list Z) =>
    length t = length pte
    /\ forall x, 0 <= x ->
         t !! idx x = if (i_min <=? x) && (x <? j)
                      then flush_pte_slot L <$> pte !! idx x
                      else pte !! idx x).
  assert (Hfinal : P (i_min + Z.of_nat (trip_count i_min i_max)) pte').
  { apply (for_range_inv (flush_pte_body L) P i_min start_gpa
             (trip_count i_min i_max) i_min pte);
      [lia | now rewrite Z.eqb_refl | |].
    - split; [reflexivity|]. intros x Hx.
      destruct (Z.leb_spec i_min x), (Z.ltb_spec x i_min); cbn; auto; lia.
    - intros j t t1 Hj [Hlen Hslots] Hbody.
      rewrite trip_count_end in Hj by lia.
      unfold flush_pte_body in Hbody.
      destruct (t !! idx j) as [e|] eqn:He; [|discriminate].
      cbn [mbind option_bind] in Hbody.
      assert (He0 : pte !! idx j = Some e).
      { rewrite <- He, (Hslots j ltac:(lia)).
        destruct (Z.ltb_spec j j); [lia|]. now rewrite andb_false_r. }
      assert (Ht1 : t1 = <[idx j := flush_pte_slot L e]> t).
      { unfold flush_pte_slot.
        destruct (pte_present L e); cbn [negb] in Hbody; simplify_eq;
          [reflexivity | now rewrite list_insert_id]. }
      subst t1. split; [now rewrite length_insert|].
      intros x Hx. destruct (Z.eq_dec x j) as [->|Hne].
      + rewrite list_lookup_insert_eq
          by (apply lookup_lt_Some in He; exact He).
        destruct (Z.leb_spec i_min j), (Z.ltb_spec j (j + 1)); try lia.
        cbn. now rewrite He0.
      + rewrite list_lookup_insert_ne
          by (intros Heq; apply idx_inj in Heq; lia).
        rewrite (Hslots x Hx).
        destruct (Z.leb_spec i_min x), (Z.ltb_spec x j),
                 (Z.ltb_spec x (j + 1)); cbn; auto; lia. }
  rewrite trip_count_end in Hfinal by lia. destruct Hfinal as [Hlen Hslots].
  split; [exact Hlen|]. intros x Hx. rewrite (Hslots x Hx).
  destruct (Z.leb_spec i_min x), (Z.ltb_spec x (i_max + 1)),
           (Z.leb_spec x i_max); cbn; auto; lia.
Qed.

Lemma flush_pmd_body_spec L i_max end_gpa i start tbl end_ safe tbl' end'
    safe' :
  flush_pmd_body L i_max end_gpa i start (tbl, end_, safe)
  = Some (tbl', end', safe') ->
  exists old new b,
    tbl !! idx i = Some old
    /\ flush_pmd_slot L start (if i =? i_max then end_gpa else end_) old
       = Some (new, b)
    /\ tbl' = <[idx i := new]> tbl
    /\ safe' = safe && b
    /\ (i < i_max -> end' = end_).
Proof.
  unfold flush_pmd_body, flush_pmd_slot. intros H.
  destruct (tbl !! idx i) as [old|] eqn:Hold; [|discriminate].
  cbn [mbind option_bind] in H. exists old.
  destruct (pmd_present L old); cbn [negb] in *.
  - destruct (pmd_huge L old).
    + simplify_eq. exists (pmd_cleared L), true.
      rewrite andb_true_r. auto.
    + destruct (pte_table_of old) as [pte|]; [|discriminate].
      cbn [mbind option_bind] in *.
      destruct (kvm_mips_flush_gpa_pte L pte start _) as [[r pte']|];
        [|discriminate].
      cbn [mbind option_bind] in *.
      destruct r; simplify_eq.
      * exists (pmd_cleared L), true. rewrite andb_true_r.
        repeat split; auto. intros. destruct (Z.eqb_spec i i_max); lia || auto.
      * exists (Pmd_table pte'), false. rewrite andb_false_r.
        repeat split; auto. intros. destruct (Z.eqb_spec i i_max); lia || auto.
  - simplify_eq. exists old, true.
    rewrite andb_true_r, list_insert_id by exact Hold. auto.
Qed.

Lemma flush_pmd_char L pmd start_gpa end_gpa r pmd' :
  0 <= PMD_BITS L ->
  kvm_mips_flush_gpa_pmd L pmd start_gpa end_gpa = Some (r, pmd') ->
  let i_min := __pmd_offset L start_gpa in
  let i_max := __pmd_offset L end_gpa in
  slotwise (fun x => flush_pmd_slot L (slot_start i_min start_gpa x)
                                    (slot_end i_max end_gpa x))
           i_min i_max pmd pmd'
           ((i_min =? 0) && (i_max =? PTRS_PER_PMD L - 1)) r.
Proof.
  intros Hbits Hrun i_min i_max. unfold kvm_mips_flush_gpa_pmd in Hrun.
  fold i_min i_max in Hrun.
  destruct (for_range _ i_min start_gpa _ _) as [[[t e] s]|] eqn:Hloop;
    [|discriminate].
  cbn [mbind option_bind] in Hrun. simplify_eq.
  eapply (slot_loop_slotwise (flush_pmd_slot L) (flush_pmd_body L)
            (flush_pmd_body_spec L)); [|exact Hloop].
  apply pmd_offset_range, Hbits.
Qed.

Lemma flush_pud_body_spec L i_max end_gpa i start tbl end_ safe tbl' end'
    safe' :
  flush_pud_body L i_max end_gpa i start (tbl, end_, safe)
  = Some (tbl', end', safe') ->
  exists old new b,
    tbl !! idx i = Some old
    /\ flush_pud_slot L start (if i =? i_max then end_gpa else end_) old
       = Some (new, b)
    /\ tbl' = <[idx i := new]> tbl
    /\ safe' = safe && b
    /\ (i < i_max -> end' = end_).
Proof.
  unfold flush_pud_body, flush_pud_slot. intros H.
  destruct (tbl !! idx i) as [old|] eqn:Hold; [|discriminate].
  cbn [mbind option_bind] in H. exists old.
  destruct (pud_present old); cbn [negb] in *.
  - destruct (pmd_table_of old) as [pmd|]; [|discriminate].
    cbn [mbind option_bind] in *.
    destruct (kvm_mips_flush_gpa_pmd L pmd start _) as [[r pmd']|];
      [|discriminate].
    cbn [mbind option_bind] in *.
    destruct r; simplify_eq.
    + exists Pud_none, true. rewrite andb_true_r.
      repeat split; auto. intros. destruct (Z.eqb_spec i i_max); lia || auto.
    + exists (Pud_table pmd'), false. rewrite andb_false_r.
      repeat split; auto. intros. destruct (Z.eqb_spec i i_max); lia || auto.
  - simplify_eq. exists old, true.
    rewrite andb_true_r, list_insert_id by exact Hold. auto.
Qed.

Lemma flush_pud_char L pud start_gpa end_gpa r pud' :
  kvm_mips_flush_gpa_pud L pud start_gpa end_gpa = Some (r, pud') ->
  slotwise (fun x => flush_pud_slot L (slot_start 0 start_gpa x)
                                    (slot_end 0 end_gpa x))
           0 0 pud pud' true r.
Proof.
  intros Hrun. unfold kvm_mips_flush_gpa_pud in Hrun.
  rewrite !pud_offset_zero in Hrun.
  destruct (for_range _ 0 start_gpa _ _) as [[[t e] s]|] eqn:Hloop;
    [|discriminate].
  cbn [mbind option_bind] in Hrun. simplify_eq.
  eapply (slot_loop_slotwise (flush_pud_slot L) (flush_pud_body L)
            (flush_pud_body_spec L)); [lia|exact Hloop].
Qed.

Lemma flush_pgd_body_spec L i_max end_gpa i start tbl end_ safe tbl' end'
    safe' :
  flush_pgd_body L i_max end_gpa i start (tbl, end_, safe)
  = Some (tbl', end', safe') ->
  exists old new b,
    tbl !! idx i = Some old
    /\ flush_pgd_slot L start (if i =? i_max then end_gpa else end_) old
       = Some (new, b)
    /\ tbl' = <[idx i := new]> tbl
    /\ safe' = safe && b
    /\ (i < i_max -> end' = end_).
Proof.
  unfold flush_pgd_body, flush_pgd_slot. intros H.
  destruct (tbl !! idx i) as [old|] eqn:Hold; [|discriminate].
  cbn [mbind option_bind pgd_present negb] in H. exists old.
  destruct (kvm_mips_flush_gpa_pud L [old] start _) as [[r pud']|];
    [|discriminate].
  cbn [mbind option_bind] in *.
  destruct (pud' !! 0%nat) as [e'|]; [|discriminate].
  cbn [mbind option_bind] in *.
  destruct r; simplify_eq.
  - exists e', true. rewrite andb_true_r.
    repeat split; auto. intros. destruct (Z.eqb_spec i i_max); lia || auto.
  - exists e', false. rewrite andb_false_r.
    repeat split; auto. intros. destruct (Z.eqb_spec i i_max); lia || auto.
Qed.

Lemma flush_pgd_char L pgd start_gpa end_gpa r pgd' :
  0 <= PGD_BITS L ->
  kvm_mips_flush_gpa_pgd L pgd start_gpa end_gpa = Some (r, pgd') ->
  let i_min := pgd_index L start_gpa in
  let i_max := pgd_index L end_gpa in
  slotwise (fun x => flush_pgd_slot L (slot_start i_min start_gpa x)
                                    (slot_end i_max end_gpa x))
           i_min i_max pgd pgd'
           ((i_min =? 0) && (i_max =? PTRS_PER_PGD L - 1)) r.
Proof.
  intros Hbits Hrun i_min i_max. unfold kvm_mips_flush_gpa_pgd in Hrun.
  fold i_min i_max in Hrun.
  destruct (for_range _ i_min start_gpa _ _) as [[[t e] s]|] eqn:Hloop;
    [|discriminate].
  cbn [mbind option_bind] in Hrun. simplify_eq.
  eapply (slot_loop_slotwise (flush_pgd_slot L) (flush_pgd_body L)
            (flush_pgd_body_spec L)); [|exact Hloop].
  apply pgd_index_range, Hbits.
Qed.

(** The upper level, folded: its single slot is the top-level slot. *)
Lemma flush_pgd_slot_pud L start_gpa end_gpa e e' b :
  flush_pgd_slot L start_gpa end_gpa e = Some (e', b) ->
  flush_pud_slot L start_gpa end_gpa e = Some (e', b).
Proof.
  unfold flush_pgd_slot. intros H.
  destruct (kvm_mips_flush_gpa_pud L [e] start_gpa end_gpa)
    as [[r pud']|] eqn:Hpud; [|discriminate].
  cbn [mbind option_bind] in H.
  destruct (pud' !! 0%nat) as [e1|] eqn:He1; [|discriminate].
  cbn [mbind option_bind] in H. simplify_eq.
  apply flush_pud_char in Hpud as (_ & _ & Hunsafe & Hslots).
  destruct (Hslots 0 ltac:(lia)) as [Hin _].
  destruct (Hin ltac:(lia)) as (old & new & b' & Hold & Hnew & Hslot & Hb & Hb').
  change (idx 0) with 0%nat in Hold, Hnew. cbn in Hold. simplify_eq.
  unfold slot_start, slot_end in Hslot. cbn in Hslot.
  rewrite Hslot. f_equal. f_equal.
  destruct b, b'; auto.
  exfalso. destruct (Hunsafe eq_refl) as [? | (x & o & n & Hx & Ho & Hn)];
    [discriminate|].
  assert (x = 0) as -> by lia.
  change (idx 0) with 0%nat in Ho. cbn in Ho, Hn. simplify_eq.
Qed.

(** *** Children of a flushed node *)

Lemma flush_pte_safe L pte start_gpa end_gpa pte' :
  0 <= PTE_BITS L ->
  kvm_mips_flush_gpa_pte L pte start_gpa end_gpa = Some (true, pte') ->
  __pte_offset L start_gpa = 0
  /\ __pte_offset L end_gpa = PTRS_PER_PTE L - 1.
Proof.
  intros Hbits Hrun. apply flush_pte_char in Hrun as [Hr _]; [|exact Hbits].
  symmetry in Hr. apply andb_prop in Hr as [H1 H2].
  apply Z.eqb_eq in H1, H2. auto.
Qed.

Lemma slotwise_safe {A} (slot : Z -> A -> option (A * bool)) i_min i_max
    tbl tbl' last :
  slotwise slot i_min i_max tbl tbl' ((i_min =? 0) && (i_max =? last)) true ->
  i_min = 0 /\ i_max = last.
Proof.
  intros (_ & Hsafe & _). specialize (Hsafe eq_refl).
  apply andb_prop in Hsafe as [H1 H2]. apply Z.eqb_eq in H1, H2. auto.
Qed.

Lemma flush_pmd_child L pmd start_gpa end_gpa r pmd' x pte :
  0 <= PMD_BITS L ->
  kvm_mips_flush_gpa_pmd L pmd start_gpa end_gpa = Some (r, pmd') ->
  let i_min := __pmd_offset L start_gpa in
  let i_max := __pmd_offset L end_gpa in
  i_min <= x <= i_max ->
  pmd !! idx x = Some (Pmd_table pte) ->
  exists removable pte',
    kvm_mips_flush_gpa_pte L pte (slot_start i_min start_gpa x)
                           (slot_end i_max end_gpa x)
    = Some (removable, pte')
    /\ pmd' !! idx x
       = Some (if removable : bool then pmd_cleared L else Pmd_table pte')
    /\ (r = true -> removable = true).
Proof.
  intros Hbits Hrun i_min i_max Hx Hold.
  pose proof (pmd_offset_range L start_gpa Hbits) as Hmin.
  apply flush_pmd_char in Hrun as (_ & _ & _ & Hslots); [|exact Hbits].
  destruct (Hslots x ltac:(fold i_min in Hmin; lia)) as [Hin _].
  destruct (Hin Hx) as (old & new & b & Hold' & Hnew & Hslot & Hb & _).
  fold i_min i_max in Hold'. rewrite Hold in Hold'. simplify_eq.
  unfold flush_pmd_slot in Hslot. cbn in Hslot.
  destruct (kvm_mips_flush_gpa_pte L pte _ _) as [[rem pte']|];
    [|discriminate].
  cbn in Hslot. simplify_eq. exists b, pte'. auto.
Qed.

Lemma flush_pud_child L pud start_gpa end_gpa r pud' pmd :
  kvm_mips_flush_gpa_pud L pud start_gpa end_gpa = Some (r, pud') ->
  pud !! 0%nat = Some (Pud_table pmd) ->
  exists removable pmd',
    kvm_mips_flush_gpa_pmd L pmd start_gpa end_gpa = Some (removable, pmd')
    /\ pud' !! 0%nat
       = Some (if removable : bool then Pud_none else Pud_table pmd')
    /\ r = removable.
Proof.
  intros Hrun Hold.
  apply flush_pud_char in Hrun as (_ & _ & Hunsafe & Hslots).
  destruct (Hslots 0 ltac:(lia)) as [Hin _].
  destruct (Hin ltac:(lia)) as (old & new & b & Hold' & Hnew & Hslot & Hb & _).
  change (idx 0) with 0%nat in *. rewrite Hold in Hold'. simplify_eq.
  unfold slot_start, slot_end in *. cbn in Hslot.
  unfold flush_pud_slot in Hslot. cbn in Hslot.
  destruct (kvm_mips_flush_gpa_pmd L pmd _ _) as [[rem pmd']|] eqn:Hpmd;
    [|discriminate].
  cbn in Hslot. simplify_eq. exists b, pmd'. repeat split; auto.
  destruct r, b; auto.
  { specialize (Hb eq_refl). discriminate. }
  destruct (Hunsafe eq_refl) as [? | (x & o & n & Hx & Ho & Hn)];
    [discriminate|].
  assert (x = 0) as -> by lia. change (idx 0) with 0%nat in *.
  rewrite Hold in Ho. simplify_eq.
  unfold flush_pud_slot in Hn. cbn in Hn. rewrite Hpmd in Hn.
  cbn in Hn. discriminate.
Qed.

Lemma flush_pgd_child L pgd start_gpa end_gpa r pgd' x pmd :
  0 <= PGD_BITS L ->
  kvm_mips_flush_gpa_pgd L pgd start_gpa end_gpa = Some (r, pgd') ->
  let i_min := pgd_index L start_gpa in
  let i_max := pgd_index L end_gpa in
  i_min <= x <= i_max ->
  pgd !! idx x = Some (Pud_table pmd) ->
  exists removable pmd',
    kvm_mips_flush_gpa_pmd L pmd (slot_start i_min start_gpa x)
                           (slot_end i_max end_gpa x)
    = Some (removable, pmd')
    /\ pgd' !! idx x
       = Some (if removable : bool then Pud_none else Pud_table pmd')
    /\ (r = true -> removable = true).
Proof.
  intros Hbits Hrun i_min i_max Hx Hold.
  pose proof (pgd_index_range L start_gpa Hbits) as Hmin.
  apply flush_pgd_char in Hrun as (_ & _ & _ & Hslots); [|exact Hbits].
  destruct (Hslots x ltac:(fold i_min in Hmin; lia)) as [Hin _].
  destruct (Hin Hx) as (old & new & b & Hold' & Hnew & Hslot & Hb & _).
  fold i_min i_max in Hold'. rewrite Hold in Hold'. simplify_eq.
  apply flush_pgd_slot_pud in Hslot.
  unfold flush_pud_slot in Hslot. cbn in Hslot.
  destruct (kvm_mips_flush_gpa_pmd L pmd _ _) as [[rem pmd']|];
    [|discriminate].
  cbn in Hslot. simplify_eq. exists b, pmd'. auto.
Qed.

(** C5. At every level the flush reports safe-to-remove only if its index
    range is the node's whole range ([i_min = 0] and [i_max] the last index)
    and every child table in the range reported safe-to-remove itself. A
    child whose own range is not its whole range reports false, stays
    linked in its parent with its flushed content, and makes the parent
    report false as well. *)
Theorem C5_safe_to_remove_needs_full_range (L : layout) :
  0 <= PTE_BITS L -> 0 <= PMD_BITS L -> 0 <= PGD_BITS L ->
  (* leaf level *)
  (forall pte start_gpa end_gpa pte',
      kvm_mips_flush_gpa_pte L pte start_gpa end_gpa = Some (true, pte') ->
      __pte_offset L start_gpa = 0
      /\ __pte_offset L end_gpa = PTRS_PER_PTE L - 1)
  (* middle level *)
  /\ (forall pmd start_gpa end_gpa r pmd',
        kvm_mips_flush_gpa_pmd L pmd start_gpa end_gpa = Some (r, pmd') ->
        let i_min := __pmd_offset L start_gpa in
        let i_max := __pmd_offset L end_gpa in
        (r = true -> i_min = 0 /\ i_max = PTRS_PER_PMD L - 1)
        /\ forall x pte,
             i_min <= x <= i_max -> pmd !! idx x = Some (Pmd_table pte) ->
             let s := slot_start i_min start_gpa x in
             let e := slot_end i_max end_gpa x in
             exists removable pte',
               kvm_mips_flush_gpa_pte L pte s e = Some (removable, pte')
               /\ (r = true -> removable = true)
               /\ (removable = false ->
                   pmd' !! idx x = Some (Pmd_table pte') /\ r = false)
               /\ (~ (__pte_offset L s = 0
                      /\ __pte_offset L e = PTRS_PER_PTE L - 1) ->
                   removable = false))
  (* upper level, folded into the top-level slot *)
  /\ (forall pud start_gpa end_gpa r pud',
        kvm_mips_flush_gpa_pud L pud start_gpa end_gpa = Some (r, pud') ->
        (r = true ->
         __pud_offset L start_gpa = 0
         /\ __pud_offset L end_gpa = PTRS_PER_PUD - 1)
        /\ forall pmd,
             pud !! 0%nat = Some (Pud_table pmd) ->
             exists removable pmd',
               kvm_mips_flush_gpa_pmd L pmd start_gpa end_gpa
               = Some (removable, pmd')
               /\ (r = true -> removable = true)
               /\ (removable = false ->
                   pud' !! 0%nat = Some (Pud_table pmd') /\ r = false)
               /\ (~ (__pmd_offset L start_gpa = 0
                      /\ __pmd_offset L end_gpa = PTRS_PER_PMD L - 1) ->
                   removable = false))
  (* top level *)
  /\ (forall pgd start_gpa end_gpa r pgd',
        kvm_mips_flush_gpa_pgd L pgd start_gpa end_gpa = Some (r, pgd') ->
        let i_min := pgd_index L start_gpa in
        let i_max := pgd_index L end_gpa in
        (r = true -> i_min = 0 /\ i_max = PTRS_PER_PGD L - 1)
        /\ forall x pmd,
             i_min <= x <= i_max -> pgd !! idx x = Some (Pud_table pmd) ->
             let s := slot_start i_min start_gpa x in
             let e := slot_end i_max end_gpa x in
             exists removable pmd',
               kvm_mips_flush_gpa_pmd L pmd s e = Some (removable, pmd')
               /\ (r = true -> removable = true)
               /\ (removable = false ->
                   pgd' !! idx x = Some (Pud_table pmd') /\ r = false)
               /\ (~ (__pmd_offset L s = 0
                      /\ __pmd_offset L e = PTRS_PER_PMD L - 1) ->
                   removable = false)).
Proof.
  intros Hpte Hpmd Hpgd. split; [|split; [|split]].
  - intros *. now apply flush_pte_safe.
  - intros pmd start_gpa end_gpa r pmd' Hrun i_min i_max. split.
    + intros ->. apply flush_pmd_char in Hrun; [|exact Hpmd].
      eapply slotwise_safe, Hrun.
    + intros x pte Hx Hold s e.
      destruct (flush_pmd_child L pmd start_gpa end_gpa r pmd' x pte
                  Hpmd Hrun Hx Hold) as (rem & pte' & Hpte' & Hnew & Hr).
      exists rem, pte'. split; [exact Hpte'|]. split; [exact Hr|]. split.
      * intros ->. split; [exact Hnew|].
        destruct r; [specialize (Hr eq_refl); discriminate | reflexivity].
      * intros Hpart. destruct rem; [|reflexivity].
        exfalso. apply Hpart. eapply flush_pte_safe; eauto.
  - intros pud start_gpa end_gpa r pud' Hrun. split.
    + intros _. rewrite !pud_offset_zero. unfold PTRS_PER_PUD. lia.
    + intros pmd Hold.
      destruct (flush_pud_child L pud start_gpa end_gpa r pud' pmd Hrun Hold)
        as (rem & pmd' & Hpmd' & Hnew & ->).
      exists rem, pmd'. split; [exact Hpmd'|]. split; [auto|]. split.
      * intros ->. auto.
      * intros Hpart. destruct rem; [|reflexivity].
        exfalso. apply Hpart. apply flush_pmd_char in Hpmd'; [|exact Hpmd].
        eapply slotwise_safe, Hpmd'.
  - intros pgd start_gpa end_gpa r pgd' Hrun i_min i_max. split.
    + intros ->. apply flush_pgd_char in Hrun; [|exact Hpgd].
      eapply slotwise_safe, Hrun.
    + intros x pmd Hx Hold s e.
      destruct (flush_pgd_child L pgd start_gpa end_gpa r pgd' x pmd
                  Hpgd Hrun Hx Hold) as (rem & pmd' & Hpmd' & Hnew & Hr).
      exists rem, pmd'. split; [exact Hpmd'|]. split; [exact Hr|]. split.
      * intros ->. split; [exact Hnew|].
        destruct r; [specialize (Hr eq_refl); discriminate | reflexivity].
      * intros Hpart. destruct rem; [|reflexivity].
        exfalso. apply Hpart. apply flush_pmd_char in Hpmd'; [|exact Hpmd].
        eapply slotwise_safe, Hpmd'.
Qed.

(** ** Addresses and table indices *)

Section Geometry.
Variable L : layout.
Hypothesis page_shift_nonneg : 0 <= PAGE_SHIFT L.
Hypothesis pte_bits_nonneg : 0 <= PTE_BITS L.
Hypothesis pmd_bits_nonneg : 0 <= PMD_BITS L.
Hypothesis pgd_bits_nonneg : 0 <= PGD_BITS L.
Hypothesis address_bits :
  PAGE_SHIFT L + PTE_BITS L + PMD_BITS L + PGD_BITS L <= wordsize.

Lemma ptrs_per_pte_pow : PTRS_PER_PTE L = 2 ^ PTE_BITS L.
Proof. apply shiftl_1, pte_bits_nonneg. Qed.
Lemma ptrs_per_pmd_pow : PTRS_PER_PMD L = 2 ^ PMD_BITS L.
Proof. apply shiftl_1, pmd_bits_nonneg. Qed.
Lemma ptrs_per_pgd_pow : PTRS_PER_PGD L = 2 ^ PGD_BITS L.
Proof. apply shiftl_1, pgd_bits_nonneg. Qed.
Lemma page_size_pow : PAGE_SIZE L = 2 ^ PAGE_SHIFT L.
Proof. apply shiftl_1, page_shift_nonneg. Qed.

Lemma gfn_limit_split :
  gfn_limit L = PTRS_PER_PTE L * PTRS_PER_PMD L * PTRS_PER_PGD L.
Proof.
  unfold gfn_limit.
  rewrite ptrs_per_pte_pow, ptrs_per_pmd_pow, ptrs_per_pgd_pow.
  rewrite !Z.pow_add_r by lia. reflexivity.
Qed.

Lemma ptrs_pos :
  0 < PTRS_PER_PTE L /\ 0 < PTRS_PER_PMD L /\ 0 < PTRS_PER_PGD L
  /\ 0 < PAGE_SIZE L.
Proof.
  rewrite ptrs_per_pte_pow, ptrs_per_pmd_pow, ptrs_per_pgd_pow,
    page_size_pow.
  repeat split; apply pow2_pos; assumption.
Qed.

Lemma gfn_address gfn :
  0 <= gfn < gfn_limit L -> ushl gfn (PAGE_SHIFT L) = gfn * PAGE_SIZE L.
Proof.
  intros Hg. unfold ushl. rewrite Z.shiftl_mul_pow2 by assumption.
  rewrite page_size_pow. apply wrap_small.
  pose proof (pow2_pos (PAGE_SHIFT L) page_shift_nonneg).
  split; [nia|].
  assert (gfn_limit L * 2 ^ PAGE_SHIFT L <= modulus).
  { unfold gfn_limit, modulus. rewrite <- Z.pow_add_r by lia.
    apply Z.pow_le_mono_r; lia. }
  nia.
Qed.

Lemma pte_offset_div addr :
  __pte_offset L addr = (addr / PAGE_SIZE L) mod PTRS_PER_PTE L.
Proof.
  unfold __pte_offset, PTRS_PER_PTE, PAGE_SIZE.
  rewrite land_ptrs_mask by assumption.
  rewrite Z.shiftr_div_pow2, !shiftl_1 by assumption.
  reflexivity.
Qed.

Lemma pmd_offset_div addr :
  __pmd_offset L addr
  = (addr / (PAGE_SIZE L * PTRS_PER_PTE L)) mod PTRS_PER_PMD L.
Proof.
  unfold __pmd_offset, PMD_SHIFT, PTRS_PER_PMD, PTRS_PER_PTE, PAGE_SIZE.
  rewrite land_ptrs_mask by assumption.
  rewrite Z.shiftr_div_pow2, !shiftl_1 by lia.
  rewrite Z.pow_add_r by assumption. reflexivity.
Qed.

Lemma pgd_index_div addr :
  pgd_index L addr
  = (addr / (PAGE_SIZE L * PTRS_PER_PTE L * PTRS_PER_PMD L))
    mod PTRS_PER_PGD L.
Proof.
  unfold pgd_index, PGDIR_SHIFT, PUD_SHIFT, PMD_SHIFT, PTRS_PER_PGD,
    PTRS_PER_PMD, PTRS_PER_PTE, PAGE_SIZE.
  rewrite land_ptrs_mask by assumption.
  rewrite Z.shiftr_div_pow2, !shiftl_1 by lia.
  rewrite !Z.pow_add_r by lia. reflexivity.
Qed.

(** The three indices of a guest frame *)
Lemma pte_offset_gfn gfn :
  0 <= gfn < gfn_limit L ->
  __pte_offset L (ushl gfn (PAGE_SHIFT L)) = gfn mod PTRS_PER_PTE L.
Proof.
  intros Hg. rewrite gfn_address, pte_offset_div by assumption.
  pose proof ptrs_pos. rewrite Z.div_mul by lia. reflexivity.
Qed.

Lemma pmd_offset_gfn gfn :
  0 <= gfn < gfn_limit L ->
  __pmd_offset L (ushl gfn (PAGE_SHIFT L))
  = (gfn / PTRS_PER_PTE L) mod PTRS_PER_PMD L.
Proof.
  intros Hg. rewrite gfn_address, pmd_offset_div by assumption.
  pose proof ptrs_pos.
  rewrite (Z.mul_comm gfn), Z.div_mul_cancel_l by lia. reflexivity.
Qed.

Lemma pgd_index_gfn gfn :
  0 <= gfn < gfn_limit L ->
  pgd_index L (ushl gfn (PAGE_SHIFT L))
  = gfn / (PTRS_PER_PTE L * PTRS_PER_PMD L).
Proof.
  intros Hg. rewrite gfn_address, pgd_index_div by assumption.
  pose proof ptrs_pos as (? & ? & ? & ?).
  rewrite (Z.mul_comm gfn), <- Z.mul_assoc, Z.div_mul_cancel_l by nia.
  apply Z.mod_small. split; [apply Z.div_pos; nia|].
  apply Z.div_lt_upper_bound; [nia|].
  rewrite gfn_limit_split in Hg. nia.
Qed.

(** The indices of address 0 and of [~0ul] *)
Lemma offsets_zero :
  __pte_offset L 0 = 0 /\ __pmd_offset L 0 = 0 /\ pgd_index L 0 = 0.
Proof.
  unfold __pte_offset, __pmd_offset, pgd_index.
  rewrite !Z.shiftr_0_l, !Z.land_0_l. auto.
Qed.

Lemma ones_slice shift bits :
  0 <= shift -> 0 <= bits -> shift + bits <= wordsize ->
  Z.land (Z.shiftr ULONG_MAX shift) (Z.shiftl 1 bits - 1)
  = Z.shiftl 1 bits - 1.
Proof.
  intros Hs Hb Hsum. unfold ULONG_MAX, modulus.
  rewrite shiftl_1 by assumption.
  replace (2 ^ wordsize - 1) with (Z.ones wordsize)
    by (rewrite Z.ones_equiv; lia).
  replace (2 ^ bits - 1) with (Z.ones bits)
    by (rewrite Z.ones_equiv; lia).
  apply Z.bits_inj'. intros n Hn.
  rewrite Z.land_spec, Z.shiftr_spec by assumption.
  destruct (Z_lt_le_dec n bits).
  - rewrite (Z.ones_spec_low bits), (Z.ones_spec_low wordsize) by lia.
    reflexivity.
  - rewrite (Z.ones_spec_high bits) by lia. apply andb_false_r.
Qed.

Lemma offsets_ulong_max :
  __pte_offset L ULONG_MAX = PTRS_PER_PTE L - 1
  /\ __pmd_offset L ULONG_MAX = PTRS_PER_PMD L - 1
  /\ pgd_index L ULONG_MAX = PTRS_PER_PGD L - 1.
Proof.
  unfold __pte_offset, __pmd_offset, pgd_index, PTRS_PER_PTE,
    PTRS_PER_PMD, PTRS_PER_PGD, PGDIR_SHIFT, PUD_SHIFT, PMD_SHIFT.
  repeat split; apply ones_slice; lia.
Qed.

(** Frame order against index order *)
Lemma gfn_indices_le a b :
  0 <= a -> a <= b ->
  let T := PTRS_PER_PTE L in
  let M := PTRS_PER_PMD L in
  a / (T * M) <= b / (T * M)
  /\ (a / (T * M) = b / (T * M) ->
      (a / T) mod M <= (b / T) mod M
      /\ ((a / T) mod M = (b / T) mod M -> a mod T <= b mod T)).
Proof.
  intros Ha Hab T M.
  pose proof ptrs_pos as (HT & HM & _). fold T in HT. fold M in HM.
  assert (HTM : 0 < T * M) by nia.
  split; [apply Z.div_le_mono; lia|].
  intros Hg.
  assert (Hdiv : forall x, x / (T * M) = x / T / M)
    by (intros; rewrite Z.div_div by lia; reflexivity).
  pose proof (Z.div_le_mono a b T HT Hab) as Hq.
  pose proof (Z.div_mod (a / T) M ltac:(lia)) as Ea.
  pose proof (Z.div_mod (b / T) M ltac:(lia)) as Eb.
  rewrite !Hdiv in Hg.
  split; [nia|].
  intros Hm.
  assert (a / T = b / T) by nia.
  pose proof (Z.div_mod a T ltac:(lia)).
  pose proof (Z.div_mod b T ltac:(lia)). nia.
Qed.
End Geometry.

(** ** The flush always returns on a well-formed page directory *)

Lemma for_range_total {St : Type} (body : Z -> Z -> St -> option St)
    (P : Z -> St -> Prop) (i0 start0 : Z) (fuel : nat) :
  forall i s,
    i0 <= i -> P i s ->
    (forall j st,
        i <= j < i + Z.of_nat fuel -> P j st ->
        exists st',
          body j (if j =? i0 then start0 else 0) st = Some st'
          /\ P (j + 1) st') ->
    is_Some (for_range fuel i (if i =? i0 then start0 else 0) body s).
Proof.
  induction fuel as [|fuel IH]; intros i s Hi HP Hstep.
  - cbn. eauto.
  - cbn [for_range].
    destruct (Hstep i s ltac:(lia) HP) as (s1 & -> & HP1).
    cbn [mbind option_bind].
    specialize (IH (i + 1) s1 ltac:(lia) HP1).
    destruct (Z.eqb_spec (i + 1) i0); [lia|].
    apply IH. intros j st Hj. apply Hstep. lia.
Qed.

Section SlotLoopTotal.
Context {A : Type}.
Variable slot : Z -> Z -> A -> option (A * bool).
Variable body : Z -> Z -> Z -> Z -> list A * Z * bool
                -> option (list A * Z * bool).
Hypothesis body_total :
  forall i_max end_gpa i start tbl end_ safe old new b,
    tbl !! idx i = Some old ->
    slot start (if i =? i_max then end_gpa else end_) old = Some (new, b) ->
    exists end',
      body i_max end_gpa i start (tbl, end_, safe)
      = Some (<[idx i := new]> tbl, end', safe && b)
      /\ (i < i_max -> end' = end_).

Lemma slot_loop_total i_min i_max start_gpa end_gpa tbl safe :
  0 <= i_min ->
  (forall x, i_min <= x <= i_max ->
     exists old,
       tbl !! idx x = Some old
       /\ is_Some (slot (slot_start i_min start_gpa x)
                        (slot_end i_max end_gpa x) old)) ->
  is_Some (for_range (trip_count i_min i_max) i_min start_gpa
             (body i_max end_gpa) (tbl, ULONG_MAX, safe)).
Proof.
  intros Hmin Hslots.
  destruct (Z_lt_le_dec i_max i_min) as [Hempty|Hle].
  { rewrite trip_count_empty by lia. cbn. eauto. }
  set (P := fun (j : Z) (st : list A * Z * bool) =>
    let '(t, e, s) := st in
    (j <= i_max -> e = ULONG_MAX)
    /\ forall x, j <= x -> t !! idx x = tbl !! idx x).
  pose proof (for_range_total (body i_max end_gpa) P i_min start_gpa
                (trip_count i_min i_max) i_min (tbl, ULONG_MAX, safe))
    as Htot.
  rewrite Z.eqb_refl in Htot. apply Htot; [lia | cbn; auto |].
  intros j [[t e] s] Hj [Hend Hsame].
  rewrite trip_count_end in Hj by lia.
  destruct (Hslots j ltac:(lia)) as (old & Hold & [[new b] Hslot]).
  rewrite <- (Hsame j ltac:(lia)) in Hold.
  unfold slot_start, slot_end in Hslot.
  rewrite <- (Hend ltac:(lia)) in Hslot.
  destruct (body_total i_max end_gpa j _ t e s old new b Hold Hslot)
    as (e' & Hbody & He').
  eexists. split; [exact Hbody|]. cbn. split.
  - intros. rewrite He' by lia. apply Hend. lia.
  - intros x Hx. rewrite list_lookup_insert_ne
      by (intros Heq; apply idx_inj in Heq; lia).
    apply Hsame. lia.
Qed.
End SlotLoopTotal.

Lemma lookup_in_table {A} (tbl : list A) (n x : Z) :
  length tbl = Z.to_nat n -> 0 <= x < n -> is_Some (tbl !! idx x).
Proof.
  intros Hlen Hx. apply lookup_lt_is_Some. unfold idx. lia.
Qed.

Lemma flush_pte_total L pte start_gpa end_gpa :
  0 <= PTE_BITS L -> length pte = Z.to_nat (PTRS_PER_PTE L) ->
  is_Some (kvm_mips_flush_gpa_pte L pte start_gpa end_gpa).
Proof.
  intros Hbits Hlen. unfold kvm_mips_flush_gpa_pte.
  set (i_min := __pte_offset L start_gpa).
  set (i_max := __pte_offset L end_gpa).
  pose proof (pte_offset_range L start_gpa Hbits) as Hmin.
  pose proof (pte_offset_range L end_gpa Hbits) as Hmax.
  fold i_min in Hmin. fold i_max in Hmax.
  assert (Hloop : is_Some (for_range (trip_count i_min i_max) i_min start_gpa
                             (flush_pte_body L) pte)).
  { destruct (Z_lt_le_dec i_max i_min) as [Hempty|Hle].
    { rewrite trip_count_empty by lia. cbn. eauto. }
    pose proof (for_range_total (flush_pte_body L)
                  (fun _ t => length t = length pte) i_min start_gpa
                  (trip_count i_min i_max) i_min pte) as Htot.
    rewrite Z.eqb_refl in Htot. apply Htot; [lia | reflexivity |].
    intros j t Hj Ht. rewrite trip_count_end in Hj by lia.
    unfold flush_pte_body.
    destruct (lookup_in_table t (PTRS_PER_PTE L) j ltac:(congruence)
                ltac:(lia)) as [e He].
    rewrite He. cbn [mbind option_bind].
    destruct (negb (pte_present L e)); eexists; split; eauto.
    now rewrite length_insert. }
  destruct Hloop as [t ->]. cbn. eauto.
Qed.

Lemma flush_pmd_body_total L i_max end_gpa i start tbl end_ safe old new b :
  tbl !! idx i = Some old ->
  flush_pmd_slot L start (if i =? i_max then end_gpa else end_) old
  = Some (new, b) ->
  exists end',
    flush_pmd_body L i_max end_gpa i start (tbl, end_, safe)
    = Some (<[idx i := new]> tbl, end', safe && b)
    /\ (i < i_max -> end' = end_).
Proof.
  unfold flush_pmd_body, flush_pmd_slot. intros Hold Hslot.
  rewrite Hold. cbn [mbind option_bind].
  destruct (pmd_present L old); cbn [negb] in *.
  - destruct (pmd_huge L old).
    + simplify_eq. rewrite andb_true_r. eauto.
    + destruct (pte_table_of old) as [pte|]; [|discriminate].
      cbn [mbind option_bind] in *.
      destruct (kvm_mips_flush_gpa_pte L pte start _) as [[r pte']|];
        [|discriminate].
      cbn [mbind option_bind] in *.
      destruct r; simplify_eq.
      * rewrite andb_true_r. eexists. split; [reflexivity|].
        intros. destruct (Z.eqb_spec i i_max); lia || auto.
      * rewrite andb_false_r. eexists. split; [reflexivity|].
        intros. destruct (Z.eqb_spec i i_max); lia || auto.
  - simplify_eq. rewrite andb_true_r, list_insert_id by exact Hold. eauto.
Qed.

Lemma flush_pmd_slot_total L start_gpa end_gpa e :
  0 <= PTE_BITS L -> wf_pmd L e ->
  is_Some (flush_pmd_slot L start_gpa end_gpa e).
Proof.
  intros Hbits Hwf. unfold flush_pmd_slot.
  destruct e as [v|pte]; cbn in *.
  - destruct (pmdv_present L v); cbn; [|eauto].
    rewrite (Hwf eq_refl). eauto.
  - destruct (flush_pte_total L pte start_gpa end_gpa Hbits Hwf)
      as [[r pte'] ->]. cbn. eauto.
Qed.

Lemma flush_pmd_total L pmd start_gpa end_gpa :
  0 <= PTE_BITS L -> 0 <= PMD_BITS L ->
  length pmd = Z.to_nat (PTRS_PER_PMD L) -> Forall (wf_pmd L) pmd ->
  is_Some (kvm_mips_flush_gpa_pmd L pmd start_gpa end_gpa).
Proof.
  intros Hpte Hpmd Hlen Hwf. unfold kvm_mips_flush_gpa_pmd.
  set (i_min := __pmd_offset L start_gpa).
  set (i_max := __pmd_offset L end_gpa).
  pose proof (pmd_offset_range L start_gpa Hpmd) as Hmin.
  pose proof (pmd_offset_range L end_gpa Hpmd) as Hmax.
  fold i_min in Hmin. fold i_max in Hmax.
  destruct (slot_loop_total (flush_pmd_slot L) (flush_pmd_body L)
              (flush_pmd_body_total L) i_min i_max start_gpa end_gpa pmd
              ((i_min =? 0) && (i_max =? PTRS_PER_PMD L - 1)))
    as [[[t e] s] ->]; [lia | | cbn; eauto].
  intros x Hx.
  destruct (lookup_in_table pmd (PTRS_PER_PMD L) x Hlen ltac:(lia))
    as [old Hold].
  exists old. split; [exact Hold|].
  apply flush_pmd_slot_total; [exact Hpte|].
  rewrite Forall_lookup in Hwf. eapply Hwf, Hold.
Qed.

Lemma flush_pud_body_total L i_max end_gpa i start tbl end_ safe old new b :
  tbl !! idx i = Some old ->
  flush_pud_slot L start (if i =? i_max then end_gpa else end_) old
  = Some (new, b) ->
  exists end',
    flush_pud_body L i_max end_gpa i start (tbl, end_, safe)
    = Some (<[idx i := new]> tbl, end', safe && b)
    /\ (i < i_max -> end' = end_).
Proof.
  unfold flush_pud_body, flush_pud_slot. intros Hold Hslot.
  rewrite Hold. cbn [mbind option_bind].
  destruct (pud_present old); cbn [negb] in *.
  - destruct (pmd_table_of old) as [pmd|]; [|discriminate].
    cbn [mbind option_bind] in *.
    destruct (kvm_mips_flush_gpa_pmd L pmd start _) as [[r pmd']|];
      [|discriminate].
    cbn [mbind option_bind] in *.
    destruct r; simplify_eq.
    + rewrite andb_true_r. eexists. split; [reflexivity|].
      intros. destruct (Z.eqb_spec i i_max); lia || auto.
    + rewrite andb_false_r. eexists. split; [reflexivity|].
      intros. destruct (Z.eqb_spec i i_max); lia || auto.
  - simplify_eq. rewrite andb_true_r, list_insert_id by exact Hold. eauto.
Qed.

Lemma flush_pud_slot_total L start_gpa end_gpa e :
  0 <= PTE_BITS L -> 0 <= PMD_BITS L -> wf_pud L e ->
  is_Some (flush_pud_slot L start_gpa end_gpa e).
Proof.
  intros Hpte Hpmd Hwf. unfold flush_pud_slot.
  destruct e as [|pmd]; cbn in *; [eauto|].
  destruct Hwf as [Hlen Hwf].
  destruct (flush_pmd_total L pmd start_gpa end_gpa Hpte Hpmd Hlen Hwf)
    as [[r pmd'] ->]. cbn. eauto.
Qed.

Lemma flush_pud_total L e start_gpa end_gpa :
  0 <= PTE_BITS L -> 0 <= PMD_BITS L -> wf_pud L e ->
  exists r e', kvm_mips_flush_gpa_pud L [e] start_gpa end_gpa
               = Some (r, [e']).
Proof.
  intros Hpte Hpmd Hwf.
  assert (Hsome : is_Some (kvm_mips_flush_gpa_pud L [e] start_gpa end_gpa)).
  { unfold kvm_mips_flush_gpa_pud. rewrite !pud_offset_zero.
    destruct (slot_loop_total (flush_pud_slot L) (flush_pud_body L)
                (flush_pud_body_total L) 0 0 start_gpa end_gpa [e]
                ((0 =? 0) && (0 =? PTRS_PER_PUD - 1)))
      as [[[t e1] s] ->]; [lia | | cbn; eauto].
    intros x Hx. assert (x = 0) as -> by lia.
    exists e. split; [reflexivity|].
    now apply flush_pud_slot_total. }
  destruct Hsome as [[r pud'] Hrun]. exists r.
  pose proof Hrun as Hchar. apply flush_pud_char in Hchar as (Hlen & _).
  destruct pud' as [|e' [|]]; try discriminate. eauto.
Qed.

Lemma flush_pgd_body_total L i_max end_gpa i start tbl end_ safe old new b :
  tbl !! idx i = Some old ->
  flush_pgd_slot L start (if i =? i_max then end_gpa else end_) old
  = Some (new, b) ->
  exists end',
    flush_pgd_body L i_max end_gpa i start (tbl, end_, safe)
    = Some (<[idx i := new]> tbl, end', safe && b)
    /\ (i < i_max -> end' = end_).
Proof.
  unfold flush_pgd_body, flush_pgd_slot. intros Hold Hslot.
  rewrite Hold. cbn [mbind option_bind pgd_present negb].
  destruct (kvm_mips_flush_gpa_pud L [old] start _) as [[r pud']|];
    [|discriminate].
  cbn [mbind option_bind] in *.
  destruct (pud' !! 0%nat) as [e'|]; [|discriminate].
  cbn [mbind option_bind] in *.
  destruct r; simplify_eq.
  - rewrite andb_true_r. eexists. split; [reflexivity|].
    intros. destruct (Z.eqb_spec i i_max); lia || auto.
  - rewrite andb_false_r. eexists. split; [reflexivity|].
    intros. destruct (Z.eqb_spec i i_max); lia || auto.
Qed.

Lemma flush_pgd_total L pgd start_gpa end_gpa :
  0 <= PTE_BITS L -> 0 <= PMD_BITS L -> 0 <= PGD_BITS L ->
  wf_pgd L pgd ->
  is_Some (kvm_mips_flush_gpa_pgd L pgd start_gpa end_gpa).
Proof.
  intros Hpte Hpmd Hpgd [Hlen Hwf]. unfold kvm_mips_flush_gpa_pgd.
  set (i_min := pgd_index L start_gpa).
  set (i_max := pgd_index L end_gpa).
  pose proof (pgd_index_range L start_gpa Hpgd) as Hmin.
  pose proof (pgd_index_range L end_gpa Hpgd) as Hmax.
  fold i_min in Hmin. fold i_max in Hmax.
  destruct (slot_loop_total (flush_pgd_slot L) (flush_pgd_body L)
              (flush_pgd_body_total L) i_min i_max start_gpa end_gpa pgd
              ((i_min =? 0) && (i_max =? PTRS_PER_PGD L - 1)))
    as [[[t e] s] ->]; [lia | | cbn; eauto].
  intros x Hx.
  destruct (lookup_in_table pgd (PTRS_PER_PGD L) x Hlen ltac:(lia))
    as [old Hold].
  exists old. split; [exact Hold|].
  unfold flush_pgd_slot.
  rewrite Forall_lookup in Hwf.
  destruct (flush_pud_total L old (slot_start i_min start_gpa x)
              (slot_end i_max end_gpa x) Hpte Hpmd (Hwf _ _ Hold))
    as (r & e' & ->).
  cbn. eauto.
Qed.

(** ** Lookups *)

Lemma gpa_lookup_unfold L pgd addr :
  gpa_lookup L pgd addr
  = pud ← pgd !! idx (pgd_index L addr);
    pud_lookup L (pgd_index L addr) (__pmd_offset L addr)
               (__pte_offset L addr) pud.
Proof.
  unfold gpa_lookup, kvm_mips_walk_pgd.
  destruct (pgd !! idx (pgd_index L addr)) as [pud|] eqn:Hpud;
    [|reflexivity].
  cbn [mbind option_bind pgd_none].
  destruct pud as [|pmds]; cbn [pud_none pmd_table_of pud_lookup];
    [reflexivity|].
  cbn [mbind option_bind].
  destruct (pmds !! idx (__pmd_offset L addr)) as [pmd|] eqn:Hpmd;
    [|reflexivity].
  cbn [mbind option_bind].
  destruct pmd as [v|pte]; cbn [pmd_huge pmd_none pmd_lookup pte_table_of].
  - destruct (pmdv_huge L v); cbn.
    + rewrite Hpud. cbn. rewrite Hpmd. reflexivity.
    + destruct (pmdv_none L v); reflexivity.
  - cbn. rewrite Hpud. cbn. rewrite Hpmd. cbn.
    destruct (pte !! idx (__pte_offset L addr)); reflexivity.
Qed.

Lemma pte_present_zero L : pte_present L 0 = false.
Proof. unfold pte_present, flag. now rewrite Z.land_0_l. Qed.

Lemma flush_pte_slot_unmapped L e : pte_present L (flush_pte_slot L e) = false.
Proof.
  unfold flush_pte_slot. destruct (pte_present L e) eqn:E;
    [apply pte_present_zero | exact E].
Qed.

(** *** A flushed middle-level slot *)
Lemma flush_pmd_slot_inside L start_gpa end_gpa old new b gi mi ti :
  0 <= PTE_BITS L -> pmdv_huge L (invalid_pte_table L) = false ->
  wf_pmd L old ->
  flush_pmd_slot L start_gpa end_gpa old = Some (new, b) ->
  __pte_offset L start_gpa <= ti <= __pte_offset L end_gpa ->
  unmapped L (pmd_lookup L gi mi ti new).
Proof.
  intros Hbits Hinv Hwf Hslot Hti. unfold flush_pmd_slot in Hslot.
  destruct old as [v|pte]; cbn in Hslot, Hwf.
  - destruct (pmdv_present L v) eqn:Hpres; cbn in Hslot.
    + rewrite (Hwf eq_refl) in Hslot. simplify_eq.
      left. cbn. rewrite Hinv. unfold pmdv_none. now rewrite Z.eqb_refl.
    + simplify_eq. cbn. unfold pmdv_present in Hpres.
      destruct (pmdv_huge L v).
      * right. eauto.
      * left. unfold pmdv_none. apply negb_false_iff in Hpres.
        now rewrite Hpres.
  - destruct (kvm_mips_flush_gpa_pte L pte start_gpa end_gpa)
      as [[r pte']|] eqn:Hpte; [|discriminate].
    cbn in Hslot. simplify_eq.
    destruct b.
    + left. cbn. rewrite Hinv. unfold pmdv_none. now rewrite Z.eqb_refl.
    + apply flush_pte_char in Hpte as (_ & _ & Hslots); [|exact Hbits].
      pose proof (pte_offset_range L start_gpa Hbits).
      specialize (Hslots ti ltac:(lia)).
      destruct (Z.leb_spec (__pte_offset L start_gpa) ti); [|lia].
      destruct (Z.leb_spec ti (__pte_offset L end_gpa)); [|lia].
      cbn in Hslots. cbn.
      pose proof (pte_offset_range L end_gpa Hbits).
      destruct (lookup_in_table pte (PTRS_PER_PTE L) ti Hwf ltac:(lia))
        as [e He].
      rewrite Hslots, He. cbn. right. eexists _, _. split; [reflexivity|].
      apply flush_pte_slot_unmapped.
Qed.

Lemma flush_pmd_slot_outside L start_gpa end_gpa pte new b gi mi ti :
  0 <= PTE_BITS L ->
  flush_pmd_slot L start_gpa end_gpa (Pmd_table pte) = Some (new, b) ->
  0 <= ti < PTRS_PER_PTE L ->
  ~ (__pte_offset L start_gpa <= ti <= __pte_offset L end_gpa) ->
  b = false
  /\ pmd_lookup L gi mi ti new = pmd_lookup L gi mi ti (Pmd_table pte).
Proof.
  intros Hbits Hslot Hti Hout. unfold flush_pmd_slot in Hslot.
  cbn in Hslot.
  destruct (kvm_mips_flush_gpa_pte L pte start_gpa end_gpa)
    as [[r pte']|] eqn:Hpte; [|discriminate].
  cbn in Hslot. simplify_eq.
  apply flush_pte_char in Hpte as (Hr & _ & Hslots); [|exact Hbits].
  assert (b = false) as ->.
  { rewrite Hr. apply andb_false_iff.
    destruct (Z.eqb_spec (__pte_offset L start_gpa) 0); [|now left].
    destruct (Z.eqb_spec (__pte_offset L end_gpa) (PTRS_PER_PTE L - 1));
      [|now right].
    lia. }
  split; [reflexivity|]. cbn. rewrite (Hslots ti ltac:(lia)).
  destruct (Z.leb_spec (__pte_offset L start_gpa) ti),
           (Z.leb_spec ti (__pte_offset L end_gpa)); cbn; reflexivity || lia.
Qed.

(** *** A flushed top-level slot *)
Section FlushedSlots.
Variable L : layout.
Hypothesis page_shift_nonneg : 0 <= PAGE_SHIFT L.
Hypothesis pte_bits_nonneg : 0 <= PTE_BITS L.
Hypothesis pmd_bits_nonneg : 0 <= PMD_BITS L.
Hypothesis pgd_bits_nonneg : 0 <= PGD_BITS L.
Hypothesis address_bits :
  PAGE_SHIFT L + PTE_BITS L + PMD_BITS L + PGD_BITS L <= wordsize.
Hypothesis invalid_not_huge : pmdv_huge L (invalid_pte_table L) = false.

Lemma slot_start_pte_offset i_min start_gpa x :
  __pte_offset L (slot_start i_min start_gpa x)
  = if x =? i_min then __pte_offset L start_gpa else 0.
Proof.
  unfold slot_start. destruct (x =? i_min); [reflexivity|].
  apply (offsets_zero L).
Qed.

Lemma slot_end_pte_offset i_max end_gpa x :
  __pte_offset L (slot_end i_max end_gpa x)
  = if x =? i_max then __pte_offset L end_gpa else PTRS_PER_PTE L - 1.
Proof.
  unfold slot_end. destruct (x =? i_max); [reflexivity|].
  apply (offsets_ulong_max L); assumption.
Qed.

Lemma slot_start_pmd_offset i_min start_gpa x :
  __pmd_offset L (slot_start i_min start_gpa x)
  = if x =? i_min then __pmd_offset L start_gpa else 0.
Proof.
  unfold slot_start. destruct (x =? i_min); [reflexivity|].
  apply (offsets_zero L).
Qed.

Lemma slot_end_pmd_offset i_max end_gpa x :
  __pmd_offset L (slot_end i_max end_gpa x)
  = if x =? i_max then __pmd_offset L end_gpa else PTRS_PER_PMD L - 1.
Proof.
  unfold slot_end. destruct (x =? i_max); [reflexivity|].
  apply (offsets_ulong_max L); assumption.
Qed.

Lemma flush_pud_slot_inside start_gpa end_gpa old new b gi mi ti :
  wf_pud L old ->
  flush_pud_slot L start_gpa end_gpa old = Some (new, b) ->
  0 <= ti < PTRS_PER_PTE L ->
  __pmd_offset L start_gpa <= mi <= __pmd_offset L end_gpa ->
  (mi = __pmd_offset L start_gpa -> __pte_offset L start_gpa <= ti) ->
  (mi = __pmd_offset L end_gpa -> ti <= __pte_offset L end_gpa) ->
  unmapped L (pud_lookup L gi mi ti new).
Proof.
  intros Hwf Hslot Hti Hmi Hlo Hhi. unfold flush_pud_slot in Hslot.
  destruct old as [|pmds]; cbn in Hslot, Hwf.
  { simplify_eq. now left. }
  destruct Hwf as [Hlen Hwf].
  destruct (kvm_mips_flush_gpa_pmd L pmds start_gpa end_gpa)
    as [[r pmds']|] eqn:Hpmd; [|discriminate].
  cbn in Hslot. simplify_eq.
  destruct b; [now left|]. cbn.
  apply flush_pmd_char in Hpmd as (_ & _ & _ & Hslots);
    [|exact pmd_bits_nonneg].
  pose proof (pmd_offset_range L start_gpa pmd_bits_nonneg).
  destruct (Hslots mi ltac:(lia)) as [Hin _].
  destruct (Hin Hmi) as (old & new & bb & Hold & Hnew & Hs & _).
  rewrite Hnew. cbn.
  eapply flush_pmd_slot_inside; eauto.
  - rewrite Forall_lookup in Hwf. eapply Hwf, Hold.
  - rewrite slot_start_pte_offset, slot_end_pte_offset.
    destruct (Z.eqb_spec mi (__pmd_offset L start_gpa)),
             (Z.eqb_spec mi (__pmd_offset L end_gpa)); lia.
Qed.

Lemma flush_pud_slot_outside_leaf start_gpa end_gpa pmds pte new b gi mi
    ti :
  flush_pud_slot L start_gpa end_gpa (Pud_table pmds) = Some (new, b) ->
  pmds !! idx mi = Some (Pmd_table pte) ->
  0 <= ti < PTRS_PER_PTE L ->
  __pmd_offset L start_gpa <= mi <= __pmd_offset L end_gpa ->
  (mi = __pmd_offset L start_gpa /\ ti < __pte_offset L start_gpa)
  \/ (mi = __pmd_offset L end_gpa /\ __pte_offset L end_gpa < ti) ->
  b = false
  /\ pud_lookup L gi mi ti new = pud_lookup L gi mi ti (Pud_table pmds).
Proof.
  intros Hslot Hold Hti Hmi Hout. unfold flush_pud_slot in Hslot.
  cbn in Hslot.
  destruct (kvm_mips_flush_gpa_pmd L pmds start_gpa end_gpa)
    as [[r pmds']|] eqn:Hpmd; [|discriminate].
  cbn in Hslot. simplify_eq.
  apply flush_pmd_char in Hpmd as (_ & Hsafe & _ & Hslots);
    [|exact pmd_bits_nonneg].
  pose proof (pmd_offset_range L start_gpa pmd_bits_nonneg).
  destruct (Hslots mi ltac:(lia)) as [Hin _].
  destruct (Hin Hmi) as (old & new & bb & Hold' & Hnew & Hs & Hb & Hb').
  rewrite Hold in Hold'. simplify_eq.
  apply (flush_pmd_slot_outside L _ _ _ _ _ gi mi ti) in Hs
    as [-> Hsame]; [|assumption|assumption|].
  - assert (b = false) as ->
      by (destruct b; [specialize (Hb eq_refl); discriminate|reflexivity]).
    split; [reflexivity|]. cbn. rewrite Hnew, Hold. cbn. exact Hsame.
  - rewrite slot_start_pte_offset, slot_end_pte_offset.
    destruct (Z.eqb_spec mi (__pmd_offset L start_gpa)),
             (Z.eqb_spec mi (__pmd_offset L end_gpa)); lia.
Qed.

Lemma flush_pud_slot_outside_slot start_gpa end_gpa pmds new b gi mi ti :
  flush_pud_slot L start_gpa end_gpa (Pud_table pmds) = Some (new, b) ->
  0 <= mi < PTRS_PER_PMD L ->
  ~ (__pmd_offset L start_gpa <= mi <= __pmd_offset L end_gpa) ->
  b = false
  /\ pud_lookup L gi mi ti new = pud_lookup L gi mi ti (Pud_table pmds).
Proof.
  intros Hslot Hmi Hout. unfold flush_pud_slot in Hslot. cbn in Hslot.
  destruct (kvm_mips_flush_gpa_pmd L pmds start_gpa end_gpa)
    as [[r pmds']|] eqn:Hpmd; [|discriminate].
  cbn in Hslot. simplify_eq.
  apply flush_pmd_char in Hpmd as (_ & Hsafe & _ & Hslots);
    [|exact pmd_bits_nonneg].
  assert (b = false) as ->.
  { destruct b; [|reflexivity]. specialize (Hsafe eq_refl).
    apply andb_prop in Hsafe as [H1 H2]. apply Z.eqb_eq in H1, H2. lia. }
  split; [reflexivity|]. cbn.
  destruct (Hslots mi ltac:(lia)) as [_ Hsame]. now rewrite Hsame.
Qed.
End FlushedSlots.

(** ** Frame order and index order *)

Lemma lex2_le T q r q' r' :
  0 < T -> 0 <= r < T -> 0 <= r' < T ->
  (q * T + r <= q' * T + r' <-> q < q' \/ (q = q' /\ r <= r')).
Proof. intros. split; intros; nia. Qed.

Lemma lex_order T M x y :
  0 < T -> 0 < M ->
  (x <= y <->
   x / (T * M) < y / (T * M)
   \/ (x / (T * M) = y / (T * M)
       /\ ((x / T) mod M < (y / T) mod M
           \/ ((x / T) mod M = (y / T) mod M /\ x mod T <= y mod T))))
  /\ (x / T <= y / T <->
      x / (T * M) < y / (T * M)
      \/ (x / (T * M) = y / (T * M) /\ (x / T) mod M <= (y / T) mod M)).
Proof.
  intros HT HM.
  rewrite <- !Z.div_div by lia.
  pose proof (Z.div_mod x T ltac:(lia)) as Ex.
  pose proof (Z.div_mod y T ltac:(lia)) as Ey.
  pose proof (Z.div_mod (x / T) M ltac:(lia)) as Eqx.
  pose proof (Z.div_mod (y / T) M ltac:(lia)) as Eqy.
  pose proof (Z.mod_pos_bound x T HT).
  pose proof (Z.mod_pos_bound y T HT).
  pose proof (Z.mod_pos_bound (x / T) M HM).
  pose proof (Z.mod_pos_bound (y / T) M HM).
  assert (Hq : x / T <= y / T <->
               x / T / M < y / T / M
               \/ (x / T / M = y / T / M /\ (x / T) mod M <= (y / T) mod M)).
  { rewrite Eqx at 1. rewrite Eqy at 1.
    rewrite !(Z.mul_comm M). apply lex2_le; lia. }
  split; [|exact Hq].
  assert (Hx : x <= y <->
               x / T < y / T \/ (x / T = y / T /\ x mod T <= y mod T)).
  { rewrite Ex at 1. rewrite Ey at 1.
    rewrite !(Z.mul_comm T). apply lex2_le; lia. }
  rewrite Hx.
  assert (Hlt : x / T < y / T <->
               x / T / M < y / T / M
               \/ (x / T / M = y / T / M /\ (x / T) mod M < (y / T) mod M))
    by (split; intros; nia).
  assert (Heq : x / T = y / T <->
               x / T / M = y / T / M /\ (x / T) mod M = (y / T) mod M)
    by (split; intros; [split; congruence | nia]).
  rewrite Hlt, Heq. tauto.
Qed.

(** ** Unmapping a range of guest frames *)

(** C4, as amended. On a well-formed page directory, for guest frames
    [a <= b] within its reach, [kvm_mips_flush_gpa_pt(kvm, a, b)] returns
    and treats [b] as the last frame of the range. Afterwards the read-only
    walk for every frame in [a, b] finds no present entry: it returns NULL,
    or a pointer to an entry whose present bit is clear (a leaf table that
    the range covers only in part stays linked, with the covered entries
    zeroed). For a frame outside [a, b], the walk returns the same entry
    with the same value as before whenever that entry is a leaf entry, or a
    huge entry whose block does not meet the range; a huge entry whose
    block meets the range is removed whole. *)
Theorem C4_flush_range (L : layout) (kvm : vz_vm) (a b : Z) :
  0 <= PAGE_SHIFT L -> 0 <= PTE_BITS L -> 0 <= PMD_BITS L ->
  0 <= PGD_BITS L ->
  PAGE_SHIFT L + PTE_BITS L + PMD_BITS L + PGD_BITS L <= wordsize ->
  pmdv_huge L (invalid_pte_table L) = false ->
  wf_pgd L (gpa_mm_pgd kvm) ->
  0 <= a -> a <= b -> b < gfn_limit L ->
  exists r kvm',
    kvm_mips_flush_gpa_pt L kvm a b = Some (r, kvm')
    /\ (forall gfn,
          a <= gfn <= b ->
          unmapped L (gpa_lookup L (gpa_mm_pgd kvm')
                                 (ushl gfn (PAGE_SHIFT L))))
    /\ (forall gfn p v,
          0 <= gfn < gfn_limit L -> ~ (a <= gfn <= b) ->
          gpa_lookup L (gpa_mm_pgd kvm) (ushl gfn (PAGE_SHIFT L))
          = Some (Some (p, v)) ->
          is_leaf_ptr p
          \/ ~ (a / PTRS_PER_PTE L <= gfn / PTRS_PER_PTE L
                <= b / PTRS_PER_PTE L) ->
          gpa_lookup L (gpa_mm_pgd kvm') (ushl gfn (PAGE_SHIFT L))
          = Some (Some (p, v))).
Proof.
  intros Hps Hpte Hpmd Hpgd Hbits Hinv Hwf Ha Hab Hb.
  pose proof (ptrs_pos L Hps Hpte Hpmd Hpgd) as (HT & HM & HG & HP).
  set (T := PTRS_PER_PTE L) in *. set (M := PTRS_PER_PMD L) in *.
  set (start := ushl a (PAGE_SHIFT L)). set (end_ := ushl b (PAGE_SHIFT L)).
  (* the indices of a frame *)
  assert (Hidx : forall x, 0 <= x < gfn_limit L ->
            pgd_index L (ushl x (PAGE_SHIFT L)) = x / (T * M)
            /\ __pmd_offset L (ushl x (PAGE_SHIFT L)) = (x / T) mod M
            /\ __pte_offset L (ushl x (PAGE_SHIFT L)) = x mod T).
  { intros x Hx. split; [|split].
    - now apply pgd_index_gfn.
    - now apply pmd_offset_gfn.
    - now apply pte_offset_gfn. }
  destruct (Hidx a ltac:(lia)) as (Hga & Hma & Hta).
  destruct (Hidx b ltac:(lia)) as (Hgb & Hmb & Htb).
  fold start in Hga, Hma, Hta. fold end_ in Hgb, Hmb, Htb.
  (* the flush returns *)
  destruct (flush_pgd_total L (gpa_mm_pgd kvm) start end_ Hpte Hpmd Hpgd Hwf)
    as [[r pgd'] Hrun].
  exists r, (set_pgd kvm pgd').
  split; [unfold kvm_mips_flush_gpa_pt; fold start end_; now rewrite Hrun|].
  cbn [gpa_mm_pgd set_pgd].
  apply flush_pgd_char in Hrun as (Hlen & _ & _ & Hslots); [|exact Hpgd].
  rewrite Hga, Hgb in Hslots.
  destruct Hwf as [Hwflen Hwf]. rewrite Forall_lookup in Hwf.
  (* what a visited top-level slot went through *)
  assert (Hvisit : forall g, a / (T * M) <= g <= b / (T * M) ->
            exists old new bb,
              gpa_mm_pgd kvm !! idx g = Some old /\ pgd' !! idx g = Some new
              /\ wf_pud L old
              /\ flush_pud_slot L (slot_start (a / (T * M)) start g)
                                (slot_end (b / (T * M)) end_ g) old
                 = Some (new, bb)).
  { intros g Hg.
    assert (0 <= a / (T * M)) by (apply Z.div_pos; nia).
    destruct (Hslots g ltac:(lia)) as [Hin _].
    destruct (Hin Hg) as (old & new & bb & Hold & Hnew & Hs & _).
    exists old, new, bb. repeat split; auto.
    - eapply Hwf, Hold.
    - now apply flush_pgd_slot_pud. }
  (* the slot ranges in terms of the indices of [a] and [b] *)
  assert (Hsm : forall g, __pmd_offset L (slot_start (a / (T * M)) start g)
                          = if g =? a / (T * M) then (a / T) mod M else 0)
    by (intros; rewrite slot_start_pmd_offset, Hma; reflexivity).
  assert (Hem : forall g, __pmd_offset L (slot_end (b / (T * M)) end_ g)
                          = if g =? b / (T * M) then (b / T) mod M
                            else M - 1)
    by (intros; rewrite slot_end_pmd_offset, Hmb by assumption; reflexivity).
  assert (Hst : forall g, __pte_offset L (slot_start (a / (T * M)) start g)
                          = if g =? a / (T * M) then a mod T else 0)
    by (intros; rewrite slot_start_pte_offset, Hta; reflexivity).
  assert (Het : forall g, __pte_offset L (slot_end (b / (T * M)) end_ g)
                          = if g =? b / (T * M) then b mod T else T - 1)
    by (intros; rewrite slot_end_pte_offset, Htb by assumption; reflexivity).
  split.
  - (* frames of the range *)
    intros gfn Hin.
    destruct (Hidx gfn ltac:(lia)) as (Hg & Hm & Ht).
    rewrite gpa_lookup_unfold, Hg, Hm, Ht.
    pose proof (lex_order T M a gfn HT HM) as [Hlo _].
    pose proof (lex_order T M gfn b HT HM) as [Hhi _].
    pose proof (Z.mod_pos_bound gfn T HT).
    pose proof (Z.mod_pos_bound (gfn / T) M HM).
    pose proof (Z.mod_pos_bound (a / T) M HM).
    pose proof (Z.mod_pos_bound a T HT).
    apply proj1 in Hlo. apply proj1 in Hhi.
    specialize (Hlo ltac:(lia)). specialize (Hhi ltac:(lia)).
    destruct (Hvisit (gfn / (T * M)) ltac:(lia))
      as (old & new & bb & Hold & Hnew & Hwfold & Hs).
    rewrite Hnew. cbn [mbind option_bind].
    eapply flush_pud_slot_inside; eauto; rewrite ?Hsm, ?Hem, ?Hst, ?Het.
    + destruct (Z.eqb_spec (gfn / (T * M)) (a / (T * M))),
               (Z.eqb_spec (gfn / (T * M)) (b / (T * M))); lia.
    + destruct (Z.eqb_spec (gfn / (T * M)) (a / (T * M))); lia.
    + destruct (Z.eqb_spec (gfn / (T * M)) (b / (T * M))); lia.
  - (* frames outside the range *)
    intros gfn p v Hgfn Hout Hbefore Hkind.
    destruct (Hidx gfn Hgfn) as (Hg & Hm & Ht).
    rewrite gpa_lookup_unfold, Hg, Hm, Ht in Hbefore |- *.
    pose proof (lex_order T M a gfn HT HM) as [Hlo Hlo'].
    pose proof (lex_order T M gfn b HT HM) as [Hhi Hhi'].
    pose proof (Z.mod_pos_bound gfn T HT).
    pose proof (Z.mod_pos_bound (gfn / T) M HM).
    pose proof (Z.mod_pos_bound (a / T) M HM).
    pose proof (Z.mod_pos_bound (b / T) M HM).
    pose proof (Z.mod_pos_bound a T HT).
    pose proof (Z.mod_pos_bound b T HT).
    set (g := gfn / (T * M)) in *. set (m := (gfn / T) mod M) in *.
    set (t := gfn mod T) in *.
    assert (0 <= g) by (apply Z.div_pos; nia).
    destruct (gpa_mm_pgd kvm !! idx g) as [old|] eqn:Hold; [|discriminate].
    cbn [mbind option_bind] in Hbefore.
    destruct old as [|pmds]; [discriminate|].
    destruct (Z_le_dec (a / (T * M)) g) as [Hg1|Hg1];
      [destruct (Z_le_dec g (b / (T * M))) as [Hg2|Hg2]|].
    2,3: destruct (Hslots g ltac:(lia)) as [_ Hsame];
         rewrite Hsame by lia; rewrite Hold; exact Hbefore.
    destruct (Hvisit g ltac:(lia))
      as (old & new & bb & Hold' & Hnew & Hwfold & Hs).
    assert (old = Pud_table pmds) as -> by congruence. clear Hold'.
    rewrite Hnew. cbn [mbind option_bind]. rewrite <- Hbefore.
    destruct (Z_le_dec (__pmd_offset L (slot_start (a / (T * M)) start g)) m)
      as [Hm1|Hm1];
      [destruct (Z_le_dec m (__pmd_offset L (slot_end (b / (T * M)) end_ g)))
         as [Hm2|Hm2]|].
    2,3: eapply flush_pud_slot_outside_slot; eauto; lia.
    (* the middle-level slot is visited: the entry is a leaf entry *)
    assert (Hmeet : a / T <= gfn / T <= b / T).
    { rewrite Hsm in Hm1. rewrite Hem in Hm2.
      destruct (Z.eqb_spec g (a / (T * M))), (Z.eqb_spec g (b / (T * M)));
        split; (apply Hlo' || apply Hhi'); lia. }
    destruct Hkind as [Hleaf | Hmiss]; [|contradiction].
    cbn [pud_lookup] in Hbefore.
    destruct (pmds !! idx m) as [pmd|] eqn:Hpmd_m; [|discriminate].
    cbn [mbind option_bind] in Hbefore.
    destruct pmd as [w|pte].
    { cbn in Hbefore. destruct (pmdv_huge L w); [|destruct (pmdv_none L w)];
        try discriminate.
      assert (p = At_pmd g m) as -> by congruence. contradiction. }
    eapply flush_pud_slot_outside_leaf; eauto.
    rewrite Hsm, Hem, Hst, Het. rewrite Hsm in Hm1. rewrite Hem in Hm2.
    destruct (Z.eqb_spec g (a / (T * M))), (Z.eqb_spec g (b / (T * M)));
      lia.
Qed.

(** ** Installing a huge mapping *)

Lemma usub_uadd x y z : usub (uadd x y) z = wrap (x + y - z).
Proof. unfold usub, uadd, wrap. apply Zminus_mod_idemp_l. Qed.

Lemma pmd_mask_land L addr :
  0 <= PAGE_SHIFT L -> 0 <= PTE_BITS L ->
  PAGE_SHIFT L + PTE_BITS L <= wordsize ->
  0 <= addr < modulus ->
  Z.land addr (PMD_MASK L)
  = addr / (PAGE_SIZE L * PTRS_PER_PTE L) * (PAGE_SIZE L * PTRS_PER_PTE L).
Proof.
  intros Hps Hpte Hbits Haddr.
  assert (Hsize : PMD_SIZE L = 2 ^ (PAGE_SHIFT L + PTE_BITS L))
    by (unfold PMD_SIZE, PMD_SHIFT; apply shiftl_1; lia).
  assert (Hprod : PAGE_SIZE L * PTRS_PER_PTE L
                  = 2 ^ (PAGE_SHIFT L + PTE_BITS L)).
  { unfold PAGE_SIZE, PTRS_PER_PTE. rewrite !shiftl_1 by lia.
    now rewrite Z.pow_add_r by lia. }
  pose proof (pow2_pos (PAGE_SHIFT L + PTE_BITS L) ltac:(lia)) as Hpos.
  pose proof (pow2_le_modulus (PAGE_SHIFT L + PTE_BITS L) ltac:(lia)).
  unfold PMD_MASK. rewrite Hsize, Hprod.
  replace (2 ^ (PAGE_SHIFT L + PTE_BITS L) - 1)
    with (usub (2 ^ (PAGE_SHIFT L + PTE_BITS L)) 1)
    by (unfold usub; apply wrap_small; lia).
  rewrite land_high_mask by lia.
  pose proof (Z.div_mod addr (2 ^ (PAGE_SHIFT L + PTE_BITS L)) ltac:(lia)).
  lia.
Qed.

(** The range that [kvm_mips_set_pmd_huge] flushes is exactly the block of
    [addr]: one top-level slot, one middle-level slot, the whole leaf
    table. *)
Lemma pmd_block_range L addr :
  0 <= PAGE_SHIFT L -> 0 <= PTE_BITS L -> 0 <= PMD_BITS L ->
  0 <= PGD_BITS L ->
  PAGE_SHIFT L + PTE_BITS L + PMD_BITS L + PGD_BITS L <= wordsize ->
  0 <= addr < modulus ->
  let start_gpa :=
    ushl (ushr (Z.land addr (PMD_MASK L)) (PAGE_SHIFT L)) (PAGE_SHIFT L) in
  let end_gpa :=
    ushl (ushr (usub (uadd (Z.land addr (PMD_MASK L)) (PMD_SIZE L)) 1)
               (PAGE_SHIFT L)) (PAGE_SHIFT L) in
  pgd_index L start_gpa = pgd_index L addr
  /\ pgd_index L end_gpa = pgd_index L addr
  /\ __pmd_offset L start_gpa = __pmd_offset L addr
  /\ __pmd_offset L end_gpa = __pmd_offset L addr
  /\ __pte_offset L start_gpa = 0
  /\ __pte_offset L end_gpa = PTRS_PER_PTE L - 1.
Proof.
  intros Hps Hpte Hpmd Hpgd Hbits Haddr start_gpa end_gpa.
  pose proof (ptrs_pos L Hps Hpte Hpmd Hpgd) as (HT & HM & HG & HP).
  set (P := PAGE_SIZE L) in *. set (T := PTRS_PER_PTE L) in *.
  set (M := PTRS_PER_PMD L) in *.
  set (q := addr / (P * T)).
  assert (Hq : 0 <= q) by (apply Z.div_pos; nia).
  assert (Hblock : P * T <= modulus).
  { unfold P, T, PAGE_SIZE, PTRS_PER_PTE. rewrite !shiftl_1 by lia.
    rewrite <- Z.pow_add_r by lia. apply pow2_le_modulus. lia. }
  assert (Hqtop : q * (P * T) <= addr)
    by (pose proof (Z.div_mod addr (P * T) ltac:(nia));
        pose proof (Z.mod_pos_bound addr (P * T) ltac:(nia)); unfold q; nia).
  assert (Hdiv : (P * T | modulus)).
  { unfold P, T, PAGE_SIZE, PTRS_PER_PTE, modulus.
    rewrite !shiftl_1 by lia. rewrite <- Z.pow_add_r by lia.
    exists (2 ^ (wordsize - (PAGE_SHIFT L + PTE_BITS L))).
    rewrite <- Z.pow_add_r by lia. f_equal. lia. }
  assert (Hfit : q * (P * T) + P * T <= modulus).
  { destruct Hdiv as [c Hc]. rewrite Hc in *.
    assert (q < c) by nia. nia. }
  assert (Hstart : Z.land addr (PMD_MASK L) = q * (P * T))
    by (apply pmd_mask_land; lia).
  assert (Hsize : PMD_SIZE L = P * T).
  { unfold PMD_SIZE, PMD_SHIFT, P, T, PAGE_SIZE, PTRS_PER_PTE.
    rewrite !shiftl_1 by lia. now rewrite Z.pow_add_r by lia. }
  assert (Hs : start_gpa = q * (P * T)).
  { unfold start_gpa. rewrite Hstart. unfold ushr, ushl.
    rewrite Z.shiftr_div_pow2, Z.shiftl_mul_pow2 by lia.
    fold (PAGE_SIZE L). rewrite <- (page_size_pow L Hps). fold P.
    replace (q * (P * T)) with (q * T * P) by ring.
    rewrite Z.div_mul by lia. apply wrap_small. nia. }
  assert (He : end_gpa = q * (P * T) + (P * T - P)).
  { unfold end_gpa. rewrite Hstart, Hsize, usub_uadd.
    rewrite wrap_small by nia. unfold ushr, ushl.
    rewrite Z.shiftr_div_pow2, Z.shiftl_mul_pow2 by lia.
    rewrite <- (page_size_pow L Hps). fold P.
    replace (q * (P * T) + P * T - 1) with ((q * T + T - 1) * P + (P - 1))
      by ring.
    rewrite Z.div_add_l by lia. rewrite (Z.div_small (P - 1)) by lia.
    rewrite Z.add_0_r. rewrite wrap_small by nia. ring. }
  rewrite Hs, He.
  rewrite !(pgd_index_div L Hps Hpte Hpmd Hpgd),
          !(pmd_offset_div L Hps Hpte Hpmd),
          !(pte_offset_div L Hps Hpte).
  fold P T M.
  assert (Hq1 : q * (P * T) / (P * T) = q) by (apply Z.div_mul; nia).
  assert (Hq2 : (q * (P * T) + (P * T - P)) / (P * T) = q).
  { rewrite Z.div_add_l by nia. rewrite Z.div_small by nia. lia. }
  rewrite <- !(Z.div_div _ (P * T) M) by nia.
  rewrite Hq1, Hq2. fold q.
  repeat split.
  - replace (q * (P * T)) with (q * T * P) by ring.
    rewrite Z.div_mul by lia. apply Z.mod_mul. lia.
  - replace (q * (P * T) + (P * T - P)) with ((q * T + (T - 1)) * P) by ring.
    rewrite Z.div_mul by lia.
    rewrite Z.add_comm, Z.mod_add by lia. apply Z.mod_small. lia.
Qed.

Lemma get_pmd_present L kvm cache addr pmds :
  gpa_mm_pgd kvm !! idx (pgd_index L addr) = Some (Pud_table pmds) ->
  kvm_mips_get_pmd L kvm cache addr
  = Some (Some (pgd_index L addr, __pmd_offset L addr), kvm, cache).
Proof.
  intros Hpud. unfold kvm_mips_get_pmd, kvm_mips_get_pud.
  rewrite Hpud. cbn. rewrite Hpud. reflexivity.
Qed.

Lemma load_pmd_at pgd gi mi pmds :
  pgd !! idx gi = Some (Pud_table pmds) ->
  load_pmd pgd (gi, mi) = pmds !! idx mi.
Proof.
  intros Hpud. unfold load_pmd. cbn [fst snd].
  rewrite Hpud. reflexivity.
Qed.

Lemma store_pmd_at pgd gi mi pmds old e :
  pgd !! idx gi = Some (Pud_table pmds) -> pmds !! idx mi = Some old ->
  store_pmd pgd (gi, mi) e
  = Some (<[idx gi := Pud_table (<[idx mi := e]> pmds)]> pgd).
Proof.
  intros Hpud Hold. unfold store_pmd. cbn [fst snd].
  rewrite Hpud. cbn [mbind option_bind pmd_table_of].
  rewrite Hold. reflexivity.
Qed.

(** C9, as amended. Take the middle-level slot that governs [addr], in a
    present middle-level table.
    - If the slot already holds the new value, the install returns 0 in its
      first pass and changes nothing.
    - If the slot points to a leaf table, the install first flushes the
      whole block of [addr], which unlinks the leaf table and clears the
      slot; on the retry it invalidates the hardware mapping of the block
      and only then writes the huge entry.
    - If the slot holds a present huge entry with another value, the install
      clears it, invalidates the hardware mapping and writes the new entry
      in the same pass, without a retry; a different host frame only adds a
      warning. *)
Theorem C9_set_pmd_huge (L : layout) (kvm : vz_vm)
    (mc : kvm_mmu_memory_cache) (addr new_pmd : Z) (pmds : list pmd_t)
    (fuel : nat) :
  0 <= PAGE_SHIFT L -> 0 <= PTE_BITS L -> 0 < PMD_BITS L ->
  0 <= PGD_BITS L ->
  PAGE_SHIFT L + PTE_BITS L + PMD_BITS L + PGD_BITS L <= wordsize ->
  pmdv_huge L (invalid_pte_table L) = false ->
  wf_pgd L (gpa_mm_pgd kvm) ->
  0 <= addr < modulus ->
  new_pmd <> invalid_pte_table L ->
  let gi := pgd_index L addr in
  let mi := __pmd_offset L addr in
  let block := Z.land addr (PMD_MASK L) in
  gpa_mm_pgd kvm !! idx gi = Some (Pud_table pmds) ->
  (pmds !! idx mi = Some (Pmd_val new_pmd) ->
   kvm_mips_set_pmd_huge L (S fuel) kvm (Some mc) addr new_pmd
   = Some (0, kvm, Some mc, []))
  /\ (forall pte,
        pmds !! idx mi = Some (Pmd_table pte) ->
        let start_gfn := ushr block (PAGE_SHIFT L) in
        let end_gfn :=
          ushr (usub (uadd block (PMD_SIZE L)) 1) (PAGE_SHIFT L) in
        exists r pgd1 pgd2,
          kvm_mips_flush_gpa_pt L kvm start_gfn end_gfn
          = Some (r, set_pgd kvm pgd1)
          /\ load_pmd pgd1 (gi, mi) = Some (pmd_cleared L)
          /\ store_pmd pgd1 (gi, mi) (Pmd_val new_pmd) = Some pgd2
          /\ kvm_mips_set_pmd_huge L (S (S fuel)) kvm (Some mc) addr new_pmd
             = Some (0, set_pgd kvm pgd2, Some mc,
                     [flushed_gpa_pt start_gfn end_gfn;
                      kvm_vz_host_tlb_inv block;
                      pmd_set_at addr new_pmd]))
  /\ (forall old,
        pmds !! idx mi = Some (Pmd_val old) -> old <> new_pmd ->
        pmdv_huge L old = true -> pmdv_present L old = true ->
        kvm_mips_set_pmd_huge L (S fuel) kvm (Some mc) addr new_pmd
        = Some (0,
                set_pgd kvm
                  (<[idx gi := Pud_table (<[idx mi := Pmd_val new_pmd]> pmds)]>
                     (gpa_mm_pgd kvm)),
                Some mc,
                (if negb (pmd_pfn L old =? pmd_pfn L new_pmd)
                 then [WARN_ON_ONCE] else [])
                ++ [pmd_cleared_at addr; kvm_vz_host_tlb_inv block;
                    pmd_set_at addr new_pmd])).
Proof.
  intros Hps Hpte Hpmd Hpgd Hbits Hinv Hwf Haddr Hnew gi mi block Hpud.
  split; [|split].
  - (* the slot already holds the value *)
    intros Hslot. cbn [kvm_mips_set_pmd_huge].
    rewrite (get_pmd_present L kvm (Some mc) addr pmds Hpud).
    cbn [mbind option_bind]. fold gi mi.
    rewrite (load_pmd_at _ gi mi pmds Hpud), Hslot.
    cbn [mbind option_bind pmd_val_eq]. now rewrite Z.eqb_refl.
  - (* the slot points to a leaf table *)
    intros pte Hslot start_gfn end_gfn.
    destruct (pmd_block_range L addr Hps Hpte ltac:(lia) Hpgd Hbits Haddr)
      as (Hg1 & Hg2 & Hm1 & Hm2 & Ht1 & Ht2).
    fold block in Hg1, Hg2, Hm1, Hm2, Ht1, Ht2.
    fold start_gfn in Hg1, Hm1, Ht1. fold end_gfn in Hg2, Hm2, Ht2.
    fold gi in Hg1, Hg2. fold mi in Hm1, Hm2.
    set (start_gpa := ushl start_gfn (PAGE_SHIFT L)) in *.
    set (end_gpa := ushl end_gfn (PAGE_SHIFT L)) in *.
    pose proof (pgd_index_range L addr Hpgd) as Hgi. fold gi in Hgi.
    pose proof (pmd_offset_range L addr ltac:(lia)) as Hmi. fold mi in Hmi.
    destruct (flush_pgd_total L (gpa_mm_pgd kvm) start_gpa end_gpa Hpte
                ltac:(lia) Hpgd Hwf) as [[r pgd1] Hrun].
    (* the top-level slot keeps its middle-level table *)
    destruct (flush_pgd_child L _ start_gpa end_gpa r pgd1 gi pmds Hpgd Hrun
                ltac:(rewrite Hg1, Hg2; lia) Hpud)
      as (rem & pmds' & Hpmd' & Hnew1 & _).
    rewrite Hg1, Hg2 in Hpmd'. unfold slot_start, slot_end in Hpmd'.
    rewrite Z.eqb_refl in Hpmd'.
    assert (rem = false) as ->.
    { destruct rem; [|reflexivity].
      apply flush_pmd_char in Hpmd'; [|lia].
      apply slotwise_safe in Hpmd'. rewrite Hm1, Hm2 in Hpmd'.
      assert (2 <= PTRS_PER_PMD L).
      { unfold PTRS_PER_PMD. rewrite shiftl_1 by lia.
        change 2 with (2 ^ 1). apply Z.pow_le_mono_r; lia. }
      lia. }
    (* the leaf table is unlinked *)
    destruct (flush_pmd_child L pmds start_gpa end_gpa false pmds' mi pte
                ltac:(lia) Hpmd' ltac:(rewrite Hm1, Hm2; lia) Hslot)
      as (rem' & pte' & Hpte' & Hnew2 & _).
    rewrite Hm1, Hm2 in Hpte'. unfold slot_start, slot_end in Hpte'.
    rewrite Z.eqb_refl in Hpte'.
    assert (rem' = true) as ->.
    { apply flush_pte_char in Hpte' as (-> & _); [|exact Hpte].
      rewrite Ht1, Ht2, !Z.eqb_refl. reflexivity. }
    assert (Hcleared : load_pmd pgd1 (gi, mi) = Some (pmd_cleared L))
      by (now rewrite (load_pmd_at _ gi mi pmds' Hnew1)).
    exists r, pgd1,
      (<[idx gi := Pud_table (<[idx mi := Pmd_val new_pmd]> pmds')]> pgd1).
    assert (Hflush : kvm_mips_flush_gpa_pt L kvm start_gfn end_gfn
                     = Some (r, set_pgd kvm pgd1))
      by (unfold kvm_mips_flush_gpa_pt; fold start_gpa end_gpa;
          now rewrite Hrun).
    split; [exact Hflush|]. split; [exact Hcleared|].
    split; [now apply (store_pmd_at _ gi mi pmds' (pmd_cleared L))|].
    (* first pass: flush and retry *)
    cbn [kvm_mips_set_pmd_huge].
    rewrite (get_pmd_present L kvm (Some mc) addr pmds Hpud).
    cbn [mbind option_bind]. fold gi mi block.
    rewrite (load_pmd_at _ gi mi pmds Hpud), Hslot.
    cbn [mbind option_bind pmd_val_eq pmd_present pmd_huge negb].
    fold start_gfn end_gfn. rewrite Hflush. cbn [mbind option_bind].
    (* second pass: the slot is clear *)
    rewrite (get_pmd_present L (set_pgd kvm pgd1) (Some mc) addr pmds' Hnew1).
    cbn [mbind option_bind gpa_mm_pgd set_pgd]. fold gi mi.
    rewrite Hcleared.
    cbn [mbind option_bind pmd_val_eq pmd_cleared pmd_present].
    destruct (Z.eqb_spec (invalid_pte_table L) new_pmd); [congruence|].
    unfold pmdv_present. rewrite Hinv, Z.eqb_refl. cbn [negb].
    rewrite (store_pmd_at _ gi mi pmds' (pmd_cleared L) _ Hnew1 Hnew2).
    reflexivity.
  - (* the slot holds another present huge entry *)
    intros old Hslot Hne Hhuge Hpres. cbn [kvm_mips_set_pmd_huge].
    rewrite (get_pmd_present L kvm (Some mc) addr pmds Hpud).
    cbn [mbind option_bind]. fold gi mi block.
    rewrite (load_pmd_at _ gi mi pmds Hpud), Hslot.
    cbn [mbind option_bind pmd_val_eq pmd_present pmd_huge pmd_pfn_of].
    destruct (Z.eqb_spec old new_pmd); [congruence|].
    rewrite Hpres, Hhuge. cbn [negb mbind option_bind].
    rewrite (store_pmd_at _ gi mi pmds _ _ Hpud Hslot).
    cbn [mbind option_bind].
    assert (Hlen_g : (idx gi < length (gpa_mm_pgd kvm))%nat)
      by (apply lookup_lt_Some in Hpud; exact Hpud).
    assert (Hlen_m : (idx mi < length pmds)%nat)
      by (apply lookup_lt_Some in Hslot; exact Hslot).
    rewrite (store_pmd_at _ gi mi (<[idx mi := pmd_cleared L]> pmds)
               (pmd_cleared L));
      [| now rewrite list_lookup_insert_eq
       | now rewrite list_lookup_insert_eq ].
    cbn [mbind option_bind].
    rewrite !list_insert_insert_eq. reflexivity.
Qed.

(** ** The walker *)

Lemma lookup_pmd_init L mi :
  0 <= PMD_BITS L -> 0 <= mi < PTRS_PER_PMD L ->
  pmd_init L !! idx mi = Some (Pmd_val (invalid_pte_table L)).
Proof.
  intros Hbits Hmi. unfold pmd_init. apply lookup_replicate_2.
  unfold idx. lia.
Qed.

(** C2, as amended. Without a cache the walk returns NULL when the
    middle-level table or the leaf table for the address is missing, and
    leaves the page directory alone. With a cache it takes each missing
    table from the cache and links it into its parent before going on: a
    new middle-level table has every entry pointing at the invalid leaf
    table, while a new leaf table is zero-filled, so its entries are the
    not-present value 0 and do not point at the invalid table. When the
    middle-level entry is a huge mapping the walk stops there and returns
    that entry itself. *)
Theorem C2_walk_pgd (L : layout) (pgd : list pud_t)
    (mc : kvm_mmu_memory_cache) (addr : Z) :
  0 <= PMD_BITS L -> pmdv_huge L (invalid_pte_table L) = false ->
  let gi := pgd_index L addr in
  let mi := __pmd_offset L addr in
  let ti := __pte_offset L addr in
  (* no cache: NULL at the first missing level *)
  (pgd !! idx gi = Some Pud_none ->
   kvm_mips_walk_pgd L pgd None addr = Some (None, pgd, None))
  /\ (forall pmds e,
        pgd !! idx gi = Some (Pud_table pmds) -> pmds !! idx mi = Some e ->
        pmd_huge L e = false -> pmd_none L e = true ->
        kvm_mips_walk_pgd L pgd None addr = Some (None, pgd, None))
  (* a cache: both tables missing *)
  /\ (pgd !! idx gi = Some Pud_none -> 2 <= nobjs mc ->
      kvm_mips_walk_pgd L pgd (Some mc) addr
      = Some (Some (At_pte gi mi ti),
              <[idx gi := Pud_table
                  (<[idx mi := Pmd_table (clear_page L)]> (pmd_init L))]> pgd,
              Some (mk_cache (nobjs mc - 2) (objects mc))))
  (* a cache: the leaf table missing *)
  /\ (forall pmds e,
        pgd !! idx gi = Some (Pud_table pmds) -> pmds !! idx mi = Some e ->
        pmd_huge L e = false -> pmd_none L e = true -> 1 <= nobjs mc ->
        kvm_mips_walk_pgd L pgd (Some mc) addr
        = Some (Some (At_pte gi mi ti),
                <[idx gi := Pud_table
                    (<[idx mi := Pmd_table (clear_page L)]> pmds)]> pgd,
                Some (mk_cache (nobjs mc - 1) (objects mc))))
  (* the content of new tables *)
  /\ Forall (fun e => e = Pmd_val (invalid_pte_table L)) (pmd_init L)
  /\ Forall (fun e => e = 0) (clear_page L)
  /\ length (pmd_init L) = Z.to_nat (PTRS_PER_PMD L)
  /\ length (clear_page L) = Z.to_nat (PTRS_PER_PTE L)
  (* a huge entry ends the walk *)
  /\ (forall pmds e cache,
        pgd !! idx gi = Some (Pud_table pmds) -> pmds !! idx mi = Some e ->
        pmd_huge L e = true ->
        kvm_mips_walk_pgd L pgd cache addr
        = Some (Some (At_pmd gi mi), pgd, cache)).
Proof.
  intros Hbits Hinv gi mi ti.
  pose proof (pmd_offset_range L addr Hbits) as Hmi. fold mi in Hmi.
  assert (Halloc : forall n, 1 <= n -> 
            mmu_memory_cache_alloc (mk_cache n (objects mc))
            = Some (nth (Z.to_nat (n - 1)) (objects mc) 0,
                    mk_cache (n - 1) (objects mc))).
  { intros n Hn. unfold mmu_memory_cache_alloc. cbn [nobjs objects].
    destruct (Z.eqb_spec n 0); [lia | reflexivity]. }
  assert (Hmc : mc = mk_cache (nobjs mc) (objects mc)) by (now destruct mc).
  repeat split.
  - intros Hpud. unfold kvm_mips_walk_pgd. fold gi. rewrite Hpud. reflexivity.
  - intros pmds e Hpud He Hhuge Hnone. unfold kvm_mips_walk_pgd.
    fold gi mi. rewrite Hpud. cbn. rewrite He. cbn.
    rewrite Hhuge, Hnone. reflexivity.
  - intros Hpud Hn. unfold kvm_mips_walk_pgd. fold gi mi ti.
    rewrite Hpud. cbn [mbind option_bind pgd_none pud_none].
    rewrite Hmc at 1. rewrite (Halloc (nobjs mc)) by lia.
    cbn [mbind option_bind].
    rewrite (lookup_pmd_init L mi Hbits Hmi).
    cbn [mbind option_bind pmd_huge pmd_none].
    rewrite Hinv. unfold pmdv_none. rewrite Z.eqb_refl.
    rewrite (Halloc (nobjs mc - 1)) by lia.
    cbn [mbind option_bind].
    rewrite list_insert_insert_eq.
    replace (nobjs mc - 1 - 1) with (nobjs mc - 2) by lia. reflexivity.
  - intros pmds e Hpud He Hhuge Hnone Hn. unfold kvm_mips_walk_pgd.
    fold gi mi ti. rewrite Hpud.
    cbn [mbind option_bind pgd_none pud_none pmd_table_of].
    rewrite He. cbn [mbind option_bind]. rewrite Hhuge, Hnone.
    rewrite Hmc at 1. rewrite (Halloc (nobjs mc)) by lia. reflexivity.
  - unfold pmd_init. apply Forall_replicate. reflexivity.
  - unfold clear_page. apply Forall_replicate. reflexivity.
  - unfold pmd_init. apply length_replicate.
  - unfold clear_page. apply length_replicate.
  - intros pmds e cache Hpud He Hhuge. unfold kvm_mips_walk_pgd.
    fold gi mi. rewrite Hpud.
    cbn [mbind option_bind pgd_none pud_none pmd_table_of].
    rewrite He. cbn [mbind option_bind]. rewrite Hhuge. reflexivity.
Qed.

(** ** Examples and counterexamples over [layout16k] *)

Lemma wf_pgdb_sound L pgd : wf_pgdb L pgd = true -> wf_pgd L pgd.
Proof.
  unfold wf_pgdb, wf_pgd. intros [Hlen Hall]%andb_prop.
  apply Nat.eqb_eq in Hlen. split; [exact Hlen|].
  rewrite Forall_forall. rewrite forallb_forall in Hall.
  intros e He. apply list_elem_of_In, Hall in He.
  destruct e as [|pmds]; cbn in *; [exact I|].
  apply andb_prop in He as [Hlen' Hall']. apply Nat.eqb_eq in Hlen'.
  split; [exact Hlen'|].
  rewrite Forall_forall. rewrite forallb_forall in Hall'.
  intros p Hp. apply list_elem_of_In, Hall' in Hp.
  destruct p as [v|pte]; cbn in *.
  - intros Hpres. rewrite Hpres in Hp. exact Hp.
  - now apply Nat.eqb_eq.
Qed.

(** C2 as stated fails for the leaf table. Walking the empty page directory
    at address 0 with a cache returns the leaf slot (0, 0, 0); the leaf
    table the walk created and linked is the zero-filled page, and the entry
    it returns is 0, which is not the address of the invalid table. *)
Lemma C2_walk_pgd_counterexample :
  match kvm_mips_walk_pgd layout16k (kvm_pgd_init layout16k)
          (Some ex_cache) 0 with
  | Some (Some p, pgd', _) =>
      p = At_pte 0 0 0
      /\ (pud ← pgd' !! 0%nat; pmds ← pmd_table_of pud;
          pmd ← pmds !! 0%nat; pte_table_of pmd)
         = Some (clear_page layout16k)
      /\ load pgd' p = Some 0
      /\ 0 <> invalid_pte_table layout16k
  | _ => False
  end.
Proof. vm_compute. repeat split. discriminate. Qed.

(** C4 as stated fails on both halves. With present leaves for frames 0 and
    1, unmapping from frame 0 to frame 1 leaves the leaf table linked, so
    the read-only walk for frame 0 still returns the leaf slot and not NULL;
    and frame 1, outside the half-open range from 0 to 1, loses its
    mapping, because the end frame is the last frame flushed. *)
Lemma C4_flush_range_counterexample :
  match kvm_mips_flush_gpa_pt layout16k ex_kvm_two 0 1 with
  | Some (r, kvm') =>
      r = false
      /\ gpa_lookup layout16k (gpa_mm_pgd kvm') 0
         = Some (Some (At_pte 0 0 0, 0))
      /\ (exists v,
            gpa_lookup layout16k ex_pgd_two (2 ^ 14)
            = Some (Some (At_pte 0 0 1, v))
            /\ pte_present layout16k v = true)
      /\ gpa_lookup layout16k (gpa_mm_pgd kvm') (2 ^ 14)
         = Some (Some (At_pte 0 0 1, 0))
  | None => False
  end.
Proof.
  vm_compute. split; [reflexivity|]. split; [reflexivity|].
  split; [|reflexivity]. eexists. split; reflexivity.
Qed.

(** C9 as stated fails on its last part. Over a present huge entry for host
    frame 10240, installing a huge entry for host frame 20480 with a single
    pass allowed succeeds: the old entry is cleared and the new one written
    in that pass, with a warning and a hardware invalidation but no flush
    and no retry. *)
Lemma C9_set_pmd_huge_counterexample :
  pmd_pfn layout16k ex_huge_dirty <> pmd_pfn layout16k ex_huge_other
  /\ load_pmd ex_pgd_huge (0, 0) = Some (Pmd_val ex_huge_dirty)
  /\ match kvm_mips_set_pmd_huge layout16k 1 ex_kvm_huge (Some ex_cache) 0
             ex_huge_other with
     | Some (ret, kvm', cache', evs) =>
         ret = 0
         /\ cache' = Some ex_cache
         /\ evs = [WARN_ON_ONCE; pmd_cleared_at 0; kvm_vz_host_tlb_inv 0;
                   pmd_set_at 0 ex_huge_other]
         /\ load_pmd (gpa_mm_pgd kvm') (0, 0) = Some (Pmd_val ex_huge_other)
     | None => False
     end.
Proof.
  split; [vm_compute; discriminate|]. split; [vm_compute; reflexivity|].
  vm_compute. repeat split.
Qed.

Lemma C2_walk_pgd_witness :
  0 <= PMD_BITS layout16k
  /\ pmdv_huge layout16k (invalid_pte_table layout16k) = false
  /\ kvm_mips_walk_pgd layout16k (kvm_pgd_init layout16k) None 0
     = Some (None, kvm_pgd_init layout16k, None).
Proof.
  split; [discriminate|]. split; [reflexivity|].
  apply (C2_walk_pgd layout16k (kvm_pgd_init layout16k) ex_cache 0);
    [discriminate | reflexivity | vm_compute; reflexivity].
Defined.

Lemma C4_flush_range_witness :
  wf_pgd layout16k (gpa_mm_pgd ex_kvm_two)
  /\ 0 <= 0 <= 1 /\ 1 < gfn_limit layout16k
  /\ exists r kvm',
       kvm_mips_flush_gpa_pt layout16k ex_kvm_two 0 1 = Some (r, kvm')
       /\ (forall gfn,
             0 <= gfn <= 1 ->
             unmapped layout16k
               (gpa_lookup layout16k (gpa_mm_pgd kvm')
                           (ushl gfn (PAGE_SHIFT layout16k))))
       /\ (forall gfn p v,
             0 <= gfn < gfn_limit layout16k -> ~ (0 <= gfn <= 1) ->
             gpa_lookup layout16k (gpa_mm_pgd ex_kvm_two)
                        (ushl gfn (PAGE_SHIFT layout16k))
             = Some (Some (p, v)) ->
             is_leaf_ptr p
             \/ ~ (0 / PTRS_PER_PTE layout16k <= gfn / PTRS_PER_PTE layout16k
                   <= 1 / PTRS_PER_PTE layout16k) ->
             gpa_lookup layout16k (gpa_mm_pgd kvm')
                        (ushl gfn (PAGE_SHIFT layout16k))
             = Some (Some (p, v))).
Proof.
  assert (Hwf : wf_pgd layout16k (gpa_mm_pgd ex_kvm_two))
    by (apply wf_pgdb_sound; vm_compute; reflexivity).
  split; [exact Hwf|]. split; [lia|]. split; [reflexivity|].
  apply (C4_flush_range layout16k ex_kvm_two 0 1);
    [discriminate | discriminate | discriminate | discriminate
    | discriminate | reflexivity | exact Hwf | lia | lia | reflexivity].
Defined.

Lemma C5_safe_to_remove_needs_full_range_witness :
  0 <= PTE_BITS layout16k /\ 0 <= PMD_BITS layout16k
  /\ 0 <= PGD_BITS layout16k
  /\ forall pte start_gpa end_gpa pte',
       kvm_mips_flush_gpa_pte layout16k pte start_gpa end_gpa
       = Some (true, pte') ->
       __pte_offset layout16k start_gpa = 0
       /\ __pte_offset layout16k end_gpa = PTRS_PER_PTE layout16k - 1.
Proof.
  split; [discriminate|]. split; [discriminate|]. split; [discriminate|].
  apply (C5_safe_to_remove_needs_full_range layout16k); discriminate.
Defined.

Lemma C9_set_pmd_huge_witness :
  wf_pgd layout16k (gpa_mm_pgd ex_kvm_leaf)
  /\ ex_huge_other <> invalid_pte_table layout16k
  /\ gpa_mm_pgd ex_kvm_leaf !! idx (pgd_index layout16k 0)
     = Some (Pud_table ex_pmds_leaf)
  /\ forall pte,
       ex_pmds_leaf !! idx (__pmd_offset layout16k 0) = Some (Pmd_table pte) ->
       let block := Z.land 0 (PMD_MASK layout16k) in
       let start_gfn := ushr block (PAGE_SHIFT layout16k) in
       let end_gfn :=
         ushr (usub (uadd block (PMD_SIZE layout16k)) 1)
              (PAGE_SHIFT layout16k) in
       exists r pgd1 pgd2,
         kvm_mips_flush_gpa_pt layout16k ex_kvm_leaf start_gfn end_gfn
         = Some (r, set_pgd ex_kvm_leaf pgd1)
         /\ load_pmd pgd1 (pgd_index layout16k 0, __pmd_offset layout16k 0)
            = Some (pmd_cleared layout16k)
         /\ store_pmd pgd1 (pgd_index layout16k 0, __pmd_offset layout16k 0)
                      (Pmd_val ex_huge_other) = Some pgd2
         /\ kvm_mips_set_pmd_huge layout16k 2 ex_kvm_leaf (Some ex_cache) 0
              ex_huge_other
            = Some (0, set_pgd ex_kvm_leaf pgd2, Some ex_cache,
                    [flushed_gpa_pt start_gfn end_gfn;
                     kvm_vz_host_tlb_inv block;
                     pmd_set_at 0 ex_huge_other]).
Proof.
  assert (Hwf : wf_pgd layout16k (gpa_mm_pgd ex_kvm_leaf))
    by (apply wf_pgdb_sound; vm_compute; reflexivity).
  assert (Hne : ex_huge_other <> invalid_pte_table layout16k)
    by (vm_compute; discriminate).
  assert (Hpud : gpa_mm_pgd ex_kvm_leaf !! idx (pgd_index layout16k 0)
                 = Some (Pud_table ex_pmds_leaf))
    by (vm_compute; reflexivity).
  split; [exact Hwf|]. split; [exact Hne|]. split; [exact Hpud|].
  apply (C9_set_pmd_huge layout16k ex_kvm_leaf ex_cache 0 ex_huge_other
           ex_pmds_leaf 0);
    [discriminate | discriminate | reflexivity | discriminate | discriminate
    | reflexivity | exact Hwf | split; [discriminate | reflexivity]
    | exact Hne | exact Hpud].
Defined.

(** * Further properties *)

(** ** The node cache: pages are neither lost nor invented *)

Lemma free_cache_loop_spec (objs : list Z) (n : nat) (host : list Z) :
  (n <= length objs)%nat ->
  free_cache_loop n (mk_cache (Z.of_nat n) objs) host
  = (mk_cache 0 objs, take n objs ++ host).
Proof.
  revert host. induction n as [|n IH]; intros host Hn.
  - reflexivity.
  - cbn [free_cache_loop nobjs objects].
    destruct (Z.eqb_spec (Z.of_nat (S n)) 0) as [?|_]; [lia|].
    replace (Z.of_nat (S n) - 1) with (Z.of_nat n) by lia.
    rewrite Nat2Z.id, IH by lia.
    f_equal.
    destruct (lookup_lt_is_Some_2 objs n ltac:(lia)) as [x Hx].
    rewrite (take_S_r _ _ _ Hx), (nth_lookup_Some _ _ _ _ Hx).
    now rewrite <- app_assoc.
Qed.

Lemma free_cache_spec (mc : kvm_mmu_memory_cache) (host : list Z) :
  0 <= nobjs mc -> (Z.to_nat (nobjs mc) <= length (objects mc))%nat ->
  mmu_free_memory_cache mc host
  = (mk_cache 0 (objects mc), pooled mc ++ host).
Proof.
  intros H0 Hn. unfold mmu_free_memory_cache, pooled.
  destruct mc as [n objs]. cbn [nobjs objects] in *.
  rewrite <- (Z2Nat.id n) at 2 by lia.
  now apply free_cache_loop_spec.
Qed.

(** What a successful run of the top-up loop leaves in the pool: the pages
    it held, followed by the pages the host handed out, in that order. *)
Lemma topup_loop_pooled (max : Z) (fuel : nat) :
  forall cache host,
    0 <= nobjs cache ->
    fuel = Z.to_nat (max - nobjs cache) ->
    (Z.to_nat max <= length (objects cache))%nat ->
    supplies host fuel = true ->
    let '(_, cache', host') := topup_loop fuel cache max host in
    pooled cache' = pooled cache ++ take fuel host
    /\ host' = drop fuel host
    /\ length (objects cache') = length (objects cache).
Proof.
  induction fuel as [|fuel IH]; intros cache host H0 Hfuel Hcap Hsup.
  - cbn. rewrite take_0, drop_0, app_nil_r. auto.
  - cbn [topup_loop].
    destruct (Z.ltb_spec (nobjs cache) max) as [Hlt|?]; [|lia].
    unfold supplies in Hsup. apply andb_true_iff in Hsup as [Hlen Hnz].
    apply Nat.leb_le in Hlen.
    destruct host as [|p host]; [cbn in Hlen; lia|].
    cbn [__get_free_page]. cbn [take forallb] in Hnz.
    apply andb_true_iff in Hnz as [Hp Hnz].
    destruct (Z.eqb_spec p 0) as [?|Hp0]; [discriminate|].
    specialize (IH (mk_cache (nobjs cache + 1)
                      (<[Z.to_nat (nobjs cache) := p]> (objects cache))) host).
    cbn [nobjs objects] in IH. rewrite length_insert in IH.
    specialize (IH ltac:(lia) ltac:(lia) Hcap).
    assert (Hs : supplies host fuel = true).
    { unfold supplies. apply andb_true_iff. split; [|exact Hnz].
      apply Nat.leb_le. cbn in Hlen. lia. }
    specialize (IH Hs).
    destruct (topup_loop fuel _ max host) as [[ret cache'] host'].
    destruct IH as (Hpool & Hhost & Hlen').
    split; [|split; [exact Hhost | exact Hlen']].
    rewrite Hpool. unfold pooled. cbn [nobjs objects take].
    replace (Z.to_nat (nobjs cache + 1)) with (S (Z.to_nat (nobjs cache)))
      by lia.
    assert (Hin : (Z.to_nat (nobjs cache) < length (objects cache))%nat)
      by lia.
    erewrite take_S_r
      by (apply list_lookup_insert_eq; exact Hin).
    rewrite take_insert_ge by lia.
    now rewrite <- app_assoc.
Qed.

(** X1. [mmu_free_memory_cache] empties the pool and hands every pooled
    page back to the host, none twice and none kept: the host's free list
    afterwards is the pooled pages followed by what it held before. *)
Theorem free_returns_every_pooled_page (mc : kvm_mmu_memory_cache)
    (host : list Z) :
  0 <= nobjs mc -> (Z.to_nat (nobjs mc) <= length (objects mc))%nat ->
  let '(mc', host') := mmu_free_memory_cache mc host in
  nobjs mc' = 0 /\ pooled mc' = [] /\ host' = pooled mc ++ host.
Proof.
  intros H0 Hn. rewrite free_cache_spec by assumption.
  repeat split.
Qed.

Lemma free_returns_every_pooled_page_witness :
  0 <= nobjs (mk_cache 2 [7; 8; 0; 0])
  /\ (Z.to_nat (nobjs (mk_cache 2 [7; 8; 0; 0]%Z))
      <= length (objects (mk_cache 2 [7; 8; 0; 0]%Z)))%nat
  /\ let '(mc', host') :=
       mmu_free_memory_cache (mk_cache 2 [7; 8; 0; 0]) [100] in
     nobjs mc' = 0 /\ pooled mc' = [] /\ host' = [7; 8; 100].
Proof.
  split; [cbn; lia|]. split; [cbn; lia|].
  apply (free_returns_every_pooled_page (mk_cache 2 [7; 8; 0; 0]) [100]);
    cbn; lia.
Defined.

(** X2. A successful [mmu_topup_memory_cache] moves pages from the head of
    the host's free list to the top of the pool and does nothing else: the
    pool afterwards holds the pages it held before followed by the first
    [k] pages of the host, and the host keeps the rest, where [k] is 0 when
    the pool already held [min] pages and [max - nobjs] otherwise. *)
Theorem topup_moves_pages_from_host_to_pool (NR : Z)
    (cache : kvm_mmu_memory_cache) (min max : Z) (host : list Z)
    (cache' : kvm_mmu_memory_cache) (host' : list Z) :
  0 <= nobjs cache -> length (objects cache) = Z.to_nat NR ->
  mmu_topup_memory_cache NR cache min max host = Some (0, cache', host') ->
  let k := if min <=? nobjs cache then 0%nat
           else Z.to_nat (max - nobjs cache) in
  pooled cache' = pooled cache ++ take k host
  /\ host' = drop k host
  /\ length (objects cache') = length (objects cache).
Proof.
  intros H0 Hcap Hrun k. unfold mmu_topup_memory_cache in Hrun.
  destruct (Z.ltb_spec NR max) as [?|Hmax]; [discriminate|].
  subst k. destruct (Z.leb_spec min (nobjs cache)) as [Hge|Hlt].
  - simplify_eq. rewrite take_0, drop_0, app_nil_r. auto.
  - pose proof (topup_loop_spec max (Z.to_nat (max - nobjs cache)) cache host)
      as Hspec.
    pose proof (topup_loop_pooled max (Z.to_nat (max - nobjs cache)) cache
                  host H0 eq_refl ltac:(lia)) as Hpool.
    destruct (topup_loop _ cache max host) as [[ret c'] h'].
    simplify_eq.
    destruct (Z_le_gt_dec (nobjs cache) max) as [Hle|Hgt].
    + specialize (Hspec ltac:(lia)).
      destruct (supplies host _); [now apply Hpool|].
      destruct Hspec as [Hret _]. unfold ENOMEM in Hret. lia.
    + replace (Z.to_nat (max - nobjs cache)) with 0%nat in * by lia.
      now apply Hpool.
Qed.

Lemma topup_moves_pages_from_host_to_pool_witness :
  0 <= nobjs (mk_cache 1 [7; 0; 0; 0])
  /\ length (objects (mk_cache 1 [7; 0; 0; 0])) = Z.to_nat 4
  /\ mmu_topup_memory_cache 4 (mk_cache 1 [7; 0; 0; 0]) 2 4
       [100; 200; 300; 400]
     = Some (0, mk_cache 4 [7; 100; 200; 300], [400])
  /\ pooled (mk_cache 4 [7; 100; 200; 300])
  = pooled (mk_cache 1 [7; 0; 0; 0]) ++ take 3 [100; 200; 300; 400]
  /\ [400] = drop 3 [100; 200; 300; 400]
  /\ length (objects (mk_cache 4 [7; 100; 200; 300]))
     = length (objects (mk_cache 1 [7; 0; 0; 0])).
Proof.
  split; [cbn; lia|]. split; [reflexivity|]. split; [reflexivity|].
  apply (topup_moves_pages_from_host_to_pool 4 (mk_cache 1 [7; 0; 0; 0]) 2 4
           [100; 200; 300; 400]); [cbn; lia | reflexivity | reflexivity].
Defined.

(** X3. [mmu_memory_cache_alloc] pops the page that was pooled last: the
    pool shrinks by exactly that page. On an empty pool it hits its
    [BUG_ON]. *)
Theorem alloc_pops_the_last_pooled_page (mc : kvm_mmu_memory_cache) :
  (nobjs mc = 0 -> mmu_memory_cache_alloc mc = None)
  /\ (0 < nobjs mc -> (Z.to_nat (nobjs mc) <= length (objects mc))%nat ->
      exists p mc',
        mmu_memory_cache_alloc mc = Some (p, mc')
        /\ pooled mc = pooled mc' ++ [p]
        /\ nobjs mc' = nobjs mc - 1
        /\ objects mc' = objects mc).
Proof.
  unfold mmu_memory_cache_alloc. split.
  - intros ->. reflexivity.
  - intros Hpos Hlen.
    destruct (Z.eqb_spec (nobjs mc) 0) as [?|_]; [lia|].
    eexists _, _. split; [reflexivity|].
    unfold pooled. cbn [nobjs objects]. repeat split.
    destruct (lookup_lt_is_Some_2 (objects mc) (Z.to_nat (nobjs mc - 1))
                ltac:(lia)) as [x Hx].
    rewrite (nth_lookup_Some _ _ _ _ Hx).
    replace (Z.to_nat (nobjs mc)) with (S (Z.to_nat (nobjs mc - 1))) by lia.
    now apply take_S_r.
Qed.

Lemma alloc_pops_the_last_pooled_page_witness :
  0 < nobjs (mk_cache 2 [7; 8; 0; 0])
  /\ (Z.to_nat (nobjs (mk_cache 2 [7; 8; 0; 0]%Z))
      <= length (objects (mk_cache 2 [7; 8; 0; 0]%Z)))%nat
  /\ exists p mc',
    mmu_memory_cache_alloc (mk_cache 2 [7; 8; 0; 0]) = Some (p, mc')
    /\ pooled (mk_cache 2 [7; 8; 0; 0]) = pooled mc' ++ [p]
    /\ nobjs mc' = nobjs (mk_cache 2 [7; 8; 0; 0]) - 1
    /\ objects mc' = objects (mk_cache 2 [7; 8; 0; 0]).
Proof.
  split; [cbn; lia|]. split; [cbn; lia|].
  apply (alloc_pops_the_last_pooled_page (mk_cache 2 [7; 8; 0; 0]));
    cbn; lia.
Defined.

(** ** The walker on well-formed page directories *)

Lemma wf_pmd_invalid L : wf_pmd L (Pmd_val (invalid_pte_table L)).
Proof.
  cbn. unfold pmdv_present. destruct (pmdv_huge L _); [auto|].
  rewrite Z.eqb_refl. discriminate.
Qed.

Lemma wf_pmd_init L : wf_pud L (Pud_table (pmd_init L)).
Proof.
  split; [apply length_replicate|].
  apply Forall_replicate, wf_pmd_invalid.
Qed.

Lemma wf_clear_page L : wf_pmd L (Pmd_table (clear_page L)).
Proof. apply length_replicate. Qed.

Lemma wf_kvm_pgd_init L : wf_pgd L (kvm_pgd_init L).
Proof.
  split; [apply length_replicate|]. now apply Forall_replicate.
Qed.

Lemma wf_pgd_lookup L pgd addr :
  0 <= PGD_BITS L -> wf_pgd L pgd ->
  exists pud, pgd !! idx (pgd_index L addr) = Some pud /\ wf_pud L pud.
Proof.
  intros Hbits [Hlen Hall].
  pose proof (pgd_index_range L addr Hbits) as Hgi.
  destruct (lookup_lt_is_Some_2 pgd (idx (pgd_index L addr))) as [pud Hpud].
  { rewrite Hlen. unfold idx. lia. }
  exists pud. split; [exact Hpud|].
  exact (proj1 (Forall_lookup _ _) Hall _ _ Hpud).
Qed.

Lemma wf_pud_lookup L pmds addr :
  0 <= PMD_BITS L -> wf_pud L (Pud_table pmds) ->
  exists e, pmds !! idx (__pmd_offset L addr) = Some e /\ wf_pmd L e.
Proof.
  intros Hbits [Hlen Hall].
  pose proof (pmd_offset_range L addr Hbits) as Hmi.
  destruct (lookup_lt_is_Some_2 pmds (idx (__pmd_offset L addr))) as [e He].
  { rewrite Hlen. unfold idx. lia. }
  exists e. split; [exact He|].
  exact (proj1 (Forall_lookup _ _) Hall _ _ He).
Qed.

Lemma wf_pmd_lookup L pte addr :
  0 <= PTE_BITS L -> wf_pmd L (Pmd_table pte) ->
  exists v, pte !! idx (__pte_offset L addr) = Some v.
Proof.
  intros Hbits Hlen. cbn in Hlen.
  pose proof (pte_offset_range L addr Hbits) as Hti.
  apply lookup_lt_is_Some_2. rewrite Hlen. unfold idx. lia.
Qed.

(** A well-formed middle-level word is a huge mapping or the invalid
    table. *)
Lemma wf_pmd_val L v :
  wf_pmd L (Pmd_val v) -> pmdv_huge L v = false -> pmdv_none L v = true.
Proof.
  cbn. unfold pmdv_present, pmdv_none. intros Hwf Hhuge.
  rewrite Hhuge in Hwf. destruct (v =? invalid_pte_table L); [reflexivity|].
  now specialize (Hwf eq_refl).
Qed.

Lemma wf_pgd_insert L pgd i pud :
  wf_pgd L pgd -> wf_pud L pud -> wf_pgd L (<[i := pud]> pgd).
Proof.
  intros [Hlen Hall] Hpud. split; [now rewrite length_insert|].
  now apply Forall_insert.
Qed.

Lemma wf_pud_insert L pmds i e :
  wf_pud L (Pud_table pmds) -> wf_pmd L e ->
  wf_pud L (Pud_table (<[i := e]> pmds)).
Proof.
  intros [Hlen Hall] He. split; [now rewrite length_insert|].
  now apply Forall_insert.
Qed.

Lemma alloc_some (mc : kvm_mmu_memory_cache) :
  1 <= nobjs mc ->
  mmu_memory_cache_alloc mc
  = Some (nth (Z.to_nat (nobjs mc - 1)) (objects mc) 0,
          mk_cache (nobjs mc - 1) (objects mc)).
Proof.
  intros Hn. unfold mmu_memory_cache_alloc.
  destruct (Z.eqb_spec (nobjs mc) 0); [lia | reflexivity].
Qed.

(** What the walk can find in place on a well-formed page directory: no
    middle-level table, a huge mapping, no leaf table, or a leaf entry. *)
Lemma wf_walk_cases L pgd addr :
  0 <= PTE_BITS L -> 0 <= PMD_BITS L -> 0 <= PGD_BITS L -> wf_pgd L pgd ->
  let gi := idx (pgd_index L addr) in
  let mi := idx (__pmd_offset L addr) in
  let ti := idx (__pte_offset L addr) in
  pgd !! gi = Some Pud_none
  \/ (exists pmds v,
        pgd !! gi = Some (Pud_table pmds) /\ wf_pud L (Pud_table pmds)
        /\ pmds !! mi = Some (Pmd_val v) /\ pmdv_huge L v = true)
  \/ (exists pmds v,
        pgd !! gi = Some (Pud_table pmds) /\ wf_pud L (Pud_table pmds)
        /\ pmds !! mi = Some (Pmd_val v) /\ pmdv_huge L v = false
        /\ pmdv_none L v = true)
  \/ (exists pmds pte e,
        pgd !! gi = Some (Pud_table pmds) /\ wf_pud L (Pud_table pmds)
        /\ pmds !! mi = Some (Pmd_table pte)
        /\ wf_pmd L (Pmd_table pte) /\ pte !! ti = Some e).
Proof.
  intros Hpte Hpmd Hpgd Hwf gi mi ti.
  destruct (wf_pgd_lookup L pgd addr Hpgd Hwf) as (pud & Hpud & Hwpud).
  destruct pud as [|pmds]; [now left|]. right.
  destruct (wf_pud_lookup L pmds addr Hpmd Hwpud) as (e & He & Hwe).
  destruct e as [v|pte].
  - destruct (pmdv_huge L v) eqn:Hhuge.
    + left. now exists pmds, v.
    + right. left. exists pmds, v.
      split; [exact Hpud|]. split; [exact Hwpud|]. split; [exact He|].
      split; [exact Hhuge | now apply wf_pmd_val].
  - right. right.
    destruct (wf_pmd_lookup L pte addr Hpte Hwe) as [x Hx].
    now exists pmds, pte, x.
Qed.

Section WalkEval.
Variable L : layout.
Variables (pgd : list pud_t) (addr : Z).
Let gi := pgd_index L addr.
Let mi := __pmd_offset L addr.
Let ti := __pte_offset L addr.

Lemma walk_at_huge pmds v cache :
  pgd !! idx gi = Some (Pud_table pmds) ->
  pmds !! idx mi = Some (Pmd_val v) -> pmdv_huge L v = true ->
  kvm_mips_walk_pgd L pgd cache addr
  = Some (Some (At_pmd gi mi), pgd, cache).
Proof.
  intros Hpud He Hhuge. unfold kvm_mips_walk_pgd. fold gi mi.
  rewrite Hpud. cbn [mbind option_bind pgd_none pud_none pmd_table_of].
  rewrite He. cbn [mbind option_bind pmd_huge]. now rewrite Hhuge.
Qed.

Lemma walk_at_leaf pmds pte cache :
  pgd !! idx gi = Some (Pud_table pmds) ->
  pmds !! idx mi = Some (Pmd_table pte) ->
  kvm_mips_walk_pgd L pgd cache addr
  = Some (Some (At_pte gi mi ti), pgd, cache).
Proof.
  intros Hpud He. unfold kvm_mips_walk_pgd. fold gi mi ti.
  rewrite Hpud. cbn [mbind option_bind pgd_none pud_none pmd_table_of].
  rewrite He. reflexivity.
Qed.

Lemma walk_no_pte_table pmds v :
  pgd !! idx gi = Some (Pud_table pmds) ->
  pmds !! idx mi = Some (Pmd_val v) ->
  pmdv_huge L v = false -> pmdv_none L v = true ->
  kvm_mips_walk_pgd L pgd None addr = Some (None, pgd, None)
  /\ forall mc, 1 <= nobjs mc ->
       kvm_mips_walk_pgd L pgd (Some mc) addr
       = Some (Some (At_pte gi mi ti),
               <[idx gi := Pud_table
                   (<[idx mi := Pmd_table (clear_page L)]> pmds)]> pgd,
               Some (mk_cache (nobjs mc - 1) (objects mc))).
Proof.
  intros Hpud He Hhuge Hnone. split; [|intros mc Hn];
    unfold kvm_mips_walk_pgd; fold gi mi ti; rewrite Hpud;
    cbn [mbind option_bind pgd_none pud_none pmd_table_of];
    rewrite He; cbn [mbind option_bind pmd_huge pmd_none];
    rewrite Hhuge, Hnone; [reflexivity|].
  rewrite alloc_some by lia. reflexivity.
Qed.

Lemma walk_no_pmd_table :
  0 <= PMD_BITS L -> pmdv_huge L (invalid_pte_table L) = false ->
  pgd !! idx gi = Some Pud_none ->
  kvm_mips_walk_pgd L pgd None addr = Some (None, pgd, None)
  /\ forall mc, 2 <= nobjs mc ->
       kvm_mips_walk_pgd L pgd (Some mc) addr
       = Some (Some (At_pte gi mi ti),
               <[idx gi := Pud_table
                   (<[idx mi := Pmd_table (clear_page L)]> (pmd_init L))]>
                 pgd,
               Some (mk_cache (nobjs mc - 2) (objects mc))).
Proof.
  intros Hbits Hinv Hpud. split; [|intros mc Hn];
    unfold kvm_mips_walk_pgd; fold gi mi ti; rewrite Hpud;
    cbn [mbind option_bind pgd_none pud_none]; [reflexivity|].
  rewrite alloc_some by lia. cbn [mbind option_bind].
  rewrite (lookup_pmd_init L mi Hbits (pmd_offset_range L addr Hbits)).
  cbn [mbind option_bind pmd_huge pmd_none].
  rewrite Hinv. unfold pmdv_none. rewrite Z.eqb_refl.
  rewrite alloc_some by (cbn; lia). cbn [mbind option_bind nobjs objects].
  rewrite list_insert_insert_eq.
  replace (nobjs mc - 1 - 1) with (nobjs mc - 2) by lia. reflexivity.
Qed.
End WalkEval.

(** The read-only walk never writes. *)
Lemma walk_readonly_unchanged L pgd addr p pgd' cache' :
  kvm_mips_walk_pgd L pgd None addr = Some (p, pgd', cache') ->
  pgd' = pgd /\ cache' = None.
Proof.
  unfold kvm_mips_walk_pgd. intros H.
  destruct (pgd !! idx (pgd_index L addr)) as [pud|]; [|discriminate].
  cbn [mbind option_bind pgd_none] in H.
  destruct pud as [|pmds]; cbn [pud_none pmd_table_of] in H;
    [now simplify_eq|].
  cbn [mbind option_bind] in H.
  destruct (pmds !! idx (__pmd_offset L addr)) as [e|]; [|discriminate].
  cbn [mbind option_bind] in H.
  destruct (pmd_huge L e); [now simplify_eq|].
  destruct (pmd_none L e); [now simplify_eq|].
  destruct (pte_table_of e); [|discriminate].
  cbn [mbind option_bind] in H. now simplify_eq.
Qed.

(** ** The walker: what it guarantees to its callers *)

(** X4. A page directory fresh from [kvm_pgd_init] is well formed and maps
    nothing: the read-only walk returns NULL at every address and leaves
    the directory as it is. *)
Theorem fresh_directory_maps_nothing (L : layout) (addr : Z) :
  0 <= PGD_BITS L ->
  wf_pgd L (kvm_pgd_init L)
  /\ kvm_mips_walk_pgd L (kvm_pgd_init L) None addr
     = Some (None, kvm_pgd_init L, None).
Proof.
  intros Hbits. split; [apply wf_kvm_pgd_init|].
  pose proof (pgd_index_range L addr Hbits) as Hgi.
  unfold kvm_mips_walk_pgd, kvm_pgd_init.
  rewrite lookup_replicate_2 by (unfold idx; lia). reflexivity.
Qed.

Lemma fresh_directory_maps_nothing_witness :
  0 <= PGD_BITS layout16k
  /\ wf_pgd layout16k (kvm_pgd_init layout16k)
  /\ kvm_mips_walk_pgd layout16k (kvm_pgd_init layout16k) None (5 * 2 ^ 30)
     = Some (None, kvm_pgd_init layout16k, None).
Proof.
  split; [discriminate|].
  apply (fresh_directory_maps_nothing layout16k (5 * 2 ^ 30)). discriminate.
Defined.

Lemma load_at_pte pgd gi mi ti pmds pte :
  pgd !! idx gi = Some (Pud_table pmds) ->
  pmds !! idx mi = Some (Pmd_table pte) ->
  load pgd (At_pte gi mi ti) = pte !! idx ti.
Proof.
  intros Hpud He. cbn [load]. rewrite Hpud. cbn. rewrite He. reflexivity.
Qed.

Lemma load_at_pmd pgd gi mi pmds v :
  pgd !! idx gi = Some (Pud_table pmds) ->
  pmds !! idx mi = Some (Pmd_val v) ->
  load pgd (At_pmd gi mi) = Some v.
Proof.
  intros Hpud He. cbn [load]. rewrite Hpud. cbn. rewrite He. reflexivity.
Qed.

Lemma lookup_clear_page L ti :
  0 <= PTE_BITS L -> 0 <= ti < PTRS_PER_PTE L ->
  clear_page L !! idx ti = Some 0.
Proof.
  intros Hbits Hti. unfold clear_page. apply lookup_replicate_2.
  unfold idx. lia.
Qed.

(** X5. After a reserve of two nodes the allocating walk cannot fail: on a
    well-formed page directory it returns a non-NULL pointer, takes at most
    two nodes from the pool, keeps the directory well formed, and the
    read-only walk afterwards returns that same pointer. Where the
    read-only walk already found an entry nothing is allocated and nothing
    changes; where it found none, the entry behind the new pointer is the
    not-present value 0. *)
Theorem walk_with_reserve_finds_a_slot (L : layout) (pgd : list pud_t)
    (mc : kvm_mmu_memory_cache) (addr : Z) :
  0 <= PTE_BITS L -> 0 <= PMD_BITS L -> 0 <= PGD_BITS L ->
  pmdv_huge L (invalid_pte_table L) = false ->
  wf_pgd L pgd -> 2 <= nobjs mc ->
  exists p pgd' mc',
    kvm_mips_walk_pgd L pgd (Some mc) addr = Some (Some p, pgd', Some mc')
    /\ wf_pgd L pgd'
    /\ nobjs mc - 2 <= nobjs mc' <= nobjs mc
    /\ objects mc' = objects mc
    /\ kvm_mips_walk_pgd L pgd' None addr = Some (Some p, pgd', None)
    /\ (forall p0 v, gpa_lookup L pgd addr = Some (Some (p0, v)) ->
        p = p0 /\ pgd' = pgd /\ mc' = mc)
    /\ (gpa_lookup L pgd addr = Some None ->
        gpa_lookup L pgd' addr = Some (Some (p, 0))).
Proof.
  intros Hpte Hpmd Hpgd Hinv Hwf Hn.
  pose proof (pte_offset_range L addr Hpte) as Hti.
  pose proof (pmd_offset_range L addr Hpmd) as Hmi.
  assert (Hlen : (idx (pgd_index L addr) < length pgd)%nat).
  { destruct (wf_pgd_lookup L pgd addr Hpgd Hwf) as (? & H & _).
    eapply lookup_lt_Some, H. }
  rewrite !gpa_lookup_unfold.
  destruct (wf_walk_cases L pgd addr Hpte Hpmd Hpgd Hwf)
    as [Hpud | [(pmds & v & Hpud & Hwpud & He & Hhuge)
       | [(pmds & v & Hpud & Hwpud & He & Hhuge & Hnone)
       | (pmds & pte & e & Hpud & Hwpud & He & Hwe & Hx)]]].
  - destruct (walk_no_pmd_table L pgd addr Hpmd Hinv Hpud) as [_ Hrun].
    eexists _, _, _. split; [apply Hrun, Hn|].
    assert (Hpud' : forall tbl, <[idx (pgd_index L addr) := Pud_table tbl]> pgd
                    !! idx (pgd_index L addr) = Some (Pud_table tbl))
      by (intros; now apply list_lookup_insert_eq).
    assert (He' : <[idx (__pmd_offset L addr) := Pmd_table (clear_page L)]>
                    (pmd_init L) !! idx (__pmd_offset L addr)
                  = Some (Pmd_table (clear_page L))).
    { apply list_lookup_insert_eq. unfold pmd_init.
      rewrite length_replicate. unfold idx. lia. }
    split; [|split; [cbn; lia|split; [reflexivity|split; [|split]]]].
    + apply wf_pgd_insert; [exact Hwf|].
      apply wf_pud_insert; [apply wf_pmd_init | apply wf_clear_page].
    + exact (walk_at_leaf L _ addr _ _ _ (Hpud' _) He').
    + intros p0 v0. rewrite Hpud. discriminate.
    + intros _. rewrite gpa_lookup_unfold, Hpud'.
      cbn [mbind option_bind pud_lookup].
      rewrite He'. cbn [mbind option_bind pmd_lookup].
      now rewrite lookup_clear_page.
  - exists (At_pmd (pgd_index L addr) (__pmd_offset L addr)), pgd, mc.
    split; [exact (walk_at_huge L pgd addr pmds v _ Hpud He Hhuge)|].
    split; [exact Hwf|]. split; [lia|]. split; [reflexivity|].
    split; [exact (walk_at_huge L pgd addr pmds v _ Hpud He Hhuge)|].
    rewrite Hpud. cbn [mbind option_bind pud_lookup]. rewrite He.
    cbn [mbind option_bind pmd_lookup]. rewrite Hhuge.
    split; [intros; now simplify_eq | discriminate].
  - destruct (walk_no_pte_table L pgd addr pmds v Hpud He Hhuge Hnone)
      as [_ Hrun].
    eexists _, _, _. split; [apply Hrun; lia|].
    assert (Hpud' : forall tbl, <[idx (pgd_index L addr) := Pud_table tbl]> pgd
                    !! idx (pgd_index L addr) = Some (Pud_table tbl))
      by (intros; now apply list_lookup_insert_eq).
    assert (He' : <[idx (__pmd_offset L addr) := Pmd_table (clear_page L)]>
                    pmds !! idx (__pmd_offset L addr)
                  = Some (Pmd_table (clear_page L))).
    { apply list_lookup_insert_eq. eapply lookup_lt_Some, He. }
    split; [|split; [cbn; lia|split; [reflexivity|split; [|split]]]].
    + apply wf_pgd_insert; [exact Hwf|].
      apply wf_pud_insert; [exact Hwpud | apply wf_clear_page].
    + exact (walk_at_leaf L _ addr _ _ _ (Hpud' _) He').
    + intros p0 v0. rewrite Hpud. cbn [mbind option_bind pud_lookup].
      rewrite He. cbn [mbind option_bind pmd_lookup].
      rewrite Hhuge, Hnone. discriminate.
    + intros _. rewrite gpa_lookup_unfold, Hpud'.
      cbn [mbind option_bind pud_lookup].
      rewrite He'. cbn [mbind option_bind pmd_lookup].
      now rewrite lookup_clear_page.
  - exists (At_pte (pgd_index L addr) (__pmd_offset L addr)
                   (__pte_offset L addr)), pgd, mc.
    split; [exact (walk_at_leaf L pgd addr pmds pte _ Hpud He)|].
    split; [exact Hwf|]. split; [lia|]. split; [reflexivity|].
    split; [exact (walk_at_leaf L pgd addr pmds pte _ Hpud He)|].
    rewrite Hpud. cbn [mbind option_bind pud_lookup]. rewrite He.
    cbn [mbind option_bind pmd_lookup]. rewrite Hx.
    cbn [mbind option_bind].
    split; [intros; now simplify_eq | discriminate].
Qed.

Lemma pud_lookup_link L gi2 mi2 ti2 mi pmds v :
  0 <= PTE_BITS L -> 0 <= ti2 < PTRS_PER_PTE L -> 0 <= mi2 -> 0 <= mi ->
  pmds !! idx mi = Some (Pmd_val v) ->
  pmdv_huge L v = false -> pmdv_none L v = true ->
  pud_lookup L gi2 mi2 ti2
    (Pud_table (<[idx mi := Pmd_table (clear_page L)]> pmds))
  = (if mi2 =? mi then Some (Some (At_pte gi2 mi2 ti2, 0))
     else pud_lookup L gi2 mi2 ti2 (Pud_table pmds))
  /\ (mi2 = mi -> pud_lookup L gi2 mi2 ti2 (Pud_table pmds) = Some None).
Proof.
  intros Hbits Hti Hmi2 Hmi He Hhuge Hnone. cbn [pud_lookup]. split.
  - destruct (Z.eqb_spec mi2 mi) as [->|Hne].
    + rewrite list_lookup_insert_eq by (eapply lookup_lt_Some, He).
      cbn [mbind option_bind pmd_lookup].
      now rewrite lookup_clear_page.
    + rewrite list_lookup_insert_ne; [reflexivity|].
      intros Heq. apply Hne. symmetry. now apply idx_inj.
  - intros ->. rewrite He. cbn [mbind option_bind pmd_lookup].
    now rewrite Hhuge, Hnone.
Qed.

Lemma pud_lookup_pmd_init L gi2 mi2 ti2 :
  0 <= PMD_BITS L -> 0 <= mi2 < PTRS_PER_PMD L ->
  pmdv_huge L (invalid_pte_table L) = false ->
  pud_lookup L gi2 mi2 ti2 (Pud_table (pmd_init L)) = Some None.
Proof.
  intros Hbits Hmi Hinv. cbn [pud_lookup].
  rewrite lookup_pmd_init by assumption.
  cbn [mbind option_bind pmd_lookup]. rewrite Hinv.
  unfold pmdv_none. now rewrite Z.eqb_refl.
Qed.

Lemma unmapped_null L : unmapped L (Some None).
Proof. now left. Qed.

Lemma unmapped_zero L p : unmapped L (Some (Some (p, 0))).
Proof. right. exists p, 0. split; [reflexivity | apply pte_present_zero]. Qed.

(** What linking the missing tables for [addr] does to the lookup of any
    other address: an entry found before is found again, unchanged, and an
    address that was unmapped stays unmapped. *)
Lemma walk_alloc_lookup L pgd mc addr p pgd' mc' addr2 :
  0 <= PTE_BITS L -> 0 <= PMD_BITS L -> 0 <= PGD_BITS L ->
  pmdv_huge L (invalid_pte_table L) = false ->
  wf_pgd L pgd -> 2 <= nobjs mc ->
  kvm_mips_walk_pgd L pgd (Some mc) addr = Some (p, pgd', mc') ->
  (forall q, gpa_lookup L pgd addr2 = Some (Some q) ->
             gpa_lookup L pgd' addr2 = Some (Some q))
  /\ (unmapped L (gpa_lookup L pgd addr2) ->
      unmapped L (gpa_lookup L pgd' addr2)).
Proof.
  intros Hpte Hpmd Hpgd Hinv Hwf Hn Hrun.
  pose proof (pte_offset_range L addr2 Hpte) as Hti2.
  pose proof (pmd_offset_range L addr2 Hpmd) as Hmi2.
  pose proof (pmd_offset_range L addr Hpmd) as Hmi.
  pose proof (pgd_index_range L addr2 Hpgd) as Hgi2.
  pose proof (pgd_index_range L addr Hpgd) as Hgi.
  assert (Hlen : (idx (pgd_index L addr) < length pgd)%nat).
  { destruct (wf_pgd_lookup L pgd addr Hpgd Hwf) as (? & H & _).
    eapply lookup_lt_Some, H. }
  rewrite !gpa_lookup_unfold.
  set (gi2 := pgd_index L addr2) in *. set (mi2 := __pmd_offset L addr2) in *.
  set (ti2 := __pte_offset L addr2) in *.
  (* the lookup at another top-level slot does not see the change *)
  assert (Hother : forall tbl, gi2 <> pgd_index L addr ->
            <[idx (pgd_index L addr) := tbl]> pgd !! idx gi2
            = pgd !! idx gi2).
  { intros tbl Hne. apply list_lookup_insert_ne.
    intros Heq. apply Hne. symmetry. now apply idx_inj. }
  destruct (wf_walk_cases L pgd addr Hpte Hpmd Hpgd Hwf)
    as [Hpud | [(pmds & v & Hpud & Hwpud & He & Hhuge)
       | [(pmds & v & Hpud & Hwpud & He & Hhuge & Hnone)
       | (pmds & pte & e & Hpud & Hwpud & He & Hwe & Hx)]]].
  - destruct (walk_no_pmd_table L pgd addr Hpmd Hinv Hpud) as [_ Heval].
    rewrite (Heval mc Hn) in Hrun. simplify_eq.
    destruct (Z.eq_dec gi2 (pgd_index L addr)) as [Heq|Hne];
      [|rewrite Hother by exact Hne; auto].
    rewrite Heq, Hpud, list_lookup_insert_eq by exact Hlen.
    cbn [mbind option_bind].
    assert (Hnull : forall a b c, pud_lookup L a b c Pud_none = Some None)
      by reflexivity.
    rewrite !Hnull. split; [discriminate|]. intros _.
    destruct (pud_lookup_link L gi2 mi2 ti2 (__pmd_offset L addr)
                (pmd_init L) (invalid_pte_table L) Hpte Hti2
                ltac:(lia) ltac:(lia)
                (lookup_pmd_init L _ Hpmd Hmi) Hinv) as [Hl _].
    { unfold pmdv_none. apply Z.eqb_refl. }
    rewrite Heq in Hl. rewrite Hl.
    destruct (mi2 =? __pmd_offset L addr); [apply unmapped_zero|].
    rewrite pud_lookup_pmd_init by assumption. apply unmapped_null.
  - rewrite (walk_at_huge L pgd addr pmds v _ Hpud He Hhuge) in Hrun.
    simplify_eq. auto.
  - destruct (walk_no_pte_table L pgd addr pmds v Hpud He Hhuge Hnone)
      as [_ Heval].
    rewrite (Heval mc ltac:(lia)) in Hrun. simplify_eq.
    destruct (Z.eq_dec gi2 (pgd_index L addr)) as [Heq|Hne];
      [|rewrite Hother by exact Hne; auto].
    rewrite Heq, Hpud, list_lookup_insert_eq by exact Hlen.
    cbn [mbind option_bind].
    destruct (pud_lookup_link L gi2 mi2 ti2 (__pmd_offset L addr)
                pmds v Hpte Hti2 ltac:(lia) ltac:(lia) He Hhuge Hnone)
      as [Hl Hr].
    rewrite Heq in Hl, Hr. rewrite Hl.
    destruct (Z.eqb_spec mi2 (__pmd_offset L addr)) as [Hm|Hm];
      [|auto].
    rewrite (Hr Hm). split; [discriminate|]. intros _.
    apply unmapped_zero.
  - rewrite (walk_at_leaf L pgd addr pmds pte _ Hpud He) in Hrun.
    simplify_eq. auto.
Qed.

(** X6. The allocating walk for one address disturbs no other: whatever
    entry the read-only walk found for any address before, it finds again
    with the same value, and an address that had no present entry has none
    afterwards. *)
Theorem walk_alloc_keeps_every_mapping (L : layout) (pgd : list pud_t)
    (mc : kvm_mmu_memory_cache) (addr : Z) (p : option pte_ptr)
    (pgd' : list pud_t) (mc' : option kvm_mmu_memory_cache) :
  0 <= PTE_BITS L -> 0 <= PMD_BITS L -> 0 <= PGD_BITS L ->
  pmdv_huge L (invalid_pte_table L) = false ->
  wf_pgd L pgd -> 2 <= nobjs mc ->
  kvm_mips_walk_pgd L pgd (Some mc) addr = Some (p, pgd', mc') ->
  forall addr2,
    (forall q v, gpa_lookup L pgd addr2 = Some (Some (q, v)) ->
                 gpa_lookup L pgd' addr2 = Some (Some (q, v)))
    /\ (unmapped L (gpa_lookup L pgd addr2) ->
        unmapped L (gpa_lookup L pgd' addr2)).
Proof.
  intros Hpte Hpmd Hpgd Hinv Hwf Hn Hrun addr2.
  destruct (walk_alloc_lookup L pgd mc addr p pgd' mc' addr2
              Hpte Hpmd Hpgd Hinv Hwf Hn Hrun) as [Hkeep Hun].
  split; [intros q v; apply Hkeep | exact Hun].
Qed.

(** ** Flushing only removes *)

Lemma slotwise_Forall {A : Type} (P : A -> Prop)
    (slot : Z -> A -> option (A * bool)) i_min i_max tbl tbl' safe safe' :
  slotwise slot i_min i_max tbl tbl' safe safe' ->
  (forall x old new b, slot x old = Some (new, b) -> P old -> P new) ->
  Forall P tbl -> Forall P tbl'.
Proof.
  intros (Hlen & _ & _ & Hslots) Hstep Hall.
  rewrite Forall_lookup in Hall |- *. intros n new Hnew.
  destruct (Hslots (Z.of_nat n) ltac:(lia)) as [Hin Hout].
  unfold idx in Hin, Hout. rewrite Nat2Z.id in Hin, Hout.
  destruct (Z_le_dec i_min (Z.of_nat n)) as [H1|H1];
    [destruct (Z_le_dec (Z.of_nat n) i_max) as [H2|H2]|].
  - destruct (Hin (conj H1 H2)) as (old & new' & b & Hold & Hnew' & Hs & _).
    simplify_eq. eapply Hstep; [exact Hs|]. eapply Hall, Hold.
  - rewrite Hout in Hnew by lia. eapply Hall, Hnew.
  - rewrite Hout in Hnew by lia. eapply Hall, Hnew.
Qed.

Lemma flush_pmd_slot_mono L start_gpa end_gpa old new b gi mi ti :
  0 <= PTE_BITS L -> pmdv_huge L (invalid_pte_table L) = false ->
  wf_pmd L old -> 0 <= ti ->
  flush_pmd_slot L start_gpa end_gpa old = Some (new, b) ->
  wf_pmd L new
  /\ (pmd_lookup L gi mi ti new = pmd_lookup L gi mi ti old
      \/ unmapped L (pmd_lookup L gi mi ti new)).
Proof.
  intros Hbits Hinv Hwf Hti Hslot. unfold flush_pmd_slot in Hslot.
  assert (Hcleared : unmapped L (pmd_lookup L gi mi ti (pmd_cleared L))).
  { left. cbn. rewrite Hinv. unfold pmdv_none. now rewrite Z.eqb_refl. }
  destruct (pmd_present L old); cbn [negb] in Hslot;
    [|simplify_eq; auto].
  destruct (pmd_huge L old).
  { simplify_eq. split; [apply wf_pmd_invalid | now right]. }
  destruct old as [v|pte]; [discriminate|].
  cbn [pte_table_of mbind option_bind] in Hslot.
  destruct (kvm_mips_flush_gpa_pte L pte start_gpa end_gpa)
    as [[r pte']|] eqn:Hpte; [|discriminate].
  cbn [mbind option_bind] in Hslot. simplify_eq.
  destruct b; [split; [apply wf_pmd_invalid | now right]|].
  apply flush_pte_char in Hpte as (_ & Hlen & Hslots); [|exact Hbits].
  split; [cbn in *; congruence|].
  cbn [pmd_lookup]. rewrite (Hslots ti Hti).
  destruct ((_ <=? ti) && (ti <=? _)); [|now left].
  destruct (pte !! idx ti) as [e|]; [|now left].
  cbn [fmap option_fmap option_map mbind option_bind].
  unfold flush_pte_slot. destruct (pte_present L e); [|now left].
  right. apply unmapped_zero.
Qed.

Lemma flush_pud_slot_mono L start_gpa end_gpa old new b gi mi ti :
  0 <= PTE_BITS L -> 0 <= PMD_BITS L ->
  pmdv_huge L (invalid_pte_table L) = false ->
  wf_pud L old -> 0 <= mi -> 0 <= ti ->
  flush_pud_slot L start_gpa end_gpa old = Some (new, b) ->
  wf_pud L new
  /\ (pud_lookup L gi mi ti new = pud_lookup L gi mi ti old
      \/ unmapped L (pud_lookup L gi mi ti new)).
Proof.
  intros Hpte Hpmd Hinv Hwf Hmi Hti Hslot. unfold flush_pud_slot in Hslot.
  destruct old as [|pmds]; cbn [pud_present pud_none negb] in Hslot;
    [simplify_eq; auto|].
  cbn [pmd_table_of mbind option_bind] in Hslot.
  destruct (kvm_mips_flush_gpa_pmd L pmds start_gpa end_gpa)
    as [[r pmds']|] eqn:Hrun; [|discriminate].
  cbn [mbind option_bind] in Hslot. simplify_eq.
  destruct b; [split; [exact I | right; apply unmapped_null]|].
  apply flush_pmd_char in Hrun; [|exact Hpmd].
  destruct Hwf as [Hlen Hall].
  split.
  - split; [destruct Hrun as (Hl & _); congruence|].
    eapply slotwise_Forall; [exact Hrun| |exact Hall].
    intros x old new bb Hs Hold.
    exact (proj1 (flush_pmd_slot_mono L _ _ _ _ _ 0 0 0 Hpte Hinv Hold
                    ltac:(lia) Hs)).
  - destruct Hrun as (_ & _ & _ & Hslots). cbn [pud_lookup].
    destruct (Hslots mi Hmi) as [Hin Hout].
    destruct (Z_le_dec (__pmd_offset L start_gpa) mi) as [H1|H1];
      [destruct (Z_le_dec mi (__pmd_offset L end_gpa)) as [H2|H2]|];
      try (rewrite Hout by lia; now left).
    destruct (Hin (conj H1 H2)) as (old & new & bb & Hold & Hnew & Hs & _).
    rewrite Hold, Hnew. cbn [mbind option_bind].
    eapply flush_pmd_slot_mono; eauto.
    rewrite Forall_lookup in Hall. eapply Hall, Hold.
Qed.

Lemma flush_pgd_mono L pgd start_gpa end_gpa r pgd' addr :
  0 <= PTE_BITS L -> 0 <= PMD_BITS L -> 0 <= PGD_BITS L ->
  pmdv_huge L (invalid_pte_table L) = false ->
  wf_pgd L pgd ->
  kvm_mips_flush_gpa_pgd L pgd start_gpa end_gpa = Some (r, pgd') ->
  wf_pgd L pgd'
  /\ (gpa_lookup L pgd' addr = gpa_lookup L pgd addr
      \/ unmapped L (gpa_lookup L pgd' addr)).
Proof.
  intros Hpte Hpmd Hpgd Hinv [Hlen Hall] Hrun.
  apply flush_pgd_char in Hrun; [|exact Hpgd].
  pose proof (pte_offset_range L addr Hpte) as Hti.
  pose proof (pmd_offset_range L addr Hpmd) as Hmi.
  pose proof (pgd_index_range L addr Hpgd) as Hgi.
  split.
  - split; [destruct Hrun as (Hl & _); congruence|].
    eapply slotwise_Forall; [exact Hrun| |exact Hall].
    intros x old new bb Hs Hold. apply flush_pgd_slot_pud in Hs.
    exact (proj1 (flush_pud_slot_mono L _ _ _ _ _ 0 0 0 Hpte Hpmd Hinv Hold
                    ltac:(lia) ltac:(lia) Hs)).
  - destruct Hrun as (_ & _ & _ & Hslots). rewrite !gpa_lookup_unfold.
    destruct (Hslots (pgd_index L addr) ltac:(lia)) as [Hin Hout].
    destruct (Z_le_dec (pgd_index L start_gpa) (pgd_index L addr)) as [H1|H1];
      [destruct (Z_le_dec (pgd_index L addr) (pgd_index L end_gpa))
         as [H2|H2]|];
      try (rewrite Hout by lia; now left).
    destruct (Hin (conj H1 H2)) as (old & new & bb & Hold & Hnew & Hs & _).
    rewrite Hold, Hnew. cbn [mbind option_bind].
    apply flush_pgd_slot_pud in Hs.
    eapply flush_pud_slot_mono; eauto; try lia.
    rewrite Forall_lookup in Hall. eapply Hall, Hold.
Qed.

(** X7. [kvm_mips_flush_gpa_pt] only removes. For any range, it keeps the
    page directory well formed, and at every address the read-only walk
    afterwards either finds exactly what it found before or finds no
    present entry; so a present entry seen after the flush was there
    before with the same value, and an address that was unmapped stays
    unmapped. *)
Theorem flush_only_removes (L : layout) (kvm : vz_vm) (start_gfn end_gfn : Z)
    (r : bool) (kvm' : vz_vm) :
  0 <= PTE_BITS L -> 0 <= PMD_BITS L -> 0 <= PGD_BITS L ->
  pmdv_huge L (invalid_pte_table L) = false ->
  wf_pgd L (gpa_mm_pgd kvm) ->
  kvm_mips_flush_gpa_pt L kvm start_gfn end_gfn = Some (r, kvm') ->
  wf_pgd L (gpa_mm_pgd kvm')
  /\ memslots kvm' = memslots kvm
  /\ forall addr,
       (forall p v, gpa_lookup L (gpa_mm_pgd kvm') addr = Some (Some (p, v)) ->
                    pte_present L v = true ->
                    gpa_lookup L (gpa_mm_pgd kvm) addr = Some (Some (p, v)))
       /\ (unmapped L (gpa_lookup L (gpa_mm_pgd kvm) addr) ->
           unmapped L (gpa_lookup L (gpa_mm_pgd kvm') addr)).
Proof.
  intros Hpte Hpmd Hpgd Hinv Hwf Hrun. unfold kvm_mips_flush_gpa_pt in Hrun.
  destruct (kvm_mips_flush_gpa_pgd L _ _ _) as [[r0 pgd']|] eqn:Hflush;
    [|discriminate].
  cbn [mbind option_bind] in Hrun. simplify_eq. cbn [gpa_mm_pgd set_pgd memslots].
  split; [|split; [reflexivity|]].
  - exact (proj1 (flush_pgd_mono L _ _ _ _ _ 0 Hpte Hpmd Hpgd Hinv Hwf Hflush)).
  - intros addr.
    destruct (flush_pgd_mono L _ _ _ _ _ addr Hpte Hpmd Hpgd Hinv Hwf Hflush)
      as [_ [Hsame | Hun]].
    + rewrite Hsame. auto.
    + split; [|auto]. intros p v Hfind Hpres.
      destruct Hun as [Hnull | (p' & v' & Hfind' & Hnp)]; [congruence|].
      rewrite Hfind in Hfind'. simplify_eq. congruence.
Qed.

(** ** Flushing the whole guest-physical space *)

Section FullFlush.
Variable L : layout.
Hypothesis page_shift_nonneg : 0 <= PAGE_SHIFT L.
Hypothesis pte_bits_nonneg : 0 <= PTE_BITS L.
Hypothesis pmd_bits_nonneg : 0 <= PMD_BITS L.
Hypothesis pgd_bits_nonneg : 0 <= PGD_BITS L.
Hypothesis address_bits :
  PAGE_SHIFT L + PTE_BITS L + PMD_BITS L + PGD_BITS L <= wordsize.

(** The indices of the last guest frame are the last index at each
    level. *)
Lemma last_gfn_indices :
  let end_gpa := ushl (gfn_limit L - 1) (PAGE_SHIFT L) in
  __pte_offset L end_gpa = PTRS_PER_PTE L - 1
  /\ __pmd_offset L end_gpa = PTRS_PER_PMD L - 1
  /\ pgd_index L end_gpa = PTRS_PER_PGD L - 1.
Proof.
  intros end_gpa. subst end_gpa.
  pose proof (ptrs_pos L page_shift_nonneg pte_bits_nonneg pmd_bits_nonneg
                pgd_bits_nonneg) as (HT & HM & HG & _).
  pose proof (gfn_limit_split L pte_bits_nonneg pmd_bits_nonneg
                pgd_bits_nonneg) as Hsplit.
  assert (Hlast : 0 <= gfn_limit L - 1 < gfn_limit L) by nia.
  rewrite pte_offset_gfn, pmd_offset_gfn, pgd_index_gfn by assumption.
  set (T := PTRS_PER_PTE L) in *. set (M := PTRS_PER_PMD L) in *.
  set (G := PTRS_PER_PGD L) in *. rewrite Hsplit.
  assert (H1 : (T * M * G - 1) mod T = T - 1).
  { replace (T * M * G - 1) with ((T - 1) + (M * G - 1) * T) by lia.
    rewrite Z.mod_add by lia. apply Z.mod_small. lia. }
  assert (H2 : (T * M * G - 1) / T = M * G - 1).
  { replace (T * M * G - 1) with ((T - 1) + (M * G - 1) * T) by lia.
    rewrite Z.div_add by lia. rewrite Z.div_small by lia. lia. }
  assert (H3 : (M * G - 1) mod M = M - 1).
  { replace (M * G - 1) with ((M - 1) + (G - 1) * M) by lia.
    rewrite Z.mod_add by lia. apply Z.mod_small. lia. }
  assert (H4 : (T * M * G - 1) / (T * M) = G - 1).
  { rewrite <- Z.div_div by lia. rewrite H2.
    replace (M * G - 1) with ((M - 1) + (G - 1) * M) by lia.
    rewrite Z.div_add by lia. rewrite Z.div_small by lia. lia. }
  rewrite H1, H2, H3, H4. auto.
Qed.

Lemma flush_pmd_slot_full start_gpa end_gpa old new b :
  wf_pmd L old ->
  __pte_offset L start_gpa = 0 ->
  __pte_offset L end_gpa = PTRS_PER_PTE L - 1 ->
  flush_pmd_slot L start_gpa end_gpa old = Some (new, b) -> b = true.
Proof.
  intros Hwf Hlo Hhi Hslot. unfold flush_pmd_slot in Hslot.
  destruct (pmd_present L old); cbn [negb] in Hslot; [|now simplify_eq].
  destruct (pmd_huge L old); [now simplify_eq|].
  destruct (pte_table_of old) as [pte|]; [|discriminate].
  cbn [mbind option_bind] in Hslot.
  destruct (kvm_mips_flush_gpa_pte L pte start_gpa end_gpa)
    as [[r pte']|] eqn:Hpte; [|discriminate].
  cbn [mbind option_bind] in Hslot. simplify_eq.
  apply flush_pte_char in Hpte as (Hr & _); [|exact pte_bits_nonneg].
  rewrite Hr, Hlo, Hhi, !Z.eqb_refl. reflexivity.
Qed.

Lemma flush_pud_slot_full start_gpa end_gpa old new b :
  wf_pud L old ->
  __pte_offset L start_gpa = 0 -> __pmd_offset L start_gpa = 0 ->
  __pte_offset L end_gpa = PTRS_PER_PTE L - 1 ->
  __pmd_offset L end_gpa = PTRS_PER_PMD L - 1 ->
  flush_pud_slot L start_gpa end_gpa old = Some (new, b) ->
  b = true /\ new = Pud_none.
Proof.
  intros Hwf Hlo Hlo' Hhi Hhi' Hslot. unfold flush_pud_slot in Hslot.
  destruct old as [|pmds]; cbn [pud_present pud_none negb] in Hslot;
    [now simplify_eq|].
  cbn [pmd_table_of mbind option_bind] in Hslot.
  destruct (kvm_mips_flush_gpa_pmd L pmds start_gpa end_gpa)
    as [[r pmds']|] eqn:Hrun; [|discriminate].
  cbn [mbind option_bind] in Hslot. simplify_eq.
  apply flush_pmd_char in Hrun as (_ & _ & Hunsafe & _);
    [|exact pmd_bits_nonneg].
  assert (b = true) as ->; [|auto].
  destruct b; [reflexivity|]. exfalso.
  destruct (Hunsafe eq_refl) as [Hs | (x & old & new & Hx & Hold & Hs)].
  - rewrite Hlo', Hhi', !Z.eqb_refl in Hs. discriminate.
  - apply flush_pmd_slot_full in Hs; [discriminate| | |].
    + destruct Hwf as [_ Hall]. rewrite Forall_lookup in Hall.
      eapply Hall, Hold.
    + rewrite slot_start_pte_offset by assumption.
      now destruct (x =? _).
    + rewrite slot_end_pte_offset by assumption.
      now destruct (x =? _).
Qed.

Lemma flush_pgd_full pgd r pgd' :
  wf_pgd L pgd ->
  kvm_mips_flush_gpa_pgd L pgd 0 (ushl (gfn_limit L - 1) (PAGE_SHIFT L))
  = Some (r, pgd') ->
  r = true /\ pgd' = kvm_pgd_init L.
Proof.
  intros [Hlen Hall] Hrun.
  destruct last_gfn_indices as (Ht & Hm & Hg).
  destruct (offsets_zero L) as (Ht0 & Hm0 & Hg0).
  apply flush_pgd_char in Hrun; [|exact pgd_bits_nonneg].
  rewrite Hg, Hg0 in Hrun.
  destruct Hrun as (Hlen' & _ & Hunsafe & Hslots).
  rewrite Forall_lookup in Hall.
  assert (Hslot : forall x old new b,
            pgd !! idx x = Some old ->
            flush_pgd_slot L (slot_start 0 0 x)
              (slot_end (PTRS_PER_PGD L - 1)
                 (ushl (gfn_limit L - 1) (PAGE_SHIFT L)) x) old
            = Some (new, b) ->
            b = true /\ new = Pud_none).
  { intros x old new b Hold Hs. apply flush_pgd_slot_pud in Hs.
    eapply flush_pud_slot_full; [eapply Hall, Hold | | | | | exact Hs].
    - rewrite slot_start_pte_offset by assumption. now destruct (x =? _).
    - rewrite slot_start_pmd_offset by assumption. now destruct (x =? _).
    - rewrite slot_end_pte_offset by assumption. now destruct (x =? _).
    - rewrite slot_end_pmd_offset by assumption. now destruct (x =? _). }
  split.
  - destruct r; [reflexivity|]. exfalso.
    destruct (Hunsafe eq_refl) as [Hs | (x & old & new & Hx & Hold & Hs)].
    + rewrite !Z.eqb_refl in Hs. discriminate.
    + destruct (Hslot x old new false Hold Hs). discriminate.
  - apply list_eq. intros n. unfold kvm_pgd_init.
    destruct (decide (n < length pgd)%nat) as [Hn|Hn].
    + rewrite lookup_replicate_2 by lia.
      destruct (Hslots (Z.of_nat n) ltac:(lia)) as [Hin _].
      unfold idx in Hin. rewrite Nat2Z.id in Hin.
      destruct Hin as (old & new & b & Hold & Hnew & Hs & _); [lia|].
      rewrite Hnew. f_equal.
      eapply (Hslot (Z.of_nat n)); [|exact Hs].
      unfold idx. now rewrite Nat2Z.id.
    + rewrite !lookup_ge_None_2; [reflexivity| |lia].
      rewrite length_replicate. lia.
Qed.
End FullFlush.

(** X8. Flushing every guest frame, from 0 to the last one the page
    directory reaches, always returns, reports that the directory may be
    removed, and leaves it exactly as [kvm_pgd_init] made it: every table
    below the top level is gone. *)
Theorem flush_everything_leaves_fresh_directory (L : layout) (kvm : vz_vm) :
  0 <= PAGE_SHIFT L -> 0 <= PTE_BITS L -> 0 <= PMD_BITS L ->
  0 <= PGD_BITS L ->
  PAGE_SHIFT L + PTE_BITS L + PMD_BITS L + PGD_BITS L <= wordsize ->
  wf_pgd L (gpa_mm_pgd kvm) ->
  kvm_mips_flush_gpa_pt L kvm 0 (gfn_limit L - 1)
  = Some (true, set_pgd kvm (kvm_pgd_init L)).
Proof.
  intros Hps Hpte Hpmd Hpgd Hbits Hwf. unfold kvm_mips_flush_gpa_pt.
  assert (Hzero : ushl 0 (PAGE_SHIFT L) = 0)
    by (unfold ushl; now rewrite Z.shiftl_0_l).
  rewrite Hzero.
  destruct (flush_pgd_total L (gpa_mm_pgd kvm) 0
              (ushl (gfn_limit L - 1) (PAGE_SHIFT L)) Hpte Hpmd Hpgd Hwf)
    as [[r pgd'] Hrun].
  rewrite Hrun. cbn [mbind option_bind].
  destruct (flush_pgd_full L Hps Hpte Hpmd Hpgd Hbits _ _ _ Hwf Hrun)
    as [-> ->].
  reflexivity.
Qed.

(** ** Host notifiers *)

Lemma flush_range_unmaps (L : layout) (pgd : list pud_t) (a b : Z)
    (r : bool) (pgd' : list pud_t) :
  0 <= PAGE_SHIFT L -> 0 <= PTE_BITS L -> 0 <= PMD_BITS L ->
  0 <= PGD_BITS L ->
  PAGE_SHIFT L + PTE_BITS L + PMD_BITS L + PGD_BITS L <= wordsize ->
  pmdv_huge L (invalid_pte_table L) = false ->
  wf_pgd L pgd ->
  0 <= a -> a <= b -> b < gfn_limit L ->
  kvm_mips_flush_gpa_pgd L pgd (ushl a (PAGE_SHIFT L))
    (ushl b (PAGE_SHIFT L)) = Some (r, pgd') ->
  forall gfn, a <= gfn <= b ->
    unmapped L (gpa_lookup L pgd' (ushl gfn (PAGE_SHIFT L))).
Proof.
  intros Hps Hpte Hpmd Hpgd Hbits Hinv Hwf Ha Hab Hb Hrun gfn Hin.
  pose proof (ptrs_pos L Hps Hpte Hpmd Hpgd) as (HT & HM & HG & HP).
  set (T := PTRS_PER_PTE L) in *. set (M := PTRS_PER_PMD L) in *.
  set (start := ushl a (PAGE_SHIFT L)) in *.
  set (end_ := ushl b (PAGE_SHIFT L)) in *.
  assert (Hidx : forall x, 0 <= x < gfn_limit L ->
            pgd_index L (ushl x (PAGE_SHIFT L)) = x / (T * M)
            /\ __pmd_offset L (ushl x (PAGE_SHIFT L)) = (x / T) mod M
            /\ __pte_offset L (ushl x (PAGE_SHIFT L)) = x mod T).
  { intros x Hx. split; [|split].
    - now apply pgd_index_gfn.
    - now apply pmd_offset_gfn.
    - now apply pte_offset_gfn. }
  destruct (Hidx a ltac:(lia)) as (Hga & Hma & Hta).
  destruct (Hidx b ltac:(lia)) as (Hgb & Hmb & Htb).
  fold start in Hga, Hma, Hta. fold end_ in Hgb, Hmb, Htb.
  apply flush_pgd_char in Hrun as (Hlen & _ & _ & Hslots); [|exact Hpgd].
  rewrite Hga, Hgb in Hslots.
  destruct Hwf as [Hwflen Hwf]. rewrite Forall_lookup in Hwf.
  destruct (Hidx gfn ltac:(lia)) as (Hg & Hm & Ht).
  rewrite gpa_lookup_unfold, Hg, Hm, Ht.
  pose proof (lex_order T M a gfn HT HM) as [Hlo _].
  pose proof (lex_order T M gfn b HT HM) as [Hhi _].
  pose proof (Z.mod_pos_bound gfn T HT).
  pose proof (Z.mod_pos_bound (gfn / T) M HM).
  pose proof (Z.mod_pos_bound (a / T) M HM).
  pose proof (Z.mod_pos_bound a T HT).
  apply proj1 in Hlo. apply proj1 in Hhi.
  specialize (Hlo ltac:(lia)). specialize (Hhi ltac:(lia)).
  assert (0 <= a / (T * M)) by (apply Z.div_pos; nia).
  destruct (Hslots (gfn / (T * M)) ltac:(lia)) as [Hvisit _].
  destruct (Hvisit ltac:(lia)) as (old & new & bb & Hold & Hnew & Hs & _).
  apply flush_pgd_slot_pud in Hs.
  rewrite Hnew. cbn [mbind option_bind].
  eapply flush_pud_slot_inside; eauto;
    rewrite ?slot_start_pmd_offset, ?slot_end_pmd_offset,
      ?slot_start_pte_offset, ?slot_end_pte_offset by assumption;
    rewrite ?Hma, ?Hmb, ?Hta, ?Htb.
  - destruct (Z.eqb_spec (gfn / (T * M)) (a / (T * M))),
             (Z.eqb_spec (gfn / (T * M)) (b / (T * M))); lia.
  - destruct (Z.eqb_spec (gfn / (T * M)) (a / (T * M))); lia.
  - destruct (Z.eqb_spec (gfn / (T * M)) (b / (T * M))); lia.
Qed.

Lemma gfn_limit_le_modulus L :
  0 <= PAGE_SHIFT L -> 0 <= PTE_BITS L -> 0 <= PMD_BITS L ->
  0 <= PGD_BITS L ->
  PAGE_SHIFT L + PTE_BITS L + PMD_BITS L + PGD_BITS L <= wordsize ->
  0 < gfn_limit L <= modulus.
Proof.
  intros. unfold gfn_limit, modulus. split; [apply pow2_pos; lia|].
  apply Z.pow_le_mono_r; lia.
Qed.

(** The frames [handle_hva_to_gpa] hands to its handler for a slot that
    meets the host range: from the frame of the first byte to one past the
    frame of the last byte. *)
Lemma hva_range_gfns (L : layout) (s : kvm_memory_slot) (start end_ : Z) :
  0 <= PAGE_SHIFT L -> 0 <= PTE_BITS L -> 0 <= PMD_BITS L ->
  0 <= PGD_BITS L ->
  PAGE_SHIFT L + PTE_BITS L + PMD_BITS L + PGD_BITS L <= wordsize ->
  slot_in_reach L s ->
  let hva_start := Z.max start (userspace_addr s) in
  let hva_end :=
    Z.min end_ (uadd (userspace_addr s)
                     (ushl (npages s) (PAGE_SHIFT L))) in
  hva_start < hva_end ->
  let gfn := hva_to_gfn_memslot L hva_start s in
  let gfn_end :=
    hva_to_gfn_memslot L (usub (uadd hva_end (PAGE_SIZE L)) 1) s in
  gfn = base_gfn s + (hva_start - userspace_addr s) / PAGE_SIZE L
  /\ usub gfn_end 1
     = base_gfn s
       + (hva_end - userspace_addr s + PAGE_SIZE L - 1) / PAGE_SIZE L - 1
  /\ 0 <= gfn /\ gfn <= usub gfn_end 1 /\ usub gfn_end 1 < gfn_limit L
  /\ base_gfn s <= gfn /\ usub gfn_end 1 < base_gfn s + npages s
  /\ forall k, page_meets L s k start end_ <->
               gfn <= base_gfn s + k <= usub gfn_end 1.
Proof.
  intros Hps Hpte Hpmd Hpgd Hbits (Hbase & Hn & Hreach & Hua & Hfit)
         hva_start hva_end Hmeet.
  pose proof (gfn_limit_le_modulus L Hps Hpte Hpmd Hpgd Hbits) as Hlim.
  pose proof (page_size_pow L Hps) as HP.
  pose proof (pow2_pos (PAGE_SHIFT L) Hps) as HPpos. rewrite <- HP in HPpos.
  set (P := PAGE_SIZE L) in *. set (ua := userspace_addr s) in *.
  assert (Hsize : ushl (npages s) (PAGE_SHIFT L) = npages s * P).
  { unfold ushl. rewrite Z.shiftl_mul_pow2, <- HP by assumption.
    apply wrap_small. nia. }
  assert (Hend : uadd ua (ushl (npages s) (PAGE_SHIFT L)) = ua + npages s * P).
  { rewrite Hsize. unfold uadd. apply wrap_small. nia. }
  subst hva_end. rewrite Hend in *.
  set (hva_end := Z.min end_ (ua + npages s * P)) in *.
  intros gfn gfn_end.
  assert (Hs0 : ua <= hva_start) by (subst hva_start; lia).
  assert (He0 : hva_end <= ua + npages s * P) by (subst hva_end; lia).
  set (lo := (hva_start - ua) / P).
  set (hi := (hva_end - ua + P - 1) / P).
  assert (Hlo : 0 <= lo /\ lo * P <= hva_start - ua < (lo + 1) * P).
  { subst lo. pose proof (Z.div_mod (hva_start - ua) P ltac:(lia)).
    pose proof (Z.mod_pos_bound (hva_start - ua) P HPpos).
    split; [apply Z.div_pos; lia | nia]. }
  assert (Hhi : (hi - 1) * P < hva_end - ua <= hi * P).
  { subst hi. pose proof (Z.div_mod (hva_end - ua + P - 1) P ltac:(lia)).
    pose proof (Z.mod_pos_bound (hva_end - ua + P - 1) P HPpos). nia. }
  assert (Hlohi : lo < hi /\ hi <= npages s) by nia.
  assert (Hgfn : gfn = base_gfn s + lo).
  { subst gfn lo. unfold hva_to_gfn_memslot, ushr.
    rewrite Z.shiftr_div_pow2, <- HP by assumption. fold ua P.
    unfold usub at 1. rewrite wrap_small by lia.
    unfold uadd. apply wrap_small. nia. }
  assert (Hgend : usub gfn_end 1 = base_gfn s + hi - 1).
  { subst gfn_end hi. unfold hva_to_gfn_memslot, ushr.
    rewrite Z.shiftr_div_pow2, <- HP by assumption. fold ua P.
    rewrite (usub_uadd hva_end P 1), (wrap_small (hva_end + P - 1)) by lia.
    assert (Hsub : usub (hva_end + P - 1) ua = hva_end - ua + P - 1)
      by (unfold usub; rewrite wrap_small by lia; lia).
    rewrite Hsub, usub_uadd. apply wrap_small. nia. }
  rewrite Hgfn, Hgend.
  split; [reflexivity|]. split; [reflexivity|].
  split; [lia|]. split; [lia|]. split; [lia|]. split; [lia|].
  split; [lia|].
  intros k. unfold page_meets. fold P ua.
  assert (Hmin : hva_end <= end_) by (subst hva_end; lia).
  assert (Hmax : start <= hva_start) by (subst hva_start; lia).
  split.
  - intros (Hk & _ & Hk1 & Hk2).
    assert (ua + k * P < hva_end)
      by (subst hva_end; apply Z.min_glb_lt; [lia | nia]).
    assert (hva_start < ua + (k + 1) * P)
      by (subst hva_start; apply Z.max_lub_lt; [lia | nia]).
    assert (lo <= k) by nia. assert (k < hi) by nia. lia.
  - intros Hk. assert (Hk' : lo <= k < hi) by lia.
    assert (k * P <= (hi - 1) * P) by nia.
    assert ((lo + 1) * P <= (k + 1) * P) by nia.
    split; [lia|]. split; lia.
Qed.

(** A slot no page of which meets the range is skipped. *)
Lemma slot_skipped_iff (L : layout) (s : kvm_memory_slot) (start end_ : Z) :
  0 <= PAGE_SHIFT L -> 0 <= PTE_BITS L -> 0 <= PMD_BITS L ->
  0 <= PGD_BITS L ->
  PAGE_SHIFT L + PTE_BITS L + PMD_BITS L + PGD_BITS L <= wordsize ->
  slot_in_reach L s ->
  let hva_start := Z.max start (userspace_addr s) in
  let hva_end :=
    Z.min end_ (uadd (userspace_addr s)
                     (ushl (npages s) (PAGE_SHIFT L))) in
  hva_end <= hva_start <-> forall k, ~ page_meets L s k start end_.
Proof.
  intros Hps Hpte Hpmd Hpgd Hbits Hreach hva_start hva_end.
  pose proof (hva_range_gfns L s start end_ Hps Hpte Hpmd Hpgd Hbits Hreach)
    as Hgfns.
  cbv zeta in Hgfns. fold hva_start hva_end in Hgfns.
  split.
  - intros Hskip k (Hk & Hse & Hk1 & Hk2).
    destruct Hreach as (Hbase & Hn & _ & Hua & Hfit).
    pose proof (page_size_pow L Hps) as HP.
    pose proof (pow2_pos (PAGE_SHIFT L) Hps) as HPpos. rewrite <- HP in HPpos.
    assert (Hend : uadd (userspace_addr s) (ushl (npages s) (PAGE_SHIFT L))
                   = userspace_addr s + npages s * PAGE_SIZE L).
    { unfold ushl. rewrite Z.shiftl_mul_pow2, <- HP by assumption.
      rewrite (wrap_small (npages s * PAGE_SIZE L)) by nia.
      unfold uadd. apply wrap_small. nia. }
    subst hva_start hva_end. rewrite Hend in Hskip.
    assert ((k + 1) * PAGE_SIZE L <= npages s * PAGE_SIZE L) by nia.
    assert (0 <= k * PAGE_SIZE L) by nia.
    lia.
  - intros Hnone. destruct (Z_lt_le_dec hva_start hva_end) as [Hlt|]; [|lia].
    exfalso. destruct (Hgfns Hlt) as (_ & _ & _ & Hle & _ & Hb & _ & Hiff).
    apply (Hnone (hva_to_gfn_memslot L hva_start s - base_gfn s)).
    apply Hiff. lia.
Qed.

Lemma for_each_memslot_off (L : layout) (slots : list kvm_memory_slot)
    (vm : vz_vm) (start end_ : Z) (handler : hva_handler) (ret : Z) :
  0 <= PAGE_SHIFT L -> 0 <= PTE_BITS L -> 0 <= PMD_BITS L ->
  0 <= PGD_BITS L ->
  PAGE_SHIFT L + PTE_BITS L + PMD_BITS L + PGD_BITS L <= wordsize ->
  Forall (slot_in_reach L) slots ->
  (forall s k, In s slots -> ~ page_meets L s k start end_) ->
  for_each_memslot L slots vm start end_ handler ret = Some (ret, vm).
Proof.
  intros Hps Hpte Hpmd Hpgd Hbits Hreach Hoff.
  induction slots as [|s slots IH]; [reflexivity|].
  cbn [for_each_memslot].
  apply Forall_cons in Hreach as [Hs Hreach].
  pose proof (proj2 (slot_skipped_iff L s start end_ Hps Hpte Hpmd Hpgd
                       Hbits Hs)) as Hskip.
  cbv zeta in Hskip.
  destruct (Z.leb_spec
              (Z.min end_ (uadd (userspace_addr s)
                                (ushl (npages s) (PAGE_SHIFT L))))
              (Z.max start (userspace_addr s))) as [_|Hlt].
  - apply IH; [exact Hreach|]. intros s' k Hin. apply Hoff. now right.
  - exfalso. specialize (Hskip (fun k => Hoff s k (or_introl eq_refl))).
    lia.
Qed.

(** X9. A host range that meets no page of any memory slot reaches no
    handler: [handle_hva_to_gpa] returns 0 and the virtual machine is
    unchanged, whatever the handler. So [kvm_age_hva] returns 0 and
    [kvm_set_spte_hva] does nothing, while [kvm_unmap_hva_range] still
    flushes the shadow mappings. *)
Theorem hva_range_off_every_slot (L : layout) (kvm : vz_vm) (start end_ : Z) :
  0 <= PAGE_SHIFT L -> 0 <= PTE_BITS L -> 0 <= PMD_BITS L ->
  0 <= PGD_BITS L ->
  PAGE_SHIFT L + PTE_BITS L + PMD_BITS L + PGD_BITS L <= wordsize ->
  Forall (slot_in_reach L) (memslots kvm) ->
  (forall s k, In s (memslots kvm) -> ~ page_meets L s k start end_) ->
  (forall handler, handle_hva_to_gpa L kvm start end_ handler = Some (0, kvm))
  /\ kvm_age_hva L kvm start end_ = Some (0, kvm)
  /\ kvm_unmap_hva_range L kvm start end_
     = Some (0, kvm, [kvm_vz_flush_shadow_all])
  /\ (end_ = uadd start (PAGE_SIZE L) ->
      forall pte, kvm_set_spte_hva L kvm start pte = Some (kvm, [])).
Proof.
  intros Hps Hpte Hpmd Hpgd Hbits Hreach Hoff.
  assert (Hall : forall handler,
            handle_hva_to_gpa L kvm start end_ handler = Some (0, kvm))
    by (intros; now apply for_each_memslot_off).
  split; [exact Hall|]. split; [apply Hall|]. split.
  - unfold kvm_unmap_hva_range. now rewrite Hall.
  - intros -> pte. unfold kvm_set_spte_hva. now rewrite Hall.
Qed.

Lemma unmap_slots (L : layout) (start end_ : Z)
    (slots : list kvm_memory_slot) :
  0 <= PAGE_SHIFT L -> 0 <= PTE_BITS L -> 0 <= PMD_BITS L ->
  0 <= PGD_BITS L ->
  PAGE_SHIFT L + PTE_BITS L + PMD_BITS L + PGD_BITS L <= wordsize ->
  pmdv_huge L (invalid_pte_table L) = false ->
  Forall (slot_in_reach L) slots ->
  forall kvm ret,
    wf_pgd L (gpa_mm_pgd kvm) ->
    exists ret' kvm',
      for_each_memslot L slots kvm start end_ (kvm_unmap_hva_handler L) ret
      = Some (ret', kvm')
      /\ wf_pgd L (gpa_mm_pgd kvm')
      /\ memslots kvm' = memslots kvm
      /\ (forall addr,
            gpa_lookup L (gpa_mm_pgd kvm') addr
            = gpa_lookup L (gpa_mm_pgd kvm) addr
            \/ unmapped L (gpa_lookup L (gpa_mm_pgd kvm') addr))
      /\ (forall s k, In s slots -> page_meets L s k start end_ ->
            unmapped L (gpa_lookup L (gpa_mm_pgd kvm')
                          (ushl (base_gfn s + k) (PAGE_SHIFT L)))).
Proof.
  intros Hps Hpte Hpmd Hpgd Hbits Hinv Hreach.
  induction slots as [|s slots IH]; intros kvm ret Hwf.
  { exists ret, kvm. split; [reflexivity|]. split; [exact Hwf|].
    split; [reflexivity|]. split; [now left|]. intros s k []. }
  apply Forall_cons in Hreach as [Hs Hreach]. specialize (IH Hreach).
  cbn [for_each_memslot].
  pose proof (slot_skipped_iff L s start end_ Hps Hpte Hpmd Hpgd Hbits Hs)
    as Hskip.
  pose proof (hva_range_gfns L s start end_ Hps Hpte Hpmd Hpgd Hbits Hs)
    as Hgfns.
  cbv zeta in Hskip, Hgfns.
  set (hva_start := Z.max start (userspace_addr s)) in *.
  set (hva_end := Z.min end_ (uadd (userspace_addr s)
                                   (ushl (npages s) (PAGE_SHIFT L)))) in *.
  destruct (Z.leb_spec hva_end hva_start) as [Hle|Hlt].
  - destruct (IH kvm ret Hwf) as (ret' & kvm' & Hrun & Hwf' & Hms & Hmono & Hun).
    exists ret', kvm'. split; [exact Hrun|]. split; [exact Hwf'|].
    split; [exact Hms|]. split; [exact Hmono|].
    intros s' k [<-|Hin] Hmeet; [|now apply Hun].
    exfalso. exact (proj1 Hskip Hle k Hmeet).
  - destruct (Hgfns Hlt) as (_ & _ & Hg0 & Hgle & Hglim & _ & _ & Hiff).
    set (gfn := hva_to_gfn_memslot L hva_start s) in *.
    set (gfn_end := hva_to_gfn_memslot L
                      (usub (uadd hva_end (PAGE_SIZE L)) 1) s) in *.
    destruct (flush_pgd_total L (gpa_mm_pgd kvm)
                (ushl gfn (PAGE_SHIFT L))
                (ushl (usub gfn_end 1) (PAGE_SHIFT L)) Hpte Hpmd Hpgd Hwf)
      as [[r pgd1] Hflush].
    assert (Hh : kvm_unmap_hva_handler L kvm gfn gfn_end s
                 = Some (1, set_pgd kvm pgd1)).
    { unfold kvm_unmap_hva_handler, kvm_mips_flush_gpa_pt.
      now rewrite Hflush. }
    rewrite Hh. cbn [mbind option_bind].
    assert (Hwf1 : wf_pgd L pgd1)
      by exact (proj1 (flush_pgd_mono L _ _ _ _ _ 0 Hpte Hpmd Hpgd Hinv Hwf
                         Hflush)).
    destruct (IH (set_pgd kvm pgd1) (Z.lor ret 1) Hwf1)
      as (ret' & kvm' & Hrun & Hwf' & Hms & Hmono & Hun).
    exists ret', kvm'. split; [exact Hrun|]. split; [exact Hwf'|].
    split; [exact Hms|]. cbn [gpa_mm_pgd set_pgd] in Hmono.
    split.
    + intros addr.
      destruct (Hmono addr) as [Hsame | Hu]; [|now right].
      rewrite Hsame.
      exact (proj2 (flush_pgd_mono L _ _ _ _ _ addr Hpte Hpmd Hpgd Hinv Hwf
                      Hflush)).
    + intros s' k [<-|Hin] Hmeet; [|now apply Hun].
      apply Hiff in Hmeet.
      pose proof (flush_range_unmaps L _ gfn (usub gfn_end 1) _ _ Hps Hpte
                    Hpmd Hpgd Hbits Hinv Hwf Hg0 Hgle Hglim Hflush
                    (base_gfn s + k) Hmeet) as Hflushed.
      destruct (Hmono (ushl (base_gfn s + k) (PAGE_SHIFT L)))
        as [Hsame | Hu]; [now rewrite Hsame | exact Hu].
Qed.

(** X10. After [kvm_unmap_hva_range] no guest frame backed by host memory
    in the range has a present entry left: for every page of every memory
    slot that meets the range, the read-only walk for its guest frame finds
    nothing present. The call always returns 0, flushes the shadow
    mappings, keeps the page directory well formed, and maps nothing new:
    every other lookup is as before or finds nothing present. *)
Theorem unmap_hva_range_unmaps_every_backed_frame (L : layout) (kvm : vz_vm)
    (start end_ : Z) :
  0 <= PAGE_SHIFT L -> 0 <= PTE_BITS L -> 0 <= PMD_BITS L ->
  0 <= PGD_BITS L ->
  PAGE_SHIFT L + PTE_BITS L + PMD_BITS L + PGD_BITS L <= wordsize ->
  pmdv_huge L (invalid_pte_table L) = false ->
  Forall (slot_in_reach L) (memslots kvm) ->
  wf_pgd L (gpa_mm_pgd kvm) ->
  exists kvm',
    kvm_unmap_hva_range L kvm start end_
    = Some (0, kvm', [kvm_vz_flush_shadow_all])
    /\ wf_pgd L (gpa_mm_pgd kvm')
    /\ memslots kvm' = memslots kvm
    /\ (forall s k, In s (memslots kvm) -> page_meets L s k start end_ ->
          unmapped L (gpa_lookup L (gpa_mm_pgd kvm')
                        (ushl (base_gfn s + k) (PAGE_SHIFT L))))
    /\ (forall addr,
          gpa_lookup L (gpa_mm_pgd kvm') addr
          = gpa_lookup L (gpa_mm_pgd kvm) addr
          \/ unmapped L (gpa_lookup L (gpa_mm_pgd kvm') addr)).
Proof.
  intros Hps Hpte Hpmd Hpgd Hbits Hinv Hreach Hwf.
  destruct (unmap_slots L start end_ (memslots kvm) Hps Hpte Hpmd Hpgd Hbits
              Hinv Hreach kvm 0 Hwf)
    as (ret' & kvm' & Hrun & Hwf' & Hms & Hmono & Hun).
  exists kvm'. unfold kvm_unmap_hva_range, handle_hva_to_gpa.
  rewrite Hrun. cbn [mbind option_bind]. auto.
Qed.

(** ** Writing through a pointer the walk returned

    [store] writes the slot [set_pte] is called on. The kernel's [set_pte]
    can also mark the neighbouring slot global, when that slot is empty and
    the value stored carries the global bit, a bit the layout does not
    name. The statements on [set_pte] therefore speak of the slot written,
    of the entry the walk finds for the address and of present entries,
    none of which that second write touches. *)

Lemma lookup_leaf_inv L pgd addr gi mi ti v :
  gpa_lookup L pgd addr = Some (Some (At_pte gi mi ti, v)) ->
  gi = pgd_index L addr /\ mi = __pmd_offset L addr
  /\ ti = __pte_offset L addr
  /\ exists pmds pte,
       pgd !! idx gi = Some (Pud_table pmds)
       /\ pmds !! idx mi = Some (Pmd_table pte)
       /\ pte !! idx ti = Some v.
Proof.
  rewrite gpa_lookup_unfold. intros H.
  destruct (pgd !! idx (pgd_index L addr)) as [pud|] eqn:Hpud;
    [|discriminate].
  cbn [mbind option_bind] in H. destruct pud as [|pmds]; [discriminate|].
  cbn [pud_lookup] in H.
  destruct (pmds !! idx (__pmd_offset L addr)) as [e|] eqn:He;
    [|discriminate].
  cbn [mbind option_bind] in H. destruct e as [w|pte]; cbn [pmd_lookup] in H.
  - destruct (pmdv_huge L w); [discriminate|].
    destruct (pmdv_none L w); discriminate.
  - destruct (pte !! idx (__pte_offset L addr)) as [x|] eqn:Hx;
      [|discriminate].
    cbn [mbind option_bind] in H. simplify_eq.
    repeat split. now exists pmds, pte.
Qed.

Lemma lookup_huge_inv L pgd addr gi mi v :
  gpa_lookup L pgd addr = Some (Some (At_pmd gi mi, v)) ->
  gi = pgd_index L addr /\ mi = __pmd_offset L addr
  /\ pmdv_huge L v = true
  /\ exists pmds,
       pgd !! idx gi = Some (Pud_table pmds)
       /\ pmds !! idx mi = Some (Pmd_val v).
Proof.
  rewrite gpa_lookup_unfold. intros H.
  destruct (pgd !! idx (pgd_index L addr)) as [pud|] eqn:Hpud;
    [|discriminate].
  cbn [mbind option_bind] in H. destruct pud as [|pmds]; [discriminate|].
  cbn [pud_lookup] in H.
  destruct (pmds !! idx (__pmd_offset L addr)) as [e|] eqn:He;
    [|discriminate].
  cbn [mbind option_bind] in H. destruct e as [w|pte]; cbn [pmd_lookup] in H.
  - destruct (pmdv_huge L w) eqn:Hhuge;
      [|destruct (pmdv_none L w); discriminate].
    simplify_eq. repeat split; auto. now exists pmds.
  - destruct (pte !! idx (__pte_offset L addr)); discriminate.
Qed.

(** [set_pte] through a leaf pointer the walk found: the walk finds the new
    value, and the lookup of any address with another pointer is as
    before. *)
Lemma store_leaf L pgd addr p old v :
  gpa_lookup L pgd addr = Some (Some (p, old)) -> is_leaf_ptr p ->
  exists pgd',
    store pgd p v = Some pgd'
    /\ load pgd p = Some old
    /\ load pgd' p = Some v
    /\ gpa_lookup L pgd' addr = Some (Some (p, v))
    /\ (wf_pgd L pgd -> wf_pgd L pgd')
    /\ forall addr2,
         0 <= pgd_index L addr2 -> 0 <= __pmd_offset L addr2 ->
         0 <= __pte_offset L addr2 ->
         0 <= pgd_index L addr -> 0 <= __pmd_offset L addr ->
         0 <= __pte_offset L addr ->
         gpa_lookup L pgd addr2 <> Some (Some (p, old)) ->
         gpa_lookup L pgd' addr2 = gpa_lookup L pgd addr2.
Proof.
  intros Hfind Hleaf. destruct p as [gi mi ti|]; [|contradiction].
  destruct (lookup_leaf_inv L pgd addr gi mi ti old Hfind)
    as (-> & -> & -> & pmds & pte & Hpud & He & Hx).
  set (gi := pgd_index L addr) in *. set (mi := __pmd_offset L addr) in *.
  set (ti := __pte_offset L addr) in *.
  assert (Hgi : (idx gi < length pgd)%nat) by (eapply lookup_lt_Some, Hpud).
  assert (Hmi : (idx mi < length pmds)%nat) by (eapply lookup_lt_Some, He).
  assert (Hti : (idx ti < length pte)%nat) by (eapply lookup_lt_Some, Hx).
  eexists. split.
  { cbn [store]. rewrite Hpud. cbn [mbind option_bind pmd_table_of].
    rewrite He. cbn [mbind option_bind pte_table_of]. rewrite Hx.
    reflexivity. }
  split; [rewrite (load_at_pte pgd gi mi ti pmds pte Hpud He); exact Hx|].
  assert (Hpud' : <[idx gi := Pud_table
                     (<[idx mi := Pmd_table (<[idx ti := v]> pte)]> pmds)]>
                    pgd !! idx gi
                  = Some (Pud_table
                            (<[idx mi := Pmd_table (<[idx ti := v]> pte)]>
                               pmds)))
    by (now apply list_lookup_insert_eq).
  assert (He' : <[idx mi := Pmd_table (<[idx ti := v]> pte)]> pmds !! idx mi
                = Some (Pmd_table (<[idx ti := v]> pte)))
    by (now apply list_lookup_insert_eq).
  assert (Hx' : <[idx ti := v]> pte !! idx ti = Some v)
    by (now apply list_lookup_insert_eq).
  split; [rewrite (load_at_pte _ gi mi ti _ _ Hpud' He'); exact Hx'|].
  split.
  { rewrite gpa_lookup_unfold. fold gi mi ti. rewrite Hpud'.
    cbn [mbind option_bind pud_lookup]. rewrite He'.
    cbn [mbind option_bind pmd_lookup]. now rewrite Hx'. }
  split.
  { intros [Hlen Hall]. apply wf_pgd_insert; [now split|].
    rewrite Forall_lookup in Hall.
    pose proof (Hall _ _ Hpud) as Hwpud.
    apply wf_pud_insert; [exact Hwpud|].
    destruct Hwpud as [_ Hall']. rewrite Forall_lookup in Hall'.
    pose proof (Hall' _ _ He) as Hwpte. cbn in *.
    now rewrite length_insert. }
  intros addr2 Hg2 Hm2 Ht2 Hg Hm Ht Hother.
  rewrite !gpa_lookup_unfold in *.
  set (gi2 := pgd_index L addr2) in *. set (mi2 := __pmd_offset L addr2) in *.
  set (ti2 := __pte_offset L addr2) in *.
  destruct (Z.eq_dec gi2 gi) as [Hgeq|Hgne].
  2: { rewrite list_lookup_insert_ne; [reflexivity|].
       intros Heq. apply Hgne. symmetry. now apply idx_inj. }
  rewrite Hgeq in *. rewrite Hpud', Hpud in *.
  cbn [mbind option_bind pud_lookup] in *.
  destruct (Z.eq_dec mi2 mi) as [Hmeq|Hmne].
  2: { rewrite list_lookup_insert_ne; [reflexivity|].
       intros Heq. apply Hmne. symmetry. now apply idx_inj. }
  rewrite Hmeq in *. rewrite He', He in *.
  cbn [mbind option_bind pmd_lookup] in *.
  destruct (Z.eq_dec ti2 ti) as [Hteq|Htne].
  { rewrite Hteq, Hx in Hother. cbn in Hother. congruence. }
  rewrite list_lookup_insert_ne; [reflexivity|].
  intros Heq. apply Htne. symmetry. now apply idx_inj.
Qed.

(** [set_pte] through a pointer to a huge middle-level entry. *)
Lemma store_huge L pgd addr p old v :
  gpa_lookup L pgd addr = Some (Some (p, old)) -> ~ is_leaf_ptr p ->
  exists pgd',
    store pgd p v = Some pgd'
    /\ load pgd p = Some old
    /\ load pgd' p = Some v
    /\ (pmdv_huge L v = true ->
        gpa_lookup L pgd' addr = Some (Some (p, v))
        /\ (wf_pgd L pgd -> wf_pgd L pgd')).
Proof.
  intros Hfind Hleaf. destruct p as [|gi mi]; [now destruct Hleaf|].
  destruct (lookup_huge_inv L pgd addr gi mi old Hfind)
    as (-> & -> & Hhuge & pmds & Hpud & He).
  set (gi := pgd_index L addr) in *. set (mi := __pmd_offset L addr) in *.
  assert (Hgi : (idx gi < length pgd)%nat) by (eapply lookup_lt_Some, Hpud).
  assert (Hmi : (idx mi < length pmds)%nat) by (eapply lookup_lt_Some, He).
  eexists. split.
  { cbn [store]. rewrite Hpud. cbn [mbind option_bind pmd_table_of].
    rewrite He. reflexivity. }
  split; [exact (load_at_pmd pgd gi mi pmds old Hpud He)|].
  assert (Hpud' : <[idx gi := Pud_table (<[idx mi := Pmd_val v]> pmds)]>
                    pgd !! idx gi
                  = Some (Pud_table (<[idx mi := Pmd_val v]> pmds)))
    by (now apply list_lookup_insert_eq).
  assert (He' : <[idx mi := Pmd_val v]> pmds !! idx mi = Some (Pmd_val v))
    by (now apply list_lookup_insert_eq).
  split; [exact (load_at_pmd _ gi mi _ v Hpud' He')|].
  intros Hv. split.
  { rewrite gpa_lookup_unfold. fold gi mi. rewrite Hpud'.
    cbn [mbind option_bind pud_lookup]. rewrite He'.
    cbn [mbind option_bind pmd_lookup]. now rewrite Hv. }
  intros [Hlen Hall]. apply wf_pgd_insert; [now split|].
  rewrite Forall_lookup in Hall.
  apply wf_pud_insert; [exact (Hall _ _ Hpud)|].
  cbn. auto.
Qed.

Lemma store_found L pgd addr p old v :
  gpa_lookup L pgd addr = Some (Some (p, old)) ->
  exists pgd',
    store pgd p v = Some pgd'
    /\ load pgd p = Some old /\ load pgd' p = Some v.
Proof.
  intros Hfind. destruct p as [gi mi ti|gi mi].
  - destruct (store_leaf L pgd addr _ old v Hfind I)
      as (pgd' & ? & ? & ? & _). eauto.
  - destruct (store_huge L pgd addr _ old v Hfind (fun H => H))
      as (pgd' & ? & ? & ? & _). eauto.
Qed.

Lemma set_pgd_same kvm : set_pgd kvm (gpa_mm_pgd kvm) = kvm.
Proof. now destruct kvm. Qed.

Lemma pte_for_gpa_null L kvm addr :
  gpa_lookup L (gpa_mm_pgd kvm) addr = Some None ->
  kvm_mips_pte_for_gpa L kvm None addr = Some (None, kvm, None).
Proof.
  unfold kvm_mips_pte_for_gpa, gpa_lookup. intros H.
  destruct (kvm_mips_walk_pgd L (gpa_mm_pgd kvm) None addr)
    as [[[p pgd'] c]|] eqn:Hwalk; [|discriminate].
  destruct (walk_readonly_unchanged L _ _ _ _ _ Hwalk) as [-> ->].
  cbn [mbind option_bind] in *. rewrite set_pgd_same.
  destruct p as [p|]; [|reflexivity].
  destruct (load (gpa_mm_pgd kvm) p); discriminate.
Qed.

Lemma pte_for_gpa_found L kvm addr p v :
  gpa_lookup L (gpa_mm_pgd kvm) addr = Some (Some (p, v)) ->
  kvm_mips_pte_for_gpa L kvm None addr = Some (Some p, kvm, None)
  /\ load (gpa_mm_pgd kvm) p = Some v.
Proof.
  unfold kvm_mips_pte_for_gpa, gpa_lookup. intros H.
  destruct (kvm_mips_walk_pgd L (gpa_mm_pgd kvm) None addr)
    as [[[q pgd'] c]|] eqn:Hwalk; [|discriminate].
  destruct (walk_readonly_unchanged L _ _ _ _ _ Hwalk) as [-> ->].
  cbn [mbind option_bind] in *. rewrite set_pgd_same.
  destruct q as [q|]; [|discriminate].
  destruct (load (gpa_mm_pgd kvm) q) as [w|] eqn:Hload; [|discriminate].
  cbn [mbind option_bind] in H. now simplify_eq.
Qed.

(** ** A host range that meets one memory slot only *)

Lemma for_each_memslot_only (L : layout) (pre post : list kvm_memory_slot)
    (s : kvm_memory_slot) (vm : vz_vm) (start end_ : Z)
    (handler : hva_handler) (ret : Z) :
  0 <= PAGE_SHIFT L -> 0 <= PTE_BITS L -> 0 <= PMD_BITS L ->
  0 <= PGD_BITS L ->
  PAGE_SHIFT L + PTE_BITS L + PMD_BITS L + PGD_BITS L <= wordsize ->
  Forall (slot_in_reach L) (pre ++ s :: post) ->
  (forall s' k, In s' (pre ++ post) -> ~ page_meets L s' k start end_) ->
  (exists k, page_meets L s k start end_) ->
  let hva_start := Z.max start (userspace_addr s) in
  let hva_end :=
    Z.min end_ (uadd (userspace_addr s)
                     (ushl (npages s) (PAGE_SHIFT L))) in
  for_each_memslot L (pre ++ s :: post) vm start end_ handler ret
  = '(r, vm') ← handler vm (hva_to_gfn_memslot L hva_start s)
                  (hva_to_gfn_memslot L
                     (usub (uadd hva_end (PAGE_SIZE L)) 1) s) s;
    Some (Z.lor ret r, vm').
Proof.
  intros Hps Hpte Hpmd Hpgd Hbits Hreach Hoff [k Hk] hva_start hva_end.
  apply Forall_app in Hreach as [Hpre Hreach].
  apply Forall_cons in Hreach as [Hs Hpost].
  induction pre as [|s0 pre IH].
  - cbn [app for_each_memslot]. fold hva_start hva_end.
    pose proof (proj1 (slot_skipped_iff L s start end_ Hps Hpte Hpmd Hpgd
                         Hbits Hs)) as Hskip.
    cbv zeta in Hskip. fold hva_start hva_end in Hskip.
    destruct (Z.leb_spec hva_end hva_start) as [Hle|_];
      [exfalso; exact (Hskip Hle k Hk)|].
    destruct (handler vm _ _ s) as [[r vm']|]; [|reflexivity].
    cbn [mbind option_bind].
    apply for_each_memslot_off; auto.
  - cbn [app for_each_memslot].
    apply Forall_cons in Hpre as [Hs0 Hpre].
    pose proof (proj2 (slot_skipped_iff L s0 start end_ Hps Hpte Hpmd Hpgd
                         Hbits Hs0)) as Hskip.
    cbv zeta in Hskip.
    destruct (Z.leb_spec
                (Z.min end_ (uadd (userspace_addr s0)
                                  (ushl (npages s0) (PAGE_SHIFT L))))
                (Z.max start (userspace_addr s0))) as [_|Hlt].
    + apply IH; [exact Hpre|]. intros s' k' Hin. apply Hoff. now right.
    + exfalso. specialize (Hskip (fun k' => Hoff s0 k' (or_introl eq_refl))).
      lia.
Qed.

(** X11. [kvm_set_spte_hva] on a host address that lies in one memory slot
    acts on the guest frame backing that address. When the read-only walk
    finds no entry for the frame nothing happens. Otherwise the slot the
    walk found holds the new entry afterwards, so that for a leaf slot the
    walk now finds the new entry for the frame, in a page table that is
    still well formed; and the shadow mappings are flushed exactly when the
    old entry was present and young and the new one is not present, not
    young, for another host frame, or clean where the old one was dirty. *)
Theorem set_spte_hva_replaces_the_entry (L : layout) (kvm : vz_vm)
    (pre post : list kvm_memory_slot) (s : kvm_memory_slot) (hva pte : Z) :
  0 <= PAGE_SHIFT L -> 0 <= PTE_BITS L -> 0 <= PMD_BITS L ->
  0 <= PGD_BITS L ->
  PAGE_SHIFT L + PTE_BITS L + PMD_BITS L + PGD_BITS L <= wordsize ->
  memslots kvm = pre ++ s :: post ->
  Forall (slot_in_reach L) (memslots kvm) ->
  (forall s' k, In s' (pre ++ post) ->
                ~ page_meets L s' k hva (hva + PAGE_SIZE L)) ->
  userspace_addr s <= hva < userspace_addr s + npages s * PAGE_SIZE L ->
  let gfn := base_gfn s + (hva - userspace_addr s) / PAGE_SIZE L in
  let gpa := ushl gfn (PAGE_SHIFT L) in
  (gpa_lookup L (gpa_mm_pgd kvm) gpa = Some None ->
   kvm_set_spte_hva L kvm hva pte = Some (kvm, []))
  /\ (forall p old,
        gpa_lookup L (gpa_mm_pgd kvm) gpa = Some (Some (p, old)) ->
        exists pgd',
          kvm_set_spte_hva L kvm hva pte
          = Some (set_pgd kvm pgd',
                  if pte_present L old && pte_young L old
                     && (negb (pte_present L pte)
                         || negb (pte_young L pte)
                         || negb (pte_pfn L old =? pte_pfn L pte)
                         || (pte_dirty L old && negb (pte_dirty L pte)))
                  then [kvm_vz_flush_shadow_all] else [])
          /\ load pgd' p = Some pte
          /\ (is_leaf_ptr p ->
              gpa_lookup L pgd' gpa = Some (Some (p, pte))
              /\ (wf_pgd L (gpa_mm_pgd kvm) -> wf_pgd L pgd'))).
Proof.
  intros Hps Hpte Hpmd Hpgd Hbits Hslots Hreach Hoff Hhva gfn gpa.
  pose proof (page_size_pow L Hps) as HP.
  pose proof (pow2_pos (PAGE_SHIFT L) Hps) as HPpos. rewrite <- HP in HPpos.
  assert (Hs : slot_in_reach L s).
  { rewrite Hslots in Hreach. apply Forall_app in Hreach as [_ Hreach].
    now apply Forall_cons in Hreach as [Hs _]. }
  pose proof Hs as (Hbase & Hn & Hlim & Hua & Hfit).
  assert (Hend : uadd hva (PAGE_SIZE L) = hva + PAGE_SIZE L)
    by (unfold uadd; apply wrap_small; nia).
  set (k := (hva - userspace_addr s) / PAGE_SIZE L).
  assert (Hk : page_meets L s k hva (hva + PAGE_SIZE L)).
  { unfold page_meets. subst k.
    pose proof (Z.div_mod (hva - userspace_addr s) (PAGE_SIZE L) ltac:(lia)).
    pose proof (Z.mod_pos_bound (hva - userspace_addr s) (PAGE_SIZE L) HPpos).
    assert (0 <= (hva - userspace_addr s) / PAGE_SIZE L)
      by (apply Z.div_pos; lia).
    nia. }
  assert (Hrun : forall handler,
            handle_hva_to_gpa L kvm hva (uadd hva (PAGE_SIZE L)) handler
            = '(r, vm') ← handler kvm gfn
                (hva_to_gfn_memslot L
                   (usub (uadd
                      (Z.min (hva + PAGE_SIZE L)
                         (uadd (userspace_addr s)
                               (ushl (npages s) (PAGE_SHIFT L))))
                      (PAGE_SIZE L)) 1) s) s;
              Some (Z.lor 0 r, vm')).
  { intros handler. unfold handle_hva_to_gpa. rewrite Hslots, Hend.
    rewrite (for_each_memslot_only L pre post s kvm hva (hva + PAGE_SIZE L)
               handler 0 Hps Hpte Hpmd Hpgd Hbits); eauto.
    2: { now rewrite <- Hslots. }
    cbv zeta.
    destruct (hva_range_gfns L s hva (hva + PAGE_SIZE L) Hps Hpte Hpmd Hpgd
                Hbits Hs) as (Hg & _).
    { cbv zeta. pose proof (proj1 (slot_skipped_iff L s hva
                 (hva + PAGE_SIZE L) Hps Hpte Hpmd Hpgd Hbits Hs)) as Hskip.
      cbv zeta in Hskip.
      match goal with |- ?a < ?b => destruct (Z_lt_le_dec a b) as [|Hle];
        [assumption | exfalso; exact (Hskip Hle k Hk)] end. }
    cbv zeta in Hg. rewrite Hg.
    replace (Z.max hva (userspace_addr s)) with hva by lia.
    reflexivity. }
  unfold kvm_set_spte_hva. rewrite Hrun. unfold kvm_set_spte_handler.
  fold gpa. split.
  - intros Hnull. rewrite (pte_for_gpa_null L kvm gpa Hnull). reflexivity.
  - intros p old Hfind.
    destruct (pte_for_gpa_found L kvm gpa p old Hfind) as [Hwalk Hload].
    destruct (store_found L _ gpa p old pte Hfind)
      as (pgd' & Hstore & _ & Hload').
    exists pgd'. split; [|split; [exact Hload'|]].
    + rewrite Hwalk. cbn [mbind option_bind]. rewrite Hload.
      cbn [mbind option_bind]. rewrite Hstore. cbn [mbind option_bind].
      destruct (pte_present L old); cbn [negb orb andb];
        [|reflexivity].
      destruct (pte_young L old); cbn [negb orb andb]; [|reflexivity].
      cbn [mbind option_bind]. rewrite Z.lor_0_l.
      destruct (negb (pte_present L pte) || negb (pte_young L pte)
                || negb (pte_pfn L old =? pte_pfn L pte)
                || pte_dirty L old && negb (pte_dirty L pte));
        reflexivity.
    + intros Hp.
      destruct (store_leaf L _ gpa p old pte Hfind Hp)
        as (pgd2 & Hstore2 & _ & _ & Hfind2 & Hwf2 & _).
      rewrite Hstore in Hstore2. injection Hstore2 as <-.
      split; [exact Hfind2 | exact Hwf2].
Qed.

(** ** Huge mappings *)

(** X12. The huge-page test is also complete: for a power-of-two
    [map_size], a slot whose host range does not wrap and an address whose
    window stays below the top of the address space,
    [fault_supports_huge_mapping] answers true whenever the slot's
    guest-physical and host-virtual starts agree modulo [map_size] and the
    [map_size]-aligned window around [hva] lies inside the slot's host
    range. Interior blocks of an aligned slot are never refused. *)
Theorem huge_mapping_allowed_inside_aligned_slot (L : layout)
    (memslot : kvm_memory_slot) (hva k : Z) :
  0 <= PAGE_SHIFT L -> 0 <= k <= wordsize ->
  0 <= hva -> hva + 2 ^ k < modulus ->
  0 <= base_gfn memslot -> 0 <= npages memslot ->
  0 <= userspace_addr memslot ->
  userspace_addr memslot + npages memslot * PAGE_SIZE L < modulus ->
  (base_gfn memslot * PAGE_SIZE L) mod 2 ^ k
  = userspace_addr memslot mod 2 ^ k ->
  userspace_addr memslot <= hva - hva mod 2 ^ k ->
  hva - hva mod 2 ^ k + 2 ^ k
  <= userspace_addr memslot + npages memslot * PAGE_SIZE L ->
  fault_supports_huge_mapping L memslot hva (2 ^ k) = true.
Proof.
  intros Hps Hk Hhva Htop Hb Hn Hu Hfit Halign Hlo Hhi.
  pose proof (pow2_pos k ltac:(lia)) as Hk2.
  pose proof (pow2_pos (PAGE_SHIFT L) Hps) as Hp2.
  unfold fault_supports_huge_mapping.
  rewrite !land_low_mask, land_high_mask by lia.
  unfold PAGE_SIZE in *. rewrite shiftl_1 in * by lia.
  assert (Hgpa : ushl (base_gfn memslot) (PAGE_SHIFT L) mod 2 ^ k
                 = (base_gfn memslot * 2 ^ PAGE_SHIFT L) mod 2 ^ k).
  { unfold ushl, wrap. rewrite Z.shiftl_mul_pow2 by lia.
    apply Z.mod_mod_divide.
    unfold modulus. exists (2 ^ (wordsize - k)).
    rewrite <- Z.pow_add_r by lia. f_equal. lia. }
  rewrite Hgpa, Halign, Z.eqb_refl. cbn [negb].
  assert (Hsize : umul (npages memslot) (2 ^ PAGE_SHIFT L)
                  = npages memslot * 2 ^ PAGE_SHIFT L)
    by (unfold umul; apply wrap_small; nia).
  rewrite Hsize.
  assert (Hend : uadd (userspace_addr memslot)
                      (npages memslot * 2 ^ PAGE_SHIFT L)
                 = userspace_addr memslot
                   + npages memslot * 2 ^ PAGE_SHIFT L)
    by (unfold uadd; apply wrap_small; nia).
  rewrite Hend.
  pose proof (Z.mod_pos_bound hva (2 ^ k) Hk2) as Hm.
  assert (Hw : uadd (hva - hva mod 2 ^ k) (2 ^ k)
               = hva - hva mod 2 ^ k + 2 ^ k)
    by (unfold uadd; apply wrap_small; lia).
  rewrite Hw. apply andb_true_iff. split; apply Z.leb_le; assumption.
Qed.

(** X13. [transparent_hugepage_adjust] leaves frame and address alone when
    the page is not part of a transparent huge page. When it is, the call
    succeeds only if guest frame and host frame sit at the same offset in
    their blocks; the host frame that comes back is then the head of its
    block, it lies in the same block as before, and a reference is moved
    from the tail page to the head page exactly when the frame was not the
    head already. *)
Theorem thp_adjust_moves_to_the_head_page (L : layout) (thp : Z -> bool)
    (pfn gpa : Z) :
  0 <= PMD_BITS L <= wordsize -> 0 <= pfn < modulus ->
  let mask := PTRS_PER_PMD L - 1 in
  let gfn := ushr gpa (PAGE_SHIFT L) in
  (thp pfn = false ->
   transparent_hugepage_adjust L thp pfn gpa = Some (false, pfn, gpa, []))
  /\ (thp pfn = true -> Z.land gfn mask <> Z.land pfn mask ->
      transparent_hugepage_adjust L thp pfn gpa = None)
  /\ (thp pfn = true -> Z.land gfn mask = Z.land pfn mask ->
      exists pfn' gpa' evs,
        transparent_hugepage_adjust L thp pfn gpa
        = Some (true, pfn', gpa', evs)
        /\ pfn' = pfn - pfn mod PTRS_PER_PMD L
        /\ Z.land pfn' mask = 0
        /\ (pfn' = pfn -> gpa' = gpa /\ evs = [])
        /\ (pfn' <> pfn ->
            gpa' = Z.land gpa (PMD_MASK L)
            /\ evs = [kvm_release_pfn_clean pfn; kvm_get_pfn pfn'])).
Proof.
  intros [Hbits Hword] Hpfn mask gfn.
  pose proof (pow2_pos (PMD_BITS L) Hbits) as Hpos.
  assert (Hmask : forall x, Z.land x mask = x mod 2 ^ PMD_BITS L)
    by (intros; apply land_ptrs_mask, Hbits).
  assert (HM : PTRS_PER_PMD L = 2 ^ PMD_BITS L) by (apply shiftl_1, Hbits).
  unfold transparent_hugepage_adjust. fold gfn mask.
  split; [intros ->; reflexivity|]. split.
  - intros -> Hne. destruct (Z.eqb_spec (Z.land gfn mask) (Z.land pfn mask));
      [contradiction | reflexivity].
  - intros -> Heq. rewrite Heq, Z.eqb_refl. cbn [negb].
    pose proof (Z.mod_pos_bound pfn (2 ^ PMD_BITS L) Hpos) as Hmod.
    pose proof (Z.div_mod pfn (2 ^ PMD_BITS L) ltac:(lia)) as Hdm.
    destruct (Z.eqb_spec (Z.land pfn mask) 0) as [H0|Hn0]; cbn [negb].
    + exists pfn, gpa, []. rewrite Hmask in H0. rewrite HM, Hmask.
      split; [reflexivity|]. split; [lia|]. split; [exact H0|].
      split; [auto | intros []; reflexivity].
    + assert (Hhead : Z.land pfn (unot mask) = pfn - pfn mod 2 ^ PMD_BITS L).
      { subst mask. rewrite HM.
        replace (2 ^ PMD_BITS L - 1) with (usub (2 ^ PMD_BITS L) 1).
        - apply land_high_mask; lia.
        - unfold usub. apply wrap_small.
          pose proof (pow2_le_modulus (PMD_BITS L) ltac:(lia)). lia. }
      eexists _, _, _. split; [reflexivity|].
      rewrite Hhead, HM, Hmask. rewrite Hmask in Hn0.
      split; [reflexivity|]. split.
      { replace (pfn - pfn mod 2 ^ PMD_BITS L)
          with (pfn / 2 ^ PMD_BITS L * 2 ^ PMD_BITS L) by lia.
        apply Z.mod_mul. lia. }
      split; [intros; lia | auto].
Qed.

(** Flushing the block of [addr] when its middle-level slot points to a
    leaf table unlinks the table: the slot is left clear, in the same
    middle-level table position. *)
Lemma flush_block_clears_slot (L : layout) (kvm : vz_vm) (addr : Z)
    (pmds : list pmd_t) (pte : list Z) :
  0 <= PAGE_SHIFT L -> 0 <= PTE_BITS L -> 0 < PMD_BITS L ->
  0 <= PGD_BITS L ->
  PAGE_SHIFT L + PTE_BITS L + PMD_BITS L + PGD_BITS L <= wordsize ->
  pmdv_huge L (invalid_pte_table L) = false ->
  wf_pgd L (gpa_mm_pgd kvm) ->
  0 <= addr < modulus ->
  let gi := pgd_index L addr in
  let mi := __pmd_offset L addr in
  let block := Z.land addr (PMD_MASK L) in
  let start_gfn := ushr block (PAGE_SHIFT L) in
  let end_gfn := ushr (usub (uadd block (PMD_SIZE L)) 1) (PAGE_SHIFT L) in
  gpa_mm_pgd kvm !! idx gi = Some (Pud_table pmds) ->
  pmds !! idx mi = Some (Pmd_table pte) ->
  exists r pgd1 pmds',
    kvm_mips_flush_gpa_pt L kvm start_gfn end_gfn
    = Some (r, set_pgd kvm pgd1)
    /\ wf_pgd L pgd1
    /\ pgd1 !! idx gi = Some (Pud_table pmds')
    /\ pmds' !! idx mi = Some (pmd_cleared L).
Proof.
  intros Hps Hpte Hpmd Hpgd Hbits Hinv Hwf Haddr gi mi block start_gfn
         end_gfn Hpud Hslot.
  destruct (pmd_block_range L addr Hps Hpte ltac:(lia) Hpgd Hbits Haddr)
    as (Hg1 & Hg2 & Hm1 & Hm2 & Ht1 & Ht2).
  fold block in Hg1, Hg2, Hm1, Hm2, Ht1, Ht2.
  fold start_gfn in Hg1, Hm1, Ht1. fold end_gfn in Hg2, Hm2, Ht2.
  fold gi in Hg1, Hg2. fold mi in Hm1, Hm2.
  set (start_gpa := ushl start_gfn (PAGE_SHIFT L)) in *.
  set (end_gpa := ushl end_gfn (PAGE_SHIFT L)) in *.
  pose proof (pgd_index_range L addr Hpgd) as Hgi. fold gi in Hgi.
  pose proof (pmd_offset_range L addr ltac:(lia)) as Hmi. fold mi in Hmi.
  destruct (flush_pgd_total L (gpa_mm_pgd kvm) start_gpa end_gpa Hpte
              ltac:(lia) Hpgd Hwf) as [[r pgd1] Hrun].
  destruct (flush_pgd_child L _ start_gpa end_gpa r pgd1 gi pmds Hpgd Hrun
              ltac:(rewrite Hg1, Hg2; lia) Hpud)
    as (rem & pmds' & Hpmd' & Hnew1 & _).
  rewrite Hg1, Hg2 in Hpmd'. unfold slot_start, slot_end in Hpmd'.
  rewrite Z.eqb_refl in Hpmd'.
  assert (rem = false) as ->.
  { destruct rem; [|reflexivity].
    apply flush_pmd_char in Hpmd'; [|lia].
    apply slotwise_safe in Hpmd'. rewrite Hm1, Hm2 in Hpmd'.
    assert (2 <= PTRS_PER_PMD L).
    { unfold PTRS_PER_PMD. rewrite shiftl_1 by lia.
      change 2 with (2 ^ 1). apply Z.pow_le_mono_r; lia. }
    lia. }
  destruct (flush_pmd_child L pmds start_gpa end_gpa false pmds' mi pte
              ltac:(lia) Hpmd' ltac:(rewrite Hm1, Hm2; lia) Hslot)
    as (rem' & pte' & Hpte' & Hnew2 & _).
  rewrite Hm1, Hm2 in Hpte'. unfold slot_start, slot_end in Hpte'.
  rewrite Z.eqb_refl in Hpte'.
  assert (rem' = true) as ->.
  { apply flush_pte_char in Hpte' as (-> & _); [|exact Hpte].
    rewrite Ht1, Ht2, !Z.eqb_refl. reflexivity. }
  exists r, pgd1, pmds'.
  split; [unfold kvm_mips_flush_gpa_pt; fold start_gpa end_gpa;
          now rewrite Hrun|].
  split; [|split; [exact Hnew1 | exact Hnew2]].
  exact (proj1 (flush_pgd_mono L _ _ _ _ _ 0 Hpte ltac:(lia) Hpgd Hinv Hwf
                  Hrun)).
Qed.

Lemma quiet_nil : quiet [].
Proof. constructor. Qed.

Lemma quiet_cons e evs : is_pmd_set e = false -> quiet evs -> quiet (e :: evs).
Proof. intros. now constructor. Qed.

(** Storing a huge word in a middle-level slot: the walk for the address
    ends at that slot. *)
Lemma lookup_after_set_pmd L pgd addr pmds old v :
  pgd !! idx (pgd_index L addr) = Some (Pud_table pmds) ->
  pmds !! idx (__pmd_offset L addr) = Some old ->
  wf_pgd L pgd -> pmdv_huge L v = true ->
  let pgd' := <[idx (pgd_index L addr) :=
                  Pud_table (<[idx (__pmd_offset L addr) := Pmd_val v]> pmds)]>
                pgd in
  load_pmd pgd' (pgd_index L addr, __pmd_offset L addr) = Some (Pmd_val v)
  /\ gpa_lookup L pgd' addr
     = Some (Some (At_pmd (pgd_index L addr) (__pmd_offset L addr), v))
  /\ wf_pgd L pgd'.
Proof.
  intros Hpud He Hwf Hv pgd'.
  assert (Hgi : (idx (pgd_index L addr) < length pgd)%nat)
    by (eapply lookup_lt_Some, Hpud).
  assert (Hmi : (idx (__pmd_offset L addr) < length pmds)%nat)
    by (eapply lookup_lt_Some, He).
  assert (Hpud' : pgd' !! idx (pgd_index L addr)
                  = Some (Pud_table (<[idx (__pmd_offset L addr) := Pmd_val v]>
                                       pmds)))
    by (now apply list_lookup_insert_eq).
  assert (He' : <[idx (__pmd_offset L addr) := Pmd_val v]> pmds
                !! idx (__pmd_offset L addr) = Some (Pmd_val v))
    by (now apply list_lookup_insert_eq).
  split; [now rewrite (load_pmd_at _ _ _ _ Hpud')|]. split.
  - rewrite gpa_lookup_unfold, Hpud'. cbn [mbind option_bind pud_lookup].
    rewrite He'. cbn [mbind option_bind pmd_lookup]. now rewrite Hv.
  - destruct Hwf as [Hlen Hall]. apply wf_pgd_insert; [now split|].
    rewrite Forall_lookup in Hall.
    apply wf_pud_insert; [exact (Hall _ _ Hpud)|]. cbn. auto.
Qed.

(** One pass over a middle-level slot that holds a word. *)
Lemma set_pmd_huge_over_word (L : layout) (fuel : nat) (kvm : vz_vm)
    (cache : option kvm_mmu_memory_cache) (addr new_pmd : Z)
    (pmds : list pmd_t) (v : Z) :
  wf_pgd L (gpa_mm_pgd kvm) -> pmdv_huge L new_pmd = true ->
  let gi := pgd_index L addr in
  let mi := __pmd_offset L addr in
  gpa_mm_pgd kvm !! idx gi = Some (Pud_table pmds) ->
  pmds !! idx mi = Some (Pmd_val v) ->
  exists evs,
    kvm_mips_set_pmd_huge L (S fuel) kvm cache addr new_pmd
    = Some (0,
            set_pgd kvm
              (<[idx gi := Pud_table (<[idx mi := Pmd_val new_pmd]> pmds)]>
                 (gpa_mm_pgd kvm)),
            cache, evs)
    /\ (v = new_pmd -> evs = [])
    /\ (v <> new_pmd ->
        exists pre,
          evs = pre ++ [kvm_vz_host_tlb_inv (Z.land addr (PMD_MASK L));
                        pmd_set_at addr new_pmd]
          /\ quiet pre).
Proof.
  intros Hwf Hnew gi mi Hpud Hslot.
  assert (Hlen_g : (idx gi < length (gpa_mm_pgd kvm))%nat)
    by (apply lookup_lt_Some in Hpud; exact Hpud).
  assert (Hlen_m : (idx mi < length pmds)%nat)
    by (apply lookup_lt_Some in Hslot; exact Hslot).
  cbn [kvm_mips_set_pmd_huge].
  rewrite (get_pmd_present L kvm cache addr pmds Hpud).
  cbn [mbind option_bind]. fold gi mi.
  rewrite (load_pmd_at _ gi mi pmds Hpud), Hslot.
  cbn [mbind option_bind pmd_val_eq pmd_present pmd_huge pmd_pfn_of].
  destruct (Z.eqb_spec v new_pmd) as [->|Hne].
  { exists []. rewrite (list_insert_id pmds) by exact Hslot.
    rewrite list_insert_id by exact Hpud. rewrite set_pgd_same.
    split; [reflexivity|]. split; [reflexivity | congruence]. }
  destruct (pmdv_present L v) eqn:Hpres.
  - assert (Hhuge : pmdv_huge L v = true).
    { destruct Hwf as [_ Hall]. rewrite Forall_lookup in Hall.
      destruct (Hall _ _ Hpud) as [_ Hall']. rewrite Forall_lookup in Hall'.
      exact (Hall' _ _ Hslot Hpres). }
    rewrite Hhuge. cbn [negb mbind option_bind].
    rewrite (store_pmd_at _ gi mi pmds _ _ Hpud Hslot).
    cbn [mbind option_bind].
    rewrite (store_pmd_at _ gi mi (<[idx mi := pmd_cleared L]> pmds)
               (pmd_cleared L));
      [| now rewrite list_lookup_insert_eq
       | now rewrite list_lookup_insert_eq ].
    cbn [mbind option_bind]. rewrite !list_insert_insert_eq.
    eexists. split; [reflexivity|]. split; [congruence|]. intros _.
    exists ((if negb (pmd_pfn L v =? pmd_pfn L new_pmd)
             then [WARN_ON_ONCE] else []) ++ [pmd_cleared_at addr]).
    split; [now rewrite <- app_assoc|].
    destruct (negb _); repeat (apply quiet_cons; [reflexivity|]);
      apply quiet_nil.
  - rewrite (store_pmd_at _ gi mi pmds _ _ Hpud Hslot).
    cbn [mbind option_bind].
    eexists. split; [reflexivity|]. split; [congruence|]. intros _.
    exists []. split; [reflexivity | apply quiet_nil].
Qed.

(** The outcome of installing a huge entry, in full. *)
Lemma set_pmd_huge_spec (L : layout) (kvm : vz_vm)
    (mc : kvm_mmu_memory_cache) (addr new_pmd : Z) (fuel : nat) :
  0 <= PAGE_SHIFT L -> 0 <= PTE_BITS L -> 0 < PMD_BITS L ->
  0 <= PGD_BITS L ->
  PAGE_SHIFT L + PTE_BITS L + PMD_BITS L + PGD_BITS L <= wordsize ->
  pmdv_huge L (invalid_pte_table L) = false ->
  wf_pgd L (gpa_mm_pgd kvm) ->
  0 <= addr < modulus ->
  pmdv_huge L new_pmd = true -> 1 <= nobjs mc ->
  let gi := pgd_index L addr in
  let mi := __pmd_offset L addr in
  exists kvm' mc' evs,
    kvm_mips_set_pmd_huge L (S (S fuel)) kvm (Some mc) addr new_pmd
    = Some (0, kvm', Some mc', evs)
    /\ load_pmd (gpa_mm_pgd kvm') (gi, mi) = Some (Pmd_val new_pmd)
    /\ gpa_lookup L (gpa_mm_pgd kvm') addr
       = Some (Some (At_pmd gi mi, new_pmd))
    /\ wf_pgd L (gpa_mm_pgd kvm')
    /\ memslots kvm' = memslots kvm
    /\ nobjs mc - 1 <= nobjs mc' <= nobjs mc
    /\ (evs = []
        \/ exists pre,
             evs = pre ++ [kvm_vz_host_tlb_inv (Z.land addr (PMD_MASK L));
                           pmd_set_at addr new_pmd]
             /\ quiet pre)
    /\ (evs = [] <->
        load_pmd (gpa_mm_pgd kvm) (gi, mi) = Some (Pmd_val new_pmd)).
Proof.
  intros Hps Hpte Hpmd Hpgd Hbits Hinv Hwf Haddr Hnew Hn gi mi.
  assert (Hne : invalid_pte_table L <> new_pmd) by congruence.
  pose proof (pmd_offset_range L addr ltac:(lia)) as Hmi. fold mi in Hmi.
  destruct (wf_pgd_lookup L _ addr Hpgd Hwf) as (pud & Hpud & Hwpud).
  fold gi in Hpud.
  (* the outcome of a pass over a slot that holds a word *)
  assert (Hword : forall f vm cache pmds v,
    wf_pgd L (gpa_mm_pgd vm) ->
    gpa_mm_pgd vm !! idx gi = Some (Pud_table pmds) ->
    pmds !! idx mi = Some (Pmd_val v) ->
    exists vm' evs,
      kvm_mips_set_pmd_huge L (S f) vm cache addr new_pmd
      = Some (0, vm', cache, evs)
      /\ load_pmd (gpa_mm_pgd vm') (gi, mi) = Some (Pmd_val new_pmd)
      /\ gpa_lookup L (gpa_mm_pgd vm') addr
         = Some (Some (At_pmd gi mi, new_pmd))
      /\ wf_pgd L (gpa_mm_pgd vm')
      /\ memslots vm' = memslots vm
      /\ (v = new_pmd -> evs = [])
      /\ (v <> new_pmd ->
          exists pre,
            evs = pre ++ [kvm_vz_host_tlb_inv (Z.land addr (PMD_MASK L));
                          pmd_set_at addr new_pmd]
            /\ quiet pre)).
  { intros f vm cache pmds v Hwfv Hp Hs.
    destruct (set_pmd_huge_over_word L f vm cache addr new_pmd pmds v Hwfv
                Hnew Hp Hs) as (evs & Hrun & Hsame & Hdiff).
    destruct (lookup_after_set_pmd L _ addr pmds _ new_pmd Hp Hs Hwfv Hnew)
      as (Hload & Hfind & Hwf').
    eexists _, evs. split; [exact Hrun|]. cbn [gpa_mm_pgd set_pgd memslots].
    auto 10. }
  destruct pud as [|pmds].
  - (* no middle-level table: one is taken from the pool *)
    set (pgd1 := <[idx gi := Pud_table (pmd_init L)]> (gpa_mm_pgd kvm)).
    assert (Hlen_g : (idx gi < length (gpa_mm_pgd kvm))%nat)
      by (apply lookup_lt_Some in Hpud; exact Hpud).
    assert (Hpud1 : pgd1 !! idx gi = Some (Pud_table (pmd_init L)))
      by (now apply list_lookup_insert_eq).
    assert (Hslot1 : pmd_init L !! idx mi
                     = Some (Pmd_val (invalid_pte_table L)))
      by (apply lookup_pmd_init; lia).
    assert (Hwf1 : wf_pgd L pgd1)
      by (apply wf_pgd_insert; [exact Hwf | apply wf_pmd_init]).
    destruct (lookup_after_set_pmd L pgd1 addr (pmd_init L) _ new_pmd Hpud1
                Hslot1 Hwf1 Hnew) as (Hload & Hfind & Hwf').
    fold gi mi in Hload, Hfind, Hwf'.
    eexists _, _, _. split.
    { cbn [kvm_mips_set_pmd_huge].
      unfold kvm_mips_get_pmd, kvm_mips_get_pud. fold gi mi. rewrite Hpud.
      cbn [mbind option_bind pgd_none pud_huge pud_none].
      rewrite Hpud. cbn [mbind option_bind pud_huge pud_none].
      rewrite alloc_some by lia. cbn [mbind option_bind]. fold pgd1.
      cbn [gpa_mm_pgd set_pgd].
      rewrite (load_pmd_at _ gi mi _ Hpud1), Hslot1.
      cbn [mbind option_bind pmd_val_eq pmd_present].
      destruct (Z.eqb_spec (invalid_pte_table L) new_pmd); [congruence|].
      unfold pmdv_present. rewrite Hinv, Z.eqb_refl. cbn [negb].
      rewrite (store_pmd_at _ gi mi _ _ _ Hpud1 Hslot1).
      cbn [mbind option_bind]. reflexivity. }
    cbn [gpa_mm_pgd set_pgd memslots nobjs].
    split; [exact Hload|]. split; [exact Hfind|]. split; [exact Hwf'|].
    split; [reflexivity|]. split; [lia|]. split.
    + right. exists []. split; [reflexivity | apply quiet_nil].
    + split; [discriminate|].
      unfold load_pmd. cbn [fst snd]. rewrite Hpud. discriminate.
  - destruct (wf_pud_lookup L pmds addr ltac:(lia) Hwpud) as (e & He & Hwe).
    fold mi in He.
    assert (Hbefore : load_pmd (gpa_mm_pgd kvm) (gi, mi) = Some e)
      by (now rewrite (load_pmd_at _ gi mi pmds Hpud)).
    destruct e as [v|pte].
    + (* the slot holds a word *)
      destruct (Hword (S fuel) kvm (Some mc) pmds v Hwf Hpud He)
        as (vm' & evs & Hrun & Hload & Hfind & Hwf' & Hms & Hsame & Hdiff).
      exists vm', mc, evs. split; [exact Hrun|].
      split; [exact Hload|]. split; [exact Hfind|]. split; [exact Hwf'|].
      split; [exact Hms|]. split; [lia|].
      rewrite Hbefore.
      destruct (Z.eq_dec v new_pmd) as [Heq|Hdif].
      * rewrite (Hsame Heq), Heq. split; [now left | tauto].
      * destruct (Hdiff Hdif) as (pre & -> & Hq).
        split; [right; now exists pre|].
        split; [|congruence]. intros Hnil.
        now apply app_eq_nil in Hnil as [_ ?].
    + (* the slot points to a leaf table: flush the block and retry *)
      destruct (flush_block_clears_slot L kvm addr pmds pte Hps Hpte Hpmd Hpgd
                  Hbits Hinv Hwf Haddr Hpud He)
        as (r & pgd1 & pmds' & Hflush & Hwf1 & Hpud1 & Hslot1).
      fold gi mi in Hpud1, Hslot1.
      destruct (Hword fuel (set_pgd kvm pgd1) (Some mc) pmds'
                  (invalid_pte_table L) Hwf1 Hpud1 Hslot1)
        as (vm' & evs & Hrun & Hload & Hfind & Hwf' & Hms & _ & Hdiff).
      destruct (Hdiff Hne) as (pre & -> & Hq).
      eexists vm', mc, _. split.
      { cbn [kvm_mips_set_pmd_huge].
        rewrite (get_pmd_present L kvm (Some mc) addr pmds Hpud).
        cbn [mbind option_bind]. fold gi mi.
        rewrite (load_pmd_at _ gi mi pmds Hpud), He.
        cbn [mbind option_bind pmd_val_eq pmd_present pmd_huge negb].
        rewrite Hflush. cbn [mbind option_bind].
        cbn [kvm_mips_set_pmd_huge] in Hrun. rewrite Hrun.
        cbn [mbind option_bind]. reflexivity. }
      split; [exact Hload|]. split; [exact Hfind|]. split; [exact Hwf'|].
      split; [exact Hms|]. split; [lia|]. rewrite Hbefore. split.
      * right. eexists (_ :: pre). split; [reflexivity|].
        apply quiet_cons; [reflexivity | exact Hq].
      * split; discriminate.
Qed.

(** X14. [kvm_mips_set_pmd_huge] always ends with the huge entry in place.
    On a well-formed page directory, with one node in the pool for a
    missing middle-level table, two passes are enough: the call returns 0,
    the middle-level slot of the address holds the new entry, the walk for
    the address ends at that entry, and the directory stays well formed.
    The slot is never written without the hardware mapping of the block
    being invalidated just before: the log is empty when the entry was
    already there, and otherwise ends with the invalidation followed by
    the one store. *)
Theorem set_pmd_huge_installs_the_entry (L : layout) (kvm : vz_vm)
    (mc : kvm_mmu_memory_cache) (addr new_pmd : Z) (fuel : nat) :
  0 <= PAGE_SHIFT L -> 0 <= PTE_BITS L -> 0 < PMD_BITS L ->
  0 <= PGD_BITS L ->
  PAGE_SHIFT L + PTE_BITS L + PMD_BITS L + PGD_BITS L <= wordsize ->
  pmdv_huge L (invalid_pte_table L) = false ->
  wf_pgd L (gpa_mm_pgd kvm) ->
  0 <= addr < modulus ->
  pmdv_huge L new_pmd = true -> 1 <= nobjs mc ->
  let gi := pgd_index L addr in
  let mi := __pmd_offset L addr in
  exists kvm' mc' evs,
    kvm_mips_set_pmd_huge L (S (S fuel)) kvm (Some mc) addr new_pmd
    = Some (0, kvm', Some mc', evs)
    /\ load_pmd (gpa_mm_pgd kvm') (gi, mi) = Some (Pmd_val new_pmd)
    /\ gpa_lookup L (gpa_mm_pgd kvm') addr
       = Some (Some (At_pmd gi mi, new_pmd))
    /\ wf_pgd L (gpa_mm_pgd kvm')
    /\ memslots kvm' = memslots kvm
    /\ nobjs mc - 1 <= nobjs mc' <= nobjs mc
    /\ (evs = []
        \/ exists pre,
             evs = pre ++ [kvm_vz_host_tlb_inv (Z.land addr (PMD_MASK L));
                           pmd_set_at addr new_pmd]
             /\ quiet pre)
    /\ (evs = [] <->
        load_pmd (gpa_mm_pgd kvm) (gi, mi) = Some (Pmd_val new_pmd)).
Proof.
  intros Hps Hpte Hpmd Hpgd Hbits Hinv Hwf Haddr Hnew Hn gi mi.
  destruct (set_pmd_huge_spec L kvm mc addr new_pmd fuel Hps Hpte Hpmd Hpgd
              Hbits Hinv Hwf Haddr Hnew Hn) as (kvm' & mc' & evs & Hspec).
  now exists kvm', mc', evs.
Qed.

(** ** Address translation of the dune process, below the stack window *)

Lemma wrap_sub_l a b : wrap (wrap a - b) = wrap (a - b).
Proof. unfold wrap. apply Zminus_mod_idemp_l. Qed.

Lemma wrap_add_l a b : wrap (wrap a + b) = wrap (a + b).
Proof. unfold wrap. apply Zplus_mod_idemp_l. Qed.

Lemma wrap_add_r a b : wrap (a + wrap b) = wrap (a + b).
Proof. unfold wrap. apply Zplus_mod_idemp_r. Qed.

(** X15. Below the stack window the two translations are inverse to each
    other, the stub [get_pabit] notwithstanding: for every host address
    under the start of the stack window that [dune_hva_to_gpa] maps to a
    valid guest address, be it in the mmap window or identity mapped,
    [dune_gpa_to_hva] maps that guest address back to the host address. *)
Theorem dune_round_trip_below_the_stack
    (GPA_STACK_SIZE GPA_MAP_SIZE : Z) (LG_ALIGN : Z -> Z) (mm : mm_struct)
    (hva : Z) :
  2 < GPA_STACK_SIZE -> 0 <= GPA_MAP_SIZE ->
  GPA_STACK_SIZE + GPA_MAP_SIZE < modulus ->
  0 <= hva < modulus ->
  hva < usub (LG_ALIGN (start_stack mm)) GPA_STACK_SIZE ->
  dune_hva_to_gpa GPA_STACK_SIZE GPA_MAP_SIZE LG_ALIGN mm hva <> ADDR_INVAL ->
  dune_gpa_to_hva GPA_STACK_SIZE GPA_MAP_SIZE LG_ALIGN mm
    (dune_hva_to_gpa GPA_STACK_SIZE GPA_MAP_SIZE LG_ALIGN mm hva)
  = hva.
Proof.
  intros Hs Hm Hfit Hhva Hbelow Hvalid.
  assert (Hmod : modulus = 18446744073709551616) by reflexivity.
  set (low := modulus + 2 - GPA_STACK_SIZE - GPA_MAP_SIZE).
  assert (Hend : ushl 1 get_pabit = 2) by reflexivity.
  assert (H1 : usub 2 GPA_STACK_SIZE = modulus + 2 - GPA_STACK_SIZE)
    by (unfold usub; rewrite wrap_neg by lia; lia).
  assert (H2 : usub (usub 2 GPA_STACK_SIZE) GPA_MAP_SIZE = low)
    by (rewrite H1; unfold usub; apply wrap_small; lia).
  unfold dune_hva_to_gpa in *. rewrite Hend, H2 in *.
  set (stack_start := usub (LG_ALIGN (start_stack mm)) GPA_STACK_SIZE) in *.
  set (mmap_start := usub (LG_ALIGN (mmap_base mm)) GPA_MAP_SIZE) in *.
  destruct (Z.leb_spec stack_start hva) as [?|_]; [lia|].
  destruct (Z.leb_spec mmap_start hva) as [Hin|Hout].
  - (* the mmap window *)
    pose proof (wrap_range (LG_ALIGN (mmap_base mm) - GPA_MAP_SIZE)) as Hms.
    fold (usub (LG_ALIGN (mmap_base mm)) GPA_MAP_SIZE) in Hms.
    fold mmap_start in Hms.
    assert (Hoff : usub hva mmap_start = hva - mmap_start)
      by (unfold usub; apply wrap_small; lia).
    rewrite Hoff in *.
    destruct (Z.leb_spec GPA_MAP_SIZE (hva - mmap_start)) as [?|Hlt];
      [congruence|].
    assert (Hgpa : usub (usub (uadd (hva - mmap_start) 2) GPA_STACK_SIZE)
                        GPA_MAP_SIZE
                   = low + (hva - mmap_start)).
    { unfold usub, uadd. rewrite (wrap_small (hva - mmap_start + 2)) by lia.
      rewrite wrap_sub_l, wrap_neg by lia. unfold low. lia. }
    rewrite Hgpa. unfold dune_gpa_to_hva. rewrite Hend, H2, H1.
    destruct (Z.ltb_spec (low + (hva - mmap_start)) low) as [?|_]; [lia|].
    destruct (Z.ltb_spec (low + (hva - mmap_start))
                         (modulus + 2 - GPA_STACK_SIZE)) as [_|?];
      [|unfold low in *; lia].
    unfold usub, uadd. rewrite (wrap_small (low + (hva - mmap_start) - low))
      by lia.
    rewrite wrap_sub_l.
    replace (low + (hva - mmap_start) - low + LG_ALIGN (mmap_base mm)
             - GPA_MAP_SIZE)
      with ((hva - mmap_start)
            + (LG_ALIGN (mmap_base mm) - GPA_MAP_SIZE)) by lia.
    rewrite <- wrap_add_r.
    fold (usub (LG_ALIGN (mmap_base mm)) GPA_MAP_SIZE). fold mmap_start.
    replace (hva - mmap_start + mmap_start) with hva by lia.
    apply wrap_small. lia.
  - (* identity mapped *)
    destruct (Z.leb_spec low hva) as [?|Hlt]; [congruence|].
    unfold dune_gpa_to_hva. rewrite Hend, H2.
    destruct (Z.ltb_spec hva low); [reflexivity | lia].
Qed.

(** ** Entry bits *)

Lemma flag_lor_l m x y : flag m x = true -> flag m (Z.lor x y) = true.
Proof.
  unfold flag. rewrite !negb_true_iff, !Z.eqb_neq.
  intros Hx Hz. apply Hx. rewrite Z.land_lor_distr_l in Hz.
  now apply Z.lor_eq_0_iff in Hz as [? _].
Qed.

Lemma flag_lor_same m x : m <> 0 -> flag m (Z.lor x m) = true.
Proof.
  unfold flag. rewrite negb_true_iff, Z.eqb_neq.
  intros Hm Hz. apply Hm. rewrite Z.land_lor_distr_l, Z.land_diag in Hz.
  now apply Z.lor_eq_0_iff in Hz as [_ ?].
Qed.

Lemma flag_lor_disjoint m x y :
  Z.land y m = 0 -> flag m (Z.lor x y) = flag m x.
Proof.
  unfold flag. intros Hy. now rewrite Z.land_lor_distr_l, Hy, Z.lor_0_r.
Qed.

Section EntryBits.
Variable L : layout.

Lemma mkyoung_young x :
  _PAGE_ACCESSED L <> 0 -> pte_young L (pte_mkyoung L x) = true.
Proof.
  intros Ha. unfold pte_young, pte_mkyoung.
  destruct (negb _); [apply flag_lor_l|]; now apply flag_lor_same.
Qed.

Lemma mkyoung_keeps m x :
  flag m x = true -> flag m (pte_mkyoung L x) = true.
Proof.
  intros Hx. unfold pte_mkyoung.
  destruct (negb _); repeat apply flag_lor_l; exact Hx.
Qed.

Lemma mkyoung_same m x :
  Z.land (_PAGE_ACCESSED L) m = 0 -> Z.land (_PAGE_SILENT_READ L) m = 0 ->
  flag m (pte_mkyoung L x) = flag m x.
Proof.
  intros Ha Hs. unfold pte_mkyoung.
  destruct (negb _); now rewrite ?flag_lor_disjoint by assumption.
Qed.

Lemma mkdirty_dirty x :
  _PAGE_MODIFIED L <> 0 -> pte_dirty L (pte_mkdirty L x) = true.
Proof.
  intros Hm. unfold pte_dirty, pte_mkdirty. cbv zeta.
  destruct (flag (_PAGE_WRITE L) _); [apply flag_lor_l|];
    now apply flag_lor_same.
Qed.

Lemma mkdirty_keeps m x :
  flag m x = true -> flag m (pte_mkdirty L x) = true.
Proof.
  intros Hx. unfold pte_mkdirty. cbv zeta.
  destruct (flag (_PAGE_WRITE L) _); repeat apply flag_lor_l; exact Hx.
Qed.
End EntryBits.

(** ** Loads and stores through one pointer *)

Lemma load_store_eq pgd p v pgd' :
  store pgd p v = Some pgd' -> load pgd' p = Some v.
Proof.
  destruct p as [gi mi ti|gi mi]; cbn [store load]; intros H.
  - destruct (pgd !! idx gi) as [pud|] eqn:Hpud; [|discriminate].
    cbn [mbind option_bind] in H.
    destruct pud as [|pmds]; [discriminate|].
    cbn [pmd_table_of mbind option_bind] in H.
    destruct (pmds !! idx mi) as [e|] eqn:He; [|discriminate].
    cbn [mbind option_bind] in H. destruct e as [w|pte]; [discriminate|].
    cbn [pte_table_of mbind option_bind] in H.
    destruct (pte !! idx ti) as [x|] eqn:Hx; [|discriminate].
    cbn [mbind option_bind] in H. simplify_eq.
    rewrite list_lookup_insert_eq by (eapply lookup_lt_Some, Hpud).
    cbn [mbind option_bind pmd_table_of].
    rewrite list_lookup_insert_eq by (eapply lookup_lt_Some, He).
    cbn [mbind option_bind pte_table_of].
    apply list_lookup_insert_eq. eapply lookup_lt_Some, Hx.
  - destruct (pgd !! idx gi) as [pud|] eqn:Hpud; [|discriminate].
    cbn [mbind option_bind] in H.
    destruct pud as [|pmds]; [discriminate|].
    cbn [pmd_table_of mbind option_bind] in H.
    destruct (pmds !! idx mi) as [e|] eqn:He; [|discriminate].
    cbn [mbind option_bind] in H. simplify_eq.
    rewrite list_lookup_insert_eq by (eapply lookup_lt_Some, Hpud).
    cbn [mbind option_bind pmd_table_of].
    rewrite list_lookup_insert_eq by (eapply lookup_lt_Some, He).
    reflexivity.
Qed.

Lemma store_twice pgd p v w pgd' :
  store pgd p v = Some pgd' -> load pgd p <> None ->
  store pgd' p w = store pgd p w.
Proof.
  destruct p as [gi mi ti|gi mi]; cbn [store load]; intros H Hload.
  - destruct (pgd !! idx gi) as [pud|] eqn:Hpud; [|discriminate].
    cbn [mbind option_bind] in *.
    destruct pud as [|pmds]; [discriminate|].
    cbn [pmd_table_of mbind option_bind] in *.
    destruct (pmds !! idx mi) as [e|] eqn:He; [|discriminate].
    cbn [mbind option_bind] in *. destruct e as [u|pte]; [discriminate|].
    cbn [pte_table_of mbind option_bind] in *.
    destruct (pte !! idx ti) as [x|] eqn:Hx; [|discriminate].
    cbn [mbind option_bind] in *. simplify_eq.
    rewrite list_lookup_insert_eq by (eapply lookup_lt_Some, Hpud).
    cbn [mbind option_bind pmd_table_of].
    rewrite list_lookup_insert_eq by (eapply lookup_lt_Some, He).
    cbn [mbind option_bind pte_table_of].
    rewrite list_lookup_insert_eq by (eapply lookup_lt_Some, Hx).
    cbn [mbind option_bind].
    now rewrite !list_insert_insert_eq.
  - destruct (pgd !! idx gi) as [pud|] eqn:Hpud; [|discriminate].
    cbn [mbind option_bind] in *.
    destruct pud as [|pmds]; [discriminate|].
    cbn [pmd_table_of mbind option_bind] in *.
    destruct (pmds !! idx mi) as [e|] eqn:He; [|discriminate].
    cbn [mbind option_bind] in *. destruct e as [u|pte]; [|congruence].
    simplify_eq.
    rewrite list_lookup_insert_eq by (eapply lookup_lt_Some, Hpud).
    cbn [mbind option_bind pmd_table_of].
    rewrite list_lookup_insert_eq by (eapply lookup_lt_Some, He).
    cbn [mbind option_bind].
    now rewrite !list_insert_insert_eq.
Qed.

Lemma store_same pgd p v : load pgd p = Some v -> store pgd p v = Some pgd.
Proof.
  destruct p as [gi mi ti|gi mi]; cbn [store load]; intros H.
  - destruct (pgd !! idx gi) as [pud|] eqn:Hpud; [|discriminate].
    cbn [mbind option_bind] in *.
    destruct pud as [|pmds]; [discriminate|].
    cbn [pmd_table_of mbind option_bind] in *.
    destruct (pmds !! idx mi) as [e|] eqn:He; [|discriminate].
    cbn [mbind option_bind] in *. destruct e as [u|pte]; [discriminate|].
    cbn [pte_table_of mbind option_bind] in *. rewrite H.
    cbn [mbind option_bind].
    rewrite (list_insert_id pte) by exact H.
    rewrite (list_insert_id pmds) by exact He.
    now rewrite list_insert_id by exact Hpud.
  - destruct (pgd !! idx gi) as [pud|] eqn:Hpud; [|discriminate].
    cbn [mbind option_bind] in *.
    destruct pud as [|pmds]; [discriminate|].
    cbn [pmd_table_of mbind option_bind] in *.
    destruct (pmds !! idx mi) as [e|] eqn:He; [|discriminate].
    cbn [mbind option_bind] in *. destruct e as [u|pte]; [|discriminate].
    simplify_eq.
    rewrite (list_insert_id pmds) by exact He.
    now rewrite list_insert_id by exact Hpud.
Qed.

Lemma set_kvm_same vcpu : set_kvm vcpu (vcpu_kvm vcpu) = vcpu.
Proof. now destruct vcpu. Qed.

(** ** The fast path *)

(** The first half of the fast path on a present entry: the entry is made
    young if it was old. *)
Lemma fast_path_young_step L pgd gpa p old :
  gpa_lookup L pgd gpa = Some (Some (p, old)) ->
  let y := if pte_young L old then old else pte_mkyoung L old in
  exists pgd1,
    (if negb (pte_young L old) then
       pgd' ← store pgd p (pte_mkyoung L old);
       pte ← load pgd' p;
       Some (pgd', [kvm_set_pfn_accessed (pte_pfn L pte)])
     else Some (pgd, []))
    = Some (pgd1,
            if pte_young L old then []
            else [kvm_set_pfn_accessed (pte_pfn L y)])
    /\ store pgd p y = Some pgd1
    /\ load pgd1 p = Some y.
Proof.
  intros Hfind y. subst y.
  destruct (store_found L pgd gpa p old old Hfind) as (_ & _ & Hload & _).
  destruct (pte_young L old); cbn [negb].
  - exists pgd. split; [reflexivity|].
    split; [now apply store_same | exact Hload].
  - destruct (store_found L pgd gpa p old (pte_mkyoung L old) Hfind)
      as (pgd1 & Hstore & _ & Hload1).
    exists pgd1. rewrite Hstore. cbn [mbind option_bind]. rewrite Hload1.
    cbn [mbind option_bind]. auto.
Qed.

Lemma pte_for_gpa_undefined L kvm addr :
  gpa_lookup L (gpa_mm_pgd kvm) addr = None ->
  kvm_mips_pte_for_gpa L kvm None addr = None
  \/ exists q, kvm_mips_pte_for_gpa L kvm None addr = Some (Some q, kvm, None)
               /\ load (gpa_mm_pgd kvm) q = None.
Proof.
  unfold gpa_lookup, kvm_mips_pte_for_gpa. intros H.
  destruct (kvm_mips_walk_pgd L (gpa_mm_pgd kvm) None addr)
    as [[[q pgd'] c]|] eqn:Hw; [|now left].
  destruct (walk_readonly_unchanged L _ _ _ _ _ Hw) as [-> ->].
  cbn [mbind option_bind] in *. rewrite set_pgd_same.
  destruct q as [q|]; [|discriminate]. right. exists q.
  split; [reflexivity|]. destruct (load _ q); [discriminate | reflexivity].
Qed.

(** What a successful fast path found and what it leaves behind. *)
Lemma fast_path_success_spec (L : layout)
    (vcpu : vz_vcpu) (gpa : Z) (write_fault out_entry out_buddy : bool)
    (r : fault_result) :
  soft_bits_apart L ->
  _kvm_mips_map_page_fast L vcpu gpa write_fault out_entry out_buddy
  = Some r ->
  fr_err r = 0 ->
  exists p old new,
    gpa_lookup L (gpa_mm_pgd (vcpu_kvm vcpu)) gpa = Some (Some (p, old))
    /\ pte_present L old = true
    /\ store (gpa_mm_pgd (vcpu_kvm vcpu)) p new
       = Some (gpa_mm_pgd (vcpu_kvm (fr_vcpu r)))
    /\ load (gpa_mm_pgd (vcpu_kvm (fr_vcpu r))) p = Some new
    /\ pte_present L new = true
    /\ pte_young L new = true
    /\ (write_fault = true -> pte_dirty L new = true)
    /\ (pte_dirty L new = true ->
        pte_dirty L old = true
        \/ (write_fault = true /\ pte_write L old = true))
    /\ (pte_write L old = true -> pte_write L new = true)
    /\ (out_entry = true -> fr_entry r = Some new)
    /\ mmu_page_cache (fr_vcpu r) = mmu_page_cache vcpu
    /\ memslots (vcpu_kvm (fr_vcpu r)) = memslots (vcpu_kvm vcpu).
Proof.
  intros (Hacc & Hmod & Hdis1 & Hdis2 & Hdis3 & Hdis4) Hrun Herr.
  unfold _kvm_mips_map_page_fast in Hrun.
  destruct (gpa_lookup L (gpa_mm_pgd (vcpu_kvm vcpu)) gpa)
    as [[[p old]|]|] eqn:Hfind.
  3: { destruct (pte_for_gpa_undefined L _ gpa Hfind)
         as [Hw | (q & Hw & Hl)]; rewrite Hw in Hrun;
         cbn [mbind option_bind] in Hrun; [discriminate|].
       rewrite Hl in Hrun. discriminate. }
  2: { rewrite (pte_for_gpa_null L _ gpa Hfind) in Hrun.
       cbn [mbind option_bind] in Hrun. now simplify_eq. }
  destruct (pte_for_gpa_found L _ gpa p old Hfind) as [Hwalk Hload].
  rewrite Hwalk in Hrun. cbn [mbind option_bind] in Hrun.
  rewrite Hload in Hrun. cbn [mbind option_bind] in Hrun.
  destruct (pte_present L old) eqn:Hpres; cbn [negb] in Hrun;
    [|now simplify_eq].
  destruct (fast_path_young_step L _ gpa p old Hfind)
    as (pgd1 & Hstep & Hstore1 & Hload1).
  rewrite Hstep in Hrun. cbn [mbind option_bind] in Hrun.
  rewrite Hload1 in Hrun. cbn [mbind option_bind] in Hrun.
  set (y := if pte_young L old then old else pte_mkyoung L old) in *.
  assert (Hy_pres : pte_present L y = true)
    by (subst y; destruct (pte_young L old);
        [exact Hpres | now apply mkyoung_keeps]).
  assert (Hy_young : pte_young L y = true)
    by (subst y; destruct (pte_young L old) eqn:E;
        [exact E | now apply mkyoung_young]).
  assert (Hy_dirty : pte_dirty L y = pte_dirty L old)
    by (subst y; destruct (pte_young L old);
        [reflexivity | now apply mkyoung_same]).
  assert (Hy_write : pte_write L y = pte_write L old)
    by (subst y; destruct (pte_young L old);
        [reflexivity | now apply mkyoung_same]).
  exists p, old.
  destruct (write_fault && negb (pte_dirty L y)) eqn:Hw.
  - apply andb_prop in Hw as [-> Hclean]. apply negb_true_iff in Hclean.
    destruct (pte_write L y) eqn:Hwr; cbn [negb] in Hrun;
      [|now simplify_eq].
    destruct (store pgd1 p (pte_mkdirty L y)) as [pgd2|] eqn:Hstore2;
      [|discriminate].
    cbn [mbind option_bind] in Hrun.
    pose proof (load_store_eq _ _ _ _ Hstore2) as Hload2.
    rewrite Hload2 in Hrun. cbn [mbind option_bind] in Hrun.
    assert (Hstore : store (gpa_mm_pgd (vcpu_kvm vcpu)) p (pte_mkdirty L y)
                     = Some pgd2).
    { rewrite <- Hstore2. symmetry. eapply store_twice; [exact Hstore1|].
      congruence. }
    exists (pte_mkdirty L y).
    assert (Hentry : out_entry = true
                     -> fr_entry r = Some (pte_mkdirty L y)).
    { intros ->. cbn [fmap option_fmap option_map mbind option_bind] in Hrun.
      unbind_all; auto. }
    assert (Hvcpu : fr_vcpu r
                    = set_kvm vcpu (set_pgd (vcpu_kvm vcpu) pgd2)).
    { destruct out_entry, out_buddy;
        cbn [fmap option_fmap option_map mbind option_bind] in Hrun;
        unbind_all; reflexivity. }
    rewrite Hvcpu. cbn [vcpu_kvm set_kvm gpa_mm_pgd set_pgd mmu_page_cache
                        memslots].
    split; [reflexivity|]. split; [exact Hpres|]. split; [exact Hstore|].
    split; [exact Hload2|].
    split; [now apply mkdirty_keeps|]. split; [now apply mkdirty_keeps|].
    split; [intros _; now apply mkdirty_dirty|].
    split; [intros _; right; split; [reflexivity | congruence]|].
    split; [intros _; apply mkdirty_keeps; exact Hwr|].
    split; [exact Hentry | auto].
  - exists y.
    assert (Hentry : out_entry = true -> fr_entry r = Some y).
    { intros ->.
      cbn [fmap option_fmap option_map mbind option_bind] in Hrun.
      unbind_all; auto. }
    assert (Hvcpu : fr_vcpu r
                    = set_kvm vcpu (set_pgd (vcpu_kvm vcpu) pgd1)).
    { destruct out_entry, out_buddy;
        cbn [fmap option_fmap option_map mbind option_bind] in Hrun;
        unbind_all; reflexivity. }
    rewrite Hvcpu. cbn [vcpu_kvm set_kvm gpa_mm_pgd set_pgd mmu_page_cache
                        memslots].
    split; [reflexivity|]. split; [exact Hpres|]. split; [exact Hstore1|].
    split; [exact Hload1|]. split; [exact Hy_pres|].
    split; [exact Hy_young|].
    apply andb_false_iff in Hw.
    split.
    { intros ->. destruct Hw as [?|Hd]; [discriminate|].
      now apply negb_false_iff in Hd. }
    split; [rewrite Hy_dirty; auto|].
    split; [rewrite Hy_write; auto|].
    split; [exact Hentry | auto].
Qed.

(** X16. When the fast path returns 0 it has found a present entry, and
    the slot it found holds a present, young entry afterwards; after a
    write fault the entry is also dirty. An entry is dirty afterwards only
    if it was dirty before or the fault was a write to a writable entry,
    and a writable entry stays writable: "dirty only if writable" is kept.
    The entry is handed back when the caller asks for it. The fast path
    takes nothing from the pool and leaves the memory slots alone. *)
Theorem fast_path_success_leaves_a_present_entry (L : layout)
    (vcpu : vz_vcpu) (gpa : Z) (write_fault out_entry out_buddy : bool)
    (r : fault_result) :
  soft_bits_apart L ->
  _kvm_mips_map_page_fast L vcpu gpa write_fault out_entry out_buddy
  = Some r ->
  fr_err r = 0 ->
  exists p old new,
    gpa_lookup L (gpa_mm_pgd (vcpu_kvm vcpu)) gpa = Some (Some (p, old))
    /\ pte_present L old = true
    /\ load (gpa_mm_pgd (vcpu_kvm (fr_vcpu r))) p = Some new
    /\ pte_present L new = true
    /\ pte_young L new = true
    /\ (write_fault = true -> pte_dirty L new = true)
    /\ (pte_dirty L new = true ->
        pte_dirty L old = true
        \/ (write_fault = true /\ pte_write L old = true))
    /\ (pte_write L old = true -> pte_write L new = true)
    /\ (out_entry = true -> fr_entry r = Some new)
    /\ mmu_page_cache (fr_vcpu r) = mmu_page_cache vcpu
    /\ memslots (vcpu_kvm (fr_vcpu r)) = memslots (vcpu_kvm vcpu).
Proof.
  intros Hbits Hrun Herr.
  destruct (fast_path_success_spec L vcpu gpa write_fault out_entry out_buddy
              r Hbits Hrun Herr)
    as (p & old & new & Hfind & Hpres & _ & Hload & Hspec).
  exists p, old, new. split; [exact Hfind|]. split; [exact Hpres|].
  split; [exact Hload | exact Hspec].
Qed.

(** X17. The fast path fails closed. Where the walk finds no present entry
    it returns [-EFAULT] and changes nothing. A write fault on a present,
    clean entry whose write bit is clear returns [-EFAULT] as well: the
    slot then holds the entry made young if it was old, and nothing was
    written if it was young already; the entry is not made dirty, no page
    is logged dirty, and no entry is handed back. The pool and the memory
    slots are left alone. *)
Theorem fast_path_fails_closed (L : layout) (vcpu : vz_vcpu) (gpa : Z)
    (out_entry out_buddy : bool) :
  soft_bits_apart L ->
  (forall write_fault,
     unmapped L (gpa_lookup L (gpa_mm_pgd (vcpu_kvm vcpu)) gpa) ->
     _kvm_mips_map_page_fast L vcpu gpa write_fault out_entry out_buddy
     = Some (mk_result (- EFAULT) vcpu None None []))
  /\ (forall p old,
        gpa_lookup L (gpa_mm_pgd (vcpu_kvm vcpu)) gpa = Some (Some (p, old)) ->
        pte_present L old = true -> pte_dirty L old = false ->
        pte_write L old = false ->
        let y := if pte_young L old then old else pte_mkyoung L old in
        exists vcpu',
          _kvm_mips_map_page_fast L vcpu gpa true out_entry out_buddy
          = Some (mk_result (- EFAULT) vcpu' None None
                    (if pte_young L old then []
                     else [kvm_set_pfn_accessed (pte_pfn L y)]))
          /\ load (gpa_mm_pgd (vcpu_kvm vcpu')) p = Some y
          /\ pte_dirty L y = false /\ pte_write L y = false
          /\ (pte_young L old = true -> vcpu' = vcpu)
          /\ mmu_page_cache vcpu' = mmu_page_cache vcpu
          /\ memslots (vcpu_kvm vcpu') = memslots (vcpu_kvm vcpu)).
Proof.
  intros (Hacc & Hmod & Hdis1 & Hdis2 & Hdis3 & Hdis4). split.
  - intros write_fault [Hnull | (p & v & Hfind & Hnp)];
      unfold _kvm_mips_map_page_fast.
    + rewrite (pte_for_gpa_null L _ gpa Hnull). cbn [mbind option_bind].
      now rewrite set_kvm_same.
    + destruct (pte_for_gpa_found L _ gpa p v Hfind) as [Hwalk Hload].
      rewrite Hwalk. cbn [mbind option_bind]. rewrite Hload.
      cbn [mbind option_bind]. rewrite Hnp. cbn [negb].
      now rewrite set_kvm_same.
  - intros p old Hfind Hpres Hclean Hro y.
    destruct (fast_path_young_step L _ gpa p old Hfind)
      as (pgd1 & Hstep & Hstore1 & Hload1).
    fold y in Hstep, Hstore1, Hload1.
    assert (Hy_dirty : pte_dirty L y = false).
    { subst y. destruct (pte_young L old); [exact Hclean|].
      unfold pte_dirty. rewrite mkyoung_same by assumption. exact Hclean. }
    assert (Hy_write : pte_write L y = false).
    { subst y. destruct (pte_young L old); [exact Hro|].
      unfold pte_write. rewrite mkyoung_same by assumption. exact Hro. }
    destruct (pte_for_gpa_found L _ gpa p old Hfind) as [Hwalk Hload].
    exists (set_kvm vcpu (set_pgd (vcpu_kvm vcpu) pgd1)).
    cbn [set_kvm vcpu_kvm set_pgd gpa_mm_pgd mmu_page_cache memslots].
    split; [|split; [exact Hload1|]].
    + unfold _kvm_mips_map_page_fast.
      rewrite Hwalk. cbn [mbind option_bind]. rewrite Hload.
      cbn [mbind option_bind]. rewrite Hpres. cbn [negb].
      rewrite Hstep. cbn [mbind option_bind]. rewrite Hload1.
      cbn [mbind option_bind]. rewrite Hy_dirty, Hy_write. reflexivity.
    + split; [exact Hy_dirty|]. split; [exact Hy_write|].
      split; [|split; reflexivity].
      intros Hyoung. subst y. rewrite Hyoung in Hstore1.
      rewrite (store_same _ _ _ Hload) in Hstore1. injection Hstore1 as <-.
      now rewrite set_pgd_same, set_kvm_same.
Qed.

(** ** The slow path *)

(** Rounding an address down to its block keeps its top-level and
    middle-level index. *)
Lemma block_indices L gpa :
  0 <= PAGE_SHIFT L -> 0 <= PTE_BITS L -> 0 <= PMD_BITS L ->
  0 <= PGD_BITS L ->
  PAGE_SHIFT L + PTE_BITS L + PMD_BITS L + PGD_BITS L <= wordsize ->
  0 <= gpa < modulus ->
  pgd_index L (Z.land gpa (PMD_MASK L)) = pgd_index L gpa
  /\ __pmd_offset L (Z.land gpa (PMD_MASK L)) = __pmd_offset L gpa
  /\ 0 <= Z.land gpa (PMD_MASK L) < modulus.
Proof.
  intros Hps Hpte Hpmd Hpgd Hbits Hgpa.
  pose proof (ptrs_pos L Hps Hpte Hpmd Hpgd) as (HT & HM & HG & HP).
  rewrite pmd_mask_land by lia.
  rewrite !pgd_index_div, !pmd_offset_div by assumption.
  set (B := PAGE_SIZE L * PTRS_PER_PTE L).
  assert (HB : 0 < B) by (subst B; nia).
  pose proof (Z.div_mod gpa B ltac:(lia)) as Hdm.
  pose proof (Z.mod_pos_bound gpa B HB) as Hmod.
  assert (Hq : 0 <= gpa / B) by (apply Z.div_pos; lia).
  split; [|split; [|nia]].
  - rewrite <- !Z.div_div by lia. now rewrite Z.div_mul by lia.
  - now rewrite Z.div_mul by lia.
Qed.

(** A successful reserve of [KVM_MMU_CACHE_MIN_PAGES] leaves two nodes. *)
Lemma reserve_two NR cache host cache' host' :
  2 <= NR ->
  mmu_topup_memory_cache NR cache KVM_MMU_CACHE_MIN_PAGES NR host
  = Some (0, cache', host') ->
  2 <= nobjs cache'.
Proof.
  intros HNR Hrun. unfold mmu_topup_memory_cache, KVM_MMU_CACHE_MIN_PAGES in *.
  destruct (Z.ltb_spec NR NR); [lia|].
  destruct (Z.leb_spec 2 (nobjs cache)); [now simplify_eq|].
  pose proof (topup_loop_spec NR (Z.to_nat (NR - nobjs cache)) cache host
                ltac:(lia)) as Hspec.
  destruct (topup_loop _ cache NR host) as [[ret c'] h']. simplify_eq.
  destruct (supplies host _); [lia|].
  destruct Hspec as [Hret _]. unfold ENOMEM in Hret. lia.
Qed.

Lemma flag_self m : m <> 0 -> flag m m = true.
Proof.
  intros Hm. unfold flag. rewrite Z.land_diag.
  now apply negb_true_iff, Z.eqb_neq.
Qed.

(** The protection bits of a new entry always include the present bit. *)
Lemma new_entry_present L pfn (writeable write_fault : bool) :
  _PAGE_PRESENT L <> 0 ->
  let prot_bits :=
    Z.lor (Z.lor (_PAGE_PRESENT L) (__READABLE L))
          (_page_cachable_default L) in
  let prot_bits :=
    if writeable then
      let prot_bits := Z.lor prot_bits (_PAGE_WRITE L) in
      if write_fault then Z.lor prot_bits (__WRITEABLE L) else prot_bits
    else prot_bits in
  pte_present L (pfn_pte L pfn prot_bits) = true
  /\ pte_present L (pmd_mkhuge L (pfn_pmd L pfn prot_bits)) = true.
Proof.
  intros Hp prot0 prot.
  assert (H0 : flag (_PAGE_PRESENT L) prot0 = true)
    by (subst prot0; do 2 apply flag_lor_l; now apply flag_self).
  assert (H1 : flag (_PAGE_PRESENT L) prot = true)
    by (subst prot; destruct writeable, write_fault;
        [do 2 apply flag_lor_l | apply flag_lor_l | |]; exact H0).
  unfold pte_present, pfn_pte, pmd_mkhuge, pfn_pmd. split.
  - rewrite Z.lor_comm. now apply flag_lor_l.
  - apply flag_lor_l. rewrite Z.lor_comm. now apply flag_lor_l.
Qed.

Lemma mkhuge_huge L v : _PAGE_HUGE L <> 0 -> pmdv_huge L (pmd_mkhuge L v) = true.
Proof. intros. unfold pmdv_huge, pmd_mkhuge. now apply flag_lor_same. Qed.

(** The allocating walk for an address that is not under a huge mapping
    ends at a leaf slot. *)
Lemma walk_alloc_leaf L pgd mc addr :
  0 <= PTE_BITS L -> 0 <= PMD_BITS L -> 0 <= PGD_BITS L ->
  pmdv_huge L (invalid_pte_table L) = false ->
  wf_pgd L pgd -> 2 <= nobjs mc ->
  (forall gi mi v, gpa_lookup L pgd addr <> Some (Some (At_pmd gi mi, v))) ->
  exists p pgd' mc' v0,
    kvm_mips_walk_pgd L pgd (Some mc) addr = Some (Some p, pgd', Some mc')
    /\ is_leaf_ptr p
    /\ wf_pgd L pgd'
    /\ gpa_lookup L pgd' addr = Some (Some (p, v0)).
Proof.
  intros Hpte Hpmd Hpgd Hinv Hwf Hn Hleaf.
  pose proof (pte_offset_range L addr Hpte) as Hti.
  pose proof (pmd_offset_range L addr Hpmd) as Hmi.
  assert (Hlen : (idx (pgd_index L addr) < length pgd)%nat).
  { destruct (wf_pgd_lookup L pgd addr Hpgd Hwf) as (? & H & _).
    eapply lookup_lt_Some, H. }
  destruct (wf_walk_cases L pgd addr Hpte Hpmd Hpgd Hwf)
    as [Hpud | [(pmds & v & Hpud & Hwpud & He & Hhuge)
       | [(pmds & v & Hpud & Hwpud & He & Hhuge & Hnone)
       | (pmds & pte & e & Hpud & Hwpud & He & Hwe & Hx)]]].
  - destruct (walk_no_pmd_table L pgd addr Hpmd Hinv Hpud) as [_ Hrun].
    eexists _, _, _, 0. split; [apply Hrun, Hn|]. split; [exact I|].
    assert (He' : <[idx (__pmd_offset L addr) := Pmd_table (clear_page L)]>
                    (pmd_init L) !! idx (__pmd_offset L addr)
                  = Some (Pmd_table (clear_page L))).
    { apply list_lookup_insert_eq. unfold pmd_init.
      rewrite length_replicate. unfold idx. lia. }
    split.
    + apply wf_pgd_insert; [exact Hwf|].
      apply wf_pud_insert; [apply wf_pmd_init | apply wf_clear_page].
    + rewrite gpa_lookup_unfold, list_lookup_insert_eq by exact Hlen.
      cbn [mbind option_bind pud_lookup]. rewrite He'.
      cbn [mbind option_bind pmd_lookup]. now rewrite lookup_clear_page.
  - exfalso. apply (Hleaf (pgd_index L addr) (__pmd_offset L addr) v).
    rewrite gpa_lookup_unfold, Hpud. cbn [mbind option_bind pud_lookup].
    rewrite He. cbn [mbind option_bind pmd_lookup]. now rewrite Hhuge.
  - destruct (walk_no_pte_table L pgd addr pmds v Hpud He Hhuge Hnone)
      as [_ Hrun].
    eexists _, _, _, 0. split; [apply Hrun; lia|]. split; [exact I|].
    assert (He' : <[idx (__pmd_offset L addr) := Pmd_table (clear_page L)]>
                    pmds !! idx (__pmd_offset L addr)
                  = Some (Pmd_table (clear_page L))).
    { apply list_lookup_insert_eq. eapply lookup_lt_Some, He. }
    split.
    + apply wf_pgd_insert; [exact Hwf|].
      apply wf_pud_insert; [exact Hwpud | apply wf_clear_page].
    + rewrite gpa_lookup_unfold, list_lookup_insert_eq by exact Hlen.
      cbn [mbind option_bind pud_lookup]. rewrite He'.
      cbn [mbind option_bind pmd_lookup]. now rewrite lookup_clear_page.
  - eexists _, pgd, mc, e.
    split; [exact (walk_at_leaf L pgd addr pmds pte _ Hpud He)|].
    split; [exact I|]. split; [exact Hwf|].
    rewrite gpa_lookup_unfold, Hpud. cbn [mbind option_bind pud_lookup].
    rewrite He. cbn [mbind option_bind pmd_lookup]. now rewrite Hx.
Qed.

Lemma thp_adjust_gpa L thp pfn gpa b pfn' gpa' evs :
  transparent_hugepage_adjust L thp pfn gpa = Some (b, pfn', gpa', evs) ->
  (gpa' = gpa \/ gpa' = Z.land gpa (PMD_MASK L))
  /\ (b = false -> gpa' = gpa).
Proof.
  unfold transparent_hugepage_adjust. intros H.
  destruct (thp pfn); [|simplify_eq; auto].
  destruct (negb (_ =? _)); [discriminate|].
  destruct (negb (_ =? 0)); simplify_eq; split; auto; discriminate.
Qed.

(** The commit step leaves a present entry for the address. *)
Lemma map_page_commit_maps (L : layout) (kvm : vz_vm)
    (mc : kvm_mmu_memory_cache) (h : host_env) (memslot : kvm_memory_slot)
    (hva gpa gfn : Z) (write_fault : bool) (vps : Z) (force_pte : bool)
    (pfn : Z) (writeable out_entry out_buddy : bool) (kvm' : vz_vm)
    (mc' : kvm_mmu_memory_cache) (entry buddy : option Z)
    (evs : list event) :
  0 <= PAGE_SHIFT L -> 0 <= PTE_BITS L -> 0 < PMD_BITS L ->
  0 <= PGD_BITS L ->
  PAGE_SHIFT L + PTE_BITS L + PMD_BITS L + PGD_BITS L <= wordsize ->
  pmdv_huge L (invalid_pte_table L) = false ->
  _PAGE_PRESENT L <> 0 -> _PAGE_HUGE L <> 0 ->
  wf_pgd L (gpa_mm_pgd kvm) -> 2 <= nobjs mc -> 0 <= gpa < modulus ->
  (forall gi mi v,
     gpa_lookup L (gpa_mm_pgd kvm) gpa <> Some (Some (At_pmd gi mi, v))) ->
  map_page_commit L kvm mc h memslot hva gpa gfn write_fault vps force_pte
    pfn writeable out_entry out_buddy
  = Some (kvm', mc', entry, buddy, evs) ->
  exists p v,
    gpa_lookup L (gpa_mm_pgd kvm') gpa = Some (Some (p, v))
    /\ pte_present L v = true
    /\ wf_pgd L (gpa_mm_pgd kvm')
    /\ memslots kvm' = memslots kvm.
Proof.
  intros Hps Hpte Hpmd Hpgd Hbits Hinv Hpres Hhuge Hwf Hn Hgpa Hleaf Hrun.
  unfold map_page_commit in Hrun.
  (* the size, frame and address the commit goes on with *)
  match type of Hrun with
  | mbind _ ?m = _ => destruct m as [[[[vps1 pfn1] gpa1] evs1]|] eqn:Hsize
  end; [|discriminate].
  cbn [mbind option_bind] in Hrun.
  assert (Hgpa1 : (gpa1 = gpa \/ gpa1 = Z.land gpa (PMD_MASK L))
                  /\ ((vps1 =? PMD_SIZE L) = false -> gpa1 = gpa)).
  { destruct ((vps =? PAGE_SIZE L) && negb force_pte
              && fault_supports_huge_mapping L memslot hva (PMD_SIZE L));
      [|simplify_eq; auto].
    destruct (transparent_hugepage_adjust L (thp h) pfn gpa)
      as [[[[b pfn'] gpa'] ev]|] eqn:Hthp; [|discriminate].
    cbn [mbind option_bind] in Hsize. simplify_eq.
    destruct (thp_adjust_gpa L _ _ _ _ _ _ _ Hthp) as [H1 H2].
    split; [exact H1|]. destruct b; [|auto].
    rewrite Z.eqb_refl. discriminate. }
  clear Hsize. destruct Hgpa1 as [Hgpa1 Hsmall].
  destruct (new_entry_present L pfn1 writeable write_fault Hpres)
    as [Hpte_pres Hpmd_pres].
  cbv zeta in Hpte_pres, Hpmd_pres.
  destruct (vps1 =? PMD_SIZE L) eqn:Hsz.
  - (* a huge entry *)
    destruct (block_indices L gpa Hps Hpte ltac:(lia) Hpgd Hbits Hgpa)
      as (Hgi & Hmi & Hblock).
    assert (Hsame : pgd_index L gpa1 = pgd_index L gpa
                    /\ __pmd_offset L gpa1 = __pmd_offset L gpa
                    /\ 0 <= gpa1 < modulus)
      by (destruct Hgpa1 as [->| ->]; auto).
    destruct Hsame as (Hg1 & Hm1 & Hrange1).
    match type of Hrun with
    | context [kvm_mips_set_pmd_huge L 2 kvm (Some mc) gpa1 ?v] =>
        set (new_pmd := v) in *
    end.
    destruct (set_pmd_huge_spec L kvm mc gpa1 new_pmd 0 Hps Hpte Hpmd Hpgd
                Hbits Hinv Hwf Hrange1 (mkhuge_huge L _ Hhuge) ltac:(lia))
      as (kvm1 & mc1 & evs_set & Hset & Hload & Hfind & Hwf1 & Hms & _).
    rewrite Hset in Hrun. cbn [mbind option_bind] in Hrun. simplify_eq.
    exists (At_pmd (pgd_index L gpa1) (__pmd_offset L gpa1)), new_pmd.
    split; [|split; [exact Hpmd_pres | split; [exact Hwf1 | exact Hms]]].
    rewrite !gpa_lookup_unfold in *. rewrite Hg1, Hm1 in Hfind.
    rewrite Hg1, Hm1.
    destruct (gpa_mm_pgd kvm' !! idx (pgd_index L gpa)) as [pud|];
      [|discriminate].
    cbn [mbind option_bind] in *. destruct pud as [|pmds]; [discriminate|].
    cbn [pud_lookup] in *.
    destruct (pmds !! idx (__pmd_offset L gpa)) as [e|]; [|discriminate].
    cbn [mbind option_bind] in *. destruct e as [w|pte]; cbn [pmd_lookup] in *.
    + destruct (pmdv_huge L w); [now simplify_eq|].
      destruct (pmdv_none L w); discriminate.
    + destruct (pte !! idx (__pte_offset L gpa1)); discriminate.
  - (* a leaf entry *)
    rewrite (Hsmall eq_refl) in *.
    destruct (walk_alloc_leaf L (gpa_mm_pgd kvm) mc gpa Hpte ltac:(lia) Hpgd
                Hinv Hwf Hn Hleaf)
      as (p & pgd1 & mc1 & v0 & Hwalk & Hp & Hwf1 & Hfind1).
    unfold kvm_mips_pte_for_gpa in Hrun. rewrite Hwalk in Hrun.
    cbn [mbind option_bind] in Hrun.
    match type of Hrun with
    | context [store _ p ?v] => set (new_pte := v) in *
    end.
    destruct (store_leaf L pgd1 gpa p v0 new_pte Hfind1 Hp)
      as (pgd2 & Hstore & _ & _ & Hfind2 & Hwf2 & _).
    cbn [gpa_mm_pgd set_pgd] in Hrun. rewrite Hstore in Hrun.
    cbn [mbind option_bind] in Hrun.
    destruct out_buddy; [discriminate|]. simplify_eq.
    exists p, new_pte. cbn [gpa_mm_pgd set_pgd memslots].
    split; [exact Hfind2|]. split; [exact Hpte_pres|].
    split; [exact (Hwf2 Hwf1) | reflexivity].
Qed.

(** Whatever the fast path returns, it has at most rewritten the entry it
    found for the address. *)
Lemma fast_path_state (L : layout) (vcpu : vz_vcpu) (gpa : Z)
    (write_fault out_entry out_buddy : bool) (r : fault_result) :
  _kvm_mips_map_page_fast L vcpu gpa write_fault out_entry out_buddy
  = Some r ->
  exists pgd',
    fr_vcpu r = set_kvm vcpu (set_pgd (vcpu_kvm vcpu) pgd')
    /\ (pgd' = gpa_mm_pgd (vcpu_kvm vcpu)
        \/ exists p old new,
             gpa_lookup L (gpa_mm_pgd (vcpu_kvm vcpu)) gpa
             = Some (Some (p, old))
             /\ store (gpa_mm_pgd (vcpu_kvm vcpu)) p new = Some pgd').
Proof.
  intros Hrun. unfold _kvm_mips_map_page_fast in Hrun.
  assert (Hsame : set_kvm vcpu (vcpu_kvm vcpu)
                  = set_kvm vcpu (set_pgd (vcpu_kvm vcpu)
                                    (gpa_mm_pgd (vcpu_kvm vcpu))))
    by now rewrite set_pgd_same.
  destruct (gpa_lookup L (gpa_mm_pgd (vcpu_kvm vcpu)) gpa)
    as [[[p old]|]|] eqn:Hfind.
  3: { destruct (pte_for_gpa_undefined L _ gpa Hfind)
         as [Hw | (q & Hw & Hl)]; rewrite Hw in Hrun;
         cbn [mbind option_bind] in Hrun; [discriminate|].
       rewrite Hl in Hrun. discriminate. }
  2: { rewrite (pte_for_gpa_null L _ gpa Hfind) in Hrun.
       cbn [mbind option_bind] in Hrun. injection Hrun as <-.
       exists (gpa_mm_pgd (vcpu_kvm vcpu)). cbn [fr_vcpu].
       split; [exact Hsame | now left]. }
  destruct (pte_for_gpa_found L _ gpa p old Hfind) as [Hwalk Hload].
  rewrite Hwalk in Hrun. cbn [mbind option_bind] in Hrun.
  rewrite Hload in Hrun. cbn [mbind option_bind] in Hrun.
  destruct (pte_present L old) eqn:Hpres; cbn [negb] in Hrun.
  2: { injection Hrun as <-. exists (gpa_mm_pgd (vcpu_kvm vcpu)).
       cbn [fr_vcpu]. split; [exact Hsame | now left]. }
  destruct (fast_path_young_step L _ gpa p old Hfind)
    as (pgd1 & Hstep & Hstore1 & Hload1).
  rewrite Hstep in Hrun. cbn [mbind option_bind] in Hrun.
  rewrite Hload1 in Hrun. cbn [mbind option_bind] in Hrun.
  set (y := if pte_young L old then old else pte_mkyoung L old) in *.
  destruct (write_fault && negb (pte_dirty L y)).
  - destruct (pte_write L y); cbn [negb] in Hrun.
    + destruct (store pgd1 p (pte_mkdirty L y)) as [pgd2|] eqn:Hstore2;
        [|discriminate].
      cbn [mbind option_bind] in Hrun.
      rewrite (load_store_eq _ _ _ _ Hstore2) in Hrun.
      cbn [mbind option_bind] in Hrun.
      exists pgd2. split.
      * destruct out_entry, out_buddy;
          cbn [fmap option_fmap option_map mbind option_bind] in Hrun;
          unbind_all; reflexivity.
      * right. exists p, old, (pte_mkdirty L y). split; [reflexivity|].
        rewrite <- Hstore2. symmetry.
        eapply store_twice; [exact Hstore1 | congruence].
    + simplify_eq. exists pgd1. cbn [fr_vcpu]. split; [reflexivity|].
      right. now exists p, old, y.
  - exists pgd1. split.
    + destruct out_entry, out_buddy;
        cbn [fmap option_fmap option_map mbind option_bind] in Hrun;
        unbind_all; reflexivity.
    + right. now exists p, old, y.
Qed.

(** The retry loop ends with 0 only by committing an entry. *)
Lemma map_page_retry_maps (L : layout) (h : host_env)
    (memslot : kvm_memory_slot) (hva gpa gfn : Z) (write_fault : bool)
    (vps : Z) (force_pte out_entry out_buddy : bool)
    (atts : list pfn_attempt) :
  0 <= PAGE_SHIFT L -> 0 <= PTE_BITS L -> 0 < PMD_BITS L ->
  0 <= PGD_BITS L ->
  PAGE_SHIFT L + PTE_BITS L + PMD_BITS L + PGD_BITS L <= wordsize ->
  pmdv_huge L (invalid_pte_table L) = false ->
  _PAGE_PRESENT L <> 0 -> _PAGE_HUGE L <> 0 -> 0 <= gpa < modulus ->
  forall (vcpu : vz_vcpu) (evs : list event) (r : fault_result),
    wf_pgd L (gpa_mm_pgd (vcpu_kvm vcpu)) ->
    2 <= nobjs (mmu_page_cache vcpu) ->
    (forall gi mi v,
       gpa_lookup L (gpa_mm_pgd (vcpu_kvm vcpu)) gpa
       <> Some (Some (At_pmd gi mi, v))) ->
    map_page_retry L atts vcpu h memslot hva gpa gfn write_fault vps
      force_pte out_entry out_buddy evs = Some r ->
    fr_err r = 0 ->
    exists p v,
      gpa_lookup L (gpa_mm_pgd (vcpu_kvm (fr_vcpu r))) gpa
      = Some (Some (p, v))
      /\ pte_present L v = true
      /\ wf_pgd L (gpa_mm_pgd (vcpu_kvm (fr_vcpu r)))
      /\ memslots (vcpu_kvm (fr_vcpu r)) = memslots (vcpu_kvm vcpu).
Proof.
  intros Hps Hpte Hpmd Hpgd Hbits Hinv Hpres Hhuge Hgpa.
  induction atts as [|a atts IH]; intros vcpu evs r Hwf Hn Hleaf Hrun Herr;
    [discriminate|].
  cbn [map_page_retry] in Hrun. cbv zeta in Hrun.
  destruct (gfn_to_pfn_prot a gfn write_fault) as [[pfn writeable]|].
  2: { now simplify_eq. }
  set (kvm1 := if invalidated a
               then mk_vm (gpa_mm_pgd (vcpu_kvm vcpu))
                          (memslots (vcpu_kvm vcpu))
                          (uadd (mmu_notifier_seq (vcpu_kvm vcpu)) 1)
               else vcpu_kvm vcpu) in *.
  assert (Hk : gpa_mm_pgd kvm1 = gpa_mm_pgd (vcpu_kvm vcpu)
               /\ memslots kvm1 = memslots (vcpu_kvm vcpu))
    by (subst kvm1; destruct (invalidated a); auto).
  destruct Hk as [Hk_pgd Hk_ms].
  destruct (negb (mmu_notifier_seq kvm1 =? _)).
  - destruct (IH (set_kvm vcpu kvm1) (evs ++ [kvm_release_pfn_clean pfn]) r)
      as (p & v & H1 & H2 & H3 & H4);
      cbn [set_kvm vcpu_kvm mmu_page_cache]; rewrite ?Hk_pgd; auto.
    exists p, v. cbn [set_kvm vcpu_kvm] in H4. rewrite H4, Hk_ms. auto.
  - destruct (map_page_commit L kvm1 (mmu_page_cache vcpu) h memslot hva gpa
                gfn write_fault vps
                force_pte pfn writeable out_entry out_buddy)
      as [[[[[kvm2 mc2] entry] buddy] evs2]|] eqn:Hcommit; [|discriminate].
    cbn [mbind option_bind] in Hrun. simplify_eq.
    cbn [fr_vcpu vcpu_kvm].
    destruct (map_page_commit_maps L kvm1 (mmu_page_cache vcpu) h memslot hva
                gpa gfn write_fault vps force_pte pfn writeable out_entry out_buddy kvm2 mc2
                entry buddy evs2 Hps Hpte Hpmd Hpgd Hbits Hinv Hpres Hhuge)
      as (p & v & H1 & H2 & H3 & H4); rewrite ?Hk_pgd; auto.
    exists p, v. rewrite H4, Hk_ms. auto.
Qed.

(** The slow path ends with 0 only by committing an entry, provided it
    was entered with a nonzero error code. *)
Lemma slow_path_maps (L : layout) (h : host_env) (gpa : Z)
    (write_fault out_entry out_buddy : bool) (err : Z) (vcpu : vz_vcpu)
    (evs : list event) (r : fault_result) :
  0 <= PAGE_SHIFT L -> 0 <= PTE_BITS L -> 0 < PMD_BITS L ->
  0 <= PGD_BITS L ->
  PAGE_SHIFT L + PTE_BITS L + PMD_BITS L + PGD_BITS L <= wordsize ->
  pmdv_huge L (invalid_pte_table L) = false ->
  _PAGE_PRESENT L <> 0 -> _PAGE_HUGE L <> 0 -> 2 <= KVM_NR_MEM_OBJS L ->
  0 <= gpa < modulus -> err <> 0 ->
  wf_pgd L (gpa_mm_pgd (vcpu_kvm vcpu)) ->
  (forall gi mi v,
     gpa_lookup L (gpa_mm_pgd (vcpu_kvm vcpu)) gpa
     <> Some (Some (At_pmd gi mi, v))) ->
  match
    gfn_to_hva_memslot_prot L
      (gfn_to_memslot (vcpu_kvm vcpu) (ushr gpa (PAGE_SHIFT L)))
      (ushr gpa (PAGE_SHIFT L))
  with
  | None => Some (mk_result err vcpu None None evs)
  | Some (memslot, hva, writable) =>
      if write_fault && negb writable
      then Some (mk_result err vcpu None None evs)
      else
        match vma_kernel_pagesize h hva with
        | None =>
            Some (mk_result (- EFAULT) vcpu None None (evs ++ [dune_err hva]))
        | Some vps =>
            let '(force_pte, vma_pagesize) :=
              if negb (fault_supports_huge_mapping L memslot hva vps)
              then (true, PAGE_SIZE L) else (false, vps) in
            let gfn :=
              if vma_pagesize =? PMD_SIZE L
              then ushr (Z.land gpa (unot (usub vps 1))) (PAGE_SHIFT L)
              else ushr gpa (PAGE_SHIFT L) in
            '(err, memcache, _) ←
              mmu_topup_memory_cache (KVM_NR_MEM_OBJS L)
                (mmu_page_cache vcpu) KVM_MMU_CACHE_MIN_PAGES
                (KVM_NR_MEM_OBJS L) (free_pages h);
            let vcpu := set_cache vcpu memcache in
            if negb (err =? 0)
            then Some (mk_result err vcpu None None evs)
            else
              map_page_retry L (attempts h) vcpu h memslot hva gpa gfn
                write_fault vma_pagesize force_pte out_entry out_buddy evs
        end
  end = Some r ->
  fr_err r = 0 ->
  exists p v,
    gpa_lookup L (gpa_mm_pgd (vcpu_kvm (fr_vcpu r))) gpa = Some (Some (p, v))
    /\ pte_present L v = true
    /\ wf_pgd L (gpa_mm_pgd (vcpu_kvm (fr_vcpu r)))
    /\ memslots (vcpu_kvm (fr_vcpu r)) = memslots (vcpu_kvm vcpu).
Proof.
  intros Hps Hpte Hpmd Hpgd Hbits Hinv Hpres Hhuge Hnr Hgpa Herr0 Hwf Hleaf
    Hrun Herr.
  destruct (gfn_to_hva_memslot_prot L _ _) as [[[memslot hva] writable]|];
    [|now simplify_eq].
  destruct (write_fault && negb writable); [now simplify_eq|].
  destruct (vma_kernel_pagesize h hva) as [vps|]; [|now simplify_eq].
  destruct (if negb (fault_supports_huge_mapping L memslot hva vps)
            then (true, PAGE_SIZE L) else (false, vps))
    as [force_pte vma_pagesize].
  cbv zeta in Hrun.
  destruct (mmu_topup_memory_cache (KVM_NR_MEM_OBJS L) (mmu_page_cache vcpu)
              KVM_MMU_CACHE_MIN_PAGES (KVM_NR_MEM_OBJS L) (free_pages h))
    as [[[e mc] host']|] eqn:Htop; [|discriminate].
  cbn [mbind option_bind] in Hrun.
  destruct (e =? 0) eqn:He; cbn [negb] in Hrun.
  2: { injection Hrun as <-. cbn [fr_err] in Herr. subst e. discriminate. }
  apply Z.eqb_eq in He. subst e.
  pose proof (reserve_two _ _ _ _ _ Hnr Htop) as Hn.
  match type of Hrun with
  | map_page_retry _ _ _ _ _ _ _ ?g _ _ _ _ _ _ = _ => set (gfn := g) in *
  end.
  destruct (map_page_retry_maps L h memslot hva gpa gfn write_fault
              vma_pagesize force_pte out_entry out_buddy (attempts h)
              Hps Hpte Hpmd Hpgd Hbits Hinv Hpres Hhuge Hgpa
              (set_cache vcpu mc) evs r)
    as (p & v & H1 & H2 & H3 & H4); auto.
  now exists p, v.
Qed.

(** X18. For a fault whose exception code is neither read-inhibit nor
    execute-inhibit, on an address that is not under a huge mapping,
    [kvm_mips_map_page] returns 0 only when the page table it leaves holds
    a present entry for the address, whether the fast path or the slow path
    resolved the fault. The page table stays well formed and the memory
    slots are left as they were. *)
Theorem map_page_success_maps_the_address (L : layout) (vcpu : vz_vcpu)
    (h : host_env) (gpa : Z) (write_fault out_entry out_buddy : bool)
    (r : fault_result) :
  0 <= PAGE_SHIFT L -> 0 <= PTE_BITS L -> 0 < PMD_BITS L ->
  0 <= PGD_BITS L ->
  PAGE_SHIFT L + PTE_BITS L + PMD_BITS L + PGD_BITS L <= wordsize ->
  pmdv_huge L (invalid_pte_table L) = false ->
  soft_bits_apart L ->
  _PAGE_PRESENT L <> 0 -> _PAGE_HUGE L <> 0 -> 2 <= KVM_NR_MEM_OBJS L ->
  0 <= gpa < modulus ->
  Z.land (ushr (host_cp0_cause vcpu) (CAUSEB_EXCCODE L)) 31
    <> EXCCODE_TLBRI L ->
  Z.land (ushr (host_cp0_cause vcpu) (CAUSEB_EXCCODE L)) 31
    <> EXCCODE_TLBXI L ->
  wf_pgd L (gpa_mm_pgd (vcpu_kvm vcpu)) ->
  (forall gi mi v,
     gpa_lookup L (gpa_mm_pgd (vcpu_kvm vcpu)) gpa
     <> Some (Some (At_pmd gi mi, v))) ->
  kvm_mips_map_page L vcpu h gpa write_fault out_entry out_buddy = Some r ->
  fr_err r = 0 ->
  exists p v,
    gpa_lookup L (gpa_mm_pgd (vcpu_kvm (fr_vcpu r))) gpa = Some (Some (p, v))
    /\ pte_present L v = true
    /\ wf_pgd L (gpa_mm_pgd (vcpu_kvm (fr_vcpu r)))
    /\ memslots (vcpu_kvm (fr_vcpu r)) = memslots (vcpu_kvm vcpu).
Proof.
  intros Hps Hpte Hpmd Hpgd Hbits Hinv Hsoft Hpres Hhuge Hnr Hgpa Hri Hxi Hwf
    Hleaf Hrun Herr.
  unfold kvm_mips_map_page in Hrun. cbv zeta in Hrun.
  apply Z.eqb_neq in Hri, Hxi. rewrite Hri, Hxi in Hrun.
  cbn [negb andb] in Hrun.
  destruct (_kvm_mips_map_page_fast L vcpu gpa write_fault out_entry
              out_buddy) as [r0|] eqn:Hfast; [|discriminate].
  cbn [fmap option_fmap option_map mbind option_bind] in Hrun.
  destruct (fast_path_state L vcpu gpa write_fault out_entry out_buddy r0
              Hfast) as (pgd1 & Hvcpu & Hpgd1).
  (* the directory the fast path leaves is still well formed and has no
     huge entry over the address *)
  assert (Hkeep : wf_pgd L pgd1
                  /\ (forall gi mi v,
                        gpa_lookup L pgd1 gpa
                        <> Some (Some (At_pmd gi mi, v)))).
  { destruct Hpgd1 as [->|(p & old & new & Hfind & Hstore)]; [auto|].
    assert (Hp : is_leaf_ptr p).
    { destruct p as [gi mi ti|gi mi]; [exact I|].
      now destruct (Hleaf gi mi old). }
    destruct (store_leaf L _ gpa p old new Hfind Hp)
      as (pgd2 & Hstore' & _ & _ & Hfind2 & Hwf2 & _).
    rewrite Hstore in Hstore'. injection Hstore' as <-.
    split; [auto|]. intros gi mi v. rewrite Hfind2. intros E.
    injection E as -> _. exact Hp. }
  destruct Hkeep as [Hwf1 Hleaf1].
  destruct (fr_err r0 =? 0) eqn:He.
  - (* the fast path did it *)
    injection Hrun as <-.
    destruct (fast_path_success_spec L vcpu gpa write_fault out_entry
                out_buddy r0 Hsoft Hfast Herr)
      as (p & old & new & Hfind & _ & Hstore & _ & Hnew & _ & _ & _ & _ & _
          & _ & Hms).
    assert (Hp : is_leaf_ptr p).
    { destruct p as [gi mi ti|gi mi]; [exact I|].
      now destruct (Hleaf gi mi old). }
    destruct (store_leaf L _ gpa p old new Hfind Hp)
      as (pgd2 & Hstore' & _ & _ & Hfind2 & Hwf2 & _).
    rewrite Hstore in Hstore'. injection Hstore' as <-.
    exists p, new. auto.
  - apply Z.eqb_neq in He.
    destruct (slow_path_maps L h gpa write_fault out_entry out_buddy
                (fr_err r0) (fr_vcpu r0) (fr_events r0) r
                Hps Hpte Hpmd Hpgd Hbits Hinv Hpres Hhuge Hnr Hgpa He)
      as (p & v & H1 & H2 & H3 & H4); rewrite ?Hvcpu;
      cbn [set_kvm vcpu_kvm set_pgd gpa_mm_pgd]; auto.
    + rewrite Hvcpu in Hrun. exact Hrun.
    + exists p, v. rewrite Hvcpu in H4.
      cbn [set_kvm vcpu_kvm set_pgd memslots] in H4. auto.
Qed.

(** ** Examples over [layout16k] for the properties above *)

Lemma wf_ex_pgd_leaf : wf_pgd layout16k ex_pgd_leaf.
Proof. apply wf_pgdb_sound. vm_compute. reflexivity. Qed.

Lemma wf_ex_pgd_two : wf_pgd layout16k ex_pgd_two.
Proof. apply wf_pgdb_sound. vm_compute. reflexivity. Qed.

Lemma walk_with_reserve_finds_a_slot_witness :
  wf_pgd layout16k ex_pgd_leaf /\ 2 <= nobjs ex_cache
  /\ exists p pgd' mc',
       kvm_mips_walk_pgd layout16k ex_pgd_leaf (Some ex_cache) (5 * 2 ^ 30)
       = Some (Some p, pgd', Some mc')
       /\ wf_pgd layout16k pgd'
       /\ nobjs ex_cache - 2 <= nobjs mc' <= nobjs ex_cache
       /\ objects mc' = objects ex_cache
       /\ kvm_mips_walk_pgd layout16k pgd' None (5 * 2 ^ 30)
          = Some (Some p, pgd', None)
       /\ (forall p0 v,
             gpa_lookup layout16k ex_pgd_leaf (5 * 2 ^ 30)
             = Some (Some (p0, v)) ->
             p = p0 /\ pgd' = ex_pgd_leaf /\ mc' = ex_cache)
       /\ (gpa_lookup layout16k ex_pgd_leaf (5 * 2 ^ 30) = Some None ->
           gpa_lookup layout16k pgd' (5 * 2 ^ 30) = Some (Some (p, 0))).
Proof.
  split; [exact wf_ex_pgd_leaf|]. split; [discriminate|].
  apply (walk_with_reserve_finds_a_slot layout16k ex_pgd_leaf ex_cache
           (5 * 2 ^ 30));
    [discriminate | discriminate | discriminate | reflexivity
    | exact wf_ex_pgd_leaf | discriminate].
Defined.

Lemma walk_alloc_keeps_every_mapping_witness :
  wf_pgd layout16k ex_pgd_leaf /\ 2 <= nobjs ex_cache
  /\ exists p pgd' mc',
       kvm_mips_walk_pgd layout16k ex_pgd_leaf (Some ex_cache) (5 * 2 ^ 30)
       = Some (p, pgd', mc')
       /\ forall addr2,
            (forall q v,
               gpa_lookup layout16k ex_pgd_leaf addr2 = Some (Some (q, v)) ->
               gpa_lookup layout16k pgd' addr2 = Some (Some (q, v)))
            /\ (unmapped layout16k (gpa_lookup layout16k ex_pgd_leaf addr2) ->
                unmapped layout16k (gpa_lookup layout16k pgd' addr2)).
Proof.
  split; [exact wf_ex_pgd_leaf|]. split; [discriminate|].
  destruct (kvm_mips_walk_pgd layout16k ex_pgd_leaf (Some ex_cache)
              (5 * 2 ^ 30)) as [[[p pgd'] mc']|] eqn:Hwalk;
    [|vm_compute in Hwalk; discriminate].
  exists p, pgd', mc'. split; [reflexivity|].
  apply (walk_alloc_keeps_every_mapping layout16k ex_pgd_leaf ex_cache
           (5 * 2 ^ 30) p pgd' mc');
    [discriminate | discriminate | discriminate | reflexivity
    | exact wf_ex_pgd_leaf | discriminate | exact Hwalk].
Defined.

Lemma flush_only_removes_witness :
  wf_pgd layout16k (gpa_mm_pgd ex_kvm_two)
  /\ exists r kvm',
       kvm_mips_flush_gpa_pt layout16k ex_kvm_two 0 0 = Some (r, kvm')
       /\ wf_pgd layout16k (gpa_mm_pgd kvm')
       /\ memslots kvm' = memslots ex_kvm_two
       /\ forall addr,
            (forall p v,
               gpa_lookup layout16k (gpa_mm_pgd kvm') addr
               = Some (Some (p, v)) ->
               pte_present layout16k v = true ->
               gpa_lookup layout16k (gpa_mm_pgd ex_kvm_two) addr
               = Some (Some (p, v)))
            /\ (unmapped layout16k
                  (gpa_lookup layout16k (gpa_mm_pgd ex_kvm_two) addr) ->
                unmapped layout16k
                  (gpa_lookup layout16k (gpa_mm_pgd kvm') addr)).
Proof.
  split; [exact wf_ex_pgd_two|].
  destruct (kvm_mips_flush_gpa_pt layout16k ex_kvm_two 0 0)
    as [[r kvm']|] eqn:Hflush; [|vm_compute in Hflush; discriminate].
  exists r, kvm'. split; [reflexivity|].
  apply (flush_only_removes layout16k ex_kvm_two 0 0 r kvm');
    [discriminate | discriminate | discriminate | reflexivity
    | exact wf_ex_pgd_two | exact Hflush].
Defined.

Lemma flush_everything_leaves_fresh_directory_witness :
  wf_pgd layout16k (gpa_mm_pgd ex_kvm_two)
  /\ kvm_mips_flush_gpa_pt layout16k ex_kvm_two 0 (gfn_limit layout16k - 1)
     = Some (true, set_pgd ex_kvm_two (kvm_pgd_init layout16k)).
Proof.
  split; [exact wf_ex_pgd_two|].
  apply (flush_everything_leaves_fresh_directory layout16k ex_kvm_two);
    [discriminate | discriminate | discriminate | discriminate
    | discriminate | exact wf_ex_pgd_two].
Defined.

Lemma ex_slot_in_reach : Forall (slot_in_reach layout16k) [ex_slot].
Proof.
  constructor; [|constructor]. unfold slot_in_reach. cbn.
  change (gfn_limit layout16k) with (2 ^ 33).
  change (PAGE_SIZE layout16k) with (2 ^ 14).
  change modulus with (2 ^ 64). lia.
Qed.

Lemma hva_range_off_every_slot_witness :
  let start := 2 ^ 29 in
  let end_ := 2 ^ 29 + 2 ^ 14 in
  Forall (slot_in_reach layout16k) (memslots ex_kvm_leaf)
  /\ (forall s k,
        In s (memslots ex_kvm_leaf) ->
        ~ page_meets layout16k s k start end_)
  /\ (forall handler,
        handle_hva_to_gpa layout16k ex_kvm_leaf start end_ handler
        = Some (0, ex_kvm_leaf))
  /\ kvm_age_hva layout16k ex_kvm_leaf start end_ = Some (0, ex_kvm_leaf)
  /\ kvm_unmap_hva_range layout16k ex_kvm_leaf start end_
     = Some (0, ex_kvm_leaf, [kvm_vz_flush_shadow_all])
  /\ (end_ = uadd start (PAGE_SIZE layout16k) ->
      forall pte,
        kvm_set_spte_hva layout16k ex_kvm_leaf start pte
        = Some (ex_kvm_leaf, [])).
Proof.
  intros start end_.
  assert (Hoff : forall s k,
            In s (memslots ex_kvm_leaf) ->
            ~ page_meets layout16k s k start end_).
  { intros s k [<-|[]] (Hk & _ & _ & Hlt). cbn in Hk, Hlt.
    change (PAGE_SIZE layout16k) with (2 ^ 14) in Hlt.
    subst start. lia. }
  split; [exact ex_slot_in_reach|]. split; [exact Hoff|].
  apply (hva_range_off_every_slot layout16k ex_kvm_leaf start end_);
    [discriminate | discriminate | discriminate | discriminate
    | discriminate | exact ex_slot_in_reach | exact Hoff].
Defined.

Lemma unmap_hva_range_unmaps_every_backed_frame_witness :
  let start := 2 ^ 28 in
  let end_ := 2 ^ 28 + 2 ^ 14 in
  Forall (slot_in_reach layout16k) (memslots ex_kvm_leaf)
  /\ wf_pgd layout16k (gpa_mm_pgd ex_kvm_leaf)
  /\ exists kvm',
       kvm_unmap_hva_range layout16k ex_kvm_leaf start end_
       = Some (0, kvm', [kvm_vz_flush_shadow_all])
       /\ wf_pgd layout16k (gpa_mm_pgd kvm')
       /\ memslots kvm' = memslots ex_kvm_leaf
       /\ (forall s k,
             In s (memslots ex_kvm_leaf) ->
             page_meets layout16k s k start end_ ->
             unmapped layout16k
               (gpa_lookup layout16k (gpa_mm_pgd kvm')
                  (ushl (base_gfn s + k) (PAGE_SHIFT layout16k))))
       /\ forall addr,
            gpa_lookup layout16k (gpa_mm_pgd kvm') addr
            = gpa_lookup layout16k (gpa_mm_pgd ex_kvm_leaf) addr
            \/ unmapped layout16k
                 (gpa_lookup layout16k (gpa_mm_pgd kvm') addr).
Proof.
  intros start end_.
  split; [exact ex_slot_in_reach|]. split; [exact wf_ex_pgd_leaf|].
  apply (unmap_hva_range_unmaps_every_backed_frame layout16k ex_kvm_leaf
           start end_);
    [discriminate | discriminate | discriminate | discriminate
    | discriminate | reflexivity | exact ex_slot_in_reach
    | exact wf_ex_pgd_leaf].
Defined.

Lemma set_spte_hva_replaces_the_entry_witness :
  let hva := 2 ^ 28 in
  let pte := pfn_pte layout16k 78 prot_ro in
  let gfn := base_gfn ex_slot
             + (hva - userspace_addr ex_slot) / PAGE_SIZE layout16k in
  let gpa := ushl gfn (PAGE_SHIFT layout16k) in
  memslots ex_kvm_leaf = [] ++ ex_slot :: []
  /\ Forall (slot_in_reach layout16k) (memslots ex_kvm_leaf)
  /\ (forall s' k,
        In s' ([] ++ []) ->
        ~ page_meets layout16k s' k hva (hva + PAGE_SIZE layout16k))
  /\ userspace_addr ex_slot <= hva
     < userspace_addr ex_slot + npages ex_slot * PAGE_SIZE layout16k
  /\ (gpa_lookup layout16k (gpa_mm_pgd ex_kvm_leaf) gpa = Some None ->
      kvm_set_spte_hva layout16k ex_kvm_leaf hva pte
      = Some (ex_kvm_leaf, []))
  /\ forall p old,
       gpa_lookup layout16k (gpa_mm_pgd ex_kvm_leaf) gpa
       = Some (Some (p, old)) ->
       exists pgd',
         kvm_set_spte_hva layout16k ex_kvm_leaf hva pte
         = Some (set_pgd ex_kvm_leaf pgd',
                 if pte_present layout16k old && pte_young layout16k old
                    && (negb (pte_present layout16k pte)
                        || negb (pte_young layout16k pte)
                        || negb (pte_pfn layout16k old
                                 =? pte_pfn layout16k pte)
                        || pte_dirty layout16k old
                           && negb (pte_dirty layout16k pte))
                 then [kvm_vz_flush_shadow_all] else [])
         /\ load pgd' p = Some pte
         /\ (is_leaf_ptr p ->
             gpa_lookup layout16k pgd' gpa = Some (Some (p, pte))
             /\ (wf_pgd layout16k (gpa_mm_pgd ex_kvm_leaf) ->
                 wf_pgd layout16k pgd')).
Proof.
  intros hva pte gfn gpa.
  assert (Hin : userspace_addr ex_slot <= hva
                < userspace_addr ex_slot
                  + npages ex_slot * PAGE_SIZE layout16k)
    by (split; [discriminate | reflexivity]).
  split; [reflexivity|]. split; [exact ex_slot_in_reach|].
  split; [intros s' k []|]. split; [exact Hin|].
  apply (set_spte_hva_replaces_the_entry layout16k ex_kvm_leaf [] []
           ex_slot hva pte);
    [discriminate | discriminate | discriminate | discriminate
    | discriminate | reflexivity | exact ex_slot_in_reach
    | intros s' k [] | exact Hin].
Defined.

Lemma huge_mapping_allowed_inside_aligned_slot_witness :
  let memslot := mk_slot 0 (3 * 2048) (2 ^ 30) false false in
  let hva := 2 ^ 30 + 2 ^ 25 + 5 in
  0 <= 25 <= wordsize /\ 0 <= hva /\ hva + 2 ^ 25 < modulus
  /\ 0 <= base_gfn memslot /\ 0 <= npages memslot
  /\ 0 <= userspace_addr memslot
  /\ userspace_addr memslot + npages memslot * PAGE_SIZE layout16k < modulus
  /\ (base_gfn memslot * PAGE_SIZE layout16k) mod 2 ^ 25
     = userspace_addr memslot mod 2 ^ 25
  /\ userspace_addr memslot <= hva - hva mod 2 ^ 25
  /\ hva - hva mod 2 ^ 25 + 2 ^ 25
     <= userspace_addr memslot + npages memslot * PAGE_SIZE layout16k
  /\ fault_supports_huge_mapping layout16k memslot hva (2 ^ 25) = true.
Proof.
  intros memslot hva.
  split; [split; discriminate|]. split; [discriminate|].
  split; [reflexivity|]. split; [discriminate|]. split; [discriminate|].
  split; [discriminate|]. split; [reflexivity|]. split; [reflexivity|].
  split; [discriminate|]. split; [discriminate|].
  apply (huge_mapping_allowed_inside_aligned_slot layout16k memslot hva 25);
    [discriminate | split; discriminate | discriminate | reflexivity
    | discriminate | discriminate | discriminate | reflexivity
    | reflexivity | discriminate | discriminate].
Defined.

Lemma thp_adjust_moves_to_the_head_page_witness :
  let thp := fun _ : Z => true in
  let pfn := 2048 * 5 + 3 in
  let gpa := (2048 * 7 + 3) * 2 ^ 14 in
  let mask := PTRS_PER_PMD layout16k - 1 in
  let gfn := ushr gpa (PAGE_SHIFT layout16k) in
  0 <= PMD_BITS layout16k <= wordsize /\ 0 <= pfn < modulus
  /\ (thp pfn = false ->
      transparent_hugepage_adjust layout16k thp pfn gpa
      = Some (false, pfn, gpa, []))
  /\ (thp pfn = true -> Z.land gfn mask <> Z.land pfn mask ->
      transparent_hugepage_adjust layout16k thp pfn gpa = None)
  /\ (thp pfn = true -> Z.land gfn mask = Z.land pfn mask ->
      exists pfn' gpa' evs,
        transparent_hugepage_adjust layout16k thp pfn gpa
        = Some (true, pfn', gpa', evs)
        /\ pfn' = pfn - pfn mod PTRS_PER_PMD layout16k
        /\ Z.land pfn' mask = 0
        /\ (pfn' = pfn -> gpa' = gpa /\ evs = [])
        /\ (pfn' <> pfn ->
            gpa' = Z.land gpa (PMD_MASK layout16k)
            /\ evs = [kvm_release_pfn_clean pfn; kvm_get_pfn pfn'])).
Proof.
  intros thp pfn gpa mask gfn.
  split; [split; discriminate|]. split; [split; [discriminate|reflexivity]|].
  apply (thp_adjust_moves_to_the_head_page layout16k thp pfn gpa);
    [split; discriminate | split; [discriminate|reflexivity]].
Defined.

Lemma set_pmd_huge_installs_the_entry_witness :
  let addr := 2 ^ 25 in
  let gi := pgd_index layout16k addr in
  let mi := __pmd_offset layout16k addr in
  wf_pgd layout16k (gpa_mm_pgd ex_kvm_leaf) /\ 0 <= addr < modulus
  /\ pmdv_huge layout16k ex_huge_dirty = true /\ 1 <= nobjs ex_cache
  /\ exists kvm' mc' evs,
       kvm_mips_set_pmd_huge layout16k 2 ex_kvm_leaf (Some ex_cache) addr
         ex_huge_dirty
       = Some (0, kvm', Some mc', evs)
       /\ load_pmd (gpa_mm_pgd kvm') (gi, mi)
          = Some (Pmd_val ex_huge_dirty)
       /\ gpa_lookup layout16k (gpa_mm_pgd kvm') addr
          = Some (Some (At_pmd gi mi, ex_huge_dirty))
       /\ wf_pgd layout16k (gpa_mm_pgd kvm')
       /\ memslots kvm' = memslots ex_kvm_leaf
       /\ nobjs ex_cache - 1 <= nobjs mc' <= nobjs ex_cache
       /\ (evs = []
           \/ exists pre,
                evs = pre ++ [kvm_vz_host_tlb_inv
                                (Z.land addr (PMD_MASK layout16k));
                              pmd_set_at addr ex_huge_dirty]
                /\ quiet pre)
       /\ (evs = []
           <-> load_pmd (gpa_mm_pgd ex_kvm_leaf) (gi, mi)
               = Some (Pmd_val ex_huge_dirty)).
Proof.
  intros addr gi mi.
  split; [exact wf_ex_pgd_leaf|].
  split; [split; [discriminate|reflexivity]|].
  split; [reflexivity|]. split; [discriminate|].
  apply (set_pmd_huge_installs_the_entry layout16k ex_kvm_leaf ex_cache addr
           ex_huge_dirty 0);
    [discriminate | discriminate | reflexivity | discriminate
    | discriminate | reflexivity | exact wf_ex_pgd_leaf
    | split; [discriminate|reflexivity] | reflexivity | discriminate].
Defined.

Lemma dune_round_trip_below_the_stack_witness :
  let mm := mk_mm (2 ^ 40) (2 ^ 47 - 2 ^ 20) in
  let hva := 2 ^ 40 - 2 ^ 36 + 2 ^ 30 + 5 in
  2 < dune_GPA_STACK_SIZE /\ 0 <= dune_GPA_MAP_SIZE
  /\ dune_GPA_STACK_SIZE + dune_GPA_MAP_SIZE < modulus
  /\ 0 <= hva < modulus
  /\ hva < usub (dune_LG_ALIGN (start_stack mm)) dune_GPA_STACK_SIZE
  /\ dune_hva_to_gpa dune_GPA_STACK_SIZE dune_GPA_MAP_SIZE dune_LG_ALIGN mm hva
     <> ADDR_INVAL
  /\ dune_gpa_to_hva dune_GPA_STACK_SIZE dune_GPA_MAP_SIZE dune_LG_ALIGN mm
       (dune_hva_to_gpa dune_GPA_STACK_SIZE dune_GPA_MAP_SIZE dune_LG_ALIGN
          mm hva)
     = hva.
Proof.
  intros mm hva.
  assert (Hvalid : dune_hva_to_gpa dune_GPA_STACK_SIZE dune_GPA_MAP_SIZE
                     dune_LG_ALIGN mm hva <> ADDR_INVAL)
    by (vm_compute; discriminate).
  split; [reflexivity|]. split; [discriminate|]. split; [reflexivity|].
  split; [split; [discriminate|reflexivity]|]. split; [reflexivity|].
  split; [exact Hvalid|].
  apply (dune_round_trip_below_the_stack dune_GPA_STACK_SIZE
           dune_GPA_MAP_SIZE dune_LG_ALIGN mm hva);
    [reflexivity | discriminate | reflexivity
    | split; [discriminate|reflexivity] | reflexivity | exact Hvalid].
Defined.

Lemma ex_soft_bits_apart : soft_bits_apart layout16k.
Proof. unfold soft_bits_apart. cbn. repeat split; discriminate. Qed.

Lemma fast_path_success_leaves_a_present_entry_witness :
  let vcpu := mk_vcpu ex_kvm_leaf ex_cache 0 in
  soft_bits_apart layout16k
  /\ exists r,
       _kvm_mips_map_page_fast layout16k vcpu 0 false true false = Some r
       /\ fr_err r = 0
       /\ exists p old new,
            gpa_lookup layout16k (gpa_mm_pgd (vcpu_kvm vcpu)) 0
            = Some (Some (p, old))
            /\ pte_present layout16k old = true
            /\ load (gpa_mm_pgd (vcpu_kvm (fr_vcpu r))) p = Some new
            /\ pte_present layout16k new = true
            /\ pte_young layout16k new = true
            /\ (false = true -> pte_dirty layout16k new = true)
            /\ (pte_dirty layout16k new = true ->
                pte_dirty layout16k old = true
                \/ (false = true /\ pte_write layout16k old = true))
            /\ (pte_write layout16k old = true ->
                pte_write layout16k new = true)
            /\ (true = true -> fr_entry r = Some new)
            /\ mmu_page_cache (fr_vcpu r) = mmu_page_cache vcpu
            /\ memslots (vcpu_kvm (fr_vcpu r)) = memslots (vcpu_kvm vcpu).
Proof.
  intros vcpu. split; [exact ex_soft_bits_apart|].
  destruct (_kvm_mips_map_page_fast layout16k vcpu 0 false true false)
    as [r|] eqn:Hrun; [|vm_compute in Hrun; discriminate].
  assert (Herr : fr_err r = 0).
  { assert (H : fr_err <$> _kvm_mips_map_page_fast layout16k vcpu 0 false
                             true false = Some 0)
      by (vm_compute; reflexivity).
    rewrite Hrun in H. now injection H. }
  exists r. split; [reflexivity|]. split; [exact Herr|].
  apply (fast_path_success_leaves_a_present_entry layout16k vcpu 0 false true
           false r);
    [exact ex_soft_bits_apart | exact Hrun | exact Herr].
Defined.

Lemma fast_path_fails_closed_witness :
  let vcpu := mk_vcpu ex_kvm_leaf ex_cache 0 in
  let gpa := 0 in
  soft_bits_apart layout16k
  /\ (forall write_fault,
        unmapped layout16k
          (gpa_lookup layout16k (gpa_mm_pgd (vcpu_kvm vcpu)) gpa) ->
        _kvm_mips_map_page_fast layout16k vcpu gpa write_fault true false
        = Some (mk_result (- EFAULT) vcpu None None []))
  /\ (forall p old,
        gpa_lookup layout16k (gpa_mm_pgd (vcpu_kvm vcpu)) gpa
        = Some (Some (p, old)) ->
        pte_present layout16k old = true ->
        pte_dirty layout16k old = false ->
        pte_write layout16k old = false ->
        let y := if pte_young layout16k old then old
                 else pte_mkyoung layout16k old in
        exists vcpu',
          _kvm_mips_map_page_fast layout16k vcpu gpa true true false
          = Some (mk_result (- EFAULT) vcpu' None None
                    (if pte_young layout16k old then []
                     else [kvm_set_pfn_accessed (pte_pfn layout16k y)]))
          /\ load (gpa_mm_pgd (vcpu_kvm vcpu')) p = Some y
          /\ pte_dirty layout16k y = false
          /\ pte_write layout16k y = false
          /\ (pte_young layout16k old = true -> vcpu' = vcpu)
          /\ mmu_page_cache vcpu' = mmu_page_cache vcpu
          /\ memslots (vcpu_kvm vcpu') = memslots (vcpu_kvm vcpu)).
Proof.
  intros vcpu gpa. split; [exact ex_soft_bits_apart|].
  apply (fast_path_fails_closed layout16k vcpu gpa true false).
  exact ex_soft_bits_apart.
Defined.

Lemma map_page_success_maps_the_address_witness :
  let vcpu := mk_vcpu ex_kvm_leaf ex_cache 0 in
  let h := mk_host (fun _ => Some (2 ^ 14)) (fun _ => false) []
             [mk_attempt (fun _ _ => Some (99, true)) false] in
  let gpa := 2 ^ 14 in
  soft_bits_apart layout16k
  /\ 0 <= gpa < modulus
  /\ Z.land (ushr (host_cp0_cause vcpu) (CAUSEB_EXCCODE layout16k)) 31
     <> EXCCODE_TLBRI layout16k
  /\ Z.land (ushr (host_cp0_cause vcpu) (CAUSEB_EXCCODE layout16k)) 31
     <> EXCCODE_TLBXI layout16k
  /\ wf_pgd layout16k (gpa_mm_pgd (vcpu_kvm vcpu))
  /\ (forall gi mi v,
        gpa_lookup layout16k (gpa_mm_pgd (vcpu_kvm vcpu)) gpa
        <> Some (Some (At_pmd gi mi, v)))
  /\ exists r,
       kvm_mips_map_page layout16k vcpu h gpa true true false = Some r
       /\ fr_err r = 0
       /\ exists p v,
            gpa_lookup layout16k (gpa_mm_pgd (vcpu_kvm (fr_vcpu r))) gpa
            = Some (Some (p, v))
            /\ pte_present layout16k v = true
            /\ wf_pgd layout16k (gpa_mm_pgd (vcpu_kvm (fr_vcpu r)))
            /\ memslots (vcpu_kvm (fr_vcpu r)) = memslots (vcpu_kvm vcpu).
Proof.
  intros vcpu h gpa.
  assert (Hleaf : forall gi mi v,
            gpa_lookup layout16k (gpa_mm_pgd (vcpu_kvm vcpu)) gpa
            <> Some (Some (At_pmd gi mi, v)))
    by (intros gi mi v; vm_compute; discriminate).
  assert (Hgpa : 0 <= gpa < modulus) by (split; [discriminate|reflexivity]).
  split; [exact ex_soft_bits_apart|]. split; [exact Hgpa|].
  split; [discriminate|]. split; [discriminate|].
  split; [exact wf_ex_pgd_leaf|]. split; [exact Hleaf|].
  destruct (kvm_mips_map_page layout16k vcpu h gpa true true false)
    as [r|] eqn:Hrun; [|vm_compute in Hrun; discriminate].
  assert (Herr : fr_err r = 0).
  { assert (H : fr_err <$> kvm_mips_map_page layout16k vcpu h gpa true true
                             false = Some 0)
      by (vm_compute; reflexivity).
    rewrite Hrun in H. now injection H. }
  exists r. split; [reflexivity|]. split; [exact Herr|].
  apply (map_page_success_maps_the_address layout16k vcpu h gpa true true
           false r);
    [discriminate | discriminate | reflexivity | discriminate
    | discriminate | reflexivity | exact ex_soft_bits_apart | discriminate
    | discriminate | discriminate | exact Hgpa | discriminate
    | discriminate | exact wf_ex_pgd_leaf | exact Hleaf | exact Hrun
    | exact Herr].
Defined.

(** ** Range operations: what the loops do, slot by slot *)

Lemma lor_bit a b : (a = 0 \/ a = 1) -> (b = 0 \/ b = 1) ->
  Z.lor a b = 0 \/ Z.lor a b = 1.
Proof. intros [-> | ->] [-> | ->]; cbn; auto. Qed.

(** A loop whose body rewrites the visited slot as [slot] prescribes and
    ors the slot's report into [ret] is [range_slotwise]. *)
Section RangeLoop.
Context {A : Type}.
Variable slot : Z -> Z -> A -> option (A * Z).
Variable body : Z -> Z -> Z -> Z -> list A * Z * Z
                -> option (list A * Z * Z).
Hypothesis body_spec :
  forall i_max end_ i start tbl cur_end ret tbl' end' ret',
    body i_max end_ i start (tbl, cur_end, ret) = Some (tbl', end', ret') ->
    exists old new r,
      tbl !! idx i = Some old
      /\ slot start (if i =? i_max then end_ else cur_end) old
         = Some (new, r)
      /\ tbl' = <[idx i := new]> tbl
      /\ ret' = Z.lor ret r
      /\ (i < i_max -> end' = cur_end).

Lemma range_loop_slotwise i_min i_max start end_ tbl tbl' end' ret' :
  0 <= i_min ->
  for_range (trip_count i_min i_max) i_min start
    (body i_max end_) (tbl, ULONG_MAX, 0) = Some (tbl', end', ret') ->
  range_slotwise (fun x => slot (slot_start i_min start x)
                                (slot_end i_max end_ x))
                 i_min i_max tbl tbl' ret'.
Proof.
  intros Hmin Hrun.
  destruct (Z_lt_le_dec i_max i_min) as [Hempty|Hle].
  { rewrite trip_count_empty in Hrun by lia. cbn in Hrun. simplify_eq.
    split; [reflexivity|]. split.
    { intros x Hx. split; [lia | reflexivity]. }
    split; [congruence | auto]. }
  set (sl := fun x => slot (slot_start i_min start x)
                           (slot_end i_max end_ x)).
  set (P := fun (j : Z) (st : list A * Z * Z) =>
    let '(t, e, s) := st in
    length t = length tbl
    /\ (j <= i_max -> e = ULONG_MAX)
    /\ (forall x : Z, 0 <= x ->
          (i_min <= x < j ->
           exists old new r,
             tbl !! idx x = Some old /\ t !! idx x = Some new
             /\ sl x old = Some (new, r)
             /\ (s = 0 -> r = 0))
          /\ (~ (i_min <= x < j) -> t !! idx x = tbl !! idx x))
    /\ (s <> 0 ->
        exists x old new r,
          i_min <= x < j /\ tbl !! idx x = Some old
          /\ sl x old = Some (new, r) /\ r <> 0)
    /\ ((forall x old new r,
           i_min <= x < j -> tbl !! idx x = Some old ->
           sl x old = Some (new, r) -> r = 0 \/ r = 1) ->
        s = 0 \/ s = 1)).
  assert (Hfinal : P (i_min + Z.of_nat (trip_count i_min i_max))
                     (tbl', end', ret')).
  { apply (for_range_inv (body i_max end_) P i_min start
             (trip_count i_min i_max) i_min (tbl, ULONG_MAX, 0));
      [lia | now rewrite Z.eqb_refl | |].
    - cbn. split; [reflexivity|]. split; [reflexivity|]. split.
      { intros x Hx. split; [lia | reflexivity]. }
      split; [congruence | auto].
    - intros j [[t e] s] [[t1 e1] s1] Hj
             (Hlen & Hend & Hslots & Hhit & Hbit) Hbody.
      rewrite trip_count_end in Hj by lia.
      apply body_spec in Hbody
        as (old & new & r & Hold & Hslot & -> & -> & He1).
      assert (Hjlen : (idx j < length t)%nat)
        by (apply lookup_lt_Some in Hold; exact Hold).
      assert (Hold0 : tbl !! idx j = Some old).
      { destruct (Hslots j ltac:(lia)) as [_ Hout].
        rewrite <- Hout by lia. exact Hold. }
      rewrite (Hend ltac:(lia)) in Hslot.
      fold (slot_end i_max end_ j) in Hslot.
      fold (slot_start i_min start j) in Hslot.
      change (sl j old = Some (new, r)) in Hslot.
      cbn. split; [now rewrite length_insert|].
      split; [intros; rewrite He1 by lia; apply Hend; lia|].
      split; [|split].
      + intros x Hx. split.
        * intros Hxj. destruct (Z.eq_dec x j) as [->|Hne].
          -- exists old, new, r.
             rewrite list_lookup_insert_eq by exact Hjlen.
             split; [exact Hold0|]. split; [reflexivity|].
             split; [exact Hslot|].
             now intros [_ ?]%Z.lor_eq_0_iff.
          -- destruct (Hslots x Hx) as [Hin _].
             destruct (Hin ltac:(lia)) as (o & n & r' & Ho & Hn & Hs & Hr).
             exists o, n, r'.
             rewrite list_lookup_insert_ne
               by (intros Heq; apply idx_inj in Heq; lia).
             split; [exact Ho|]. split; [exact Hn|]. split; [exact Hs|].
             intros [? _]%Z.lor_eq_0_iff. auto.
        * intros Hout. destruct (Hslots x Hx) as [_ Hout'].
          rewrite list_lookup_insert_ne
            by (intros Heq; apply idx_inj in Heq; lia).
          apply Hout'. lia.
      + intros Hne. destruct (Z.eq_dec r 0) as [->|Hr].
        * rewrite Z.lor_0_r in Hne.
          destruct (Hhit Hne) as (x & o & n & r' & Hx & Ho & Hs & Hr').
          exists x, o, n, r'. split; [lia | auto].
        * exists j, old, new, r. split; [lia | auto].
      + intros Hall. apply lor_bit.
        * apply Hbit. intros x o n r' Hx. apply Hall. lia.
        * apply (Hall j old new r); [lia | exact Hold0 | exact Hslot]. }
  rewrite trip_count_end in Hfinal by lia.
  cbn in Hfinal. destruct Hfinal as (Hlen & _ & Hslots & Hhit & Hbit).
  split; [exact Hlen|]. split; [|split].
  - intros x Hx. destruct (Hslots x Hx) as [Hin Hout]. split.
    + intros Hr. apply Hin. lia.
    + intros Hr. apply Hout. lia.
  - intros Hne. destruct (Hhit Hne) as (x & o & n & r & Hx & Ho & Hs & Hr).
    exists x, o, n, r. split; [lia | auto].
  - intros Hall. apply Hbit. intros x o n r Hx. apply Hall. lia.
Qed.
End RangeLoop.

(** Such a loop returns when every slot it visits can be rewritten. *)
Section RangeLoopTotal.
Context {A : Type}.
Variable slot : Z -> Z -> A -> option (A * Z).
Variable body : Z -> Z -> Z -> Z -> list A * Z * Z
                -> option (list A * Z * Z).
Hypothesis body_total :
  forall i_max end_ i start tbl cur_end ret old new r,
    tbl !! idx i = Some old ->
    slot start (if i =? i_max then end_ else cur_end) old = Some (new, r) ->
    exists end',
      body i_max end_ i start (tbl, cur_end, ret)
      = Some (<[idx i := new]> tbl, end', Z.lor ret r)
      /\ (i < i_max -> end' = cur_end).

Lemma range_loop_total i_min i_max start end_ tbl ret :
  0 <= i_min ->
  (forall x, i_min <= x <= i_max ->
     exists old,
       tbl !! idx x = Some old
       /\ is_Some (slot (slot_start i_min start x)
                        (slot_end i_max end_ x) old)) ->
  is_Some (for_range (trip_count i_min i_max) i_min start
             (body i_max end_) (tbl, ULONG_MAX, ret)).
Proof.
  intros Hmin Hslots.
  destruct (Z_lt_le_dec i_max i_min) as [Hempty|Hle].
  { rewrite trip_count_empty by lia. cbn. eauto. }
  set (P := fun (j : Z) (st : list A * Z * Z) =>
    let '(t, e, s) := st in
    (j <= i_max -> e = ULONG_MAX)
    /\ forall x, j <= x -> t !! idx x = tbl !! idx x).
  pose proof (for_range_total (body i_max end_) P i_min start
                (trip_count i_min i_max) i_min (tbl, ULONG_MAX, ret))
    as Htot.
  rewrite Z.eqb_refl in Htot. apply Htot; [lia | cbn; auto |].
  intros j [[t e] s] Hj [Hend Hsame].
  rewrite trip_count_end in Hj by lia.
  destruct (Hslots j ltac:(lia)) as (old & Hold & [[new r] Hslot]).
  rewrite <- (Hsame j ltac:(lia)) in Hold.
  unfold slot_start, slot_end in Hslot.
  rewrite <- (Hend ltac:(lia)) in Hslot.
  destruct (body_total i_max end_ j _ t e s old new r Hold Hslot)
    as (e' & Hbody & He').
  eexists. split; [exact Hbody|]. cbn. split.
  - intros. rewrite He' by lia. apply Hend. lia.
  - intros x Hx. rewrite list_lookup_insert_ne
      by (intros Heq; apply idx_inj in Heq; lia).
    apply Hsame. lia.
Qed.
End RangeLoopTotal.

Section RangeLevels.
Variable L : layout.
Variables op op1 : Z -> Z.

Lemma range_pte_char pte start end_ r pte' :
  0 <= PTE_BITS L ->
  kvm_mips_range_pte L op pte start end_ = Some (r, pte') ->
  let i_min := __pte_offset L start in
  let i_max := __pte_offset L end_ in
  length pte' = length pte
  /\ (forall x, 0 <= x ->
        pte' !! idx x
        = if (i_min <=? x) && (x <=? i_max)
          then range_pte_slot L op <$> pte !! idx x
          else pte !! idx x)
  /\ (r = 0 \/ r = 1)
  /\ (r = 1 <->
      exists x e,
        i_min <= x <= i_max /\ pte !! idx x = Some e
        /\ range_pte_hit L op e = true).
Proof.
  intros Hbits Hrun i_min i_max. unfold kvm_mips_range_pte in Hrun.
  fold i_min i_max in Hrun.
  destruct (for_range _ i_min start _ _) as [[t s]|] eqn:Hloop;
    [|discriminate].
  cbn [mbind option_bind] in Hrun. simplify_eq.
  pose proof (pte_offset_range L start Hbits) as Hmin. fold i_min in Hmin.
  destruct (Z_lt_le_dec i_max i_min) as [Hempty|Hle].
  { rewrite trip_count_empty in Hloop by lia. cbn in Hloop. simplify_eq.
    split; [reflexivity|]. split.
    { intros x Hx.
      destruct (Z.leb_spec i_min x), (Z.leb_spec x i_max); cbn; auto; lia. }
    split; [now left|]. split; [discriminate|].
    intros (x & e & Hx & _). lia. }
  set (P := fun (j : Z) (st : list Z * Z) =>
    let '(t, s) := st in
    length t = length pte
    /\ (forall x, 0 <= x ->
          t !! idx x = if (i_min <=? x) && (x <? j)
                       then range_pte_slot L op <$> pte !! idx x
                       else pte !! idx x)
    /\ (s = 0 \/ s = 1)
    /\ (s = 1 <->
        exists x e,
          i_min <= x < j /\ pte !! idx x = Some e
          /\ range_pte_hit L op e = true)).
  assert (Hfinal : P (i_min + Z.of_nat (trip_count i_min i_max)) (pte', r)).
  { apply (for_range_inv (range_pte_body L op) P i_min start
             (trip_count i_min i_max) i_min (pte, 0));
      [lia | now rewrite Z.eqb_refl | |].
    - split; [reflexivity|]. split.
      { intros x Hx.
        destruct (Z.leb_spec i_min x), (Z.ltb_spec x i_min); cbn; auto; lia. }
      split; [now left|]. split; [discriminate|].
      intros (x & e & Hx & _). lia.
    - intros j [t s] [t1 s1] Hj (Hlen & Hslots & Hbit & Hhit) Hbody.
      rewrite trip_count_end in Hj by lia.
      unfold range_pte_body in Hbody.
      destruct (t !! idx j) as [e|] eqn:He; [|discriminate].
      cbn [mbind option_bind] in Hbody.
      assert (He0 : pte !! idx j = Some e).
      { rewrite <- He, (Hslots j ltac:(lia)).
        destruct (Z.ltb_spec j j); [lia|]. now rewrite andb_false_r. }
      assert (Hstep : t1 = <[idx j := range_pte_slot L op e]> t
                      /\ s1 = if range_pte_hit L op e then 1 else s).
      { unfold range_pte_slot, range_pte_hit.
        destruct (pte_present L e); cbn [negb andb] in Hbody |- *.
        - destruct (Z.eqb_spec (op e) e) as [Heq|Hne]; cbn [negb];
            simplify_eq; [|auto].
          rewrite Heq. now rewrite list_insert_id.
        - simplify_eq. now rewrite list_insert_id. }
      destruct Hstep as [-> ->].
      split; [now rewrite length_insert|]. split; [|split].
      + intros x Hx. destruct (Z.eq_dec x j) as [->|Hne].
        * rewrite list_lookup_insert_eq
            by (apply lookup_lt_Some in He; exact He).
          destruct (Z.leb_spec i_min j), (Z.ltb_spec j (j + 1)); try lia.
          cbn. now rewrite He0.
        * rewrite list_lookup_insert_ne
            by (intros Heq; apply idx_inj in Heq; lia).
          rewrite (Hslots x Hx).
          destruct (Z.leb_spec i_min x), (Z.ltb_spec x j),
                   (Z.ltb_spec x (j + 1)); cbn; auto; lia.
      + destruct (range_pte_hit L op e); auto.
      + destruct (range_pte_hit L op e) eqn:Hh.
        * split; [|reflexivity]. intros _. exists j, e.
          split; [lia | auto].
        * rewrite Hhit. split.
          -- intros (x & e' & Hx & Hrest). exists x, e'. split; [lia | auto].
          -- intros (x & e' & Hx & He' & Hh').
             destruct (Z.eq_dec x j) as [->|Hne]; [congruence|].
             exists x, e'. split; [lia | auto]. }
  rewrite trip_count_end in Hfinal by lia.
  destruct Hfinal as (Hlen & Hslots & Hbit & Hhit).
  split; [exact Hlen|]. split; [|split; [exact Hbit|]].
  - intros x Hx. rewrite (Hslots x Hx).
    destruct (Z.leb_spec i_min x), (Z.ltb_spec x (i_max + 1)),
             (Z.leb_spec x i_max); cbn; auto; lia.
  - rewrite Hhit. split; intros (x & e & Hx & Hrest); exists x, e;
      (split; [lia | auto]).
Qed.

Lemma range_pte_total pte start end_ :
  0 <= PTE_BITS L -> length pte = Z.to_nat (PTRS_PER_PTE L) ->
  is_Some (kvm_mips_range_pte L op pte start end_).
Proof.
  intros Hbits Hlen. unfold kvm_mips_range_pte.
  set (i_min := __pte_offset L start).
  set (i_max := __pte_offset L end_).
  pose proof (pte_offset_range L start Hbits) as Hmin.
  pose proof (pte_offset_range L end_ Hbits) as Hmax.
  fold i_min in Hmin. fold i_max in Hmax.
  assert (Hloop : is_Some (for_range (trip_count i_min i_max) i_min start
                             (range_pte_body L op) (pte, 0))).
  { destruct (Z_lt_le_dec i_max i_min) as [Hempty|Hle].
    { rewrite trip_count_empty by lia. cbn. eauto. }
    pose proof (for_range_total (range_pte_body L op)
                  (fun _ st => length (fst st) = length pte) i_min start
                  (trip_count i_min i_max) i_min (pte, 0)) as Htot.
    rewrite Z.eqb_refl in Htot. apply Htot; [lia | reflexivity |].
    intros j [t s] Hj Ht. cbn [fst] in Ht.
    rewrite trip_count_end in Hj by lia.
    unfold range_pte_body.
    destruct (lookup_in_table t (PTRS_PER_PTE L) j ltac:(congruence)
                ltac:(lia)) as [e He].
    rewrite He. cbn [mbind option_bind].
    destruct (negb (pte_present L e)); [eexists; split; eauto|].
    destruct (op e =? e); eexists; split; eauto.
    cbn [fst]. now rewrite length_insert. }
  destruct Hloop as [[t s] ->]. cbn. eauto.
Qed.

(** *** The middle level *)

Lemma range_pmd_body_spec i_max end_ i start tbl cur_end ret tbl' end'
    ret' :
  range_pmd_body L op op1 i_max end_ i start (tbl, cur_end, ret)
  = Some (tbl', end', ret') ->
  exists old new r,
    tbl !! idx i = Some old
    /\ range_pmd_slot L op op1 start (if i =? i_max then end_ else cur_end)
         old = Some (new, r)
    /\ tbl' = <[idx i := new]> tbl
    /\ ret' = Z.lor ret r
    /\ (i < i_max -> end' = cur_end).
Proof.
  unfold range_pmd_body, range_pmd_slot. intros H.
  destruct (tbl !! idx i) as [old|] eqn:Hold; [|discriminate].
  cbn [mbind option_bind] in H. exists old.
  destruct (pmd_present L old); cbn [negb] in *.
  - destruct (pmd_huge L old).
    + destruct old as [v|pte]; [|discriminate].
      exists (Pmd_val (op1 v)), 0. rewrite Z.lor_0_r.
      destruct (Z.eqb_spec (op1 v) v) as [Heq|Hne]; simplify_eq.
      * rewrite Heq, list_insert_id by exact Hold. auto.
      * auto.
    + destruct (pte_table_of old) as [pte|]; [|discriminate].
      cbn [mbind option_bind] in *.
      destruct (kvm_mips_range_pte L op pte start _) as [[r pte']|];
        [|discriminate].
      cbn [mbind option_bind] in *. simplify_eq.
      exists (Pmd_table pte'), r.
      split; [reflexivity|]. split; [reflexivity|]. split; [reflexivity|].
      split; [reflexivity|].
      intros. destruct (Z.eqb_spec i i_max); lia || auto.
  - simplify_eq. exists old, 0.
    rewrite Z.lor_0_r, list_insert_id by exact Hold. auto.
Qed.

Lemma range_pmd_body_total i_max end_ i start tbl cur_end ret old new r :
  tbl !! idx i = Some old ->
  range_pmd_slot L op op1 start (if i =? i_max then end_ else cur_end) old
  = Some (new, r) ->
  exists end',
    range_pmd_body L op op1 i_max end_ i start (tbl, cur_end, ret)
    = Some (<[idx i := new]> tbl, end', Z.lor ret r)
    /\ (i < i_max -> end' = cur_end).
Proof.
  unfold range_pmd_body, range_pmd_slot. intros Hold Hslot.
  rewrite Hold. cbn [mbind option_bind].
  destruct (pmd_present L old); cbn [negb] in *.
  - destruct (pmd_huge L old).
    + destruct old as [v|pte]; [|discriminate]. simplify_eq.
      rewrite Z.lor_0_r.
      destruct (Z.eqb_spec (op1 v) v) as [Heq|Hne]; [|eauto].
      rewrite Heq, list_insert_id by exact Hold. eauto.
    + destruct (pte_table_of old) as [pte|]; [|discriminate].
      cbn [mbind option_bind] in *.
      destruct (kvm_mips_range_pte L op pte start _) as [[r0 pte']|];
        [|discriminate].
      cbn [mbind option_bind] in *. simplify_eq.
      eexists. split; [reflexivity|].
      intros. destruct (Z.eqb_spec i i_max); lia || auto.
  - simplify_eq. rewrite Z.lor_0_r, list_insert_id by exact Hold. eauto.
Qed.

Lemma range_pmd_char pmd start end_ r pmd' :
  0 <= PMD_BITS L ->
  kvm_mips_range_pmd L op op1 pmd start end_ = Some (r, pmd') ->
  let i_min := __pmd_offset L start in
  let i_max := __pmd_offset L end_ in
  range_slotwise (fun x => range_pmd_slot L op op1
                             (slot_start i_min start x)
                             (slot_end i_max end_ x))
                 i_min i_max pmd pmd' r.
Proof.
  intros Hbits Hrun i_min i_max. unfold kvm_mips_range_pmd in Hrun.
  fold i_min i_max in Hrun.
  destruct (for_range _ i_min start _ _) as [[[t e] s]|] eqn:Hloop;
    [|discriminate].
  cbn [mbind option_bind] in Hrun. simplify_eq.
  eapply (range_loop_slotwise (range_pmd_slot L op op1)
            (range_pmd_body L op op1) range_pmd_body_spec); [|exact Hloop].
  apply pmd_offset_range, Hbits.
Qed.

Lemma range_pmd_slot_total start end_ e :
  0 <= PTE_BITS L -> wf_pmd L e ->
  is_Some (range_pmd_slot L op op1 start end_ e).
Proof.
  intros Hbits Hwf. unfold range_pmd_slot.
  destruct e as [v|pte]; cbn in *.
  - destruct (pmdv_present L v); cbn; [|eauto].
    rewrite (Hwf eq_refl). eauto.
  - destruct (range_pte_total pte start end_ Hbits Hwf) as [[r pte'] ->].
    cbn. eauto.
Qed.

Lemma range_pmd_total pmd start end_ :
  0 <= PTE_BITS L -> 0 <= PMD_BITS L ->
  length pmd = Z.to_nat (PTRS_PER_PMD L) -> Forall (wf_pmd L) pmd ->
  is_Some (kvm_mips_range_pmd L op op1 pmd start end_).
Proof.
  intros Hpte Hpmd Hlen Hwf. unfold kvm_mips_range_pmd.
  pose proof (pmd_offset_range L start Hpmd) as Hmin.
  pose proof (pmd_offset_range L end_ Hpmd) as Hmax.
  destruct (range_loop_total (range_pmd_slot L op op1)
              (range_pmd_body L op op1) range_pmd_body_total
              (__pmd_offset L start) (__pmd_offset L end_) start end_ pmd 0
              ltac:(lia)) as [[[t e] s] ->]; [|cbn; eauto].
  intros x Hx.
  destruct (lookup_in_table pmd (PTRS_PER_PMD L) x Hlen ltac:(lia))
    as [old Hold].
  exists old. split; [exact Hold|].
  apply range_pmd_slot_total; [exact Hpte|].
  rewrite Forall_lookup in Hwf. eapply Hwf, Hold.
Qed.

(** *** The upper level, folded, and the top level *)

Lemma range_pud_body_spec i_max end_ i start tbl cur_end ret tbl' end'
    ret' :
  range_pud_body L op op1 i_max end_ i start (tbl, cur_end, ret)
  = Some (tbl', end', ret') ->
  exists old new r,
    tbl !! idx i = Some old
    /\ range_pud_slot L op op1 start (if i =? i_max then end_ else cur_end)
         old = Some (new, r)
    /\ tbl' = <[idx i := new]> tbl
    /\ ret' = Z.lor ret r
    /\ (i < i_max -> end' = cur_end).
Proof.
  unfold range_pud_body, range_pud_slot. intros H.
  destruct (tbl !! idx i) as [old|] eqn:Hold; [|discriminate].
  cbn [mbind option_bind] in H. exists old.
  destruct (pud_present old); cbn [negb] in *.
  - destruct (pmd_table_of old) as [pmd|]; [|discriminate].
    cbn [mbind option_bind] in *.
    destruct (kvm_mips_range_pmd L op op1 pmd start _) as [[r pmd']|];
      [|discriminate].
    cbn [mbind option_bind] in *. simplify_eq.
    exists (Pud_table pmd'), r.
    split; [reflexivity|]. split; [reflexivity|]. split; [reflexivity|].
    split; [reflexivity|].
    intros. destruct (Z.eqb_spec i i_max); lia || auto.
  - simplify_eq. exists old, 0.
    rewrite Z.lor_0_r, list_insert_id by exact Hold. auto.
Qed.

Lemma range_pud_body_total i_max end_ i start tbl cur_end ret old new r :
  tbl !! idx i = Some old ->
  range_pud_slot L op op1 start (if i =? i_max then end_ else cur_end) old
  = Some (new, r) ->
  exists end',
    range_pud_body L op op1 i_max end_ i start (tbl, cur_end, ret)
    = Some (<[idx i := new]> tbl, end', Z.lor ret r)
    /\ (i < i_max -> end' = cur_end).
Proof.
  unfold range_pud_body, range_pud_slot. intros Hold Hslot.
  rewrite Hold. cbn [mbind option_bind].
  destruct (pud_present old); cbn [negb] in *.
  - destruct (pmd_table_of old) as [pmd|]; [|discriminate].
    cbn [mbind option_bind] in *.
    destruct (kvm_mips_range_pmd L op op1 pmd start _) as [[r0 pmd']|];
      [|discriminate].
    cbn [mbind option_bind] in *. simplify_eq.
    eexists. split; [reflexivity|].
    intros. destruct (Z.eqb_spec i i_max); lia || auto.
  - simplify_eq. rewrite Z.lor_0_r, list_insert_id by exact Hold. eauto.
Qed.

Lemma range_pud_char pud start end_ r pud' :
  kvm_mips_range_pud L op op1 pud start end_ = Some (r, pud') ->
  range_slotwise (fun x => range_pud_slot L op op1 (slot_start 0 start x)
                                          (slot_end 0 end_ x))
                 0 0 pud pud' r.
Proof.
  intros Hrun. unfold kvm_mips_range_pud in Hrun.
  rewrite !pud_offset_zero in Hrun.
  destruct (for_range _ 0 start _ _) as [[[t e] s]|] eqn:Hloop;
    [|discriminate].
  cbn [mbind option_bind] in Hrun. simplify_eq.
  eapply (range_loop_slotwise (range_pud_slot L op op1)
            (range_pud_body L op op1) range_pud_body_spec);
    [lia | exact Hloop].
Qed.

Lemma range_pud_slot_total start end_ e :
  0 <= PTE_BITS L -> 0 <= PMD_BITS L -> wf_pud L e ->
  is_Some (range_pud_slot L op op1 start end_ e).
Proof.
  intros Hpte Hpmd Hwf. unfold range_pud_slot.
  destruct e as [|pmds]; cbn in *; [eauto|].
  destruct Hwf as [Hlen Hwf].
  destruct (range_pmd_total pmds start end_ Hpte Hpmd Hlen Hwf)
    as [[r pmd'] ->].
  cbn. eauto.
Qed.

(** The upper level's single slot is the top-level slot. *)
Lemma range_pgd_slot_pud start end_ e :
  range_pgd_slot L op op1 start end_ e
  = range_pud_slot L op op1 start end_ e.
Proof.
  unfold range_pgd_slot, range_pud_slot, kvm_mips_range_pud.
  rewrite !pud_offset_zero.
  change (trip_count 0 0) with 1%nat. cbn [for_range].
  unfold range_pud_body. change ([e] !! idx 0) with (Some e).
  cbn [mbind option_bind]. rewrite Z.eqb_refl.
  destruct (pud_present e); cbn [negb].
  - destruct (pmd_table_of e) as [pmd|]; [|reflexivity].
    cbn [mbind option_bind].
    destruct (kvm_mips_range_pmd L op op1 pmd start end_) as [[r pmd']|];
      reflexivity.
  - reflexivity.
Qed.

Lemma range_pgd_body_spec i_max end_ i start tbl cur_end ret tbl' end'
    ret' :
  range_pgd_body L op op1 i_max end_ i start (tbl, cur_end, ret)
  = Some (tbl', end', ret') ->
  exists old new r,
    tbl !! idx i = Some old
    /\ range_pgd_slot L op op1 start (if i =? i_max then end_ else cur_end)
         old = Some (new, r)
    /\ tbl' = <[idx i := new]> tbl
    /\ ret' = Z.lor ret r
    /\ (i < i_max -> end' = cur_end).
Proof.
  unfold range_pgd_body, range_pgd_slot. intros H.
  destruct (tbl !! idx i) as [old|] eqn:Hold; [|discriminate].
  cbn [mbind option_bind pgd_present negb] in H. exists old.
  destruct (kvm_mips_range_pud L op op1 [old] start _) as [[r pud']|];
    [|discriminate].
  cbn [mbind option_bind] in *.
  destruct (pud' !! 0%nat) as [e'|]; [|discriminate].
  cbn [mbind option_bind] in *. simplify_eq.
  exists e', r.
  split; [reflexivity|]. split; [reflexivity|]. split; [reflexivity|].
  split; [reflexivity|].
  intros. destruct (Z.eqb_spec i i_max); lia || auto.
Qed.

Lemma range_pgd_body_total i_max end_ i start tbl cur_end ret old new r :
  tbl !! idx i = Some old ->
  range_pgd_slot L op op1 start (if i =? i_max then end_ else cur_end) old
  = Some (new, r) ->
  exists end',
    range_pgd_body L op op1 i_max end_ i start (tbl, cur_end, ret)
    = Some (<[idx i := new]> tbl, end', Z.lor ret r)
    /\ (i < i_max -> end' = cur_end).
Proof.
  unfold range_pgd_body, range_pgd_slot. intros Hold Hslot.
  rewrite Hold. cbn [mbind option_bind pgd_present negb].
  destruct (kvm_mips_range_pud L op op1 [old] start _) as [[r0 pud']|];
    [|discriminate].
  cbn [mbind option_bind] in *.
  destruct (pud' !! 0%nat) as [e'|]; [|discriminate].
  cbn [mbind option_bind] in *. simplify_eq.
  eexists. split; [reflexivity|].
  intros. destruct (Z.eqb_spec i i_max); lia || auto.
Qed.

Lemma range_pgd_char pgd start end_ r pgd' :
  0 <= PGD_BITS L ->
  kvm_mips_range_pgd L op op1 pgd start end_ = Some (r, pgd') ->
  let i_min := pgd_index L start in
  let i_max := pgd_index L end_ in
  range_slotwise (fun x => range_pud_slot L op op1
                             (slot_start i_min start x)
                             (slot_end i_max end_ x))
                 i_min i_max pgd pgd' r.
Proof.
  intros Hbits Hrun i_min i_max. unfold kvm_mips_range_pgd in Hrun.
  fold i_min i_max in Hrun.
  destruct (for_range _ i_min start _ _) as [[[t e] s]|] eqn:Hloop;
    [|discriminate].
  cbn [mbind option_bind] in Hrun. simplify_eq.
  pose proof (range_loop_slotwise (range_pgd_slot L op op1)
                (range_pgd_body L op op1) range_pgd_body_spec
                i_min i_max start end_ pgd pgd' e r
                (proj1 (pgd_index_range L start Hbits)) Hloop) as Hchar.
  unfold range_slotwise in *.
  setoid_rewrite range_pgd_slot_pud in Hchar. exact Hchar.
Qed.

Lemma range_pgd_total pgd start end_ :
  0 <= PTE_BITS L -> 0 <= PMD_BITS L -> 0 <= PGD_BITS L -> wf_pgd L pgd ->
  is_Some (kvm_mips_range_pgd L op op1 pgd start end_).
Proof.
  intros Hpte Hpmd Hpgd [Hlen Hwf]. unfold kvm_mips_range_pgd.
  pose proof (pgd_index_range L start Hpgd) as Hmin.
  pose proof (pgd_index_range L end_ Hpgd) as Hmax.
  destruct (range_loop_total (range_pgd_slot L op op1)
              (range_pgd_body L op op1) range_pgd_body_total
              (pgd_index L start) (pgd_index L end_) start end_ pgd 0
              ltac:(lia)) as [[[t e] s] ->]; [|cbn; eauto].
  intros x Hx.
  destruct (lookup_in_table pgd (PTRS_PER_PGD L) x Hlen ltac:(lia))
    as [old Hold].
  exists old. split; [exact Hold|]. rewrite range_pgd_slot_pud.
  apply range_pud_slot_total; [exact Hpte | exact Hpmd |].
  rewrite Forall_lookup in Hwf. eapply Hwf, Hold.
Qed.
End RangeLevels.

(** ** Range operations: what they do to the tree *)

Section RangeTree.
Variable L : layout.
Variable op : Z -> Z.
Hypothesis pte_bits_nonneg : 0 <= PTE_BITS L.
Hypothesis pmd_bits_nonneg : 0 <= PMD_BITS L.
Hypothesis pgd_bits_nonneg : 0 <= PGD_BITS L.
Hypothesis op_keeps_huge :
  forall v, pmdv_huge L v = true -> pmdv_huge L (op v) = true.

Lemma range_pmd_slot_lookup start end_ old new r gi mi ti :
  wf_pmd L old ->
  range_pmd_slot L op op start end_ old = Some (new, r) ->
  0 <= ti ->
  wf_pmd L new
  /\ (r = 0 \/ r = 1)
  /\ (pmd_lookup L gi mi ti old = Some None ->
      pmd_lookup L gi mi ti new = Some None)
  /\ (forall p v,
        pmd_lookup L gi mi ti old = Some (Some (p, v)) ->
        pmd_lookup L gi mi ti new
        = Some (Some (p, if range_visits_pte L start end_ p
                         then range_pte_slot L op v else v)))
  /\ (r = 1 <->
      exists t v,
        0 <= t /\ range_visits_pte L start end_ (At_pte gi mi t) = true
        /\ pmd_lookup L gi mi t old = Some (Some (At_pte gi mi t, v))
        /\ range_pte_hit L op v = true).
Proof.
  intros Hwf Hslot Hti. unfold range_pmd_slot in Hslot.
  destruct old as [w|pte]; cbn [pmd_present pmd_huge pte_table_of] in Hslot;
    cbn [wf_pmd] in Hwf.
  - (* a word *)
    assert (Hno : ~ exists t v,
              0 <= t
              /\ range_visits_pte L start end_ (At_pte gi mi t) = true
              /\ pmd_lookup L gi mi t (Pmd_val w)
                 = Some (Some (At_pte gi mi t, v))
              /\ range_pte_hit L op v = true).
    { intros (t & v & _ & _ & Hl & _). cbn in Hl.
      destruct (pmdv_huge L w); [|destruct (pmdv_none L w)]; discriminate. }
    destruct (pmdv_present L w) eqn:Hpres; cbn [negb] in Hslot.
    + rewrite (Hwf eq_refl) in Hslot. simplify_eq.
      pose proof (op_keeps_huge w (Hwf eq_refl)) as Hh.
      split; [cbn; auto|]. split; [now left|].
      cbn [pmd_lookup]. rewrite (Hwf eq_refl), Hh.
      split; [discriminate|]. split.
      * intros p v E. simplify_eq. cbn [range_visits_pte].
        unfold range_pte_slot, pte_present. unfold pmdv_present in Hpres.
        rewrite (Hwf eq_refl) in Hpres. now rewrite Hpres.
      * split; [discriminate | intros (t & v & _ & _ & E & _); discriminate].
    + simplify_eq. split; [cbn; congruence|]. split; [now left|].
      split; [auto|]. split.
      * intros p v E. rewrite E. cbn in E.
        destruct (pmdv_huge L w) eqn:Hh;
          [|destruct (pmdv_none L w); discriminate].
        simplify_eq. cbn [range_visits_pte].
        unfold range_pte_slot, pte_present. unfold pmdv_present in Hpres.
        rewrite Hh in Hpres. now rewrite Hpres.
      * split; [discriminate | intros H; destruct (Hno H)].
  - (* a leaf table *)
    cbn [negb mbind option_bind] in Hslot.
    destruct (kvm_mips_range_pte L op pte start end_) as [[r0 pte']|]
      eqn:Hpte; [|discriminate].
    cbn [mbind option_bind] in Hslot. simplify_eq.
    apply range_pte_char in Hpte as (Hlen & Hslots & Hbit & Hhit);
      [|exact pte_bits_nonneg].
    split; [cbn; congruence|]. split; [exact Hbit|].
    cbn [pmd_lookup]. split.
    { intros E. destruct (pte !! idx ti); discriminate. }
    split.
    + intros p v E. rewrite (Hslots ti Hti).
      destruct (pte !! idx ti) as [e|]; [|discriminate].
      cbn [mbind option_bind] in E. simplify_eq.
      cbn [range_visits_pte].
      destruct ((__pte_offset L start <=? ti)
                && (ti <=? __pte_offset L end_)); reflexivity.
    + rewrite Hhit. split.
      * intros (x & e & Hx & He & Hh).
        pose proof (pte_offset_range L start pte_bits_nonneg).
        exists x, e. split; [lia|]. split.
        { cbn. destruct (Z.leb_spec (__pte_offset L start) x),
                        (Z.leb_spec x (__pte_offset L end_)); auto; lia. }
        rewrite He. auto.
      * intros (t & v & Ht & Hv & Hl & Hh). exists t, v.
        cbn in Hv. apply andb_prop in Hv as [H1 H2].
        apply Z.leb_le in H1, H2. split; [lia|].
        destruct (pte !! idx t) as [e|]; [|discriminate].
        cbn in Hl. now simplify_eq.
Qed.

Lemma pmd_lookup_ptr gi mi ti e p v :
  pmd_lookup L gi mi ti e = Some (Some (p, v)) ->
  p = At_pmd gi mi \/ p = At_pte gi mi ti.
Proof.
  destruct e as [w|pte]; cbn; intros E.
  - destruct (pmdv_huge L w); [|destruct (pmdv_none L w); discriminate].
    simplify_eq. now left.
  - destruct (pte !! idx ti); [|discriminate]. cbn in E. simplify_eq.
    now right.
Qed.

Lemma range_visits_pmd_of_slot start end_ gi mi ti p :
  p = At_pmd gi mi \/ p = At_pte gi mi ti ->
  range_visits_pmd L start end_ p
  = (__pmd_offset L start <=? mi) && (mi <=? __pmd_offset L end_)
    && range_visits_pte L (slot_start (__pmd_offset L start) start mi)
         (slot_end (__pmd_offset L end_) end_ mi) p.
Proof. intros [-> | ->]; reflexivity. Qed.

Lemma range_pud_slot_lookup start end_ old new r gi mi ti :
  wf_pud L old ->
  range_pud_slot L op op start end_ old = Some (new, r) ->
  0 <= mi -> 0 <= ti ->
  wf_pud L new
  /\ (r = 0 \/ r = 1)
  /\ (pud_lookup L gi mi ti old = Some None ->
      pud_lookup L gi mi ti new = Some None)
  /\ (forall p v,
        pud_lookup L gi mi ti old = Some (Some (p, v)) ->
        pud_lookup L gi mi ti new
        = Some (Some (p, if range_visits_pmd L start end_ p
                         then range_pte_slot L op v else v)))
  /\ (r = 1 <->
      exists m t v,
        0 <= m /\ 0 <= t
        /\ range_visits_pmd L start end_ (At_pte gi m t) = true
        /\ pud_lookup L gi m t old = Some (Some (At_pte gi m t, v))
        /\ range_pte_hit L op v = true).
Proof.
  intros Hwf Hslot Hmi Hti. unfold range_pud_slot in Hslot.
  destruct old as [|pmds]; cbn [pud_present pud_none negb pmd_table_of]
    in Hslot.
  { simplify_eq. split; [exact I|]. split; [now left|]. split; [auto|].
    split; [discriminate|]. split; [discriminate|].
    intros (m & t & v & _ & _ & _ & E & _). discriminate. }
  cbn [mbind option_bind] in Hslot.
  destruct (kvm_mips_range_pmd L op op pmds start end_) as [[r0 pmds']|]
    eqn:Hpmd; [|discriminate].
  cbn [mbind option_bind] in Hslot. simplify_eq.
  destruct Hwf as [Hlen Hwf]. rewrite Forall_lookup in Hwf.
  apply range_pmd_char in Hpmd as (Hlen' & Hslots & Hhit & Hbit);
    [|exact pmd_bits_nonneg].
  set (i_min := __pmd_offset L start) in *.
  set (i_max := __pmd_offset L end_) in *.
  pose proof (pmd_offset_range L start pmd_bits_nonneg) as Hmin.
  fold i_min in Hmin.
  (* what a visited slot went through *)
  assert (Hvisit : forall x, i_min <= x <= i_max ->
            exists o n rr,
              pmds !! idx x = Some o /\ pmds' !! idx x = Some n
              /\ wf_pmd L o
              /\ range_pmd_slot L op op (slot_start i_min start x)
                   (slot_end i_max end_ x) o = Some (n, rr)
              /\ (r = 0 -> rr = 0)).
  { intros x Hx. destruct (Hslots x ltac:(lia)) as [Hin _].
    destruct (Hin Hx) as (o & n & rr & Ho & Hn & Hs & Hr).
    exists o, n, rr. split; [exact Ho|]. split; [exact Hn|].
    split; [eapply Hwf, Ho|]. split; [exact Hs | exact Hr]. }
  split; [|split; [|split; [|split]]].
  - (* the new table is well formed *)
    split; [congruence|]. rewrite Forall_lookup. intros i e He.
    assert (Hi : idx (Z.of_nat i) = i) by (unfold idx; lia).
    destruct (Z_le_dec i_min (Z.of_nat i)) as [H1|H1];
      [destruct (Z_le_dec (Z.of_nat i) i_max) as [H2|H2]|].
    2,3: destruct (Hslots (Z.of_nat i) ltac:(lia)) as [_ Hout];
         rewrite Hi in Hout; rewrite Hout in He by lia; eapply Hwf, He.
    destruct (Hvisit (Z.of_nat i) ltac:(lia))
      as (o & n & rr & Ho & Hn & Hwfo & Hs & _).
    rewrite Hi in Hn. assert (n = e) as -> by congruence.
    eapply (range_pmd_slot_lookup _ _ o e rr 0 0 0 Hwfo Hs). lia.
  - (* the report is a bit *)
    apply Hbit. intros x o n rr Hx Ho Hs.
    eapply (range_pmd_slot_lookup _ _ o n rr 0 0 0); [|exact Hs|lia].
    eapply Hwf, Ho.
  - (* NULL stays NULL *)
    cbn [pud_lookup]. intros E.
    destruct (Z_le_dec i_min mi) as [H1|H1];
      [destruct (Z_le_dec mi i_max) as [H2|H2]|].
    2,3: destruct (Hslots mi Hmi) as [_ Hout]; rewrite Hout by lia;
         exact E.
    destruct (Hvisit mi ltac:(lia)) as (o & n & rr & Ho & Hn & Hwfo & Hs & _).
    rewrite Ho in E. rewrite Hn. cbn [mbind option_bind] in E |- *.
    eapply (range_pmd_slot_lookup _ _ o n rr gi mi ti Hwfo Hs Hti). exact E.
  - (* an entry stays where it is *)
    cbn [pud_lookup]. intros p v E.
    assert (Hp : p = At_pmd gi mi \/ p = At_pte gi mi ti).
    { destruct (pmds !! idx mi) as [e|]; [|discriminate].
      eapply pmd_lookup_ptr, E. }
    rewrite (range_visits_pmd_of_slot start end_ gi mi ti p Hp).
    fold i_min i_max.
    destruct (Z.leb_spec i_min mi) as [H1|H1];
      [destruct (Z.leb_spec mi i_max) as [H2|H2]|]; cbn [andb].
    2,3: destruct (Hslots mi Hmi) as [_ Hout]; rewrite Hout by lia;
         exact E.
    destruct (Hvisit mi ltac:(lia)) as (o & n & rr & Ho & Hn & Hwfo & Hs & _).
    rewrite Ho in E. rewrite Hn. cbn [mbind option_bind] in E |- *.
    eapply (range_pmd_slot_lookup _ _ o n rr gi mi ti Hwfo Hs Hti). exact E.
  - (* the report *)
    split.
    + intros Hr. destruct (Hhit ltac:(lia)) as (x & o & n & rr & Hx & Ho & Hs
                                                 & Hrr).
      assert (Hwfo : wf_pmd L o) by (eapply Hwf, Ho).
      destruct (range_pmd_slot_lookup _ _ o n rr gi x 0 Hwfo Hs ltac:(lia))
        as (_ & Hb & _ & _ & Hiff).
      assert (rr = 1) as -> by lia.
      destruct (proj1 Hiff eq_refl) as (t & v & Ht & Hv & Hl & Hh).
      exists x, t, v. split; [lia|]. split; [exact Ht|].
      split; [|split; [|exact Hh]].
      * rewrite (range_visits_pmd_of_slot start end_ gi x t) by now right.
        fold i_min i_max.
        destruct (Z.leb_spec i_min x), (Z.leb_spec x i_max); try lia.
        exact Hv.
      * cbn [pud_lookup]. rewrite Ho. exact Hl.
    + intros (m & t & v & Hm & Ht & Hv & Hl & Hh).
      rewrite (range_visits_pmd_of_slot start end_ gi m t) in Hv
        by now right.
      fold i_min i_max in Hv.
      apply andb_prop in Hv as [Hv Hv3]. apply andb_prop in Hv as [Hv1 Hv2].
      apply Z.leb_le in Hv1, Hv2.
      destruct (Hvisit m ltac:(lia)) as (o & n & rr & Ho & Hn & Hwfo & Hs
                                          & Hr0).
      cbn [pud_lookup] in Hl. rewrite Ho in Hl.
      cbn [mbind option_bind] in Hl.
      destruct (range_pmd_slot_lookup _ _ o n rr gi m 0 Hwfo Hs ltac:(lia))
        as (_ & Hb & _ & _ & Hiff).
      assert (rr = 1) by (apply Hiff; exists t, v; auto).
      assert (Hlast : r = 0 \/ r = 1).
      { apply Hbit. intros x o' n' rr' Hx Ho' Hs'.
        eapply (range_pmd_slot_lookup _ _ o' n' rr' 0 0 0); [|exact Hs'|lia].
        eapply Hwf, Ho'. }
      destruct Hlast as [H0|H1]; [|exact H1]. specialize (Hr0 H0). lia.
Qed.

Lemma pud_lookup_ptr gi mi ti e p v :
  pud_lookup L gi mi ti e = Some (Some (p, v)) ->
  p = At_pmd gi mi \/ p = At_pte gi mi ti.
Proof.
  destruct e as [|pmds]; cbn; intros E; [discriminate|].
  destruct (pmds !! idx mi) as [e|]; [|discriminate].
  eapply pmd_lookup_ptr, E.
Qed.

Lemma range_visits_pgd_of_slot start end_ gi mi ti p :
  p = At_pmd gi mi \/ p = At_pte gi mi ti ->
  range_visits_pgd L start end_ p
  = (pgd_index L start <=? gi) && (gi <=? pgd_index L end_)
    && range_visits_pmd L (slot_start (pgd_index L start) start gi)
         (slot_end (pgd_index L end_) end_ gi) p.
Proof. intros [-> | ->]; reflexivity. Qed.

(** The walk below the top-level slot [gi] of a page directory *)
Lemma range_pgd_lookup pgd start end_ r pgd' :
  wf_pgd L pgd ->
  kvm_mips_range_pgd L op op pgd start end_ = Some (r, pgd') ->
  wf_pgd L pgd'
  /\ (r = 0 \/ r = 1)
  /\ (forall gi mi ti, 0 <= gi -> 0 <= mi -> 0 <= ti ->
        (pud ← pgd !! idx gi; pud_lookup L gi mi ti pud) = Some None ->
        (pud ← pgd' !! idx gi; pud_lookup L gi mi ti pud) = Some None)
  /\ (forall gi mi ti p v, 0 <= gi -> 0 <= mi -> 0 <= ti ->
        (pud ← pgd !! idx gi; pud_lookup L gi mi ti pud)
        = Some (Some (p, v)) ->
        (pud ← pgd' !! idx gi; pud_lookup L gi mi ti pud)
        = Some (Some (p, if range_visits_pgd L start end_ p
                         then range_pte_slot L op v else v)))
  /\ (r = 1 <->
      exists gi mi ti v,
        0 <= gi /\ 0 <= mi /\ 0 <= ti
        /\ range_visits_pgd L start end_ (At_pte gi mi ti) = true
        /\ (pud ← pgd !! idx gi; pud_lookup L gi mi ti pud)
           = Some (Some (At_pte gi mi ti, v))
        /\ range_pte_hit L op v = true).
Proof.
  intros [Hlen Hwf] Hrun. rewrite Forall_lookup in Hwf.
  apply range_pgd_char in Hrun as (Hlen' & Hslots & Hhit & Hbit);
    [|exact pgd_bits_nonneg].
  set (i_min := pgd_index L start) in *.
  set (i_max := pgd_index L end_) in *.
  pose proof (pgd_index_range L start pgd_bits_nonneg) as Hmin.
  fold i_min in Hmin.
  assert (Hvisit : forall x, i_min <= x <= i_max ->
            exists o n rr,
              pgd !! idx x = Some o /\ pgd' !! idx x = Some n
              /\ wf_pud L o
              /\ range_pud_slot L op op (slot_start i_min start x)
                   (slot_end i_max end_ x) o = Some (n, rr)
              /\ (r = 0 -> rr = 0)).
  { intros x Hx. destruct (Hslots x ltac:(lia)) as [Hin _].
    destruct (Hin Hx) as (o & n & rr & Ho & Hn & Hs & Hr).
    exists o, n, rr. split; [exact Ho|]. split; [exact Hn|].
    split; [eapply Hwf, Ho|]. split; [exact Hs | exact Hr]. }
  assert (Hlast : r = 0 \/ r = 1).
  { apply Hbit. intros x o n rr Hx Ho Hs.
    eapply (range_pud_slot_lookup _ _ o n rr 0 0 0); [|exact Hs|lia|lia].
    eapply Hwf, Ho. }
  split; [|split; [exact Hlast|split; [|split]]].
  - split; [congruence|]. rewrite Forall_lookup. intros i e He.
    assert (Hi : idx (Z.of_nat i) = i) by (unfold idx; lia).
    destruct (Z_le_dec i_min (Z.of_nat i)) as [H1|H1];
      [destruct (Z_le_dec (Z.of_nat i) i_max) as [H2|H2]|].
    2,3: destruct (Hslots (Z.of_nat i) ltac:(lia)) as [_ Hout];
         rewrite Hi in Hout; rewrite Hout in He by lia; eapply Hwf, He.
    destruct (Hvisit (Z.of_nat i) ltac:(lia))
      as (o & n & rr & Ho & Hn & Hwfo & Hs & _).
    rewrite Hi in Hn. assert (n = e) as -> by congruence.
    eapply (range_pud_slot_lookup _ _ o e rr 0 0 0 Hwfo Hs); lia.
  - intros gi mi ti Hgi Hmi Hti E.
    destruct (Z_le_dec i_min gi) as [H1|H1];
      [destruct (Z_le_dec gi i_max) as [H2|H2]|].
    2,3: destruct (Hslots gi Hgi) as [_ Hout]; rewrite Hout by lia;
         exact E.
    destruct (Hvisit gi ltac:(lia)) as (o & n & rr & Ho & Hn & Hwfo & Hs & _).
    rewrite Ho in E. rewrite Hn. cbn [mbind option_bind] in E |- *.
    eapply (range_pud_slot_lookup _ _ o n rr gi mi ti Hwfo Hs Hmi Hti).
    exact E.
  - intros gi mi ti p v Hgi Hmi Hti E.
    assert (Hp : p = At_pmd gi mi \/ p = At_pte gi mi ti).
    { destruct (pgd !! idx gi) as [e|]; [|discriminate].
      eapply pud_lookup_ptr, E. }
    rewrite (range_visits_pgd_of_slot start end_ gi mi ti p Hp).
    fold i_min i_max.
    destruct (Z.leb_spec i_min gi) as [H1|H1];
      [destruct (Z.leb_spec gi i_max) as [H2|H2]|]; cbn [andb].
    2,3: destruct (Hslots gi Hgi) as [_ Hout]; rewrite Hout by lia;
         exact E.
    destruct (Hvisit gi ltac:(lia)) as (o & n & rr & Ho & Hn & Hwfo & Hs & _).
    rewrite Ho in E. rewrite Hn. cbn [mbind option_bind] in E |- *.
    eapply (range_pud_slot_lookup _ _ o n rr gi mi ti Hwfo Hs Hmi Hti).
    exact E.
  - split.
    + intros Hr. destruct (Hhit ltac:(lia)) as (x & o & n & rr & Hx & Ho & Hs
                                                 & Hrr).
      assert (Hwfo : wf_pud L o) by (eapply Hwf, Ho).
      destruct (range_pud_slot_lookup _ _ o n rr x 0 0 Hwfo Hs ltac:(lia)
                  ltac:(lia)) as (_ & Hb & _ & _ & Hiff).
      assert (rr = 1) as -> by lia.
      destruct (proj1 Hiff eq_refl) as (m & t & v & Hm & Ht & Hv & Hl & Hh).
      exists x, m, t, v. split; [lia|]. split; [exact Hm|].
      split; [exact Ht|]. split; [|split; [|exact Hh]].
      * rewrite (range_visits_pgd_of_slot start end_ x m t) by now right.
        fold i_min i_max.
        destruct (Z.leb_spec i_min x), (Z.leb_spec x i_max); try lia.
        exact Hv.
      * rewrite Ho. exact Hl.
    + intros (g & m & t & v & Hg & Hm & Ht & Hv & Hl & Hh).
      rewrite (range_visits_pgd_of_slot start end_ g m t) in Hv
        by now right.
      fold i_min i_max in Hv.
      apply andb_prop in Hv as [Hv Hv3]. apply andb_prop in Hv as [Hv1 Hv2].
      apply Z.leb_le in Hv1, Hv2.
      destruct (Hvisit g ltac:(lia)) as (o & n & rr & Ho & Hn & Hwfo & Hs
                                          & Hr0).
      rewrite Ho in Hl. cbn [mbind option_bind] in Hl.
      destruct (range_pud_slot_lookup _ _ o n rr g 0 0 Hwfo Hs ltac:(lia)
                  ltac:(lia)) as (_ & Hb & _ & _ & Hiff).
      assert (rr = 1) by (apply Hiff; exists m, t, v; auto).
      destruct Hlast as [H0|H1]; [|exact H1]. specialize (Hr0 H0). lia.
Qed.
End RangeTree.

(** ** Range operations: the entries a range of guest frames reaches *)

(** The frame behind the leaf slot [t] of middle-level slot [m] under
    top-level slot [g] *)
Lemma frame_of_indices L g m t :
  0 <= PTE_BITS L -> 0 <= PMD_BITS L -> 0 <= PGD_BITS L ->
  0 <= g < PTRS_PER_PGD L -> 0 <= m < PTRS_PER_PMD L ->
  0 <= t < PTRS_PER_PTE L ->
  let T := PTRS_PER_PTE L in
  let M := PTRS_PER_PMD L in
  let gfn := (g * M + m) * T + t in
  0 <= gfn < gfn_limit L
  /\ gfn / (T * M) = g /\ (gfn / T) mod M = m /\ gfn mod T = t.
Proof.
  intros Hpte Hpmd Hpgd Hg Hm Ht T M gfn.
  rewrite (gfn_limit_split L) by assumption. fold T M.
  assert (Hdiv : gfn / T = g * M + m).
  { unfold gfn. rewrite Z.div_add_l by lia. rewrite Z.div_small by lia.
    lia. }
  assert (Hq : 0 <= g * M + m < M * PTRS_PER_PGD L) by nia.
  split; [unfold gfn; nia|]. split; [|split].
  - rewrite <- Z.div_div by lia. rewrite Hdiv.
    rewrite Z.div_add_l by lia. rewrite Z.div_small by lia. lia.
  - rewrite Hdiv. rewrite Z.add_comm, Z.mod_add by lia.
    apply Z.mod_small. lia.
  - unfold gfn. rewrite Z.add_comm, Z.mod_add by lia.
    apply Z.mod_small. lia.
Qed.

Section RangeFrames.
Variable L : layout.
Hypothesis page_shift_nonneg : 0 <= PAGE_SHIFT L.
Hypothesis pte_bits_nonneg : 0 <= PTE_BITS L.
Hypothesis pmd_bits_nonneg : 0 <= PMD_BITS L.
Hypothesis pgd_bits_nonneg : 0 <= PGD_BITS L.
Hypothesis address_bits :
  PAGE_SHIFT L + PTE_BITS L + PMD_BITS L + PGD_BITS L <= wordsize.
Variables a b : Z.
Hypothesis a_in_reach : 0 <= a < gfn_limit L.
Hypothesis b_in_reach : 0 <= b < gfn_limit L.

Let T := PTRS_PER_PTE L.
Let M := PTRS_PER_PMD L.
Let start := ushl a (PAGE_SHIFT L).
Let end_ := ushl b (PAGE_SHIFT L).

Lemma range_visits_frame g m t :
  range_visits_pgd L start end_ (At_pte g m t)
  = (a / (T * M) <=? g) && (g <=? b / (T * M))
    && ((if g =? a / (T * M) then (a / T) mod M else 0) <=? m)
    && (m <=? (if g =? b / (T * M) then (b / T) mod M else M - 1))
    && ((if (g =? a / (T * M)) && (m =? (a / T) mod M) then a mod T else 0)
        <=? t)
    && (t <=? (if (g =? b / (T * M)) && (m =? (b / T) mod M) then b mod T
               else T - 1)).
Proof.
  rewrite (range_visits_pgd_of_slot L start end_ g m t) by now right.
  rewrite (range_visits_pmd_of_slot L _ _ g m t) by now right.
  cbn [range_visits_pte].
  rewrite !slot_start_pte_offset, !slot_start_pmd_offset.
  rewrite !slot_end_pte_offset, !slot_end_pmd_offset by assumption.
  unfold start, end_.
  rewrite !pgd_index_gfn, !pmd_offset_gfn, !pte_offset_gfn by assumption.
  fold T M.
  destruct (Z.eqb_spec g (a / (T * M))), (Z.eqb_spec g (b / (T * M)));
    cbn [andb].
  - rewrite !andb_assoc. reflexivity.
  - rewrite !andb_assoc.
    destruct (Z.eqb_spec m (M - 1)); [|reflexivity].
    destruct (Z.eqb_spec m ((a / T) mod M)); reflexivity.
  - rewrite !andb_assoc.
    destruct (Z.eqb_spec m 0); [|reflexivity].
    destruct (Z.eqb_spec m ((b / T) mod M)); reflexivity.
  - rewrite !andb_assoc.
    destruct (Z.eqb_spec m 0), (Z.eqb_spec m (M - 1)); reflexivity.
Qed.

Lemma range_visits_block g m :
  range_visits_pgd L start end_ (At_pmd g m)
  = (a / (T * M) <=? g) && (g <=? b / (T * M))
    && ((if g =? a / (T * M) then (a / T) mod M else 0) <=? m)
    && (m <=? (if g =? b / (T * M) then (b / T) mod M else M - 1)).
Proof.
  rewrite (range_visits_pgd_of_slot L start end_ g m 0) by now left.
  rewrite (range_visits_pmd_of_slot L _ _ g m 0) by now left.
  cbn [range_visits_pte]. rewrite andb_true_r.
  rewrite !slot_start_pmd_offset.
  rewrite !slot_end_pmd_offset by assumption.
  unfold start, end_.
  rewrite !pgd_index_gfn, !pmd_offset_gfn by assumption.
  fold T M. rewrite !andb_assoc. reflexivity.
Qed.

Lemma range_visits_leaf_gfn gfn :
  0 <= gfn ->
  range_visits_pgd L start end_
    (At_pte (gfn / (T * M)) ((gfn / T) mod M) (gfn mod T)) = true
  <-> a <= gfn <= b.
Proof.
  intros Hgfn. rewrite range_visits_frame.
  pose proof (ptrs_pos L page_shift_nonneg pte_bits_nonneg pmd_bits_nonneg
                pgd_bits_nonneg) as (HT & HM & _ & _).
  fold T in HT. fold M in HM.
  pose proof (lex_order T M a gfn HT HM) as [Hlo _].
  pose proof (lex_order T M gfn b HT HM) as [Hhi _].
  pose proof (Z.mod_pos_bound gfn T HT).
  pose proof (Z.mod_pos_bound (gfn / T) M HM).
  pose proof (Z.mod_pos_bound (a / T) M HM).
  pose proof (Z.mod_pos_bound (b / T) M HM).
  pose proof (Z.mod_pos_bound a T HT).
  pose proof (Z.mod_pos_bound b T HT).
  rewrite !andb_true_iff, !Z.leb_le. rewrite Hlo, Hhi.
  destruct (Z.eqb_spec (gfn / (T * M)) (a / (T * M))),
           (Z.eqb_spec (gfn / (T * M)) (b / (T * M))),
           (Z.eqb_spec ((gfn / T) mod M) ((a / T) mod M)),
           (Z.eqb_spec ((gfn / T) mod M) ((b / T) mod M));
    cbn [andb]; lia.
Qed.

Lemma range_visits_huge_gfn gfn :
  0 <= gfn ->
  range_visits_pgd L start end_
    (At_pmd (gfn / (T * M)) ((gfn / T) mod M)) = true
  <-> a / T <= gfn / T <= b / T.
Proof.
  intros Hgfn. rewrite range_visits_block.
  pose proof (ptrs_pos L page_shift_nonneg pte_bits_nonneg pmd_bits_nonneg
                pgd_bits_nonneg) as (HT & HM & _ & _).
  fold T in HT. fold M in HM.
  pose proof (lex_order T M a gfn HT HM) as [_ Hlo].
  pose proof (lex_order T M gfn b HT HM) as [_ Hhi].
  pose proof (Z.mod_pos_bound (gfn / T) M HM).
  pose proof (Z.mod_pos_bound (a / T) M HM).
  pose proof (Z.mod_pos_bound (b / T) M HM).
  rewrite !andb_true_iff, !Z.leb_le. rewrite Hlo, Hhi.
  destruct (Z.eqb_spec (gfn / (T * M)) (a / (T * M))),
           (Z.eqb_spec (gfn / (T * M)) (b / (T * M))); lia.
Qed.

End RangeFrames.

(** ** Making a range of guest frames clean or old *)

Lemma testbit_word m i :
  0 <= m < modulus -> Z.testbit m i = true -> 0 <= i < wordsize.
Proof.
  intros Hm Hbit. destruct (Z_lt_le_dec i 0) as [Hneg|Hpos].
  { now rewrite Z.testbit_neg_r in Hbit. }
  split; [exact Hpos|]. destruct (Z_lt_le_dec i wordsize) as [|Hbig];
    [assumption|].
  destruct (Z.eq_dec m 0) as [->|Hne]; [now rewrite Z.bits_0 in Hbit|].
  rewrite Z.bits_above_log2 in Hbit; [discriminate | lia |].
  apply Z.log2_lt_pow2; [lia|].
  apply Z.lt_le_trans with (2 ^ wordsize); [apply Hm|].
  apply Z.pow_le_mono_r; lia.
Qed.

(** Clearing bits leaves a flag outside them as it was. *)
Lemma flag_clear_other m c v :
  0 <= m < modulus -> Z.land m c = 0 ->
  flag m (clear_bits c v) = flag m v.
Proof.
  intros Hm Hdis. unfold flag, clear_bits, unot, wrap.
  f_equal. f_equal. apply Z.bits_inj'. intros i Hi.
  rewrite !Z.land_spec.
  destruct (Z.testbit m i) eqn:Hbit; [|now rewrite !andb_false_r].
  pose proof (testbit_word m i Hm Hbit) as Hw.
  unfold modulus. rewrite Z.mod_pow2_bits_low by lia.
  rewrite Z.lnot_spec by lia.
  assert (Hc : Z.testbit c i = false).
  { pose proof (f_equal (fun z => Z.testbit z i) Hdis) as E. cbn beta in E.
    rewrite Z.land_spec, Hbit, Z.bits_0 in E. exact E. }
  rewrite Hc. cbn. now rewrite andb_true_r.
Qed.

(** Clearing bits clears a flag among them. *)
Lemma flag_clear_self m c v :
  0 <= m < modulus -> flag m (clear_bits (Z.lor m c) v) = false.
Proof.
  intros Hm. unfold flag, clear_bits, unot, wrap.
  apply negb_false_iff, Z.eqb_eq. apply Z.bits_inj'. intros i Hi.
  rewrite !Z.land_spec, Z.bits_0.
  destruct (Z.testbit m i) eqn:Hbit; [|now rewrite !andb_false_r].
  pose proof (testbit_word m i Hm Hbit) as Hw.
  unfold modulus. rewrite Z.mod_pow2_bits_low by lia.
  rewrite Z.lnot_spec by lia. rewrite Z.lor_spec, Hbit. cbn.
  now rewrite andb_false_r.
Qed.

Section StatusBits.
Variable L : layout.
Hypothesis bits_apart : status_bits_apart L.

Lemma mkclean_keeps_huge v :
  pmdv_huge L v = true -> pmdv_huge L (pte_mkclean L v) = true.
Proof.
  destruct bits_apart as (_ & Hh & _ & _ & _ & Hd & _).
  unfold pmdv_huge, pte_mkclean. now rewrite flag_clear_other.
Qed.

Lemma mkold_keeps_huge v :
  pmdv_huge L v = true -> pmdv_huge L (pte_mkold L v) = true.
Proof.
  destruct bits_apart as (_ & Hh & _ & _ & _ & _ & _ & Hd).
  unfold pmdv_huge, pte_mkold. now rewrite flag_clear_other.
Qed.

Lemma mkclean_keeps_present v :
  pte_present L (pte_mkclean L v) = pte_present L v.
Proof.
  destruct bits_apart as (Hp & _ & _ & _ & Hd & _).
  unfold pte_present, pte_mkclean. now rewrite flag_clear_other.
Qed.

Lemma mkold_keeps_present v :
  pte_present L (pte_mkold L v) = pte_present L v.
Proof.
  destruct bits_apart as (Hp & _ & _ & _ & _ & _ & Hd & _).
  unfold pte_present, pte_mkold. now rewrite flag_clear_other.
Qed.

Lemma mkclean_clean v : pte_dirty L (pte_mkclean L v) = false.
Proof.
  destruct bits_apart as (_ & _ & Hm & _).
  unfold pte_dirty, pte_mkclean. now apply flag_clear_self.
Qed.

Lemma mkold_old v : pte_young L (pte_mkold L v) = false.
Proof.
  destruct bits_apart as (_ & _ & _ & Ha & _).
  unfold pte_young, pte_mkold. now apply flag_clear_self.
Qed.
End StatusBits.

Section RangeGpa.
Variable L : layout.
Variable op : Z -> Z.
Hypothesis page_shift_nonneg : 0 <= PAGE_SHIFT L.
Hypothesis pte_bits_nonneg : 0 <= PTE_BITS L.
Hypothesis pmd_bits_nonneg : 0 <= PMD_BITS L.
Hypothesis pgd_bits_nonneg : 0 <= PGD_BITS L.
Hypothesis address_bits :
  PAGE_SHIFT L + PTE_BITS L + PMD_BITS L + PGD_BITS L <= wordsize.
Hypothesis op_keeps_huge :
  forall v, pmdv_huge L v = true -> pmdv_huge L (op v) = true.

(** Whatever the range, the operation returns and rewrites entries in
    place. *)
Lemma range_pgd_in_place pgd start end_ :
  wf_pgd L pgd ->
  exists r pgd',
    kvm_mips_range_pgd L op op pgd start end_ = Some (r, pgd')
    /\ wf_pgd L pgd'
    /\ (r = 0 \/ r = 1)
    /\ (forall addr,
          gpa_lookup L pgd addr = Some None ->
          gpa_lookup L pgd' addr = Some None)
    /\ (forall addr p v,
          gpa_lookup L pgd addr = Some (Some (p, v)) ->
          gpa_lookup L pgd' addr
          = Some (Some (p, if range_visits_pgd L start end_ p
                           then range_pte_slot L op v else v))).
Proof.
  intros Hwf.
  destruct (range_pgd_total L op op pgd start end_ pte_bits_nonneg
              pmd_bits_nonneg pgd_bits_nonneg Hwf) as [[r pgd'] Hrun].
  exists r, pgd'. split; [exact Hrun|].
  destruct (range_pgd_lookup L op pte_bits_nonneg pmd_bits_nonneg
              pgd_bits_nonneg op_keeps_huge pgd start end_ r pgd' Hwf Hrun)
    as (Hwf' & Hbit & Hnull & Hfound & _).
  split; [exact Hwf'|]. split; [exact Hbit|]. split.
  - intros addr. rewrite !gpa_lookup_unfold.
    apply Hnull.
    + apply pgd_index_range, pgd_bits_nonneg.
    + apply pmd_offset_range, pmd_bits_nonneg.
    + apply pte_offset_range, pte_bits_nonneg.
  - intros addr p v. rewrite !gpa_lookup_unfold.
    apply Hfound.
    + apply pgd_index_range, pgd_bits_nonneg.
    + apply pmd_offset_range, pmd_bits_nonneg.
    + apply pte_offset_range, pte_bits_nonneg.
Qed.

Variables a b : Z.
Hypothesis a_in_reach : 0 <= a < gfn_limit L.
Hypothesis b_in_reach : 0 <= b < gfn_limit L.

Let T := PTRS_PER_PTE L.
Let M := PTRS_PER_PMD L.
Let start := ushl a (PAGE_SHIFT L).
Let end_ := ushl b (PAGE_SHIFT L).

(** The pointer the walk returns for a frame *)
Lemma frame_ptr pgd gfn p v :
  0 <= gfn < gfn_limit L ->
  gpa_lookup L pgd (ushl gfn (PAGE_SHIFT L)) = Some (Some (p, v)) ->
  p = At_pmd (gfn / (T * M)) ((gfn / T) mod M)
  \/ p = At_pte (gfn / (T * M)) ((gfn / T) mod M) (gfn mod T).
Proof.
  intros Hgfn. rewrite gpa_lookup_unfold.
  rewrite pgd_index_gfn, pmd_offset_gfn, pte_offset_gfn by assumption.
  fold T M. intros E.
  destruct (pgd !! idx (gfn / (T * M))) as [pud|]; [|discriminate].
  eapply pud_lookup_ptr, E.
Qed.

Lemma range_pgd_frames pgd r pgd' :
  wf_pgd L pgd ->
  kvm_mips_range_pgd L op op pgd start end_ = Some (r, pgd') ->
  (forall gfn p v,
     a <= gfn <= b ->
     gpa_lookup L pgd (ushl gfn (PAGE_SHIFT L)) = Some (Some (p, v)) ->
     gpa_lookup L pgd' (ushl gfn (PAGE_SHIFT L))
     = Some (Some (p, range_pte_slot L op v)))
  /\ (forall gfn p v,
        0 <= gfn < gfn_limit L -> ~ (a <= gfn <= b) ->
        gpa_lookup L pgd (ushl gfn (PAGE_SHIFT L)) = Some (Some (p, v)) ->
        is_leaf_ptr p \/ ~ (a / T <= gfn / T <= b / T) ->
        gpa_lookup L pgd' (ushl gfn (PAGE_SHIFT L)) = Some (Some (p, v)))
  /\ (r = 1 <->
      exists gfn p v,
        a <= gfn <= b
        /\ gpa_lookup L pgd (ushl gfn (PAGE_SHIFT L)) = Some (Some (p, v))
        /\ is_leaf_ptr p /\ range_pte_hit L op v = true).
Proof.
  intros Hwf Hrun.
  pose proof (ptrs_pos L page_shift_nonneg pte_bits_nonneg pmd_bits_nonneg
                pgd_bits_nonneg) as (HT & HM & HG & _).
  fold T in HT. fold M in HM.
  destruct (range_pgd_in_place pgd start end_ Hwf)
    as (r0 & pgd0 & Hrun0 & _ & _ & _ & Hfound).
  rewrite Hrun in Hrun0. symmetry in Hrun0. simplify_eq.
  destruct (range_pgd_lookup L op pte_bits_nonneg pmd_bits_nonneg
              pgd_bits_nonneg op_keeps_huge pgd start end_ r pgd' Hwf Hrun)
    as (_ & _ & _ & _ & Hhit).
  split; [|split].
  - intros gfn p v Hin Hl.
    rewrite (Hfound _ p v Hl).
    assert (Hv : range_visits_pgd L start end_ p = true).
    { destruct (frame_ptr pgd gfn p v ltac:(lia) Hl) as [-> | ->].
      - apply (range_visits_huge_gfn L page_shift_nonneg pte_bits_nonneg
                 pmd_bits_nonneg pgd_bits_nonneg address_bits a b
                 a_in_reach b_in_reach gfn); [lia|].
        fold T. split; apply Z.div_le_mono; lia.
      - apply (range_visits_leaf_gfn L page_shift_nonneg pte_bits_nonneg
                 pmd_bits_nonneg pgd_bits_nonneg address_bits a b
                 a_in_reach b_in_reach gfn); lia. }
    now rewrite Hv.
  - intros gfn p v Hgfn Hout Hl Hkind.
    rewrite (Hfound _ p v Hl).
    assert (Hv : range_visits_pgd L start end_ p = false).
    { apply not_true_is_false. intros Hv.
      destruct (frame_ptr pgd gfn p v Hgfn Hl) as [-> | ->].
      - apply (range_visits_huge_gfn L page_shift_nonneg pte_bits_nonneg
                 pmd_bits_nonneg pgd_bits_nonneg address_bits a b
                 a_in_reach b_in_reach gfn) in Hv; [|lia].
        fold T in Hv. destruct Hkind as [[]|Hmiss]. contradiction.
      - apply (range_visits_leaf_gfn L page_shift_nonneg pte_bits_nonneg
                 pmd_bits_nonneg pgd_bits_nonneg address_bits a b
                 a_in_reach b_in_reach gfn) in Hv; [|lia].
        contradiction. }
    now rewrite Hv.
  - rewrite Hhit. split.
    + intros (g & m & t & v & Hg & Hm & Ht & Hv & Hl & Hh).
      (* the slot is inside the tables *)
      destruct Hwf as [Hlen Hwf]. rewrite Forall_lookup in Hwf.
      destruct (pgd !! idx g) as [pud|] eqn:Hpud; [|discriminate].
      cbn [mbind option_bind] in Hl.
      assert (Hg' : g < PTRS_PER_PGD L).
      { apply lookup_lt_Some in Hpud. unfold idx in Hpud. lia. }
      pose proof (Hwf _ _ Hpud) as Hwfpud.
      destruct pud as [|pmds]; [discriminate|]. cbn [pud_lookup] in Hl.
      destruct Hwfpud as [Hlenm Hwfm]. rewrite Forall_lookup in Hwfm.
      destruct (pmds !! idx m) as [pmd|] eqn:Hpmd; [|discriminate].
      cbn [mbind option_bind] in Hl.
      assert (Hm' : m < M).
      { apply lookup_lt_Some in Hpmd. unfold idx in Hpmd. unfold M. lia. }
      pose proof (Hwfm _ _ Hpmd) as Hwfpmd.
      destruct pmd as [w|pte].
      { cbn in Hl. destruct (pmdv_huge L w); [|destruct (pmdv_none L w)];
          discriminate. }
      cbn [pmd_lookup] in Hl.
      destruct (pte !! idx t) as [e|] eqn:Hpte; [|discriminate].
      assert (Ht' : t < T).
      { apply lookup_lt_Some in Hpte. unfold idx in Hpte. cbn in Hwfpmd.
        unfold T. lia. }
      destruct (frame_of_indices L g m t pte_bits_nonneg pmd_bits_nonneg
                  pgd_bits_nonneg ltac:(lia) ltac:(fold M; lia)
                  ltac:(fold T; lia))
        as (Hgfn & Eg & Em & Et).
      fold T M in Hgfn, Eg, Em, Et.
      set (gfn := (g * M + m) * T + t) in *.
      exists gfn, (At_pte g m t), v.
      split; [|split; [|split; [exact I | exact Hh]]].
      * apply (range_visits_leaf_gfn L page_shift_nonneg pte_bits_nonneg
                 pmd_bits_nonneg pgd_bits_nonneg address_bits a b
                 a_in_reach b_in_reach gfn); [lia|].
        fold T M. rewrite Eg, Em, Et. exact Hv.
      * rewrite gpa_lookup_unfold.
        rewrite pgd_index_gfn, pmd_offset_gfn, pte_offset_gfn by assumption.
        fold T M. rewrite Eg, Em, Et, Hpud. cbn [mbind option_bind pud_lookup].
        rewrite Hpmd. cbn [mbind option_bind pmd_lookup]. rewrite Hpte.
        exact Hl.
    + intros (gfn & p & v & Hin & Hl & Hp & Hh).
      destruct (frame_ptr pgd gfn p v ltac:(lia) Hl) as [-> | ->];
        [destruct Hp|].
      pose proof (Z.mod_pos_bound gfn T HT).
      pose proof (Z.mod_pos_bound (gfn / T) M HM).
      exists (gfn / (T * M)), ((gfn / T) mod M), (gfn mod T), v.
      split; [apply Z.div_pos; nia|]. split; [lia|]. split; [lia|].
      split; [|split; [|exact Hh]].
      * apply (range_visits_leaf_gfn L page_shift_nonneg pte_bits_nonneg
                 pmd_bits_nonneg pgd_bits_nonneg address_bits a b
                 a_in_reach b_in_reach gfn); lia.
      * rewrite gpa_lookup_unfold in Hl.
        rewrite pgd_index_gfn, pmd_offset_gfn, pte_offset_gfn in Hl
          by (assumption || lia).
        exact Hl.
Qed.
End RangeGpa.

(** The two sweeps as instances of the range operation *)
Lemma sweep_cases (L : layout) (f : vz_vm -> Z -> Z -> option (Z * vz_vm))
    (op : Z -> Z) (bit : Z -> bool) :
  status_bits_apart L ->
  (f = kvm_mips_mkclean_gpa_pt L /\ op = pte_mkclean L
   /\ bit = pte_dirty L)
  \/ (f = kvm_mips_mkold_gpa_pt L /\ op = pte_mkold L
      /\ bit = pte_young L) ->
  (forall kvm a b,
     f kvm a b
     = '(r, pgd) ← kvm_mips_range_pgd L op op (gpa_mm_pgd kvm)
                     (ushl a (PAGE_SHIFT L)) (ushl b (PAGE_SHIFT L));
       Some (r, set_pgd kvm pgd))
  /\ (forall v, pmdv_huge L v = true -> pmdv_huge L (op v) = true)
  /\ (forall v, pte_present L (op v) = pte_present L v)
  /\ (forall v, bit (op v) = false).
Proof.
  intros Hbits [(-> & -> & ->) | (-> & -> & ->)].
  - split; [reflexivity|]. split; [apply mkclean_keeps_huge, Hbits|].
    split; [apply mkclean_keeps_present, Hbits|].
    apply mkclean_clean, Hbits.
  - split; [reflexivity|]. split; [apply mkold_keeps_huge, Hbits|].
    split; [apply mkold_keeps_present, Hbits|].
    apply mkold_old, Hbits.
Qed.

Lemma sweep_in_place_spec (L : layout)
    (f : vz_vm -> Z -> Z -> option (Z * vz_vm)) (op : Z -> Z)
    (bit : Z -> bool) (kvm : vz_vm) (start_gfn end_gfn : Z) :
  0 <= PTE_BITS L -> 0 <= PMD_BITS L -> 0 <= PGD_BITS L ->
  status_bits_apart L ->
  wf_pgd L (gpa_mm_pgd kvm) ->
  (f = kvm_mips_mkclean_gpa_pt L /\ op = pte_mkclean L
   /\ bit = pte_dirty L)
  \/ (f = kvm_mips_mkold_gpa_pt L /\ op = pte_mkold L
      /\ bit = pte_young L) ->
  exists r kvm',
    f kvm start_gfn end_gfn = Some (r, kvm')
    /\ (r = 0 \/ r = 1)
    /\ wf_pgd L (gpa_mm_pgd kvm')
    /\ memslots kvm' = memslots kvm
    /\ forall addr,
         (gpa_lookup L (gpa_mm_pgd kvm) addr = Some None ->
          gpa_lookup L (gpa_mm_pgd kvm') addr = Some None)
         /\ (forall p v,
               gpa_lookup L (gpa_mm_pgd kvm) addr = Some (Some (p, v)) ->
               exists v',
                 gpa_lookup L (gpa_mm_pgd kvm') addr = Some (Some (p, v'))
                 /\ (v' = v \/ (pte_present L v = true /\ v' = op v))
                 /\ pte_present L v' = pte_present L v).
Proof.
  intros Hpte Hpmd Hpgd Hbits Hwf Hcase.
  destruct (sweep_cases L f op bit Hbits Hcase) as (Hf & Hhuge & Hpres & _).
  destruct (range_pgd_in_place L op Hpte Hpmd Hpgd Hhuge (gpa_mm_pgd kvm)
              (ushl start_gfn (PAGE_SHIFT L)) (ushl end_gfn (PAGE_SHIFT L))
              Hwf)
    as (r & pgd' & Hrun & Hwf' & Hbit & Hnull & Hfound).
  exists r, (set_pgd kvm pgd').
  split; [rewrite Hf, Hrun; reflexivity|].
  cbn [set_pgd gpa_mm_pgd memslots].
  split; [exact Hbit|]. split; [exact Hwf'|]. split; [reflexivity|].
  intros addr. split; [apply Hnull|].
  intros p v Hl. rewrite (Hfound addr p v Hl).
  unfold range_pte_slot.
  destruct (range_visits_pgd L _ _ p); [|eauto].
  destruct (pte_present L v) eqn:Hp; [|eauto].
  exists (op v). split; [reflexivity|]. split; [auto|].
  rewrite Hpres. exact Hp.
Qed.

(** X19. Whatever the range, [kvm_mips_mkclean_gpa_pt] and
    [kvm_mips_mkold_gpa_pt] return 0 or 1 and work in place: the page
    table stays well formed, an address the walk found unmapped stays
    unmapped, and an entry the walk found is found at the same slot
    afterwards. A present entry is then either as it was or has its dirty
    bits (its accessed bits) cleared, and it is still present. *)
Theorem sweeps_rewrite_entries_in_place (L : layout)
    (f : vz_vm -> Z -> Z -> option (Z * vz_vm)) (op : Z -> Z)
    (kvm : vz_vm) (start_gfn end_gfn : Z) :
  0 <= PTE_BITS L -> 0 <= PMD_BITS L -> 0 <= PGD_BITS L ->
  status_bits_apart L ->
  wf_pgd L (gpa_mm_pgd kvm) ->
  (f = kvm_mips_mkclean_gpa_pt L /\ op = pte_mkclean L)
  \/ (f = kvm_mips_mkold_gpa_pt L /\ op = pte_mkold L) ->
  exists r kvm',
    f kvm start_gfn end_gfn = Some (r, kvm')
    /\ (r = 0 \/ r = 1)
    /\ wf_pgd L (gpa_mm_pgd kvm')
    /\ memslots kvm' = memslots kvm
    /\ forall addr,
         (gpa_lookup L (gpa_mm_pgd kvm) addr = Some None ->
          gpa_lookup L (gpa_mm_pgd kvm') addr = Some None)
         /\ (forall p v,
               gpa_lookup L (gpa_mm_pgd kvm) addr = Some (Some (p, v)) ->
               exists v',
                 gpa_lookup L (gpa_mm_pgd kvm') addr = Some (Some (p, v'))
                 /\ (pte_present L v = true ->
                     (v' = v \/ v' = op v) /\ pte_present L v' = true)).
Proof.
  intros Hpte Hpmd Hpgd Hbits Hwf Hcase.
  assert (Hbit : exists bit,
            (f = kvm_mips_mkclean_gpa_pt L /\ op = pte_mkclean L
             /\ bit = pte_dirty L)
            \/ (f = kvm_mips_mkold_gpa_pt L /\ op = pte_mkold L
                /\ bit = pte_young L)).
  { destruct Hcase as [[-> ->] | [-> ->]];
      [exists (pte_dirty L); left | exists (pte_young L); right]; auto. }
  destruct Hbit as [bit Hcase'].
  destruct (sweep_in_place_spec L f op bit kvm start_gfn end_gfn Hpte Hpmd
              Hpgd Hbits Hwf Hcase')
    as (r & kvm' & Hrun & Hr & Hwf' & Hms & Hshape).
  exists r, kvm'. split; [exact Hrun|]. split; [exact Hr|].
  split; [exact Hwf'|]. split; [exact Hms|].
  intros addr. destruct (Hshape addr) as [Hnull Hfound].
  split; [exact Hnull|]. intros p v Hl.
  destruct (Hfound p v Hl) as (v' & Hl' & Hv' & Hsame).
  exists v'. split; [exact Hl'|]. intros Hp.
  split; [|now rewrite Hsame].
  destruct Hv' as [-> | [_ ->]]; [now left | now right].
Qed.

Lemma sweep_frames_spec (L : layout)
    (f : vz_vm -> Z -> Z -> option (Z * vz_vm)) (op : Z -> Z)
    (bit : Z -> bool) (kvm : vz_vm) (a b : Z) :
  0 <= PAGE_SHIFT L -> 0 <= PTE_BITS L -> 0 <= PMD_BITS L ->
  0 <= PGD_BITS L ->
  PAGE_SHIFT L + PTE_BITS L + PMD_BITS L + PGD_BITS L <= wordsize ->
  status_bits_apart L ->
  wf_pgd L (gpa_mm_pgd kvm) ->
  0 <= a < gfn_limit L -> 0 <= b < gfn_limit L ->
  (f = kvm_mips_mkclean_gpa_pt L /\ op = pte_mkclean L
   /\ bit = pte_dirty L)
  \/ (f = kvm_mips_mkold_gpa_pt L /\ op = pte_mkold L
      /\ bit = pte_young L) ->
  exists r kvm',
    f kvm a b = Some (r, kvm')
    /\ (forall gfn p v,
          a <= gfn <= b ->
          gpa_lookup L (gpa_mm_pgd kvm) (ushl gfn (PAGE_SHIFT L))
          = Some (Some (p, v)) ->
          exists v',
            gpa_lookup L (gpa_mm_pgd kvm') (ushl gfn (PAGE_SHIFT L))
            = Some (Some (p, v'))
            /\ v' = (if pte_present L v then op v else v)
            /\ (pte_present L v' = true -> bit v' = false))
    /\ (forall gfn p v,
          0 <= gfn < gfn_limit L -> ~ (a <= gfn <= b) ->
          gpa_lookup L (gpa_mm_pgd kvm) (ushl gfn (PAGE_SHIFT L))
          = Some (Some (p, v)) ->
          is_leaf_ptr p
          \/ ~ (a / PTRS_PER_PTE L <= gfn / PTRS_PER_PTE L
                <= b / PTRS_PER_PTE L) ->
          gpa_lookup L (gpa_mm_pgd kvm') (ushl gfn (PAGE_SHIFT L))
          = Some (Some (p, v)))
    /\ (r = 1 <->
        exists gfn p v,
          a <= gfn <= b
          /\ gpa_lookup L (gpa_mm_pgd kvm) (ushl gfn (PAGE_SHIFT L))
             = Some (Some (p, v))
          /\ is_leaf_ptr p /\ pte_present L v = true /\ op v <> v).
Proof.
  intros Hps Hpte Hpmd Hpgd Hbits Hsb Hwf Ha Hb Hcase.
  destruct (sweep_cases L f op bit Hsb Hcase) as (Hf & Hhuge & Hpres & Hoff).
  destruct (range_pgd_in_place L op Hpte Hpmd Hpgd Hhuge (gpa_mm_pgd kvm)
              (ushl a (PAGE_SHIFT L)) (ushl b (PAGE_SHIFT L)) Hwf)
    as (r & pgd' & Hrun & _).
  destruct (range_pgd_frames L op Hps Hpte Hpmd Hpgd Hbits Hhuge a b Ha Hb
              (gpa_mm_pgd kvm) r pgd' Hwf Hrun) as (Hin & Hout & Hret).
  exists r, (set_pgd kvm pgd').
  split; [rewrite Hf, Hrun; reflexivity|].
  cbn [set_pgd gpa_mm_pgd]. split; [|split; [exact Hout|]].
  - intros gfn p v Hgfn Hl. rewrite (Hin gfn p v Hgfn Hl).
    unfold range_pte_slot. eexists. split; [reflexivity|].
    split; [reflexivity|].
    destruct (pte_present L v) eqn:Hp; [intros _; apply Hoff|].
    congruence.
  - rewrite Hret. unfold range_pte_hit.
    split; intros (gfn & p & v & Hgfn & Hl & Hp & Hh);
      exists gfn, p, v; (split; [exact Hgfn|]); (split; [exact Hl|]);
      (split; [exact Hp|]).
    + apply andb_prop in Hh as [H1 H2]. split; [exact H1|].
      apply negb_true_iff, Z.eqb_neq in H2. exact H2.
    + destruct Hh as [H1 H2]. rewrite H1. cbn.
      apply negb_true_iff, Z.eqb_neq. exact H2.
Qed.

(** X20. For guest frames [a] and [b] within the page table's reach,
    [kvm_mips_mkclean_gpa_pt(kvm, a, b)] (resp. [kvm_mips_mkold_gpa_pt])
    treats [b] as the last frame of the range: afterwards every present
    entry the walk found for a frame in [a, b] has its dirty bits (its
    accessed bits) cleared, so it is clean (old), and is still present.
    For a frame outside [a, b] a present leaf entry, and a present huge
    entry whose block does not meet the range, is unchanged. *)
Theorem sweeps_reach_every_frame_of_the_range (L : layout)
    (f : vz_vm -> Z -> Z -> option (Z * vz_vm)) (op : Z -> Z)
    (bit : Z -> bool) (kvm : vz_vm) (a b : Z) :
  0 <= PAGE_SHIFT L -> 0 <= PTE_BITS L -> 0 <= PMD_BITS L ->
  0 <= PGD_BITS L ->
  PAGE_SHIFT L + PTE_BITS L + PMD_BITS L + PGD_BITS L <= wordsize ->
  status_bits_apart L ->
  wf_pgd L (gpa_mm_pgd kvm) ->
  0 <= a < gfn_limit L -> 0 <= b < gfn_limit L ->
  (f = kvm_mips_mkclean_gpa_pt L /\ op = pte_mkclean L
   /\ bit = pte_dirty L)
  \/ (f = kvm_mips_mkold_gpa_pt L /\ op = pte_mkold L
      /\ bit = pte_young L) ->
  exists r kvm',
    f kvm a b = Some (r, kvm')
    /\ (forall gfn p v,
          a <= gfn <= b ->
          gpa_lookup L (gpa_mm_pgd kvm) (ushl gfn (PAGE_SHIFT L))
          = Some (Some (p, v)) ->
          pte_present L v = true ->
          gpa_lookup L (gpa_mm_pgd kvm') (ushl gfn (PAGE_SHIFT L))
          = Some (Some (p, op v))
          /\ pte_present L (op v) = true
          /\ bit (op v) = false)
    /\ (forall gfn p v,
          0 <= gfn < gfn_limit L -> ~ (a <= gfn <= b) ->
          gpa_lookup L (gpa_mm_pgd kvm) (ushl gfn (PAGE_SHIFT L))
          = Some (Some (p, v)) ->
          pte_present L v = true ->
          is_leaf_ptr p
          \/ ~ (a / PTRS_PER_PTE L <= gfn / PTRS_PER_PTE L
                <= b / PTRS_PER_PTE L) ->
          gpa_lookup L (gpa_mm_pgd kvm') (ushl gfn (PAGE_SHIFT L))
          = Some (Some (p, v))).
Proof.
  intros Hps Hpte Hpmd Hpgd Hbits Hsb Hwf Ha Hb Hcase.
  destruct (sweep_cases L f op bit Hsb Hcase) as (_ & _ & Hpres & _).
  destruct (sweep_frames_spec L f op bit kvm a b Hps Hpte Hpmd Hpgd Hbits
              Hsb Hwf Ha Hb Hcase) as (r & kvm' & Hrun & Hin & Hout & _).
  exists r, kvm'. split; [exact Hrun|]. split.
  - intros gfn p v Hgfn Hl Hp.
    destruct (Hin gfn p v Hgfn Hl) as (v' & Hl' & Hv' & Hoff).
    rewrite Hp in Hv'. subst v'.
    assert (Hp' : pte_present L (op v) = true) by now rewrite Hpres.
    split; [exact Hl'|]. split; [exact Hp' | exact (Hoff Hp')].
  - intros gfn p v Hgfn Hnot Hl _ Hcases.
    exact (Hout gfn p v Hgfn Hnot Hl Hcases).
Qed.

(** X21. The value [kvm_mips_mkclean_gpa_pt(kvm, a, b)] (resp.
    [kvm_mips_mkold_gpa_pt]) returns tells whether a leaf entry changed: it
    is 1 exactly when some frame of [a, b] has a present leaf entry whose
    dirty bits (accessed bits) were not all clear already, and 0
    otherwise. *)
Theorem sweeps_report_changed_leaf_entries (L : layout)
    (f : vz_vm -> Z -> Z -> option (Z * vz_vm)) (op : Z -> Z)
    (kvm : vz_vm) (a b : Z) :
  0 <= PAGE_SHIFT L -> 0 <= PTE_BITS L -> 0 <= PMD_BITS L ->
  0 <= PGD_BITS L ->
  PAGE_SHIFT L + PTE_BITS L + PMD_BITS L + PGD_BITS L <= wordsize ->
  status_bits_apart L ->
  wf_pgd L (gpa_mm_pgd kvm) ->
  0 <= a < gfn_limit L -> 0 <= b < gfn_limit L ->
  (f = kvm_mips_mkclean_gpa_pt L /\ op = pte_mkclean L)
  \/ (f = kvm_mips_mkold_gpa_pt L /\ op = pte_mkold L) ->
  exists r kvm',
    f kvm a b = Some (r, kvm')
    /\ (r = 0 \/ r = 1)
    /\ (r = 1 <->
        exists gfn p v,
          a <= gfn <= b
          /\ gpa_lookup L (gpa_mm_pgd kvm) (ushl gfn (PAGE_SHIFT L))
             = Some (Some (p, v))
          /\ is_leaf_ptr p /\ pte_present L v = true /\ op v <> v).
Proof.
  intros Hps Hpte Hpmd Hpgd Hbits Hsb Hwf Ha Hb Hcase.
  assert (Hflag : exists bit,
            (f = kvm_mips_mkclean_gpa_pt L /\ op = pte_mkclean L
             /\ bit = pte_dirty L)
            \/ (f = kvm_mips_mkold_gpa_pt L /\ op = pte_mkold L
                /\ bit = pte_young L)).
  { destruct Hcase as [[-> ->] | [-> ->]];
      [exists (pte_dirty L); left | exists (pte_young L); right]; auto. }
  destruct Hflag as [bit Hcase'].
  destruct (sweep_frames_spec L f op bit kvm a b Hps Hpte Hpmd Hpgd Hbits
              Hsb Hwf Ha Hb Hcase') as (r & kvm' & Hrun & _ & _ & Hret).
  destruct (sweep_in_place_spec L f op bit kvm a b Hpte Hpmd Hpgd Hsb Hwf
              Hcase') as (r0 & kvm0 & Hrun0 & Hbit & _).
  rewrite Hrun in Hrun0. injection Hrun0 as <- <-.
  exists r, kvm'. split; [exact Hrun|]. split; [exact Hbit | exact Hret].
Qed.

(** ** Ageing a host range *)

Lemma clear_bits_idem c v : clear_bits c (clear_bits c v) = clear_bits c v.
Proof.
  unfold clear_bits. now rewrite <- Z.land_assoc, Z.land_diag.
Qed.

Lemma mkold_idem L v : pte_mkold L (pte_mkold L v) = pte_mkold L v.
Proof. apply clear_bits_idem. Qed.

(** One pass of [kvm_mips_mkold_pgd] over the frames from [a] to [b] *)
Lemma mkold_pgd_step (L : layout) (pgd : list pud_t) (a b : Z) :
  0 <= PAGE_SHIFT L -> 0 <= PTE_BITS L -> 0 <= PMD_BITS L ->
  0 <= PGD_BITS L ->
  PAGE_SHIFT L + PTE_BITS L + PMD_BITS L + PGD_BITS L <= wordsize ->
  status_bits_apart L ->
  wf_pgd L pgd ->
  0 <= a < gfn_limit L -> 0 <= b < gfn_limit L ->
  exists r pgd',
    kvm_mips_mkold_pgd L pgd (ushl a (PAGE_SHIFT L)) (ushl b (PAGE_SHIFT L))
    = Some (r, pgd')
    /\ wf_pgd L pgd'
    /\ (r = 0 \/ r = 1)
    /\ (forall addr,
          gpa_lookup L pgd addr = Some None ->
          gpa_lookup L pgd' addr = Some None)
    /\ (forall addr p v,
          gpa_lookup L pgd addr = Some (Some (p, v)) ->
          exists v',
            gpa_lookup L pgd' addr = Some (Some (p, v'))
            /\ (v' = v \/ (pte_present L v = true /\ v' = pte_mkold L v)))
    /\ (forall gfn p v,
          a <= gfn <= b ->
          gpa_lookup L pgd (ushl gfn (PAGE_SHIFT L)) = Some (Some (p, v)) ->
          gpa_lookup L pgd' (ushl gfn (PAGE_SHIFT L))
          = Some (Some (p, range_pte_slot L (pte_mkold L) v)))
    /\ (forall addr p v,
          gpa_lookup L pgd addr = Some (Some (p, v)) ->
          is_leaf_ptr p ->
          gpa_lookup L pgd' addr <> Some (Some (p, v)) ->
          r = 1).
Proof.
  intros Hps Hpte Hpmd Hpgd Hbits Hsb Hwf Ha Hb.
  pose proof (mkold_keeps_huge L Hsb) as Hhuge.
  destruct (range_pgd_in_place L (pte_mkold L) Hpte Hpmd Hpgd Hhuge pgd
              (ushl a (PAGE_SHIFT L)) (ushl b (PAGE_SHIFT L)) Hwf)
    as (r & pgd' & Hrun & Hwf' & Hbit & Hnull & Hfound).
  destruct (range_pgd_frames L (pte_mkold L) Hps Hpte Hpmd Hpgd Hbits Hhuge
              a b Ha Hb pgd r pgd' Hwf Hrun) as (Hin & _ & _).
  destruct (range_pgd_lookup L (pte_mkold L) Hpte Hpmd Hpgd Hhuge pgd _ _ r
              pgd' Hwf Hrun) as (_ & _ & _ & _ & Hhit).
  exists r, pgd'. split; [exact Hrun|]. split; [exact Hwf'|].
  split; [exact Hbit|]. split; [exact Hnull|]. split; [|split; [exact Hin|]].
  - intros addr p v Hl. rewrite (Hfound addr p v Hl).
    unfold range_pte_slot.
    destruct (range_visits_pgd L _ _ p); [|eauto].
    destruct (pte_present L v) eqn:Hp; eauto.
  - intros addr p v Hl Hp Hne. rewrite (Hfound addr p v Hl) in Hne.
    apply Hhit.
    rewrite gpa_lookup_unfold in Hl.
    assert (Hptr : p = At_pte (pgd_index L addr) (__pmd_offset L addr)
                              (__pte_offset L addr)).
    { destruct (pgd !! idx (pgd_index L addr)) as [pud|]; [|discriminate].
      destruct (pud_lookup_ptr L _ _ _ _ _ _ Hl) as [-> | ->];
        [destruct Hp | reflexivity]. }
    subst p.
    exists (pgd_index L addr), (__pmd_offset L addr), (__pte_offset L addr),
      v.
    split; [apply pgd_index_range, Hpgd|].
    split; [apply pmd_offset_range, Hpmd|].
    split; [apply pte_offset_range, Hpte|].
    destruct (range_visits_pgd L _ _ _); [|congruence].
    split; [reflexivity|]. split; [exact Hl|].
    unfold range_pte_hit, range_pte_slot in *.
    destruct (pte_present L v); [|congruence]. cbn.
    apply negb_true_iff, Z.eqb_neq. congruence.
Qed.

Section MkoldSlot.
Variable L : layout.
Hypothesis bits_apart : status_bits_apart L.

Lemma mkold_slot_stable v v1 :
  v1 = v \/ (pte_present L v = true /\ v1 = pte_mkold L v) ->
  range_pte_slot L (pte_mkold L) v1 = range_pte_slot L (pte_mkold L) v.
Proof.
  intros [-> | [Hp ->]]; [reflexivity|]. unfold range_pte_slot.
  rewrite (mkold_keeps_present L bits_apart), Hp. apply mkold_idem.
Qed.

Lemma mkold_slot_fixed v v2 :
  v2 = range_pte_slot L (pte_mkold L) v
  \/ (pte_present L (range_pte_slot L (pte_mkold L) v) = true
      /\ v2 = pte_mkold L (range_pte_slot L (pte_mkold L) v)) ->
  v2 = range_pte_slot L (pte_mkold L) v.
Proof.
  intros [-> | [Hp ->]]; [reflexivity|]. unfold range_pte_slot in *.
  destruct (pte_present L v) eqn:Hv; [apply mkold_idem | congruence].
Qed.
End MkoldSlot.

Lemma age_slots (L : layout) (start end_ : Z)
    (slots : list kvm_memory_slot) :
  0 <= PAGE_SHIFT L -> 0 <= PTE_BITS L -> 0 <= PMD_BITS L ->
  0 <= PGD_BITS L ->
  PAGE_SHIFT L + PTE_BITS L + PMD_BITS L + PGD_BITS L <= wordsize ->
  status_bits_apart L ->
  Forall (slot_in_reach L) slots ->
  Forall (fun s => base_gfn s + npages s < gfn_limit L) slots ->
  forall kvm ret,
    wf_pgd L (gpa_mm_pgd kvm) -> ret = 0 \/ ret = 1 ->
    exists ret' kvm',
      for_each_memslot L slots kvm start end_ (kvm_age_hva_handler L) ret
      = Some (ret', kvm')
      /\ wf_pgd L (gpa_mm_pgd kvm')
      /\ memslots kvm' = memslots kvm
      /\ (ret' = 0 \/ ret' = 1)
      /\ (ret = 1 -> ret' = 1)
      /\ (forall addr,
            gpa_lookup L (gpa_mm_pgd kvm) addr = Some None ->
            gpa_lookup L (gpa_mm_pgd kvm') addr = Some None)
      /\ (forall addr p v,
            gpa_lookup L (gpa_mm_pgd kvm) addr = Some (Some (p, v)) ->
            exists v',
              gpa_lookup L (gpa_mm_pgd kvm') addr = Some (Some (p, v'))
              /\ (v' = v \/ (pte_present L v = true /\ v' = pte_mkold L v)))
      /\ (forall s k p v,
            In s slots -> page_meets L s k start end_ ->
            gpa_lookup L (gpa_mm_pgd kvm)
              (ushl (base_gfn s + k) (PAGE_SHIFT L)) = Some (Some (p, v)) ->
            gpa_lookup L (gpa_mm_pgd kvm')
              (ushl (base_gfn s + k) (PAGE_SHIFT L))
            = Some (Some (p, range_pte_slot L (pte_mkold L) v)))
      /\ (forall s k p v,
            In s slots -> page_meets L s k start end_ ->
            gpa_lookup L (gpa_mm_pgd kvm)
              (ushl (base_gfn s + k) (PAGE_SHIFT L)) = Some (Some (p, v)) ->
            is_leaf_ptr p -> pte_present L v = true ->
            pte_mkold L v <> v ->
            ret' = 1).
Proof.
  intros Hps Hpte Hpmd Hpgd Hbits Hsb Hreach Hbelow.
  induction slots as [|s slots IH]; intros kvm ret Hwf Hret.
  { exists ret, kvm. split; [reflexivity|]. split; [exact Hwf|].
    split; [reflexivity|]. split; [exact Hret|]. split; [auto|].
    split; [auto|]. split; [eauto|]. split; intros s k p v []. }
  apply Forall_cons in Hreach as [Hs Hreach].
  apply Forall_cons in Hbelow as [Hsb' Hbelow].
  specialize (IH Hreach Hbelow).
  cbn [for_each_memslot].
  pose proof (slot_skipped_iff L s start end_ Hps Hpte Hpmd Hpgd Hbits Hs)
    as Hskip.
  pose proof (hva_range_gfns L s start end_ Hps Hpte Hpmd Hpgd Hbits Hs)
    as Hgfns.
  cbv zeta in Hskip, Hgfns.
  set (hva_start := Z.max start (userspace_addr s)) in *.
  set (hva_end := Z.min end_ (uadd (userspace_addr s)
                                   (ushl (npages s) (PAGE_SHIFT L)))) in *.
  destruct (Z.leb_spec hva_end hva_start) as [Hle|Hlt].
  - destruct (IH kvm ret Hwf Hret)
      as (ret' & kvm' & Hrun & Hwf' & Hms & Hbit & Hmono & Hnull & Hshape
          & Hold & Hrep).
    exists ret', kvm'. split; [exact Hrun|]. split; [exact Hwf'|].
    split; [exact Hms|]. split; [exact Hbit|]. split; [exact Hmono|].
    split; [exact Hnull|]. split; [exact Hshape|]. split.
    + intros s' k p v [<-|Hin] Hmeet; [|now apply Hold].
      exfalso. exact (proj1 Hskip Hle k Hmeet).
    + intros s' k p v [<-|Hin] Hmeet; [|now apply (Hrep s' k p v)].
      exfalso. exact (proj1 Hskip Hle k Hmeet).
  - destruct (Hgfns Hlt) as (_ & _ & Hg0 & Hgle & Hglim & Hbase & Hend & Hiff).
    set (gfn := hva_to_gfn_memslot L hva_start s) in *.
    set (gfn_end := hva_to_gfn_memslot L
                      (usub (uadd hva_end (PAGE_SIZE L)) 1) s) in *.
    (* the handler's last frame, one past the range, is within reach *)
    assert (Hge : 0 <= gfn_end < modulus) by apply wrap_range.
    assert (Hsub : usub gfn_end 1 = gfn_end - 1).
    { destruct (Z.eq_dec gfn_end 0) as [E|E].
      - exfalso. rewrite E in Hend, Hglim.
        change (usub 0 1) with (modulus - 1) in Hend, Hglim.
        pose proof (gfn_limit_le_modulus L Hps Hpte Hpmd Hpgd Hbits). lia.
      - unfold usub. apply wrap_small. lia. }
    rewrite Hsub in *.
    destruct (mkold_pgd_step L (gpa_mm_pgd kvm) gfn gfn_end Hps Hpte Hpmd
                Hpgd Hbits Hsb Hwf ltac:(lia) ltac:(lia))
      as (r & pgd1 & Hrun1 & Hwf1 & Hbit1 & Hnull1 & Hshape1 & Hin1 & Hrep1).
    assert (Hh : kvm_age_hva_handler L kvm gfn gfn_end s
                 = Some (r, set_pgd kvm pgd1)).
    { unfold kvm_age_hva_handler, kvm_mips_mkold_gpa_pt.
      now rewrite Hrun1. }
    rewrite Hh. cbn [mbind option_bind].
    destruct (IH (set_pgd kvm pgd1) (Z.lor ret r) Hwf1
                (lor_bit ret r Hret Hbit1))
      as (ret' & kvm' & Hrun & Hwf' & Hms & Hbit & Hmono & Hnull & Hshape
          & Hold & Hrep).
    cbn [gpa_mm_pgd set_pgd] in Hnull, Hshape, Hold, Hrep.
    exists ret', kvm'. split; [exact Hrun|]. split; [exact Hwf'|].
    split; [exact Hms|]. split; [exact Hbit|].
    split; [|split; [|split; [|split]]].
    + intros ->. apply Hmono. destruct Hbit1 as [-> | ->]; reflexivity.
    + intros addr Hl. apply Hnull, Hnull1, Hl.
    + intros addr p v Hl.
      destruct (Hshape1 addr p v Hl) as (v1 & Hl1 & Hv1).
      destruct (Hshape addr p v1 Hl1) as (v2 & Hl2 & Hv2).
      exists v2. split; [exact Hl2|].
      destruct Hv1 as [-> | [Hp ->]]; [exact Hv2|].
      destruct Hv2 as [-> | [_ ->]]; [now right|].
      right. split; [exact Hp | apply mkold_idem].
    + intros s' k p v Hin Hmeet Hl.
      destruct (Hshape1 _ p v Hl) as (v1 & Hl1 & Hv1).
      destruct Hin as [<-|Hin].
      * apply Hiff in Hmeet.
        pose proof (Hin1 (base_gfn s + k) p v ltac:(lia) Hl) as Hl1'.
        destruct (Hshape _ p _ Hl1') as (v2 & Hl2 & Hv2).
        rewrite Hl2. do 3 f_equal.
        now apply mkold_slot_fixed.
      * rewrite (Hold s' k p v1 Hin Hmeet Hl1). do 3 f_equal.
        now apply (mkold_slot_stable L Hsb).
    + intros s' k p v Hin Hmeet Hl Hp Hpres Hyoung.
      destruct (Hshape1 _ p v Hl) as (v1 & Hl1 & Hv1).
      assert (Hr1 : r = 1 -> ret' = 1).
      { intros ->. apply Hmono. destruct Hret as [-> | ->]; reflexivity. }
      destruct (Z.eq_dec v1 v) as [->|Hne].
      * destruct Hin as [<-|Hin];
          [|exact (Hrep s' k p v Hin Hmeet Hl1 Hp Hpres Hyoung)].
        apply Hiff in Hmeet.
        pose proof (Hin1 (base_gfn s + k) p v ltac:(lia) Hl) as Hl1'.
        rewrite Hl1 in Hl1'. unfold range_pte_slot in Hl1'.
        rewrite Hpres in Hl1'. congruence.
      * apply Hr1, (Hrep1 _ p v Hl Hp). rewrite Hl1. congruence.
Qed.

(** X22. [kvm_age_hva] makes every guest frame backed by the host range
    old: for every page of every memory slot that meets the range, a
    present entry the walk found for its guest frame has its accessed bits
    cleared afterwards, and the call returns 1 if such a leaf entry was
    young. It returns 0 or 1, keeps the page table well formed and works in
    place: what was unmapped stays unmapped, an entry is found at the slot
    where it was, and a present entry is then unchanged or has its accessed
    bits cleared, and is still present. The slots must end below the page
    table's reach, because the handler passes the frame after the last one
    as the end of the range. *)
Theorem age_hva_makes_every_backed_frame_old (L : layout) (kvm : vz_vm)
    (start end_ : Z) :
  0 <= PAGE_SHIFT L -> 0 <= PTE_BITS L -> 0 <= PMD_BITS L ->
  0 <= PGD_BITS L ->
  PAGE_SHIFT L + PTE_BITS L + PMD_BITS L + PGD_BITS L <= wordsize ->
  status_bits_apart L ->
  Forall (slot_in_reach L) (memslots kvm) ->
  Forall (fun s => base_gfn s + npages s < gfn_limit L) (memslots kvm) ->
  wf_pgd L (gpa_mm_pgd kvm) ->
  exists r kvm',
    kvm_age_hva L kvm start end_ = Some (r, kvm')
    /\ (r = 0 \/ r = 1)
    /\ wf_pgd L (gpa_mm_pgd kvm')
    /\ memslots kvm' = memslots kvm
    /\ (forall addr,
          (gpa_lookup L (gpa_mm_pgd kvm) addr = Some None ->
           gpa_lookup L (gpa_mm_pgd kvm') addr = Some None)
          /\ (forall p v,
                gpa_lookup L (gpa_mm_pgd kvm) addr = Some (Some (p, v)) ->
                exists v',
                  gpa_lookup L (gpa_mm_pgd kvm') addr = Some (Some (p, v'))
                  /\ (pte_present L v = true ->
                      (v' = v \/ v' = pte_mkold L v)
                      /\ pte_present L v' = true)))
    /\ (forall s k p v,
          In s (memslots kvm) -> page_meets L s k start end_ ->
          gpa_lookup L (gpa_mm_pgd kvm)
            (ushl (base_gfn s + k) (PAGE_SHIFT L)) = Some (Some (p, v)) ->
          pte_present L v = true ->
          gpa_lookup L (gpa_mm_pgd kvm')
            (ushl (base_gfn s + k) (PAGE_SHIFT L))
          = Some (Some (p, pte_mkold L v))
          /\ pte_young L (pte_mkold L v) = false
          /\ (is_leaf_ptr p -> pte_young L v = true -> r = 1)).
Proof.
  intros Hps Hpte Hpmd Hpgd Hbits Hsb Hreach Hbelow Hwf.
  destruct (age_slots L start end_ (memslots kvm) Hps Hpte Hpmd Hpgd Hbits
              Hsb Hreach Hbelow kvm 0 Hwf ltac:(now left))
    as (r & kvm' & Hrun & Hwf' & Hms & Hbit & _ & Hnull & Hshape & Hold
        & Hrep).
  exists r, kvm'. split; [exact Hrun|]. split; [exact Hbit|].
  split; [exact Hwf'|]. split; [exact Hms|]. split.
  - intros addr. split; [apply Hnull|]. intros p v Hl.
    destruct (Hshape addr p v Hl) as (v' & Hl' & Hv').
    exists v'. split; [exact Hl'|]. intros Hp.
    destruct Hv' as [-> | [_ ->]]; (split; [auto|]); [exact Hp|].
    rewrite (mkold_keeps_present L Hsb). exact Hp.
  - intros s k p v Hin Hmeet Hl Hpres.
    pose proof (Hold s k p v Hin Hmeet Hl) as Hl'.
    unfold range_pte_slot in Hl'. rewrite Hpres in Hl'.
    split; [exact Hl'|]. split; [apply mkold_old, Hsb|].
    intros Hp Hyoung. apply (Hrep s k p v Hin Hmeet Hl Hp Hpres).
    intros E. pose proof (mkold_old L Hsb v) as Hoff.
    rewrite E in Hoff. congruence.
Qed.

(** ** Initialising the page directory, word by word *)

Lemma store_word_spec page i v :
  0 <= i < Z.of_nat (length page) ->
  store_word page i v = Some (<[Z.to_nat i := v]> page).
Proof.
  intros Hi. unfold store_word.
  destruct (Z.leb_spec 0 i), (Z.ltb_spec i (Z.of_nat (length page)));
    try lia. reflexivity.
Qed.

Lemma store_word_inv page i v page' :
  store_word page i v = Some page' ->
  0 <= i < Z.of_nat (length page) /\ page' = <[Z.to_nat i := v]> page.
Proof.
  unfold store_word.
  destruct (Z.leb_spec 0 i), (Z.ltb_spec i (Z.of_nat (length page)));
    cbn; intros E; simplify_eq. split; [lia | reflexivity].
Qed.

(** Eight stores from [p] on fill the eight words there. *)
Lemma pgd_init_body_spec entry p page :
  0 <= p -> p + 8 <= Z.of_nat (length page) ->
  pgd_init_body entry p page
  = Some (p + 8,
          take (Z.to_nat p) page ++ replicate 8 entry
          ++ drop (Z.to_nat (p + 8)) page).
Proof.
  intros Hp Hlen. unfold pgd_init_body.
  repeat (rewrite store_word_spec by (rewrite ?length_insert; lia);
          cbn [mbind option_bind]).
  f_equal. f_equal.
  apply list_eq. intros i.
  destruct (Nat.lt_ge_cases i (Z.to_nat p)) as [Hlo|Hlo].
  { rewrite lookup_app_l by (rewrite length_take; lia).
    rewrite lookup_take_lt by lia.
    rewrite !list_lookup_insert_ne by lia. reflexivity. }
  rewrite lookup_app_r by (rewrite length_take; lia).
  rewrite length_take, Nat.min_l by lia.
  destruct (Nat.lt_ge_cases i (Z.to_nat p + 8)) as [Hmid|Hhi].
  - rewrite lookup_app_l by (rewrite length_replicate; lia).
    rewrite lookup_replicate_2 by lia.
    assert (Hcase : exists j, (j < 8)%nat /\ i = (Z.to_nat p + j)%nat)
      by (exists (i - Z.to_nat p)%nat; lia).
    destruct Hcase as (j & Hj & ->).
    replace (Z.to_nat (p + 8 - 1)) with (Z.to_nat p + 7)%nat by lia.
    replace (Z.to_nat (p + 8 - 2)) with (Z.to_nat p + 6)%nat by lia.
    replace (Z.to_nat (p + 8 - 3)) with (Z.to_nat p + 5)%nat by lia.
    replace (Z.to_nat (p + 4)) with (Z.to_nat p + 4)%nat by lia.
    replace (Z.to_nat (p + 3)) with (Z.to_nat p + 3)%nat by lia.
    replace (Z.to_nat (p + 2)) with (Z.to_nat p + 2)%nat by lia.
    replace (Z.to_nat (p + 1)) with (Z.to_nat p + 1)%nat by lia.
    replace (Z.to_nat (p + 0)) with (Z.to_nat p + 0)%nat by lia.
    do 8 (destruct j as [|j];
          [repeat (rewrite list_lookup_insert_ne by lia);
           rewrite list_lookup_insert_eq by (rewrite ?length_insert; lia);
           reflexivity|]).
    lia.
  - rewrite lookup_app_r by (rewrite length_replicate; lia).
    rewrite length_replicate, lookup_drop.
    rewrite !list_lookup_insert_ne by lia.
    f_equal. lia.
Qed.

Lemma pgd_init_body_inv entry p page p' page' :
  0 <= p ->
  pgd_init_body entry p page = Some (p', page') ->
  p' = p + 8 /\ p + 8 <= Z.of_nat (length page)
  /\ length page' = length page.
Proof.
  intros Hp Hrun. unfold pgd_init_body in Hrun.
  repeat match type of Hrun with
  | mbind _ (store_word ?pg ?i ?v) = _ =>
      let E := fresh "E" in
      destruct (store_word pg i v) eqn:E; [|discriminate];
      apply store_word_inv in E as [? ->];
      cbn [mbind option_bind] in Hrun
  end.
  simplify_eq. rewrite !length_insert in *. repeat split; lia.
Qed.

Lemma pgd_init_loop_spec entry end_ (m : nat) :
  forall (fuel : nat) p page,
    0 <= p -> p + 8 * Z.of_nat (S m) = end_ ->
    end_ <= Z.of_nat (length page) -> (m < fuel)%nat ->
    pgd_init_loop fuel entry p end_ page
    = Some (take (Z.to_nat p) page
            ++ replicate (8 * S m) entry
            ++ drop (Z.to_nat end_) page).
Proof.
  induction m as [|m IH]; intros fuel p page Hp Hend Hlen Hfuel;
    (destruct fuel as [|fuel]; [lia|]); cbn [pgd_init_loop];
    rewrite pgd_init_body_spec by lia; cbn [mbind option_bind].
  - destruct (Z.eqb_spec (p + 8) end_) as [<-|]; [|lia]. cbn [negb].
    reflexivity.
  - destruct (Z.eqb_spec (p + 8) end_); [lia|]. cbn [negb].
    set (page1 := take (Z.to_nat p) page ++ replicate 8 entry
                  ++ drop (Z.to_nat (p + 8)) page).
    assert (Hlen1 : length page1 = length page).
    { unfold page1. rewrite !length_app, length_take, length_replicate,
        length_drop. lia. }
    rewrite (IH fuel (p + 8) page1) by lia.
    f_equal. unfold page1.
    rewrite take_app_ge by (rewrite length_take; lia).
    rewrite length_take, Nat.min_l by lia.
    rewrite take_app_ge by (rewrite length_replicate; lia).
    rewrite length_replicate.
    replace (Z.to_nat (p + 8) - Z.to_nat p - 8)%nat with 0%nat by lia.
    rewrite take_0, app_nil_r.
    rewrite drop_app_ge by (rewrite length_take; lia).
    rewrite length_take, Nat.min_l by lia.
    rewrite drop_app_ge by (rewrite length_replicate; lia).
    rewrite length_replicate, drop_drop.
    rewrite <- !app_assoc. f_equal. rewrite app_assoc.
    rewrite <- replicate_add. f_equal; [f_equal; lia|].
    f_equal. lia.
Qed.

Lemma pgd_init_loop_inv entry end_ (fuel : nat) :
  forall p page page',
    0 <= p ->
    pgd_init_loop fuel entry p end_ page = Some page' ->
    exists k, 0 < k /\ end_ = p + 8 * k /\ end_ <= Z.of_nat (length page).
Proof.
  induction fuel as [|fuel IH]; intros p page page' Hp Hrun; [discriminate|].
  cbn [pgd_init_loop] in Hrun.
  destruct (pgd_init_body entry p page) as [[p1 page1]|] eqn:Hbody;
    [|discriminate].
  cbn [mbind option_bind] in Hrun.
  apply pgd_init_body_inv in Hbody as (-> & Hfit & Hlen1); [|exact Hp].
  destruct (Z.eqb_spec (p + 8) end_) as [<-|Hne]; cbn [negb] in Hrun.
  - exists 1. lia.
  - apply IH in Hrun as (k & Hk & -> & Hle); [|lia].
    exists (k + 1). lia.
Qed.

(** X23. [kvm_pgd_init] fills the page directory exactly when its number
    of slots is a positive multiple of eight that fits the page: then every
    slot holds the address of the invalid table and the words after the
    directory are untouched. In every other case the call is undefined:
    the unrolled loop never meets [end] inside the page. [kvm_pgd_alloc]
    returns NULL when the allocation fails and the initialised directory
    otherwise. *)
Theorem pgd_init_fills_a_directory_of_eight_slot_groups
    (ptrs_per_pgd entry : Z) (page : list Z) :
  (forall k,
     0 < k -> ptrs_per_pgd = 8 * k ->
     ptrs_per_pgd <= Z.of_nat (length page) ->
     let filled := replicate (Z.to_nat ptrs_per_pgd) entry
                   ++ drop (Z.to_nat ptrs_per_pgd) page in
     kvm_pgd_init_words ptrs_per_pgd entry page = Some filled
     /\ kvm_pgd_alloc ptrs_per_pgd entry (Some page) = Some (Some filled))
  /\ (forall page',
        kvm_pgd_init_words ptrs_per_pgd entry page = Some page' ->
        exists k,
          0 < k /\ ptrs_per_pgd = 8 * k
          /\ ptrs_per_pgd <= Z.of_nat (length page))
  /\ kvm_pgd_alloc ptrs_per_pgd entry None = Some None.
Proof.
  split; [|split; [|reflexivity]].
  - intros k Hk Hn Hfit filled.
    assert (Hrun : kvm_pgd_init_words ptrs_per_pgd entry page = Some filled).
    { unfold kvm_pgd_init_words.
      rewrite (pgd_init_loop_spec entry ptrs_per_pgd (Z.to_nat (k - 1))
                 (S (length page)) 0 page) by lia.
      change (Z.to_nat 0) with 0%nat. rewrite take_0. cbn [app].
      replace (8 * S (Z.to_nat (k - 1)))%nat with (Z.to_nat ptrs_per_pgd)
        by lia.
      reflexivity. }
    split; [exact Hrun|]. cbn [kvm_pgd_alloc]. now rewrite Hrun.
  - intros page' Hrun. unfold kvm_pgd_init_words in Hrun.
    apply pgd_init_loop_inv in Hrun as (k & Hk & Hn & Hfit); [|lia].
    exists k. split; [exact Hk|]. split; [lia | exact Hfit].
Qed.

(** ** Examples over [layout16k] for the sweeps and the directory *)

Lemma ex_status_bits_apart : status_bits_apart layout16k.
Proof.
  unfold status_bits_apart. cbn.
  repeat split; (discriminate || reflexivity).
Qed.

Lemma sweeps_rewrite_entries_in_place_witness :
  let f := kvm_mips_mkclean_gpa_pt layout16k in
  let op := pte_mkclean layout16k in
  status_bits_apart layout16k
  /\ wf_pgd layout16k (gpa_mm_pgd ex_kvm_two)
  /\ ((f = kvm_mips_mkclean_gpa_pt layout16k /\ op = pte_mkclean layout16k)
      \/ (f = kvm_mips_mkold_gpa_pt layout16k /\ op = pte_mkold layout16k))
  /\ exists r kvm',
       f ex_kvm_two 0 1 = Some (r, kvm')
       /\ (r = 0 \/ r = 1)
       /\ wf_pgd layout16k (gpa_mm_pgd kvm')
       /\ memslots kvm' = memslots ex_kvm_two
       /\ forall addr,
            (gpa_lookup layout16k (gpa_mm_pgd ex_kvm_two) addr = Some None ->
             gpa_lookup layout16k (gpa_mm_pgd kvm') addr = Some None)
            /\ (forall p v,
                  gpa_lookup layout16k (gpa_mm_pgd ex_kvm_two) addr
                  = Some (Some (p, v)) ->
                  exists v',
                    gpa_lookup layout16k (gpa_mm_pgd kvm') addr
                    = Some (Some (p, v'))
                    /\ (pte_present layout16k v = true ->
                        (v' = v \/ v' = op v)
                        /\ pte_present layout16k v' = true)).
Proof.
  intros f op.
  assert (Hcase : (f = kvm_mips_mkclean_gpa_pt layout16k
                   /\ op = pte_mkclean layout16k)
                  \/ (f = kvm_mips_mkold_gpa_pt layout16k
                      /\ op = pte_mkold layout16k))
    by (left; split; reflexivity).
  split; [exact ex_status_bits_apart|]. split; [exact wf_ex_pgd_two|].
  split; [exact Hcase|].
  apply (sweeps_rewrite_entries_in_place layout16k f op ex_kvm_two 0 1);
    [discriminate | discriminate | discriminate | exact ex_status_bits_apart
    | exact wf_ex_pgd_two | exact Hcase].
Defined.

Lemma sweeps_reach_every_frame_of_the_range_witness :
  let f := kvm_mips_mkold_gpa_pt layout16k in
  let op := pte_mkold layout16k in
  let bit := pte_young layout16k in
  status_bits_apart layout16k
  /\ wf_pgd layout16k (gpa_mm_pgd ex_kvm_two)
  /\ 0 <= 0 < gfn_limit layout16k /\ 0 <= 1 < gfn_limit layout16k
  /\ ((f = kvm_mips_mkclean_gpa_pt layout16k /\ op = pte_mkclean layout16k
       /\ bit = pte_dirty layout16k)
      \/ (f = kvm_mips_mkold_gpa_pt layout16k /\ op = pte_mkold layout16k
          /\ bit = pte_young layout16k))
  /\ exists r kvm',
       f ex_kvm_two 0 1 = Some (r, kvm')
       /\ (forall gfn p v,
             0 <= gfn <= 1 ->
             gpa_lookup layout16k (gpa_mm_pgd ex_kvm_two)
               (ushl gfn (PAGE_SHIFT layout16k)) = Some (Some (p, v)) ->
             pte_present layout16k v = true ->
             gpa_lookup layout16k (gpa_mm_pgd kvm')
               (ushl gfn (PAGE_SHIFT layout16k)) = Some (Some (p, op v))
             /\ pte_present layout16k (op v) = true
             /\ bit (op v) = false)
       /\ (forall gfn p v,
             0 <= gfn < gfn_limit layout16k -> ~ (0 <= gfn <= 1) ->
             gpa_lookup layout16k (gpa_mm_pgd ex_kvm_two)
               (ushl gfn (PAGE_SHIFT layout16k)) = Some (Some (p, v)) ->
             pte_present layout16k v = true ->
             is_leaf_ptr p
             \/ ~ (0 / PTRS_PER_PTE layout16k <= gfn / PTRS_PER_PTE layout16k
                   <= 1 / PTRS_PER_PTE layout16k) ->
             gpa_lookup layout16k (gpa_mm_pgd kvm')
               (ushl gfn (PAGE_SHIFT layout16k)) = Some (Some (p, v))).
Proof.
  intros f op bit.
  assert (Hcase : (f = kvm_mips_mkclean_gpa_pt layout16k
                   /\ op = pte_mkclean layout16k
                   /\ bit = pte_dirty layout16k)
                  \/ (f = kvm_mips_mkold_gpa_pt layout16k
                      /\ op = pte_mkold layout16k
                      /\ bit = pte_young layout16k))
    by (right; split; [|split]; reflexivity).
  assert (H0 : 0 <= 0 < gfn_limit layout16k)
    by (split; [discriminate | reflexivity]).
  assert (H1 : 0 <= 1 < gfn_limit layout16k)
    by (split; [discriminate | reflexivity]).
  split; [exact ex_status_bits_apart|]. split; [exact wf_ex_pgd_two|].
  split; [exact H0|]. split; [exact H1|]. split; [exact Hcase|].
  apply (sweeps_reach_every_frame_of_the_range layout16k f op bit ex_kvm_two
           0 1);
    [discriminate | discriminate | discriminate | discriminate
    | discriminate | exact ex_status_bits_apart | exact wf_ex_pgd_two
    | exact H0 | exact H1 | exact Hcase].
Defined.

Lemma sweeps_report_changed_leaf_entries_witness :
  let f := kvm_mips_mkold_gpa_pt layout16k in
  let op := pte_mkold layout16k in
  status_bits_apart layout16k
  /\ wf_pgd layout16k (gpa_mm_pgd ex_kvm_two)
  /\ 0 <= 0 < gfn_limit layout16k /\ 0 <= 1 < gfn_limit layout16k
  /\ ((f = kvm_mips_mkclean_gpa_pt layout16k /\ op = pte_mkclean layout16k)
      \/ (f = kvm_mips_mkold_gpa_pt layout16k /\ op = pte_mkold layout16k))
  /\ exists r kvm',
       f ex_kvm_two 0 1 = Some (r, kvm')
       /\ (r = 0 \/ r = 1)
       /\ (r = 1 <->
           exists gfn p v,
             0 <= gfn <= 1
             /\ gpa_lookup layout16k (gpa_mm_pgd ex_kvm_two)
                  (ushl gfn (PAGE_SHIFT layout16k)) = Some (Some (p, v))
             /\ is_leaf_ptr p /\ pte_present layout16k v = true
             /\ op v <> v).
Proof.
  intros f op.
  assert (Hcase : (f = kvm_mips_mkclean_gpa_pt layout16k
                   /\ op = pte_mkclean layout16k)
                  \/ (f = kvm_mips_mkold_gpa_pt layout16k
                      /\ op = pte_mkold layout16k))
    by (right; split; reflexivity).
  assert (H0 : 0 <= 0 < gfn_limit layout16k)
    by (split; [discriminate | reflexivity]).
  assert (H1 : 0 <= 1 < gfn_limit layout16k)
    by (split; [discriminate | reflexivity]).
  split; [exact ex_status_bits_apart|]. split; [exact wf_ex_pgd_two|].
  split; [exact H0|]. split; [exact H1|]. split; [exact Hcase|].
  apply (sweeps_report_changed_leaf_entries layout16k f op ex_kvm_two 0 1);
    [discriminate | discriminate | discriminate | discriminate
    | discriminate | exact ex_status_bits_apart | exact wf_ex_pgd_two
    | exact H0 | exact H1 | exact Hcase].
Defined.

Lemma ex_slot_below_reach :
  Forall (fun s => base_gfn s + npages s < gfn_limit layout16k) [ex_slot].
Proof. constructor; [reflexivity | constructor]. Qed.

Lemma age_hva_makes_every_backed_frame_old_witness :
  let start := 2 ^ 28 in
  let end_ := 2 ^ 28 + 2 ^ 14 in
  status_bits_apart layout16k
  /\ Forall (slot_in_reach layout16k) (memslots ex_kvm_leaf)
  /\ Forall (fun s => base_gfn s + npages s < gfn_limit layout16k)
       (memslots ex_kvm_leaf)
  /\ wf_pgd layout16k (gpa_mm_pgd ex_kvm_leaf)
  /\ exists r kvm',
       kvm_age_hva layout16k ex_kvm_leaf start end_ = Some (r, kvm')
       /\ (r = 0 \/ r = 1)
       /\ wf_pgd layout16k (gpa_mm_pgd kvm')
       /\ memslots kvm' = memslots ex_kvm_leaf
       /\ (forall addr,
             (gpa_lookup layout16k (gpa_mm_pgd ex_kvm_leaf) addr = Some None ->
              gpa_lookup layout16k (gpa_mm_pgd kvm') addr = Some None)
             /\ (forall p v,
                   gpa_lookup layout16k (gpa_mm_pgd ex_kvm_leaf) addr
                   = Some (Some (p, v)) ->
                   exists v',
                     gpa_lookup layout16k (gpa_mm_pgd kvm') addr
                     = Some (Some (p, v'))
                     /\ (pte_present layout16k v = true ->
                         (v' = v \/ v' = pte_mkold layout16k v)
                         /\ pte_present layout16k v' = true)))
       /\ (forall s k p v,
             In s (memslots ex_kvm_leaf) ->
             page_meets layout16k s k start end_ ->
             gpa_lookup layout16k (gpa_mm_pgd ex_kvm_leaf)
               (ushl (base_gfn s + k) (PAGE_SHIFT layout16k))
             = Some (Some (p, v)) ->
             pte_present layout16k v = true ->
             gpa_lookup layout16k (gpa_mm_pgd kvm')
               (ushl (base_gfn s + k) (PAGE_SHIFT layout16k))
             = Some (Some (p, pte_mkold layout16k v))
             /\ pte_young layout16k (pte_mkold layout16k v) = false
             /\ (is_leaf_ptr p -> pte_young layout16k v = true -> r = 1)).
Proof.
  intros start end_.
  split; [exact ex_status_bits_apart|]. split; [exact ex_slot_in_reach|].
  split; [exact ex_slot_below_reach|]. split; [exact wf_ex_pgd_leaf|].
  apply (age_hva_makes_every_backed_frame_old layout16k ex_kvm_leaf start
           end_);
    [discriminate | discriminate | discriminate | discriminate
    | discriminate | exact ex_status_bits_apart | exact ex_slot_in_reach
    | exact ex_slot_below_reach | exact wf_ex_pgd_leaf].
Defined.

Lemma pgd_init_fills_a_directory_of_eight_slot_groups_witness :
  let n := PTRS_PER_PGD layout16k in
  let page := replicate (Z.to_nat n) 0 in
  0 < 256 /\ n = 8 * 256 /\ n <= Z.of_nat (length page)
  /\ kvm_pgd_init_words n 7 page = Some (replicate (Z.to_nat n) 7)
  /\ kvm_pgd_alloc n 7 (Some page) = Some (Some (replicate (Z.to_nat n) 7)).
Proof.
  intros n page.
  assert (Hfit : n <= Z.of_nat (length page)) by (vm_compute; discriminate).
  split; [reflexivity|]. split; [reflexivity|]. split; [exact Hfit|].
  pose proof (proj1 (pgd_init_fills_a_directory_of_eight_slot_groups n 7
                       page) 256 eq_refl eq_refl Hfit) as Hrun.
  cbv zeta in Hrun.
  replace (replicate (Z.to_nat n) 7 ++ drop (Z.to_nat n) page)
    with (replicate (Z.to_nat n) 7) in Hrun
    by (vm_compute; reflexivity).
  exact Hrun.
Defined.

(** ** Huge-page promotion, and the base page size otherwise *)

(** Where [fault_supports_huge_mapping] fails at [PMD_SIZE] and the commit
    step is not entered with the huge size, it takes the leaf branch: the
    new entry is stored in a leaf slot and no middle-level store is
    logged. *)
Lemma map_page_commit_base (L : layout) (kvm : vz_vm)
    (mc : kvm_mmu_memory_cache) (h : host_env) (memslot : kvm_memory_slot)
    (hva gpa gfn : Z) (write_fault : bool) (vps : Z) (force_pte : bool)
    (pfn : Z) (writeable out_entry out_buddy : bool) (kvm' : vz_vm)
    (mc' : kvm_mmu_memory_cache) (entry buddy : option Z)
    (evs : list event) :
  0 <= PTE_BITS L -> 0 <= PMD_BITS L -> 0 <= PGD_BITS L ->
  pmdv_huge L (invalid_pte_table L) = false ->
  _PAGE_PRESENT L <> 0 ->
  wf_pgd L (gpa_mm_pgd kvm) -> 2 <= nobjs mc ->
  (forall gi mi v,
     gpa_lookup L (gpa_mm_pgd kvm) gpa <> Some (Some (At_pmd gi mi, v))) ->
  fault_supports_huge_mapping L memslot hva (PMD_SIZE L) = false ->
  vps <> PMD_SIZE L ->
  map_page_commit L kvm mc h memslot hva gpa gfn write_fault vps force_pte
    pfn writeable out_entry out_buddy
  = Some (kvm', mc', entry, buddy, evs) ->
  exists p v,
    gpa_lookup L (gpa_mm_pgd kvm') gpa = Some (Some (p, v))
    /\ is_leaf_ptr p
    /\ pte_present L v = true
    /\ (out_entry = true -> entry = Some v)
    /\ wf_pgd L (gpa_mm_pgd kvm')
    /\ quiet evs.
Proof.
  intros Hpte Hpmd Hpgd Hinv Hpres Hwf Hn Hleaf Hsup Hvps Hrun.
  unfold map_page_commit in Hrun. rewrite Hsup, andb_false_r in Hrun.
  cbn [mbind option_bind] in Hrun.
  apply Z.eqb_neq in Hvps. rewrite Hvps in Hrun.
  destruct (new_entry_present L pfn writeable write_fault Hpres)
    as [Hpte_pres _].
  cbv zeta in Hpte_pres.
  destruct (walk_alloc_leaf L (gpa_mm_pgd kvm) mc gpa Hpte Hpmd Hpgd
              Hinv Hwf Hn Hleaf)
    as (p & pgd1 & mc1 & v0 & Hwalk & Hp & Hwf1 & Hfind1).
  unfold kvm_mips_pte_for_gpa in Hrun. rewrite Hwalk in Hrun.
  cbn [mbind option_bind] in Hrun.
  match type of Hrun with
  | context [store _ p ?v] => set (new_pte := v) in *
  end.
  destruct (store_leaf L pgd1 gpa p v0 new_pte Hfind1 Hp)
    as (pgd2 & Hstore & _ & _ & Hfind2 & Hwf2 & _).
  cbn [gpa_mm_pgd set_pgd] in Hrun. rewrite Hstore in Hrun.
  cbn [mbind option_bind] in Hrun.
  destruct out_buddy; [discriminate|]. injection Hrun as <- <- <- <- <-.
  exists p, new_pte. cbn [gpa_mm_pgd set_pgd].
  split; [exact Hfind2|]. split; [exact Hp|]. split; [exact Hpte_pres|].
  split; [now intros ->|]. split; [exact (Hwf2 Hwf1)|].
  cbn [app]. apply quiet_app.
  - destruct (writeable && write_fault); repeat constructor.
  - apply quiet_app; [|repeat constructor].
    destruct (writeable && write_fault); repeat constructor.
Qed.

(** The retry loop then ends with 0 only by storing a leaf entry. *)
Lemma map_page_retry_base (L : layout) (h : host_env)
    (memslot : kvm_memory_slot) (hva gpa gfn : Z) (write_fault : bool)
    (vps : Z) (force_pte out_entry out_buddy : bool)
    (atts : list pfn_attempt) :
  0 <= PTE_BITS L -> 0 <= PMD_BITS L -> 0 <= PGD_BITS L ->
  pmdv_huge L (invalid_pte_table L) = false ->
  _PAGE_PRESENT L <> 0 ->
  fault_supports_huge_mapping L memslot hva (PMD_SIZE L) = false ->
  vps <> PMD_SIZE L ->
  forall (vcpu : vz_vcpu) (evs : list event) (r : fault_result),
    wf_pgd L (gpa_mm_pgd (vcpu_kvm vcpu)) ->
    2 <= nobjs (mmu_page_cache vcpu) ->
    (forall gi mi v,
       gpa_lookup L (gpa_mm_pgd (vcpu_kvm vcpu)) gpa
       <> Some (Some (At_pmd gi mi, v))) ->
    quiet evs ->
    map_page_retry L atts vcpu h memslot hva gpa gfn write_fault vps
      force_pte out_entry out_buddy evs = Some r ->
    fr_err r = 0 ->
    exists p v,
      gpa_lookup L (gpa_mm_pgd (vcpu_kvm (fr_vcpu r))) gpa
      = Some (Some (p, v))
      /\ is_leaf_ptr p
      /\ pte_present L v = true
      /\ (out_entry = true -> fr_entry r = Some v)
      /\ wf_pgd L (gpa_mm_pgd (vcpu_kvm (fr_vcpu r)))
      /\ quiet (fr_events r).
Proof.
  intros Hpte Hpmd Hpgd Hinv Hpres Hsup Hvps.
  induction atts as [|a atts IH];
    intros vcpu evs r Hwf Hn Hleaf Hq Hrun Herr; [discriminate|].
  cbn [map_page_retry] in Hrun. cbv zeta in Hrun.
  destruct (gfn_to_pfn_prot a gfn write_fault) as [[pfn writeable]|].
  2: { now simplify_eq. }
  set (kvm1 := if invalidated a
               then mk_vm (gpa_mm_pgd (vcpu_kvm vcpu))
                          (memslots (vcpu_kvm vcpu))
                          (uadd (mmu_notifier_seq (vcpu_kvm vcpu)) 1)
               else vcpu_kvm vcpu) in *.
  assert (Hk_pgd : gpa_mm_pgd kvm1 = gpa_mm_pgd (vcpu_kvm vcpu))
    by (subst kvm1; destruct (invalidated a); auto).
  destruct (negb (mmu_notifier_seq kvm1 =? _)).
  - apply (IH (set_kvm vcpu kvm1) (evs ++ [kvm_release_pfn_clean pfn]) r);
      cbn [set_kvm vcpu_kvm mmu_page_cache]; rewrite ?Hk_pgd; auto.
    apply quiet_app; [exact Hq | repeat constructor].
  - destruct (map_page_commit L kvm1 (mmu_page_cache vcpu) h memslot hva gpa
                gfn write_fault vps
                force_pte pfn writeable out_entry out_buddy)
      as [[[[[kvm2 mc2] entry] buddy] evs2]|] eqn:Hcommit; [|discriminate].
    cbn [mbind option_bind] in Hrun. simplify_eq.
    cbn [fr_vcpu vcpu_kvm fr_entry fr_events].
    destruct (map_page_commit_base L kvm1 (mmu_page_cache vcpu) h memslot hva
                gpa gfn write_fault vps force_pte pfn writeable out_entry
                out_buddy kvm2 mc2 entry buddy evs2 Hpte Hpmd Hpgd Hinv Hpres)
      as (p & v & H1 & H2 & H3 & H4 & H5 & H6); rewrite ?Hk_pgd; auto.
    exists p, v. repeat (split; [assumption|]). now apply quiet_app.
Qed.

(** The slow path for a fault that resolves to a slot and host address at
    which [fault_supports_huge_mapping] fails for [PMD_SIZE], entered with
    a quiet log. It is entered with a nonzero error code, or else the fault
    is not a write to a read-only slot. Whatever the page size of the
    host's VMA, the size the commit step is entered with is not
    [PMD_SIZE]. *)
Lemma slow_path_base (L : layout) (h : host_env) (gpa : Z)
    (write_fault out_entry out_buddy : bool) (err : Z) (vcpu : vz_vcpu)
    (evs : list event) (r : fault_result) (slot : kvm_memory_slot)
    (hva' : Z) (writable : bool) :
  0 <= PAGE_SHIFT L -> 0 < PTE_BITS L -> 0 <= PMD_BITS L ->
  0 <= PGD_BITS L ->
  pmdv_huge L (invalid_pte_table L) = false ->
  _PAGE_PRESENT L <> 0 -> 2 <= KVM_NR_MEM_OBJS L ->
  quiet evs ->
  wf_pgd L (gpa_mm_pgd (vcpu_kvm vcpu)) ->
  (forall gi mi v,
     gpa_lookup L (gpa_mm_pgd (vcpu_kvm vcpu)) gpa
     <> Some (Some (At_pmd gi mi, v))) ->
  gfn_to_hva_memslot_prot L
    (gfn_to_memslot (vcpu_kvm vcpu) (ushr gpa (PAGE_SHIFT L)))
    (ushr gpa (PAGE_SHIFT L))
  = Some (slot, hva', writable) ->
  fault_supports_huge_mapping L slot hva' (PMD_SIZE L) = false ->
  err <> 0 \/ write_fault && negb writable = false ->
  match
    gfn_to_hva_memslot_prot L
      (gfn_to_memslot (vcpu_kvm vcpu) (ushr gpa (PAGE_SHIFT L)))
      (ushr gpa (PAGE_SHIFT L))
  with
  | None => Some (mk_result err vcpu None None evs)
  | Some (memslot, hva, writable) =>
      if write_fault && negb writable
      then Some (mk_result err vcpu None None evs)
      else
        match vma_kernel_pagesize h hva with
        | None =>
            Some (mk_result (- EFAULT) vcpu None None (evs ++ [dune_err hva]))
        | Some vps =>
            let '(force_pte, vma_pagesize) :=
              if negb (fault_supports_huge_mapping L memslot hva vps)
              then (true, PAGE_SIZE L) else (false, vps) in
            let gfn :=
              if vma_pagesize =? PMD_SIZE L
              then ushr (Z.land gpa (unot (usub vps 1))) (PAGE_SHIFT L)
              else ushr gpa (PAGE_SHIFT L) in
            '(err, memcache, _) ←
              mmu_topup_memory_cache (KVM_NR_MEM_OBJS L)
                (mmu_page_cache vcpu) KVM_MMU_CACHE_MIN_PAGES
                (KVM_NR_MEM_OBJS L) (free_pages h);
            let vcpu := set_cache vcpu memcache in
            if negb (err =? 0)
            then Some (mk_result err vcpu None None evs)
            else
              map_page_retry L (attempts h) vcpu h memslot hva gpa gfn
                write_fault vma_pagesize force_pte out_entry out_buddy evs
        end
  end = Some r ->
  fr_err r = 0 ->
  exists p v,
    gpa_lookup L (gpa_mm_pgd (vcpu_kvm (fr_vcpu r))) gpa = Some (Some (p, v))
    /\ is_leaf_ptr p
    /\ pte_present L v = true
    /\ (out_entry = true -> fr_entry r = Some v)
    /\ wf_pgd L (gpa_mm_pgd (vcpu_kvm (fr_vcpu r)))
    /\ quiet (fr_events r).
Proof.
  intros Hps Hpte Hpmd Hpgd Hinv Hpres Hnr Hq Hwf Hleaf Hslot Hguard Hpath
    Hrun Herr.
  rewrite Hslot in Hrun.
  destruct (write_fault && negb writable).
  { destruct Hpath as [Herr0|]; [|discriminate]. now simplify_eq. }
  destruct (vma_kernel_pagesize h hva') as [vps|]; [|now simplify_eq].
  destruct (if negb (fault_supports_huge_mapping L slot hva' vps)
            then (true, PAGE_SIZE L) else (false, vps))
    as [force_pte vma_pagesize] eqn:Hforce.
  assert (Hsize : vma_pagesize <> PMD_SIZE L).
  { destruct (fault_supports_huge_mapping L slot hva' vps) eqn:Hsup;
      cbn [negb] in Hforce; injection Hforce as <- <-.
    - intros ->. congruence.
    - pose proof (page_size_lt_pmd_size L Hps Hpte). lia. }
  cbv zeta in Hrun.
  destruct (mmu_topup_memory_cache (KVM_NR_MEM_OBJS L) (mmu_page_cache vcpu)
              KVM_MMU_CACHE_MIN_PAGES (KVM_NR_MEM_OBJS L) (free_pages h))
    as [[[e mc] host']|] eqn:Htop; [|discriminate].
  cbn [mbind option_bind] in Hrun.
  destruct (e =? 0) eqn:He; cbn [negb] in Hrun.
  2: { injection Hrun as <-. cbn [fr_err] in Herr. subst e. discriminate. }
  apply Z.eqb_eq in He. subst e.
  pose proof (reserve_two _ _ _ _ _ Hnr Htop) as Hn.
  match type of Hrun with
  | map_page_retry _ _ _ _ _ _ _ ?g _ _ _ _ _ _ = _ => set (gfn := g) in *
  end.
  apply (map_page_retry_base L h slot hva' gpa gfn write_fault
           vma_pagesize force_pte out_entry out_buddy (attempts h)
           ltac:(lia) Hpmd Hpgd Hinv Hpres Hguard Hsize
           (set_cache vcpu mc) evs r); auto.
Qed.

(** C8. For a power-of-two [map_size] and an address whose
    [map_size]-aligned window ends below the top of the address space,
    [fault_supports_huge_mapping] answers true only if the slot's
    guest-physical and host-virtual starts agree modulo [map_size] and the
    window around [hva] lies inside the slot's host range. A fault stores a
    huge middle-level entry only if that test holds at [PMD_SIZE] for the
    slot and host address it resolves to. Where the test fails there, the
    fault is forced to the base page size: when [kvm_mips_map_page] returns
    0 for an address that was not under a huge mapping, the walk finds a
    present entry for the address in a leaf slot, which is the entry handed
    back to a caller that asks for it, and no middle-level store is logged.
    The last part leaves out the write to a read-only slot that arrives
    with a read-inhibit or execute-inhibit code, which returns 0 with
    nothing mapped. *)
Theorem C8_huge_promotion_guard (L : layout) (memslot : kvm_memory_slot)
    (hva k : Z) (vcpu : vz_vcpu) (h : host_env) (gpa : Z)
    (write_fault out_entry out_buddy : bool) (r : fault_result)
    (slot : kvm_memory_slot) (hva' : Z) (writable : bool) :
  0 <= PAGE_SHIFT L -> 0 < PTE_BITS L -> 0 <= PMD_BITS L ->
  0 <= PGD_BITS L ->
  let exccode := Z.land (ushr (host_cp0_cause vcpu) (CAUSEB_EXCCODE L)) 31 in
  let gfn := ushr gpa (PAGE_SHIFT L) in
  (0 <= k -> 0 <= hva -> hva - hva mod 2 ^ k + 2 ^ k < modulus ->
   0 <= base_gfn memslot -> 0 <= npages memslot ->
   0 <= userspace_addr memslot ->
   fault_supports_huge_mapping L memslot hva (2 ^ k) = true ->
   (base_gfn memslot * PAGE_SIZE L) mod 2 ^ k
   = userspace_addr memslot mod 2 ^ k
   /\ userspace_addr memslot <= hva - hva mod 2 ^ k
   /\ hva - hva mod 2 ^ k + 2 ^ k
      <= userspace_addr memslot + npages memslot * PAGE_SIZE L)
  /\ (kvm_mips_map_page L vcpu h gpa write_fault out_entry out_buddy = Some r ->
      (exists a v, In (pmd_set_at a v) (fr_events r)) ->
      exists slot0 hva0 writable0,
        gfn_to_hva_memslot_prot L (gfn_to_memslot (vcpu_kvm vcpu) gfn) gfn
        = Some (slot0, hva0, writable0)
        /\ fault_supports_huge_mapping L slot0 hva0 (PMD_SIZE L) = true)
  /\ (pmdv_huge L (invalid_pte_table L) = false ->
      soft_bits_apart L -> _PAGE_PRESENT L <> 0 ->
      2 <= KVM_NR_MEM_OBJS L ->
      wf_pgd L (gpa_mm_pgd (vcpu_kvm vcpu)) ->
      (forall gi mi v,
         gpa_lookup L (gpa_mm_pgd (vcpu_kvm vcpu)) gpa
         <> Some (Some (At_pmd gi mi, v))) ->
      gfn_to_hva_memslot_prot L (gfn_to_memslot (vcpu_kvm vcpu) gfn) gfn
      = Some (slot, hva', writable) ->
      fault_supports_huge_mapping L slot hva' (PMD_SIZE L) = false ->
      (write_fault = true -> writable = false ->
       exccode <> EXCCODE_TLBRI L /\ exccode <> EXCCODE_TLBXI L) ->
      kvm_mips_map_page L vcpu h gpa write_fault out_entry out_buddy = Some r ->
      fr_err r = 0 ->
      exists p v,
        gpa_lookup L (gpa_mm_pgd (vcpu_kvm (fr_vcpu r))) gpa
        = Some (Some (p, v))
        /\ is_leaf_ptr p
        /\ pte_present L v = true
        /\ (out_entry = true -> fr_entry r = Some v)
        /\ wf_pgd L (gpa_mm_pgd (vcpu_kvm (fr_vcpu r)))
        /\ (forall a w, ~ In (pmd_set_at a w) (fr_events r))).
Proof.
  intros Hps Hpte Hpmd Hpgd exccode gfn. split; [|split].
  { intros Hk Hhva Htop Hb Hn Hu Hsup.
    now apply fault_supports_huge_mapping_sound. }
  { intros Hrun Hin.
    exact (map_page_huge_only L vcpu h gpa write_fault out_entry out_buddy r
             Hps Hpte Hrun Hin). }
  intros Hinv Hsoft Hpres Hnr Hwf Hleaf Hslot Hguard Hro Hrun Herr.
  assert (Hgoal : exists p v,
            gpa_lookup L (gpa_mm_pgd (vcpu_kvm (fr_vcpu r))) gpa
            = Some (Some (p, v))
            /\ is_leaf_ptr p
            /\ pte_present L v = true
            /\ (out_entry = true -> fr_entry r = Some v)
            /\ wf_pgd L (gpa_mm_pgd (vcpu_kvm (fr_vcpu r)))
            /\ quiet (fr_events r)).
  2: { destruct Hgoal as (p & v & H1 & H2 & H3 & H4 & H5 & H6).
       exists p, v. repeat (split; [assumption|]).
       intros a w. now apply quiet_not_in. }
  unfold kvm_mips_map_page in Hrun. cbv zeta in Hrun.
  fold exccode gfn in Hrun.
  destruct (negb (exccode =? EXCCODE_TLBRI L)
            && negb (exccode =? EXCCODE_TLBXI L)) eqn:Hcode.
  - (* the fast path runs first *)
    destruct (_kvm_mips_map_page_fast L vcpu gpa write_fault out_entry
                out_buddy) as [r0|] eqn:Hfast; [|discriminate].
    cbn [fmap option_fmap option_map mbind option_bind] in Hrun.
    destruct (fast_path_state L vcpu gpa write_fault out_entry out_buddy r0
                Hfast) as (pgd1 & Hvcpu & Hpgd1).
    destruct (fast_path_quiet L vcpu gpa write_fault out_entry out_buddy r0
                Hfast) as [Hq0 _].
    assert (Hkeep : wf_pgd L pgd1
                    /\ (forall gi mi v,
                          gpa_lookup L pgd1 gpa
                          <> Some (Some (At_pmd gi mi, v)))).
    { destruct Hpgd1 as [->|(p & old & new & Hfind & Hstore)]; [auto|].
      assert (Hp : is_leaf_ptr p).
      { destruct p as [gi mi ti|gi mi]; [exact I|].
        now destruct (Hleaf gi mi old). }
      destruct (store_leaf L _ gpa p old new Hfind Hp)
        as (pgd2 & Hstore' & _ & _ & Hfind2 & Hwf2 & _).
      rewrite Hstore in Hstore'. injection Hstore' as <-.
      split; [auto|]. intros gi mi v. rewrite Hfind2. intros E.
      injection E as -> _. exact Hp. }
    destruct Hkeep as [Hwf1 Hleaf1].
    destruct (fr_err r0 =? 0) eqn:He.
    + (* an entry was there: it sits in a leaf slot *)
      injection Hrun as <-.
      destruct (fast_path_success_spec L vcpu gpa write_fault out_entry
                  out_buddy r0 Hsoft Hfast Herr)
        as (p & old & new & Hfind & _ & Hstore & _ & Hnew & _ & _ & _ & _
            & Hentry & _ & _).
      assert (Hp : is_leaf_ptr p).
      { destruct p as [gi mi ti|gi mi]; [exact I|].
        now destruct (Hleaf gi mi old). }
      destruct (store_leaf L _ gpa p old new Hfind Hp)
        as (pgd2 & Hstore' & _ & _ & Hfind2 & Hwf2 & _).
      rewrite Hstore in Hstore'. injection Hstore' as <-.
      exists p, new. auto 7.
    + apply Z.eqb_neq in He.
      apply (slow_path_base L h gpa write_fault out_entry out_buddy
               (fr_err r0) (fr_vcpu r0) (fr_events r0) r slot hva' writable
               Hps Hpte Hpmd Hpgd Hinv Hpres Hnr Hq0);
        rewrite ?Hvcpu; cbn [set_kvm vcpu_kvm set_pgd gpa_mm_pgd]; auto.
      rewrite Hvcpu in Hrun. exact Hrun.
  - (* the slow path alone *)
    cbn [mbind option_bind] in Hrun.
    apply (slow_path_base L h gpa write_fault out_entry out_buddy 0 vcpu []
             r slot hva' writable Hps Hpte Hpmd Hpgd Hinv Hpres Hnr);
      auto; [constructor|].
    right. destruct write_fault; [|reflexivity].
    destruct writable; [reflexivity|].
    destruct (Hro eq_refl eq_refl) as [H1 H2].
    apply Z.eqb_neq in H1, H2. rewrite H1, H2 in Hcode. discriminate.
Qed.

(** As stated for every slot, address and size the claim fails. For a slot
    of one page at the start of the last block of the address space the
    end of the window wraps to 0, and the test passes although the window
    runs past the slot: a write fault on the slot's only frame is then
    mapped by a huge entry, which also maps guest frame 2047. For a size of
    three pages the mask [map_size - 1] computes no alignment, and the test
    passes for a slot that starts at another offset within the size than
    its guest frames, with a window that begins before the slot. *)
Lemma C8_huge_promotion_guard_counterexample :
  let top := mk_slot 0 1 (2 ^ 64 - 2 ^ 25) false false in
  let hva := 2 ^ 64 - 2 ^ 25 in
  let vcpu := mk_vcpu (mk_vm (kvm_pgd_init layout16k) [top] 0) ex_cache 8 in
  let h := mk_host (fun _ => Some (2 ^ 14)) (fun _ => true) []
             [mk_attempt (fun gfn _ => Some (4096 + gfn, true)) false] in
  let odd := mk_slot 0 4 (4 * 2 ^ 14) false false in
  let hva3 := 5 * 2 ^ 14 in
  let size3 := 3 * 2 ^ 14 in
  (fault_supports_huge_mapping layout16k top hva (PMD_SIZE layout16k) = true
   /\ userspace_addr top <= hva
      < userspace_addr top + npages top * PAGE_SIZE layout16k
   /\ userspace_addr top + npages top * PAGE_SIZE layout16k
      < hva - hva mod PMD_SIZE layout16k + PMD_SIZE layout16k
   /\ match kvm_mips_map_page layout16k vcpu h 0 true true false with
      | Some r =>
          fr_err r = 0
          /\ gpa_lookup layout16k (gpa_mm_pgd (vcpu_kvm (fr_vcpu r)))
               (2047 * 2 ^ 14)
             = Some (Some (At_pmd 0 0,
                           pmd_mkhuge layout16k
                             (pfn_pmd layout16k 4096 prot_rw_dirty)))
      | None => False
      end)
  /\ (fault_supports_huge_mapping layout16k odd hva3 size3 = true
      /\ (base_gfn odd * PAGE_SIZE layout16k) mod size3
         <> userspace_addr odd mod size3
      /\ hva3 - hva3 mod size3 < userspace_addr odd).
Proof.
  vm_compute. repeat split; discriminate.
Qed.

(** A slot whose starts are both one base page past a block boundary, on a
    host that backs every page by a transparent huge page. A write fault on
    the slot's first frame, in the partial block at the unaligned edge, is
    mapped by a leaf entry; a write fault in the next block is mapped by a
    huge entry. *)
Example faults_at_the_unaligned_edge_and_inside :
  let vcpu := mk_vcpu (mk_vm (kvm_pgd_init layout16k) [ex_slot_offset] 0)
                      ex_cache 8 in
  let h := mk_host (fun _ => Some (2 ^ 14)) (fun _ => true) []
             [mk_attempt (fun gfn _ => Some (4096 + gfn, true)) false] in
  let inside := (2048 + 5) * 2 ^ 14 in
  match kvm_mips_map_page layout16k vcpu h (2 ^ 14) true true false,
        kvm_mips_map_page layout16k vcpu h inside true true false with
  | Some r1, Some r2 =>
      fr_err r1 = 0
      /\ gpa_lookup layout16k (gpa_mm_pgd (vcpu_kvm (fr_vcpu r1))) (2 ^ 14)
         = Some (Some (At_pte 0 0 1, pfn_pte layout16k 4097 prot_rw_dirty))
      /\ fr_err r2 = 0
      /\ gpa_lookup layout16k (gpa_mm_pgd (vcpu_kvm (fr_vcpu r2))) inside
         = Some (Some (At_pmd 0 1,
                       pmd_mkhuge layout16k
                         (pfn_pmd layout16k (3 * 2048) prot_rw_dirty)))
  | _, _ => False
  end.
Proof. vm_compute. repeat split. Qed.

Lemma C8_huge_promotion_guard_witness :
  let vcpu := mk_vcpu (mk_vm (kvm_pgd_init layout16k) [ex_slot_offset] 0)
                      ex_cache 8 in
  let h := mk_host (fun _ => Some (2 ^ 14)) (fun _ => true) []
             [mk_attempt (fun gfn _ => Some (4096 + gfn, true)) false] in
  let gpa := 2 ^ 14 in
  let edge := 2 ^ 30 + 2 ^ 14 in
  let inside := (2048 + 5) * 2 ^ 14 in
  let hva := 2 ^ 30 + 2 ^ 25 + 2 ^ 14 in
  (hva - hva mod 2 ^ 25 + 2 ^ 25 < modulus
   /\ fault_supports_huge_mapping layout16k ex_slot_offset hva (2 ^ 25)
      = true
   /\ (base_gfn ex_slot_offset * PAGE_SIZE layout16k) mod 2 ^ 25
      = userspace_addr ex_slot_offset mod 2 ^ 25
   /\ userspace_addr ex_slot_offset <= hva - hva mod 2 ^ 25
   /\ hva - hva mod 2 ^ 25 + 2 ^ 25
      <= userspace_addr ex_slot_offset
         + npages ex_slot_offset * PAGE_SIZE layout16k)
  /\ (exists r,
        kvm_mips_map_page layout16k vcpu h inside true true false = Some r
        /\ (exists a v, In (pmd_set_at a v) (fr_events r))
        /\ exists slot0 hva0 writable0,
             gfn_to_hva_memslot_prot layout16k
               (gfn_to_memslot (vcpu_kvm vcpu)
                  (ushr inside (PAGE_SHIFT layout16k)))
               (ushr inside (PAGE_SHIFT layout16k))
             = Some (slot0, hva0, writable0)
             /\ fault_supports_huge_mapping layout16k slot0 hva0
                  (PMD_SIZE layout16k) = true)
  /\ gfn_to_hva_memslot_prot layout16k
       (gfn_to_memslot (vcpu_kvm vcpu) (ushr gpa (PAGE_SHIFT layout16k)))
       (ushr gpa (PAGE_SHIFT layout16k))
     = Some (ex_slot_offset, edge, true)
  /\ fault_supports_huge_mapping layout16k ex_slot_offset edge
       (PMD_SIZE layout16k) = false
  /\ exists r,
       kvm_mips_map_page layout16k vcpu h gpa true true false = Some r
       /\ fr_err r = 0
       /\ exists p v,
            gpa_lookup layout16k (gpa_mm_pgd (vcpu_kvm (fr_vcpu r))) gpa
            = Some (Some (p, v))
            /\ is_leaf_ptr p
            /\ pte_present layout16k v = true
            /\ (true = true -> fr_entry r = Some v)
            /\ wf_pgd layout16k (gpa_mm_pgd (vcpu_kvm (fr_vcpu r)))
            /\ (forall a w, ~ In (pmd_set_at a w) (fr_events r)).
Proof.
  intros vcpu h gpa edge inside hva.
  assert (Htop : hva - hva mod 2 ^ 25 + 2 ^ 25 < modulus) by reflexivity.
  assert (Hsup : fault_supports_huge_mapping layout16k ex_slot_offset hva
                   (2 ^ 25) = true) by (vm_compute; reflexivity).
  assert (Hslot : gfn_to_hva_memslot_prot layout16k
                    (gfn_to_memslot (vcpu_kvm vcpu)
                       (ushr gpa (PAGE_SHIFT layout16k)))
                    (ushr gpa (PAGE_SHIFT layout16k))
                  = Some (ex_slot_offset, edge, true))
    by (vm_compute; reflexivity).
  assert (Hguard : fault_supports_huge_mapping layout16k ex_slot_offset edge
                     (PMD_SIZE layout16k) = false)
    by (vm_compute; reflexivity).
  assert (Hwf : wf_pgd layout16k (gpa_mm_pgd (vcpu_kvm vcpu)))
    by (apply wf_pgdb_sound; vm_compute; reflexivity).
  assert (Hleaf : forall gi mi v,
            gpa_lookup layout16k (gpa_mm_pgd (vcpu_kvm vcpu)) gpa
            <> Some (Some (At_pmd gi mi, v)))
    by (intros gi mi v; vm_compute; discriminate).
  (* the fault at the edge *)
  destruct (kvm_mips_map_page layout16k vcpu h gpa true true false)
    as [r|] eqn:Hrun; [|vm_compute in Hrun; discriminate].
  assert (Herr : fr_err r = 0).
  { assert (H : fr_err <$> kvm_mips_map_page layout16k vcpu h gpa true true
                             false = Some 0)
      by (vm_compute; reflexivity).
    rewrite Hrun in H. now injection H. }
  (* the fault inside *)
  destruct (kvm_mips_map_page layout16k vcpu h inside true true false)
    as [r2|] eqn:Hrun2; [|vm_compute in Hrun2; discriminate].
  assert (Hloud : exists a v, In (pmd_set_at a v) (fr_events r2)).
  { assert (H : (fun r => existsb is_pmd_set (fr_events r))
                <$> kvm_mips_map_page layout16k vcpu h inside true true false
                = Some true)
      by (vm_compute; reflexivity).
    rewrite Hrun2 in H. injection H as H.
    apply existsb_exists in H as (e & Hin & He).
    destruct e; try discriminate He. eauto. }
  destruct (C8_huge_promotion_guard layout16k ex_slot_offset hva 25 vcpu h
              gpa true true false r ex_slot_offset edge true)
    as (Htest & _ & Hbase);
    [discriminate | reflexivity | discriminate | discriminate|].
  destruct (C8_huge_promotion_guard layout16k ex_slot_offset hva 25 vcpu h
              inside true true false r2 ex_slot_offset edge true)
    as (_ & Hhuge & _);
    [discriminate | reflexivity | discriminate | discriminate|].
  split.
  { split; [exact Htop|]. split; [exact Hsup|].
    apply Htest;
      [discriminate | discriminate | exact Htop | discriminate
      | discriminate | discriminate | exact Hsup]. }
  split.
  { exists r2. split; [reflexivity|]. split; [exact Hloud|].
    exact (Hhuge Hrun2 Hloud). }
  split; [exact Hslot|]. split; [exact Hguard|].
  exists r. split; [reflexivity|]. split; [exact Herr|].
  apply Hbase;
    [reflexivity | exact ex_soft_bits_apart | discriminate | discriminate
    | exact Hwf | exact Hleaf | exact Hslot | exact Hguard
    | discriminate | exact Hrun | exact Herr].
Defined.
